(* ===== verification/_CoqProject ===== *)
-Q . S2P
Prelude.v
Graph.v
Resolver.v
Dijkstra.v
Steps.v
Unreach.v
Config.v
Persist.v
ConfigFiles.v
Draw.v
Dot.v
Plot.v
SubDispatch.v
Cycle.v
Engine.v
Commands.v
CfgCmd.v
Report.v
Help.v
Traits.v
