(* ===== verification/Prelude.v ===== *)
(** * A verification development of CO2MPAS-TA: the dispatcher, the models
    it wires and the sampling command-line tool

    ** The program

    The repository builds vehicle simulation models by wiring functions
    into a computation graph, the dispatcher, which resolves the requested
    outputs from the given inputs by a weighted best-first search; it adds
    a configuration and reporting command-line tool ([co2dice], package
    [co2mpas.sampling]) built on [traitlets], and drawing helpers.  The
    dispatcher library is not under [src/] (it is modelled from the
    specification); the model builders, the sampling tool and the drawing
    code are.

    ** Files, in dependency order

    - [Prelude] (this file): the notation scope [dsp_scope], association
      lists, Python values ([pyval]), the generator monad [gen E Y S A]
      (yields, state, an exception or a result) with its notations
      ([x <- m ;; k], [gen_scope]), its relational reading [gen_runs] and
      the tactic [gen_inv] that takes runs apart, ordered dictionaries
      ([od_set], [od_of_list]), boltons' [iset], the hint database [dsp].
    - [Graph], [Resolver], [Dijkstra], [Steps], [Unreach], [SubDispatch]
      (spec-modelled): registration of data and function nodes with its
      errors; [dispatch] as a loop of [step]s over a run state (queue,
      settled values, pending counters, discarded functions, lazy results,
      kept-back defaults, workflow trace); the search invariant [Inv]; the
      step relation and rule induction over runs; unreachable data; the
      sub-dispatcher adapter.  Theorems: well-formed registration,
      termination and fuel independence, completeness, domain gating,
      single invocation, unreachability.
    - [Cycle] ([src/co2mpas/model/physical/cycle/__init__.py]): [is_nedc],
      [is_wltp] and [cycle()] with its two sub-dispatchers; the two
      branches are exclusive.
    - [Engine] ([src/compas/models/physical/engine/__init__.py]): every
      registration of [engine()] in source order; it registers without
      error, with duplicated registrations.
    - [Config] (spec-modelled [traitlets.config.Config]): two-level
      configurations as [gmap]s, [merge], truthiness, [collisions].
    - [Persist] ([baseapp.py] [PeristentMixin]): class attributes as
      references into a heap of configurations, attribute lookup along the
      MRO; which persistent changes [store_pconfig] writes.
    - [ConfigFiles] ([baseapp.py] [Cmd], file reading): the collection,
      reading and merging of the static and persist files and
      [Cmd.initialize], in the [gen] monad over a state holding the
      [Persist] world, [loaded_config_files], the log and the files the
      process wrote; [Config.merge] keeps the sections of the first file
      that sets them by reference, so the registry of loaded files sees
      later merges ([cfg_view]); the precedence of the merged values and
      the order of [loaded_config_files].
    - [Draw], [Dot], [Plot] ([src/dispatcher/draw.py]): node labels
      ([replace_under_score], the regex pass as a scan and its loop),
      [plot_dsp_graphviz] and [plot_dsp] over a tree of nodes with their
      types; equivalence with a one-scan reference, termination, cluster
      names, labels, when [plot_dsp] raises, [START] drawn as data.
    - [Commands] ([baseapp.py] lines 282-298, 555-855): command names,
      [Cmd.__init__]'s keywords, the command objects in a store ([gmap]
      from ids) with their [parent] and [subapp] links, [my_cmd_chain],
      [_inherit_parent_cmd], [chain_cmds] (which calls [Cmd.initialize] of
      [ConfigFiles] on each command), [SingletonConfigurable.instance],
      [run] and [start]; the links [chain_cmds] builds, that every command
      of a chain reads
      the files, that the root class's [instance()] raises, and that the
      last command inherits the classes, aliases and flags of the whole
      chain ([_inherit_parent_cmd]).
    - [CfgCmd] ([src/co2mpas/sampling/cfgcmd.py]): [InitCmd.run] over
      [write_default_config], [PathsCmd.run] over [loaded_config_files],
      [ShowCmd.initialize] and its two listings.
    - [Report] ([src/co2mpas/sampling/report.py]): the vfid-checking
      generator with its nonlocal state, [ReportCmd.run] with its cached
      [Report], and [ReportCmd.__init__]'s keywords, which [Cmd.__init__]
      of [Commands] takes; mismatches raise unless forced, [--vfids] never
      prints, and [report] under a root accepts the root's flags.
    - [Help] ([baseapp.py] lines 555-578): [Cmd.print_subcommands] with
      the text helpers as parameters; a [default_subcmd] naming no
      sub-command gets the note about [[*]] with no entry marked.
    - [Traits] ([baseapp.py] lines 182-205, 212-270): a [HasTraits]
      object with its declared traits, [Spec.__init__] (keyword values
      through [_valid_user], then [observe_ptraits] and
      [check_unconfig_ptraits]) and later trait assignments, which call
      [_ptrait_observed] of [Persist] when a persistent config trait
      changes value; how construction ends (an empty [user_name] on a class
      with no [name] attribute raises [AttributeError]).

    ** Fuel and bounds

    [dispatch] runs its loop with the fuel [measure init_state] (queue
    entries, kept-back defaults and the outputs of functions not yet ready),
    which every step decreases: [dispatch_fuel_independent] shows more fuel
    changes nothing.  [replace_under_score]'s loop gets [count_us s + 1]
    passes, enough since each pass removes an underscore or stops.
    [my_cmd_chain] walks the parents with the number of allocated command
    ids as fuel, enough in a store where every parent is an older command
    (lemma [parents_from_total]); [cmd_start] takes its fuel as an
    argument, the length of the chain being enough ([chain_root_start]).

    ** Not modelled

    The numeric physics (the functions [engine()] and [cycle()] wire are
    parameters), spreadsheet and file I/O (the operating system, [json],
    [xleash] and [yaml] are parameters), [traitlets]' argument parsing,
    help printing other than [print_subcommands], logging set-up,
    [generate_config_file]'s text and [ensure_dir_exists], the
    Graphviz and Matplotlib rendering calls, and [src/pCO2DICE/tests]
    (a test of a module outside [src/]). *)

From stdpp Require Import base list gmap strings.
From Stdlib Require Import Lia ZArith.

(** ** Notation scope of the development *)

Declare Scope dsp_scope.
Delimit Scope dsp_scope with dsp.

(** ** Generic lemmas on lists of naturals *)

(** [max_list l] is Python's [max(l, default=0)] on naturals. *)
Fixpoint max_list (l : list nat) : nat :=
  match l with
  | [] => 0
  | x :: l' => Nat.max x (max_list l')
  end.

Lemma max_list_ge (l : list nat) (x : nat) : In x l -> x <= max_list l.
Proof. induction l as [|y l IH]; simpl; [done|]. intros [->|H]; [lia|]. specialize (IH H). lia. Qed.

Lemma max_list_le (l : list nat) (b : nat) :
  (forall x, In x l -> x <= b) -> max_list l <= b.
Proof.
  induction l as [|y l IH]; simpl; intros H; [lia|].
  assert (y <= b) by auto. assert (max_list l <= b) by auto. lia.
Qed.

(** ** Association lists: Python dictionaries with their insertion order *)

Section Assoc.
  Context {K A : Type} `{EqDecision K}.

  (** [assoc k l] is [l.get(k)]; the first binding of [k] wins. *)
Fixpoint assoc (k : K) (l : list (K * A)) : option A :=
    match l with
    | [] => None
    | (k', a) :: l' => if decide (k = k') then Some a else assoc k l'
    end.

Lemma assoc_In (k : K) (a : A) (l : list (K * A)) :
    assoc k l = Some a -> In (k, a) l.
  Proof.
    induction l as [|[k' a'] l IH]; simpl; [done|].
    case_decide; [intros [=]; subst; by left|]. intros H'. right. auto.
  Qed.

Lemma assoc_NoDup_In (k : K) (a : A) (l : list (K * A)) :
    NoDup (map fst l) -> In (k, a) l -> assoc k l = Some a.
  Proof.
    induction l as [|[k' a'] l IH]; simpl; [done|].
    intros Hnd [[=]|Hin]; subst; inversion Hnd; subst.
    - by rewrite decide_True.
    - rewrite decide_False; [auto|].
      intros ->. apply H1. apply list_elem_of_In, in_map_iff. exists (k', a). auto.
  Qed.

Lemma assoc_None (k : K) (l : list (K * A)) :
    assoc k l = None <-> ~ In k (map fst l).
  Proof.
    induction l as [|[k' a'] l IH]; simpl; [tauto|].
    case_decide; subst; [split; [done|tauto]|]. rewrite IH. naive_solver.
  Qed.
End Assoc.

(** ** Substring search: Python's [needle in haystack] on strings *)

Fixpoint str_prefixb (p s : string) : bool :=
  match p, s with
  | EmptyString, _ => true
  | String c p', String d s' => bool_decide (c = d) && str_prefixb p' s'
  | String _ _, EmptyString => false
  end.

Fixpoint str_contains (needle hay : string) : bool :=
  str_prefixb needle hay ||
  match hay with
  | EmptyString => false
  | String _ hay' => str_contains needle hay'
  end.

Lemma str_prefixb_refl (s : string) : str_prefixb s s = true.
Proof. induction s; simpl; [done|]. rewrite bool_decide_true; auto. Qed.

Lemma str_contains_refl (s : string) : str_contains s s = true.
Proof. destruct s; simpl; [done|]. by rewrite bool_decide_true, str_prefixb_refl. Qed.

Lemma string_length_app (s t : string) :
  String.length (s +:+ t) = String.length s + String.length t.
Proof. induction s; simpl; auto. Qed.

(** Right cancellation of string concatenation. *)
Lemma string_app_inj_r (s1 s2 t : string) : s1 +:+ t = s2 +:+ t -> s1 = s2.
Proof.
  revert s2. induction s1 as [|c s1 IH]; intros [|d s2] H; simpl in *; auto.
  - apply (f_equal String.length) in H. simpl in H. rewrite !string_length_app in H. simpl in H. lia.
  - apply (f_equal String.length) in H. simpl in H. rewrite !string_length_app in H. simpl in H. lia.
  - injection H as -> H. f_equal. auto.
Qed.

(** ** Counting with a predicate that flips at one element *)

Lemma filter_length_flip {A} `{EqDecision A} (p p' : A -> bool) (d : A) (l : list A) :
  NoDup l -> d ∈ l -> p d = true -> p' d = false ->
  (forall x, x <> d -> p' x = p x) ->
  length (List.filter p l) = S (length (List.filter p' l)).
Proof.
  intros Hnd Hin Hp Hp' Hother. induction l as [|x l IH]; [set_solver|].
  apply NoDup_cons in Hnd as [Hx Hnd]. simpl.
  destruct (decide (x = d)) as [->|Hxd].
  - rewrite Hp, Hp'. simpl. f_equal.
    assert (Hsame : forall y, In y l -> p' y = p y).
    { intros y Hy. apply Hother. intros ->. apply Hx. by apply list_elem_of_In. }
    clear -Hsame. induction l as [|y l IH]; simpl; [done|].
    rewrite Hsame by (by left). destruct (p y); simpl; rewrite IH; auto with datatypes.
  - rewrite Hother by done. apply elem_of_cons in Hin as [->|Hin]; [done|].
    destruct (p x); simpl; rewrite IH; auto.
Qed.

Lemma filter_length_same {A} (p p' : A -> bool) (l : list A) :
  (forall x, In x l -> p' x = p x) -> length (List.filter p' l) = length (List.filter p l).
Proof.
  induction l as [|x l IH]; simpl; intros H; [done|].
  rewrite H by (by left). destruct (p x); simpl; rewrite IH; auto.
Qed.

(** ** Python values

    The values the modelled code compares and stores: [None], booleans,
    integers, a float NaN (the missing cell of a spreadsheet), strings and
    lists. *)
Inductive pyval :=
| PyNone
| PyBool (b : bool)
| PyInt (z : Z)
| PyNaN
| PyStr (s : string)
| PyList (l : list pyval).

(** [v == s] for a Python string literal [s]: false for any non-string. *)
Definition py_eq_str (v : pyval) (s : string) : bool :=
  match v with PyStr s' => bool_decide (s' = s) | _ => false end.

Definition py_is_none (v : pyval) : bool := match v with PyNone => true | _ => false end.

(** Python's [==]: [bool] is a subtype of [int] ([True == 1]), NaN equals
    nothing, lists compare element-wise. *)
Fixpoint py_eq (a b : pyval) : bool :=
  let num v := match v with PyBool x => Some (Z.b2z x) | PyInt z => Some z | _ => None end in
  match a, b with
  | PyNone, PyNone => true
  | PyStr s, PyStr t => bool_decide (s = t)
  | PyList l1, PyList l2 =>
      (fix go (l1 l2 : list pyval) : bool :=
         match l1, l2 with
         | [], [] => true
         | x :: xs, y :: ys => py_eq x y && go xs ys
         | _, _ => false
         end) l1 l2
  | _, _ => match num a, num b with Some x, Some y => bool_decide (x = y) | _, _ => false end
  end.

Lemma py_eq_str_iff (v : pyval) (s : string) : py_eq_str v s = true <-> v = PyStr s.
Proof.
  destruct v; simpl; split; try done; [by intros ->%bool_decide_eq_true|].
  intros [= ->]. by apply bool_decide_eq_true.
Qed.

Lemma py_eq_PyStr (s t : string) : py_eq (PyStr s) (PyStr t) = bool_decide (s = t).
Proof. reflexivity. Qed.

(** ** Python generators with state and exceptions

    A generator run from a state yields a list of values, each with the
    state at the moment it is yielded (what a consumer that stops there has
    seen happen), and ends in a state (the side effects it made, such as
    logged warnings, persist) with either an exception or a returned value;
    the values yielded before an exception are kept, as a Python consumer
    sees them. *)
Record gres (E Y S A : Type) := mk_gres { g_yields : list (Y * S); g_state : S; g_out : E + A }.
Arguments mk_gres {E Y S A}.
Arguments g_yields {E Y S A}.
Arguments g_state {E Y S A}.
Arguments g_out {E Y S A}.

Definition gen (E Y S A : Type) : Type := S -> gres E Y S A.

Definition gen_ret {E Y S A} (a : A) : gen E Y S A := fun s => mk_gres [] s (inr a).

Definition gen_bind {E Y S A B} (m : gen E Y S A) (k : A -> gen E Y S B) : gen E Y S B :=
  fun s => let r := m s in
           match g_out r with
           | inl e => mk_gres (g_yields r) (g_state r) (inl e)
           | inr a => let r' := k a (g_state r) in
                      mk_gres (g_yields r ++ g_yields r') (g_state r') (g_out r')
           end.

Definition gen_yield {E Y S} (y : Y) : gen E Y S unit := fun s => mk_gres [(y, s)] s (inr tt).
Definition gen_raise {E Y S A} (e : E) : gen E Y S A := fun s => mk_gres [] s (inl e).
Definition gen_get {E Y S} : gen E Y S S := fun s => mk_gres [] s (inr s).
Definition gen_put {E Y S} (s : S) : gen E Y S unit := fun _ => mk_gres [] s (inr tt).
Definition gen_lift {E Y S A} (r : E + A) : gen E Y S A :=
  match r with inl e => gen_raise e | inr a => gen_ret a end.

(** [for x in l: body(x)]. *)
Fixpoint gen_for {E Y S A} (l : list A) (body : A -> gen E Y S unit) : gen E Y S unit :=
  match l with
  | [] => gen_ret tt
  | x :: xs => gen_bind (body x) (fun _ => gen_for xs body)
  end.

(** [for y in inner: body(y)] inside a generator whose state [S] shares
    part of its state with the inner generator's [T] ([view] reads it,
    [back] writes it back): the inner generator runs only as far as the
    loop pulls it, so when [body] raises at an item, the state is the one
    the inner generator had when it yielded that item. *)
Fixpoint gen_drive {E Y Z S T} (back : S -> T -> S) (body : Y -> gen E Z S unit)
    (fin : T) (out : E + unit) (ys : list (Y * T)) (s : S) : gres E Z S unit :=
  match ys with
  | [] => mk_gres [] (back s fin) out
  | (y, t) :: ys' =>
      let r1 := body y (back s t) in
      match g_out r1 with
      | inl e => mk_gres (g_yields r1) (g_state r1) (inl e)
      | inr _ => let r2 := gen_drive back body fin out ys' (g_state r1) in
                 mk_gres (g_yields r1 ++ g_yields r2) (g_state r2) (g_out r2)
      end
  end.

Definition gen_for_gen {E Y Z S T} (view : S -> T) (back : S -> T -> S)
    (inner : gen E Y T unit) (body : Y -> gen E Z S unit) : gen E Z S unit :=
  fun s => let r := inner (view s) in gen_drive back body (g_state r) (g_out r) (g_yields r) s.

Lemma gen_bind_silent {E Y S A B} (m : gen E Y S A) (k : A -> gen E Y S B) (s : S) :
  g_yields (m s) = [] -> (forall a s', g_yields (k a s') = []) -> g_yields (gen_bind m k s) = [].
Proof.
  intros Hm Hk. unfold gen_bind. revert Hm. destruct (m s) as [ys s1 [e|a]]; simpl; intros ->; [done|].
  by rewrite Hk.
Qed.

Lemma gen_drive_silent {E Y Z S T} (back : S -> T -> S) (body : Y -> gen E Z S unit)
    (fin : T) (out : E + unit) (ys : list (Y * T)) (s : S) :
  (forall y s', g_yields (body y s') = []) -> g_yields (gen_drive back body fin out ys s) = [].
Proof.
  intros Hb. revert s. induction ys as [|[y t] ys IH]; intros s; [done|].
  simpl. destruct (g_out (body y (back s t))); simpl; rewrite Hb; [done|]. apply IH.
Qed.

Lemma gen_drive_ok {E Y Z S T} (back : S -> T -> S) (body : Y -> gen E Z S unit)
    (fin : T) (out : E + unit) (ys : list (Y * T)) (s : S) :
  (forall y s', g_out (body y s') = inr tt) -> g_out (gen_drive back body fin out ys s) = out.
Proof.
  intros Hb. revert s. induction ys as [|[y t] ys IH]; intros s; [done|].
  simpl. rewrite Hb. simpl. apply IH.
Qed.

Lemma gen_for_gen_silent {E Y Z S T} (view : S -> T) (back : S -> T -> S) (inner : gen E Y T unit)
    (body : Y -> gen E Z S unit) (s : S) :
  (forall y s', g_yields (body y s') = []) -> g_yields (gen_for_gen view back inner body s) = [].
Proof. intros Hb. apply gen_drive_silent, Hb. Qed.

(** A loop whose body raises on the first item it is given raises as soon
    as the inner generator yields. *)
Lemma gen_for_gen_first_raise {E Y Z S T} (view : S -> T) (back : S -> T -> S) (inner : gen E Y T unit)
    (body : Y -> gen E Z S unit) (s : S) (e : E) y t ys :
  g_yields (inner (view s)) = (y, t) :: ys -> g_out (body y (back s t)) = inl e ->
  g_out (gen_for_gen view back inner body s) = inl e.
Proof. intros Hy Hb. unfold gen_for_gen. simpl. rewrite Hy. simpl. by rewrite Hb. Qed.

Declare Scope gen_scope.
Delimit Scope gen_scope with gen.
Notation "x <- m ;; k" := (gen_bind m (fun x => k))
  (at level 100, m at next level, right associativity) : gen_scope.
Notation "m ;;; k" := (gen_bind m (fun _ => k))
  (at level 100, right associativity) : gen_scope.

Lemma gen_bind_ret {E Y S A B} (a : A) (k : A -> gen E Y S B) (s : S) :
  gen_bind (gen_ret a) k s = k a s.
Proof. unfold gen_bind, gen_ret. simpl. by destruct (k a s). Qed.

Lemma gen_bind_assoc {E Y S A B C} (m : gen E Y S A) (k : A -> gen E Y S B)
    (h : B -> gen E Y S C) (s : S) :
  gen_bind (gen_bind m k) h s = gen_bind m (fun a => gen_bind (k a) h) s.
Proof.
  unfold gen_bind. destruct (m s) as [ys s1 [e|a]]; simpl; [done|].
  destruct (k a s1) as [ys' s2 [e|b]]; simpl; [done|].
  destruct (h b s2) as [ys'' s3 r]; simpl. by rewrite app_assoc.
Qed.

Lemma gen_bind_ext {E Y S A B} (m : gen E Y S A) (k k' : A -> gen E Y S B) (s : S) :
  (forall a s', k a s' = k' a s') -> gen_bind m k s = gen_bind m k' s.
Proof. intros H. unfold gen_bind. destruct (m s) as [ys s1 [e|a]]; [done|]. simpl. by rewrite H. Qed.

Lemma gen_bind_inr {E Y S A B} (m : gen E Y S A) (k : A -> gen E Y S B) (s s1 : S) ys (a : A) :
  m s = mk_gres ys s1 (inr a) ->
  gen_bind m k s = mk_gres (ys ++ g_yields (k a s1)) (g_state (k a s1)) (g_out (k a s1)).
Proof. intros H. unfold gen_bind. by rewrite H. Qed.

Lemma gen_bind_inl {E Y S A B} (m : gen E Y S A) (k : A -> gen E Y S B) (s s1 : S) ys (e : E) :
  m s = mk_gres ys s1 (inl e) -> gen_bind m k s = mk_gres ys s1 (inl e).
Proof. intros H. unfold gen_bind. by rewrite H. Qed.

Lemma gen_for_app {E Y S A} (l1 l2 : list A) (body : A -> gen E Y S unit) (s : S) :
  gen_for (l1 ++ l2) body s = gen_bind (gen_for l1 body) (fun _ => gen_for l2 body) s.
Proof.
  revert s. induction l1 as [|x l1 IH]; intros s; simpl.
  - by rewrite gen_bind_ret.
  - rewrite gen_bind_assoc. apply gen_bind_ext. intros [] s'. apply IH.
Qed.

(** [gen_runs m s s' a]: run from [s], [m] returns [a] in state [s']
    (whatever it yields); the relational reading of a computation that
    the proofs of sequential code compose. *)
Definition gen_runs {E Y S A} (m : gen E Y S A) (s s' : S) (a : A) : Prop :=
  g_out (m s) = inr a /\ g_state (m s) = s'.

Lemma gen_runs_bind {E Y S A B} (m : gen E Y S A) (k : A -> gen E Y S B) s s1 s2 a b :
  gen_runs m s s1 a -> gen_runs (k a) s1 s2 b -> gen_runs (gen_bind m k) s s2 b.
Proof.
  intros [Ho Hs] [Ho' Hs']. unfold gen_runs, gen_bind. rewrite Ho. simpl. by rewrite <-Hs in Ho', Hs'.
Qed.

Lemma gen_runs_bind_iff {E Y S A B} (m : gen E Y S A) (k : A -> gen E Y S B) s s1 s2 a b :
  gen_runs m s s1 a -> gen_runs (gen_bind m k) s s2 b <-> gen_runs (k a) s1 s2 b.
Proof.
  intros [Ho Hs]. unfold gen_runs, gen_bind. rewrite Ho. simpl. rewrite Hs. done.
Qed.

Lemma gen_runs_ret {E Y S A} (a : A) (s : S) : gen_runs (E:=E) (Y:=Y) (gen_ret a) s s a.
Proof. done. Qed.

Lemma gen_runs_get {E Y S} (s : S) : gen_runs (E:=E) (Y:=Y) gen_get s s s.
Proof. done. Qed.

Lemma gen_runs_put {E Y S} (s s' : S) : gen_runs (E:=E) (Y:=Y) (gen_put s') s s' tt.
Proof. done. Qed.

Lemma gen_runs_fun {E Y S A} (m : gen E Y S A) s s1 s2 a b :
  gen_runs m s s1 a -> gen_runs m s s2 b -> s1 = s2 /\ a = b.
Proof. intros [H1 H2] [H3 H4]. split; [congruence|]. rewrite H1 in H3. congruence. Qed.

Lemma gen_runs_bind_inv {E Y S A B} (m : gen E Y S A) (k : A -> gen E Y S B) s s2 b :
  gen_runs (gen_bind m k) s s2 b -> exists s1 a, gen_runs m s s1 a /\ gen_runs (k a) s1 s2 b.
Proof.
  unfold gen_runs, gen_bind. destruct (m s) as [ys s1 [e|a]]; simpl; [by intros [? _]|].
  intros H. exists s1, a. split; [done|]. destruct (k a s1). exact H.
Qed.

Lemma gen_runs_ret_inv {E Y S A} (a b : A) (s s' : S) :
  gen_runs (E:=E) (Y:=Y) (gen_ret a) s s' b -> s' = s /\ b = a.
Proof. by intros [[= ->] <-]. Qed.

Lemma gen_runs_raise_inv {E Y S A} (e : E) (s s' : S) (b : A) :
  ~ gen_runs (Y:=Y) (gen_raise e) s s' b.
Proof. by intros [? _]. Qed.

Lemma gen_runs_get_inv {E Y S} (s s' a : S) : gen_runs (E:=E) (Y:=Y) gen_get s s' a -> s' = s /\ a = s.
Proof. by intros [[= ->] <-]. Qed.

Lemma gen_runs_put_inv {E Y S} (s s1 s' : S) u : gen_runs (E:=E) (Y:=Y) (gen_put s1) s s' u -> s' = s1.
Proof. by intros [_ <-]. Qed.

Lemma gen_bind_out_inl {E Y S A B} (m : gen E Y S A) (k : A -> gen E Y S B) s e :
  g_out (m s) = inl e -> g_out (gen_bind m k s) = inl e /\ g_state (gen_bind m k s) = g_state (m s).
Proof. unfold gen_bind. by destruct (m s) as [? ? [|]]; simpl; intros [= ->]. Qed.

Lemma gen_bind_out_inr {E Y S A B} (m : gen E Y S A) (k : A -> gen E Y S B) s a :
  g_out (m s) = inr a ->
  g_out (gen_bind m k s) = g_out (k a (g_state (m s))) /\ g_state (gen_bind m k s) = g_state (k a (g_state (m s))).
Proof. unfold gen_bind. by destruct (m s) as [? ? [|]]; simpl; intros [= ->]. Qed.

(** [gen_inv H] takes apart a run [H] of a sequence of binds, returns,
    raises, gets and puts into the runs of its steps. *)
Ltac gen_inv H :=
  repeat match type of H with
  | gen_runs (gen_bind _ _) _ _ _ =>
      let s := fresh "s" in let a := fresh "a" in let H1 := fresh "Hrun" in
      apply gen_runs_bind_inv in H as (s & a & H1 & H); gen_inv H1
  | gen_runs (gen_ret _) _ _ _ => apply gen_runs_ret_inv in H as [? ?]; subst
  | gen_runs (gen_raise _) _ _ _ => by apply gen_runs_raise_inv in H
  | gen_runs gen_get _ _ _ => apply gen_runs_get_inv in H as [? ?]; subst
  | gen_runs (gen_put _) _ _ _ => apply gen_runs_put_inv in H; subst
  end.

(** ** Ordered dictionaries

    A Python [dict] (insertion ordered) or [OrderedDict] as an association
    list: setting a present key replaces its value in place, a new key is
    appended. *)
Fixpoint od_set {K V} `{EqDecision K} (k : K) (v : V) (d : list (K * V)) : list (K * V) :=
  match d with
  | [] => [(k, v)]
  | (k', v') :: d' => if decide (k = k') then (k, v) :: d' else (k', v') :: od_set k v d'
  end.

(** [OrderedDict(pairs)]. *)
Definition od_of_list {K V} `{EqDecision K} (l : list (K * V)) : list (K * V) :=
  fold_left (fun d kv => od_set kv.1 kv.2 d) l [].

(** [boltons.setutils.IndexedSet(l)]: the first occurrences, in order. *)
Definition iset {A} `{EqDecision A} (l : list A) : list A :=
  reverse (fold_left (fun acc x => if bool_decide (x ∈ acc) then acc else x :: acc) l []).

Section Iset.
Context {A} `{EqDecision A}.

Lemma iset_loop_spec (l acc : list A) :
  NoDup acc ->
  NoDup (fold_left (fun acc x => if bool_decide (x ∈ acc) then acc else x :: acc) l acc) /\
  forall y, y ∈ fold_left (fun acc x => if bool_decide (x ∈ acc) then acc else x :: acc) l acc <->
            y ∈ acc \/ y ∈ l.
Proof.
  revert acc. induction l as [|x l IH]; intros acc Hnd; simpl.
  - split; [done|]. intros y. set_solver.
  - case_bool_decide as Hx.
    + destruct (IH acc Hnd) as [H1 H2]. split; [done|]. intros y. rewrite H2. set_solver.
    + destruct (IH (x :: acc)) as [H1 H2]; [by constructor|]. split; [done|].
      intros y. rewrite H2. set_solver.
Qed.

(** [iset l] holds each element of [l] once. *)
Lemma iset_spec (l : list A) : NoDup (iset l) /\ forall y, y ∈ iset l <-> y ∈ l.
Proof.
  unfold iset. destruct (iset_loop_spec l [] (NoDup_nil_2)) as [H1 H2].
  split; [unfold reverse; rewrite <-rev_alt; by apply NoDup_ListNoDup, NoDup_rev, NoDup_ListNoDup|]. intros y. rewrite elem_of_reverse, H2. set_solver.
Qed.

(** A duplicate-free list is its own [iset]. *)
Lemma iset_NoDup (l : list A) : NoDup l -> iset l = l.
Proof.
  intros Hnd. unfold iset.
  enough (forall acc, NoDup (reverse acc ++ l) ->
    fold_left (fun acc x => if bool_decide (x ∈ acc) then acc else x :: acc) l acc = reverse l ++ acc)
    as H.
  { rewrite H; [by rewrite List.app_nil_r, reverse_involutive|by rewrite reverse_nil]. }
  clear Hnd. induction l as [|x l IH]; intros acc Hn; simpl; [done|].
  assert (Hx : x ∉ acc).
  { intros Hx. apply NoDup_app in Hn as (_ & Hd & _). apply (Hd x); [by rewrite elem_of_reverse|set_solver]. }
  rewrite bool_decide_false by done. rewrite IH, reverse_cons, <-app_assoc; [done|].
  by rewrite reverse_cons, <-app_assoc.
Qed.
End Iset.

Lemma map_reverse {A B} (f : A -> B) (l : list A) : map f (reverse l) = reverse (map f l).
Proof. induction l as [|x l IH]; [done|]. rewrite reverse_cons, map_app, IH. simpl. by rewrite reverse_cons. Qed.

Section OdFacts.
Context {K A : Type} `{EqDecision K}.

Lemma assoc_od_set (k k' : K) (v : A) (d : list (K * A)) :
  assoc k (od_set k' v d) = if decide (k = k') then Some v else assoc k d.
Proof.
  induction d as [|[k'' v''] d IH]; simpl; [done|].
  destruct (decide (k' = k'')) as [->|Hne]; simpl.
  - by destruct (decide (k = k'')).
  - rewrite IH. destruct (decide (k = k'')), (decide (k = k')); subst; done.
Qed.

Lemma assoc_app {C} (k : K) (l1 l2 : list (K * C)) :
  assoc k (l1 ++ l2) = match assoc k l1 with Some v => Some v | None => assoc k l2 end.
Proof. induction l1 as [|[k' v'] l1 IH]; simpl; [done|]. by case_decide. Qed.

(** A dictionary filled from pairs keeps the last value of each key. *)
Lemma assoc_fold_od_set {B} (f : K -> B -> A) (k : K) (l : list (K * B)) (d : list (K * A)) :
  assoc k (fold_left (fun acc '(k', v) => od_set k' (f k' v) acc) l d) =
    match assoc k (reverse l) with Some v => Some (f k v) | None => assoc k d end.
Proof.
  revert d. induction l as [|[k' v] l IH]; intros d; [done|]. cbn [fold_left]. rewrite IH, reverse_cons, assoc_app.
  destruct (assoc k (reverse l)); [done|]. simpl. rewrite assoc_od_set.
  by destruct (decide (k = k')); subst.
Qed.

Lemma assoc_od_of_list_from (k : K) (l : list (K * A)) (d : list (K * A)) :
  assoc k (fold_left (fun d kv => od_set kv.1 kv.2 d) l d) =
    match assoc k (reverse l) with Some v => Some v | None => assoc k d end.
Proof.
  revert d. induction l as [|[k' v] l IH]; intros d; [done|]. cbn [fold_left]. rewrite IH, reverse_cons, assoc_app.
  destruct (assoc k (reverse l)); [done|]. simpl. rewrite assoc_od_set.
  by destruct (decide (k = k')); subst.
Qed.

Lemma assoc_od_of_list (k : K) (l : list (K * A)) : assoc k (od_of_list l) = assoc k (reverse l).
Proof. unfold od_of_list. rewrite assoc_od_of_list_from. by destruct (assoc k (reverse l)). Qed.

(** Without duplicate keys, the last binding is the only one. *)
Lemma assoc_reverse_NoDup (k : K) (l : list (K * A)) :
  NoDup (map fst l) -> assoc k (reverse l) = assoc k l.
Proof.
  intros Hnd. destruct (assoc k l) as [v|] eqn:Hl.
  - apply assoc_NoDup_In.
    + rewrite map_reverse. unfold reverse. rewrite <-rev_alt. by apply NoDup_ListNoDup, NoDup_rev, NoDup_ListNoDup.
    + apply list_elem_of_In, elem_of_reverse, list_elem_of_In. by apply assoc_In.
  - apply assoc_None. apply assoc_None in Hl. rewrite map_reverse.
    intros Hin. apply Hl, list_elem_of_In, (proj1 (elem_of_reverse _ _)), list_elem_of_In, Hin.
Qed.
End OdFacts.

(** ** Automation *)

Create HintDb dsp discriminated.
#[export] Hint Resolve max_list_ge max_list_le assoc_In : dsp.
#[export] Hint Resolve gen_runs_ret gen_runs_get gen_runs_put : dsp.

(** [inv H] inverts [H] and cleans up the equations it produced. *)
Ltac inv_clear H := inversion H; clear H; subst.
