(* ===== verification/Graph.v ===== *)
(** * The capability graph of the dispatcher (spec, section 4.1)

    The dispatcher package ([compas.dispatcher], [co2mpas.dispatcher]) is
    not under [src/]: this file models it from the specification.  A graph
    is the list of its data nodes and the list of its function nodes, both
    in registration order (the order is the resolver's final tie-break).
    Registration returns the node id or one of the two construction errors
    [DuplicateNodeId] and [UnknownNode]. *)

From stdpp Require Import base list gmap strings pretty.
From Stdlib Require Import Lia.
From S2P Require Import Prelude.

(** The two sentinel data nodes of [dispatcher.constants]. *)
Definition START : string := "start".
Definition SINK : string := "sink".

Section Graph.
  Context {V : Type}.

  (** A data node: its optional default value and its wait-for-input flag. *)
Record data_node := mk_data_node {
    dn_default : option V;
    dn_wait_inputs : bool
  }.

  (** A function node.  [fn_call] is the callable: it receives the values of
      [fn_inputs] in order and either raises ([None]) or returns one value
      per output, positionally; a sub-dispatcher may leave an output
      unproduced ([None] at its position).  [fn_domain] is the optional
      [input_domain] predicate, evaluated on the raw inputs of the run. *)
Record func_node := mk_func_node {
    fn_id : string;
    fn_inputs : list string;
    fn_outputs : list string;
    fn_weight : nat;
    fn_domain : option (list (string * V) -> bool);
    fn_call : list V -> option (list (option V))
  }.

Record dsp := mk_dsp {
    dsp_name : string;
    dsp_data : list (string * data_node);
    dsp_funcs : list func_node
  }.

(** [Dispatcher(name=...)]: a graph with no node. *)
Definition empty_dsp (name : string) : dsp := mk_dsp name [] [].

  (** A function with no inputs is implicitly reachable from [START]: its
      trigger list is [[START]], otherwise its inputs. *)
Definition fn_trig (f : func_node) : list string :=
    match fn_inputs f with [] => [START] | l => l end.

  (** Ids of every node: data and function nodes share one namespace. *)
Definition node_ids (g : dsp) : list string :=
    map fst (dsp_data g) ++ map fn_id (dsp_funcs g).

Definition is_data (g : dsp) (d : string) : bool :=
    bool_decide (d ∈ map fst (dsp_data g)).

  (** Data ids that may be wired: registered data nodes and the sentinels. *)
Definition wireable (g : dsp) (d : string) : bool :=
    bool_decide (d = START) || bool_decide (d = SINK) || is_data g d.

  (** Structural queries: the functions consuming and producing a data id. *)
Definition consumers (g : dsp) (d : string) : list func_node :=
    filter (fun f => d ∈ fn_trig f) (dsp_funcs g).
Definition producers (g : dsp) (d : string) : list func_node :=
    filter (fun f => d ∈ fn_outputs f) (dsp_funcs g).

  (** ** Registration *)

Inductive dsp_error :=
  | DuplicateNodeId (id : string)
  | UnknownNode (id : string).

Definition result (A : Type) := (dsp_error + A)%type.

  (** [add_data(id, default?, wait_input?) -> id]. *)
Definition add_data (g : dsp) (id : string) (default : option V) (wait : bool)
      : result (string * dsp) :=
    if bool_decide (id ∈ node_ids g) then inl (DuplicateNodeId id)
    else inr (id, mk_dsp (dsp_name g) (dsp_data g ++ [(id, mk_data_node default wait)]) (dsp_funcs g)).

  (** The id derived from a reused callable name: [name<n>]. *)
Definition indexed_id (name : string) (n : nat) : string :=
    name +:+ "<" +:+ pretty n +:+ ">".

Fixpoint find_free (used : list string) (name : string) (n fuel : nat) : string :=
    match fuel with
    | 0 => indexed_id name n
    | S fuel' =>
        if bool_decide (indexed_id name n ∈ used)
        then find_free used name (S n) fuel' else indexed_id name n
    end.

  (** An id derived from the callable's name, disambiguated if reused. *)
Definition derive_id (used : list string) (name : string) : string :=
    if bool_decide (name ∈ used) then find_free used name 0 (length used) else name.

Definition first_unknown (g : dsp) (ids : list string) : option string :=
    List.find (fun d => negb (wireable g d)) ids.

  (** [add_function(id?, inputs, outputs, weight, input_domain?, callable) -> id].
      [name] is the callable's [__name__]. *)
Definition add_function (g : dsp) (id : option string) (name : string)
      (inputs outputs : list string) (weight : nat)
      (domain : option (list (string * V) -> bool))
      (call : list V -> option (list (option V))) : result (string * dsp) :=
    let fid := match id with Some i => i | None => derive_id (node_ids g) name end in
    if bool_decide (fid ∈ node_ids g) then inl (DuplicateNodeId fid)
    else match first_unknown g (inputs ++ outputs) with
         | Some d => inl (UnknownNode d)
         | None => inr (fid, mk_dsp (dsp_name g) (dsp_data g)
                  (dsp_funcs g ++ [mk_func_node fid inputs outputs weight domain call]))
         end.

  (** [set_default_value(id, value)]: the default of a registered data node is
    replaced; an unknown id is registered as a data node with that default. *)
Definition set_default (g : dsp) (id : string) (v : V) : result (string * dsp) :=
  if is_data g id then
    inr (id, mk_dsp (dsp_name g)
           (map (fun '(d, dn) => if bool_decide (d = id)
                                 then (d, mk_data_node (Some v) (dn_wait_inputs dn))
                                 else (d, dn)) (dsp_data g))
           (dsp_funcs g))
  else add_data g id (Some v) false.

(** Data ids referenced by a function but not yet registered become plain
    data nodes before the function is added: the behaviour that the model
    wiring under [src/] ([engine()], [cycle()]) relies on. *)
Fixpoint declare_all (g : dsp) (ids : list string) : result dsp :=
  match ids with
  | [] => inr g
  | d :: ids' =>
      if wireable g d then declare_all g ids'
      else match add_data g d None false with
           | inl e => inl e
           | inr (_, g') => declare_all g' ids'
           end
  end.

Definition add_function_decl (g : dsp) (id : option string) (name : string)
    (inputs outputs : list string) (weight : nat)
    (domain : option (list (string * V) -> bool))
    (call : list V -> option (list (option V))) : result (string * dsp) :=
  match declare_all g (inputs ++ outputs) with
  | inl e => inl e
  | inr g' => add_function g' id name inputs outputs weight domain call
  end.

(** ** Well-formedness: unique ids, every edge wired to a known data node *)

Definition wf_dsp (g : dsp) : Prop :=
    NoDup (node_ids g) /\
    Forall (fun f => Forall (fun d => wireable g d = true) (fn_inputs f ++ fn_outputs f))
      (dsp_funcs g).
End Graph.

Arguments data_node : clear implicits.
Arguments func_node : clear implicits.
Arguments dsp : clear implicits.

Section GraphFacts.
  Context {V : Type}.
  Implicit Types (g : dsp V).

Lemma indexed_id_inj (name : string) (n m : nat) :
    indexed_id name n = indexed_id name m -> n = m.
  Proof.
    unfold indexed_id. intros H.
    apply (String.app_inj name), (String.app_inj "<") in H.
    apply string_app_inj_r in H. by apply (inj pretty).
  Qed.

Lemma find_free_used (used : list string) (name : string) (fuel : nat) :
    forall n, find_free used name n fuel ∈ used ->
    forall k, k <= fuel -> indexed_id name (n + k) ∈ used.
  Proof.
    induction fuel as [|fuel IH]; simpl; intros n Hin k Hk.
    - by replace (n + k) with n by lia.
    - case_bool_decide; [|done].
      destruct k as [|k]; [by rewrite Nat.add_0_r|].
      replace (n + S k) with (S n + k) by lia. apply IH; [done|lia].
  Qed.

  (** A derived function id never collides with a registered node id. *)
Lemma derive_id_fresh (used : list string) (name : string) :
    derive_id used name ∉ used.
  Proof.
    unfold derive_id. case_bool_decide as Hname; [|done]. intros Hin.
    pose proof (find_free_used used name (length used) 0 Hin) as Hall.
    assert (Hnd : List.NoDup (map (indexed_id name) (seq 0 (S (length used))))).
    { apply NoDup_ListNoDup, NoDup_fmap_2; [intros ??; apply indexed_id_inj|].
      apply NoDup_seq. }
    apply NoDup_incl_length with (l' := used) in Hnd.
    - rewrite length_map, length_seq in Hnd. lia.
    - intros x Hx. apply in_map_iff in Hx as (k & <- & Hk). apply in_seq in Hk.
      apply list_elem_of_In. apply (Hall k). lia.
  Qed.
End GraphFacts.

(** ** Registration sequences

    A model-definition function such as [engine()] or [cycle()] is a
    sequence of registration calls; the first error aborts it (Python
    raises out of the function). *)

Inductive reg_cmd (V : Type) :=
| RegData (id : string) (default : option V) (wait : bool)
| RegDefault (id : string) (v : V)
| RegFunc (id : option string) (name : string) (inputs outputs : list string)
    (weight : nat) (domain : option (list (string * V) -> bool))
    (call : list V -> option (list (option V)))
| RegFuncDecl (id : option string) (name : string) (inputs outputs : list string)
    (weight : nat) (domain : option (list (string * V) -> bool))
    (call : list V -> option (list (option V))).
Arguments RegData {V}.
Arguments RegDefault {V}.
Arguments RegFunc {V}.
Arguments RegFuncDecl {V}.

Definition run_cmd {V} (g : dsp V) (c : reg_cmd V) : result (string * dsp V) :=
  match c with
  | RegData id d w => add_data g id d w
  | RegDefault id v => set_default g id v
  | RegFunc id n i o w dom call => add_function g id n i o w dom call
  | RegFuncDecl id n i o w dom call => add_function_decl g id n i o w dom call
  end.

Fixpoint register_all {V} (g : dsp V) (cs : list (reg_cmd V)) : result (dsp V) :=
  match cs with
  | [] => inr g
  | c :: cs' => match run_cmd g c with
                | inl e => inl e
                | inr (_, g') => register_all g' cs'
                end
  end.

Section WfFacts.
  Context {V : Type}.
  Implicit Types (g : dsp V).

Lemma wireable_add_data g id d w (x : string) :
    wireable g x = true ->
    wireable (mk_dsp (dsp_name g) (dsp_data g ++ [(id, mk_data_node d w)]) (dsp_funcs g)) x = true.
  Proof.
    unfold wireable, is_data. simpl. rewrite map_app.
    intros H. repeat (apply orb_true_iff in H as [H|H]); rewrite ?H, ?orb_true_r; [done|done|].
    apply orb_true_iff. right. apply bool_decide_eq_true in H. apply bool_decide_eq_true.
    set_solver.
  Qed.

Lemma first_unknown_None g (ids : list string) :
    first_unknown g ids = None -> Forall (fun d => wireable g d = true) ids.
  Proof.
    unfold first_unknown. intros H. apply Forall_forall. intros x Hx.
    apply list_elem_of_In in Hx.
    pose proof (List.find_none _ _ H x Hx) as Hn. cbn beta in Hn. by apply negb_false_iff.
  Qed.

Lemma add_data_wf g id d w (id' : string) (g' : dsp V) :
    wf_dsp g -> add_data g id d w = inr (id', g') -> wf_dsp g'.
  Proof.
    unfold add_data. case_bool_decide as Hfresh; [done|]. intros [Hnd Hwire] [= <- <-].
    split.
    - unfold node_ids in *. simpl. rewrite map_app.
      apply NoDup_app in Hnd as (Hd & Hdis & Hf). apply NoDup_app. split; [|split; [|done]].
      + apply NoDup_app. split; [done|]. split; [|apply NoDup_singleton].
        intros x Hx ->%list_elem_of_singleton. set_solver.
      + intros x [Hx | ->%list_elem_of_singleton]%elem_of_app; set_solver.
    - simpl. eapply Forall_impl; [exact Hwire|]. intros f Hf.
      eapply Forall_impl; [exact Hf|]. intros x. apply wireable_add_data.
  Qed.

Lemma add_function_wf g id n i o w dom call (id' : string) (g' : dsp V) :
    wf_dsp g -> add_function g id n i o w dom call = inr (id', g') -> wf_dsp g'.
  Proof.
    unfold add_function. case_bool_decide as Hfresh; [done|].
    destruct (first_unknown g (i ++ o)) eqn:Hu; [done|]. intros [Hnd Hwire] [= _ <-].
    split.
    - unfold node_ids in *. simpl. rewrite map_app, app_assoc. simpl.
      apply NoDup_app. split; [done|]. split; [|apply NoDup_singleton].
      intros x Hx ->%list_elem_of_singleton. done.
    - simpl. apply Forall_app. split; [done|]. constructor; [|done].
      by apply first_unknown_None.
  Qed.

  (** The empty dispatcher is well formed. *)
Lemma empty_dsp_wf (name : string) : wf_dsp (@empty_dsp V name).
  Proof. split; [constructor | constructor]. Qed.
End WfFacts.

Section RegisterFacts.
  Context {V : Type}.
  Implicit Types (g : dsp V).

Lemma set_default_wf g id v (id' : string) (g' : dsp V) :
  wf_dsp g -> set_default g id v = inr (id', g') -> wf_dsp g'.
Proof.
  unfold set_default. destruct (is_data g id) eqn:Hd; [|apply add_data_wf].
  intros [Hnd Hwire] [= _ <-].
  assert (Hfst : map fst (map (fun '(d, dn) => if bool_decide (d = id)
              then (d, mk_data_node (Some v) (dn_wait_inputs dn)) else (d, dn)) (dsp_data g))
            = map fst (dsp_data g)).
  { rewrite map_map. apply map_ext. intros [d dn]. by case_bool_decide. }
  split.
  - unfold node_ids in *. simpl. by rewrite Hfst.
  - simpl. eapply Forall_impl; [exact Hwire|]. intros f Hf. eapply Forall_impl; [exact Hf|].
    intros x. unfold wireable, is_data. simpl. by rewrite Hfst.
Qed.

Lemma declare_all_wf (ids : list string) : forall g (g' : dsp V),
  wf_dsp g -> declare_all g ids = inr g' -> wf_dsp g'.
Proof.
  induction ids as [|d ids IH]; simpl; intros g g' Hwf H; [congruence|].
  destruct (wireable g d); [eauto|].
  destruct (add_data g d None false) as [|[x g1]] eqn:Ha; [done|].
  eapply IH; [|exact H]. eauto using add_data_wf.
Qed.

Lemma add_function_decl_wf g id n i o w dom call (id' : string) (g' : dsp V) :
  wf_dsp g -> add_function_decl g id n i o w dom call = inr (id', g') -> wf_dsp g'.
Proof.
  unfold add_function_decl. destruct (declare_all g (i ++ o)) as [|g1] eqn:Hd; [done|].
  intros Hwf. apply add_function_wf. eauto using declare_all_wf.
Qed.

Lemma run_cmd_wf g c (id : string) (g' : dsp V) :
  wf_dsp g -> run_cmd g c = inr (id, g') -> wf_dsp g'.
Proof.
  destruct c; simpl; eauto using add_data_wf, set_default_wf, add_function_wf, add_function_decl_wf.
Qed.
End RegisterFacts.

#[export] Hint Resolve empty_dsp_wf run_cmd_wf : dsp.

(** ** The shape of a successful registration *)

Section RegisterShape.
Context {V : Type}.
Implicit Types (g : dsp V).

(** The function node a command appends under the id it returned. *)
Definition cmd_funcs (c : reg_cmd V) (id : string) : list (func_node V) :=
  match c with
  | RegFunc _ _ i o w dom call | RegFuncDecl _ _ i o w dom call => [mk_func_node id i o w dom call]
  | _ => []
  end.

Lemma declare_all_funcs (ids : list string) : forall g (g' : dsp V),
  declare_all g ids = inr g' -> dsp_funcs g' = dsp_funcs g /\ dsp_name g' = dsp_name g.
Proof.
  induction ids as [|d ids IH]; simpl; intros g g' H; [by injection H as <-|].
  destruct (wireable g d); [eauto|]. unfold add_data in H.
  case_bool_decide; [done|]. apply IH in H as [-> ->]. done.
Qed.

Lemma run_cmd_funcs g c (id : string) (g' : dsp V) :
  run_cmd g c = inr (id, g') ->
  dsp_funcs g' = dsp_funcs g ++ cmd_funcs c id /\ dsp_name g' = dsp_name g.
Proof.
  destruct c as [x d w|x v|x n i o w dom call|x n i o w dom call]; simpl.
  - unfold add_data. case_bool_decide; [done|]. intros [= <- <-]. by rewrite app_nil_r.
  - unfold set_default, add_data. destruct (is_data g x); [intros [= <- <-]; by rewrite app_nil_r|].
    case_bool_decide; [done|]. intros [= <- <-]. by rewrite app_nil_r.
  - unfold add_function. intros H. by repeat case_match; simplify_eq/=.
  - unfold add_function_decl, add_function.
    destruct (declare_all g (i ++ o)) as [|g1] eqn:Hd; [done|].
    apply declare_all_funcs in Hd as [Hf Hn]. intros H.
    repeat case_match; simplify_eq/=; rewrite ?Hf, ?Hn; auto.
Qed.

Lemma register_all_app g (cs1 cs2 : list (reg_cmd V)) :
  register_all g (cs1 ++ cs2) =
  match register_all g cs1 with inl e => inl e | inr g1 => register_all g1 cs2 end.
Proof.
  revert g. induction cs1 as [|c cs1 IH]; intros g; simpl; [done|].
  destruct (run_cmd g c) as [e|[id g1]]; [done|]. apply IH.
Qed.

(** Commands that register no function leave the function list alone. *)
Lemma register_all_no_funcs g (cs : list (reg_cmd V)) (g' : dsp V) :
  Forall (fun c => forall id, cmd_funcs c id = []) cs ->
  register_all g cs = inr g' -> dsp_funcs g' = dsp_funcs g /\ dsp_name g' = dsp_name g.
Proof.
  revert g. induction cs as [|c cs IH]; intros g Hc; simpl; [by intros [= <-]|].
  apply Forall_cons in Hc as [Hc Hcs].
  destruct (run_cmd g c) as [e|[id g1]] eqn:Hr; [done|]. intros H.
  apply run_cmd_funcs in Hr as [Hf Hn]. rewrite Hc, app_nil_r in Hf.
  destruct (IH g1 Hcs H) as [-> ->]. done.
Qed.
End RegisterShape.

(** ** When registration succeeds *)

Section RegisterOk.
Context {V : Type}.
Implicit Types (g : dsp V).

Definition fn_ids g : list string := map fn_id (dsp_funcs g).
Definition data_ids g : list string := map fst (dsp_data g).

Lemma node_ids_split g : node_ids g = data_ids g ++ fn_ids g.
Proof. reflexivity. Qed.

(** [add_data] on a fresh id appends the data node. *)
Lemma add_data_ok g (id : string) (d : option V) (w : bool) :
  id ∉ node_ids g ->
  add_data g id d w = inr (id, mk_dsp (dsp_name g) (dsp_data g ++ [(id, mk_data_node d w)]) (dsp_funcs g)).
Proof. intros H. unfold add_data. by rewrite bool_decide_false. Qed.

(** Plain data registrations of fresh, distinct ids all succeed. *)
Lemma register_data_ok g (kvs : list (string * V)) :
  NoDup (map fst kvs) -> Forall (fun k => k ∉ node_ids g) (map fst kvs) ->
  exists g', register_all g (map (fun '(k, v) => RegData k (Some v) false) kvs) = inr g' /\
    dsp_funcs g' = dsp_funcs g /\ data_ids g' = data_ids g ++ map fst kvs /\ dsp_name g' = dsp_name g.
Proof.
  revert g. induction kvs as [|[k v] kvs IH]; intros g Hnd Hfr.
  { exists g. by rewrite app_nil_r. }
  simpl in Hnd, Hfr. apply NoDup_cons in Hnd as [Hk Hnd]. apply Forall_cons in Hfr as [Hk' Hfr].
  simpl. rewrite add_data_ok by done.
  set (g1 := mk_dsp (dsp_name g) (dsp_data g ++ [(k, mk_data_node (Some v) false)]) (dsp_funcs g)).
  destruct (IH g1) as (g' & Hr & Hf & Hd & Hn); [done| |].
  - apply Forall_forall. intros x Hx. rewrite node_ids_split. unfold data_ids, fn_ids. simpl.
    rewrite map_app. simpl. apply Forall_forall with (x := x) in Hfr; [|done].
    rewrite node_ids_split in Hfr. set_solver.
  - exists g'. split; [done|]. rewrite Hf, Hd, Hn. unfold data_ids. simpl. rewrite map_app, <-app_assoc. done.
Qed.

(** Auto-declaration succeeds unless an id is a function's; afterwards
    every id is wireable and only the undeclared ones were added. *)
Lemma declare_all_ok (ids : list string) : forall g,
  Forall (fun d => d ∉ fn_ids g) ids ->
  exists g', declare_all g ids = inr g' /\ dsp_funcs g' = dsp_funcs g /\ dsp_name g' = dsp_name g /\
    Forall (fun d => wireable g' d = true) ids /\
    (forall x, x ∈ data_ids g' -> x ∈ data_ids g \/ x ∈ ids) /\ data_ids g ⊆ data_ids g'.
Proof.
  induction ids as [|d ids IH]; intros g Hf.
  { exists g. repeat split; auto. }
  apply Forall_cons in Hf as [Hd Hf]. simpl. destruct (wireable g d) eqn:Hw.
  - destruct (IH g Hf) as (g' & Hr & Hfs & Hn & Hwi & Hsub & Hsup). exists g'.
    repeat split; auto; [|set_solver].
    constructor; [|done]. revert Hw. unfold wireable, is_data. rewrite !orb_true_iff, !bool_decide_eq_true.
    unfold data_ids in Hsup. set_solver.
  - rewrite add_data_ok.
    2: { rewrite node_ids_split. intros [Hx|Hx]%elem_of_app; [|done].
         unfold wireable, is_data in Hw. rewrite (bool_decide_true (d ∈ map fst (dsp_data g))) in Hw by done.
         by rewrite orb_true_r in Hw. }
    set (g1 := mk_dsp (dsp_name g) (dsp_data g ++ [(d, mk_data_node None false)]) (dsp_funcs g)).
    destruct (IH g1 Hf) as (g' & Hr & Hfs & Hn & Hwi & Hsub & Hsup). exists g'.
    assert (Hd1 : data_ids g1 = data_ids g ++ [d]) by (unfold data_ids; simpl; by rewrite map_app).
    repeat split; auto.
    + constructor; [|done]. unfold wireable, is_data. rewrite !orb_true_iff, !bool_decide_eq_true.
      right. unfold data_ids in Hsup, Hd1. rewrite Hd1 in Hsup. set_solver.
    + intros x Hx. destruct (Hsub x Hx) as [Hx'|Hx']; [|set_solver]. rewrite Hd1 in Hx'. set_solver.
    + rewrite Hd1 in Hsup. set_solver.
Qed.

(** [add_function] with an explicit fresh id over wired edges. *)
Lemma add_function_explicit_ok g (i : string) name ins outs w dom call :
  i ∉ node_ids g -> Forall (fun d => wireable g d = true) (ins ++ outs) ->
  add_function g (Some i) name ins outs w dom call =
  inr (i, mk_dsp (dsp_name g) (dsp_data g) (dsp_funcs g ++ [mk_func_node i ins outs w dom call])).
Proof.
  intros Hi Hw. unfold add_function. rewrite bool_decide_false by done.
  destruct (first_unknown g (ins ++ outs)) as [x|] eqn:Hu; [|done].
  unfold first_unknown in Hu. apply List.find_some in Hu as [Hx Hn].
  rewrite Forall_forall in Hw. rewrite (Hw x) in Hn; [done|]. by apply list_elem_of_In.
Qed.
End RegisterOk.

(** ** Properties of registration *)

(** Registration keeps the capability graph well
    formed: ids stay unique across data and function nodes, and every edge of
    every function is wired to a registered data node or a sentinel. *)
Theorem register_all_wf {V} (cs : list (reg_cmd V)) :
  forall (g g' : dsp V), wf_dsp g -> register_all g cs = inr g' -> wf_dsp g'.
Proof.
  induction cs as [|c cs IH]; simpl; intros g g' Hwf H; [congruence|].
  destruct (run_cmd g c) as [e|[id g1]] eqn:Hc; [done|].
  eapply IH; [|exact H]. eauto with dsp.
Qed.

(** A function registered without an
    explicit id never fails with [DuplicateNodeId]: the id derived from the
    callable's name is disambiguated as [name<n>] until it is fresh. *)
Theorem add_function_no_duplicate {V} (g : dsp V) name i o w dom call (x : string) :
  add_function g None name i o w dom call <> inl (DuplicateNodeId x).
Proof.
  unfold add_function. rewrite bool_decide_false by apply derive_id_fresh.
  by destruct (first_unknown g (i ++ o)).
Qed.
