(* ===== verification/Resolver.v ===== *)
(** * The resolver: [dispatch(inputs, requested_outputs)] (spec, section 4.2)

    A weighted AND/OR best-first search: data nodes are OR nodes (one
    producer suffices), function nodes are AND nodes (every input must be
    settled).  The state of a run is [rstate]: the priority queue of
    pending settlements (duplicates allowed, "already settled" checked on
    pop), the settled map, the per-function pending-input counters, the
    discarded flags, the results of the callables invoked so far (each is
    invoked at most once), whether [START] has fired, the wait-for-input
    defaults kept back until the queue is exhausted, and the trace that the
    workflow is read from.  [step] is one iteration of the loop, [run] the
    loop with fuel, [dispatch] the run with a fuel that provably suffices. *)

From stdpp Require Import base list gmap strings.
From Stdlib Require Import Lia.
From S2P Require Import Prelude Graph.

Section Resolver.
  Context {V : Type}.

  (** Where a settlement comes from. *)
Inductive source :=
  | SrcInput (v : V)
  | SrcStart
  | SrcDefault (v : V)
  | SrcFun (i : nat).

  (** A queue entry [(cost, data_id)] with its provenance. *)
Record entry := mk_entry { e_cost : nat; e_data : string; e_src : source }.

Record settlement := mk_settlement { st_val : V; st_cost : nat; st_src : source }.

  (** What the workflow recorder observes. *)
Inductive event :=
  | ESettle (d : string) (st : settlement)
  | EInvoke (i : nat) (args : list V) (outs : list (option V))
  | EFail (i : nat)
  | EDomainFail (i : nat).

Record rstate := mk_rstate {
    rs_queue : list entry;
    rs_settled : gmap string settlement;
    rs_pending : gmap nat nat;
    rs_discarded : gset nat;
    rs_results : gmap nat (list (option V));
    rs_started : bool;
    rs_deferred : list (string * V);
    rs_trace : list event
  }.

  (** The graph, the raw inputs and the requested outputs of the run. *)
  Context (g : dsp V) (inputs : list (string * V)) (requested : list string).

  (** ** The priority order: cost first, then the source's rank.  Inputs and
      [START] come first, functions in registration order, defaults last
      (defaults are the weakest source). *)
Definition src_rank (s : source) : nat :=
    match s with
    | SrcInput _ | SrcStart => 0
    | SrcFun i => S i
    | SrcDefault _ => S (length (dsp_funcs g))
    end.

Definition entry_ltb (a b : entry) : bool :=
    (e_cost a <? e_cost b) ||
    ((e_cost a =? e_cost b) && (src_rank (e_src a) <? src_rank (e_src b))).

  (** Pop the first entry of least priority; the rest keeps its order. *)
Fixpoint pick (q : list entry) : option (entry * list entry) :=
    match q with
    | [] => None
    | e :: q' =>
        match pick q' with
        | None => Some (e, [])
        | Some (m, r) => if entry_ltb m e then Some (m, e :: r) else Some (e, q')
        end
    end.

  (** ** Record updates *)
Definition set_queue (s : rstate) (q : list entry) : rstate :=
    mk_rstate q (rs_settled s) (rs_pending s) (rs_discarded s) (rs_results s)
      (rs_started s) (rs_deferred s) (rs_trace s).
Definition set_pending (s : rstate) (p : gmap nat nat) : rstate :=
    mk_rstate (rs_queue s) (rs_settled s) p (rs_discarded s) (rs_results s)
      (rs_started s) (rs_deferred s) (rs_trace s).
Definition set_deferred (s : rstate) (l : list (string * V)) : rstate :=
    mk_rstate (rs_queue s) (rs_settled s) (rs_pending s) (rs_discarded s) (rs_results s)
      (rs_started s) l (rs_trace s).
Definition discard (s : rstate) (i : nat) (ev : event) : rstate :=
    mk_rstate (rs_queue s) (rs_settled s) (rs_pending s) ({[i]} ∪ rs_discarded s)
      (rs_results s) (rs_started s) (rs_deferred s) (rs_trace s ++ [ev]).

  (** ** Step 3: a function whose inputs are all settled *)

Definition domain_ok (f : func_node V) : bool :=
    match fn_domain f with None => true | Some p => p inputs end.

Definition is_settled (s : rstate) (d : string) : bool :=
    bool_decide (is_Some (rs_settled s !! d)).

  (** The cost of a settled input; [START] is never settled and costs 0. *)
Definition cost_of (s : rstate) (d : string) : nat :=
    from_option st_cost 0 (rs_settled s !! d).

  (** [candidate_cost = weight + max(cost of each required input)]. *)
Definition cand (s : rstate) (f : func_node V) : nat :=
    fn_weight f + max_list (map (cost_of s) (fn_trig f)).

Definition settled_le (s : rstate) (o : string) (c : nat) : bool :=
    match rs_settled s !! o with Some st => st_cost st <=? c | None => false end.

Definition ready (i : nat) (f : func_node V) (s : rstate) : rstate :=
    if bool_decide (i ∈ rs_discarded s) then s
    else if negb (domain_ok f) then discard s i (EDomainFail i)
    else let c := cand s f in
         set_queue s (rs_queue s ++
           map (fun o => mk_entry c o (SrcFun i))
               (List.filter (fun o => negb (settled_le s o c)) (fn_outputs f))).

  (** Decrement the pending-input counter of function [i] when [d] is one of
      its inputs; the function is ready when the counter reaches zero. *)
Definition notify1 (d : string) (i : nat) (f : func_node V) (s : rstate) : rstate :=
    if bool_decide (d ∈ fn_trig f) then
      match rs_pending s !! i with
      | Some (S n) =>
          let s1 := set_pending s (<[i:=n]> (rs_pending s)) in
          if n =? 0 then ready i f s1 else s1
      | _ => s
      end
    else s.

Fixpoint notify_from (d : string) (k : nat) (fs : list (func_node V)) (s : rstate) : rstate :=
    match fs with
    | [] => s
    | f :: fs' => notify_from d (S k) fs' (notify1 d k f s)
    end.

Definition notify (d : string) (s : rstate) : rstate := notify_from d 0 (dsp_funcs g) s.

  (** Step 2: settle [d], record it, and notify its consumers. *)
Definition settle (d : string) (st : settlement) (s : rstate) : rstate :=
    notify d (mk_rstate (rs_queue s) (<[d:=st]> (rs_settled s)) (rs_pending s)
                (rs_discarded s) (rs_results s) (rs_started s) (rs_deferred s)
                (rs_trace s ++ [ESettle d st])).

Definition start (s : rstate) : rstate :=
    notify START (mk_rstate (rs_queue s) (rs_settled s) (rs_pending s) (rs_discarded s)
                    (rs_results s) true (rs_deferred s) (rs_trace s)).

  (** ** Step 4: lazy invocation, at most once per function *)

Definition args (s : rstate) (f : func_node V) : option (list V) :=
    mapM (fun d => st_val <$> rs_settled s !! d) (fn_inputs f).

Definition invoke (i : nat) (f : func_node V) (s : rstate)
      : option (list (option V)) * rstate :=
    match rs_results s !! i with
    | Some outs => (Some outs, s)
    | None =>
        match args s f with
        | None => (None, discard s i (EFail i))
        | Some a =>
            match fn_call f a with
            | Some outs =>
                if length outs =? length (fn_outputs f) then
                  (Some outs, mk_rstate (rs_queue s) (rs_settled s) (rs_pending s)
                     (rs_discarded s) (<[i:=outs]> (rs_results s)) (rs_started s)
                     (rs_deferred s) (rs_trace s ++ [EInvoke i a outs]))
                else (None, discard s i (EFail i))
            | None => (None, discard s i (EFail i))
            end
        end
    end.

  (** The value a function's result gives to its output [o]: positional
      matching with the first occurrence of [o] in [fn_outputs]. *)
Definition out_at (f : func_node V) (outs : list (option V)) (o : string) : option V :=
    match list_find (fun x => x = o) (fn_outputs f) with
    | Some (k, _) => mjoin (outs !! k)
    | None => None
    end.

  (** Processing of a popped entry (already removed from the queue). *)
Definition pop_entry (e : entry) (s : rstate) : rstate :=
    match e_src e with
    | SrcStart => if rs_started s then s else start s
    | SrcInput v | SrcDefault v =>
        if is_settled s (e_data e) then s
        else settle (e_data e) (mk_settlement v (e_cost e) (e_src e)) s
    | SrcFun i =>
        if is_settled s (e_data e) then s else
        match dsp_funcs g !! i with
        | None => s
        | Some f =>
            if bool_decide (i ∈ rs_discarded s) then s else
            let '(r, s') := invoke i f s in
            match r ≫= fun outs => out_at f outs (e_data e) with
            | Some v => settle (e_data e) (mk_settlement v (e_cost e) (SrcFun i)) s'
            | None => s'
            end
        end
    end.

  (** One iteration of the loop.  When the queue is exhausted the earliest
      wait-for-input default still unsettled is used, at cost 0. *)
Definition step (s : rstate) : option rstate :=
    match pick (rs_queue s) with
    | Some (e, q) => Some (pop_entry e (set_queue s q))
    | None =>
        match rs_deferred s with
        | [] => None
        | (d, v) :: ds =>
            let s' := set_deferred s ds in
            Some (if is_settled s' d then s'
                  else settle d (mk_settlement v 0 (SrcDefault v)) s')
        end
    end.

  (** Step 6: every requested output settled (a nonempty request). *)
Definition done (s : rstate) : bool :=
    negb (bool_decide (requested = [])) && forallb (is_settled s) requested.

Fixpoint run (fuel : nat) (s : rstate) : rstate :=
    match fuel with
    | 0 => s
    | S n => if done s then s else
             match step s with None => s | Some s' => run n s' end
    end.

  (** ** The initial state *)

Definition input_entry (kv : string * V) : entry := mk_entry 0 kv.1 (SrcInput kv.2).

  (** Defaults of data nodes not among the inputs, split by the wait flag. *)
Definition defaults (wait : bool) : list (string * V) :=
    omap (fun '(d, dn) =>
            match dn_default dn with
            | Some v => if bool_decide (dn_wait_inputs dn = wait) &&
                           negb (bool_decide (d ∈ map fst inputs))
                        then Some (d, v) else None
            | None => None
            end) (dsp_data g).

Fixpoint pending_from (k : nat) (fs : list (func_node V)) : gmap nat nat :=
    match fs with
    | [] => ∅
    | f :: fs' => <[k:=length (remove_dups (fn_trig f))]> (pending_from (S k) fs')
    end.

Definition init_state : rstate :=
    mk_rstate
      (map input_entry inputs ++ [mk_entry 0 START SrcStart] ++
       map (fun dv => mk_entry 0 dv.1 (SrcDefault dv.2)) (defaults false))
      ∅ (pending_from 0 (dsp_funcs g)) ∅ ∅ false (defaults true) [].

  (** ** The fuel: queue entries, kept-back defaults and the outputs of the
      functions not yet ready bound the remaining iterations. *)
Fixpoint pot_from (p : gmap nat nat) (k : nat) (fs : list (func_node V)) : nat :=
    match fs with
    | [] => 0
    | f :: fs' =>
        match p !! k with Some (S _) => length (fn_outputs f) | _ => 0 end
        + pot_from p (S k) fs'
    end.

Definition measure (s : rstate) : nat :=
    length (rs_queue s) + length (rs_deferred s) + pot_from (rs_pending s) 0 (dsp_funcs g).

Definition dispatch : rstate := run (measure init_state) init_state.

  (** [solution]: every settled data id with its value. *)
Definition solution (s : rstate) : gmap string V := st_val <$> rs_settled s.
End Resolver.

Arguments source : clear implicits.
Arguments entry : clear implicits.
Arguments settlement : clear implicits.
Arguments event : clear implicits.
Arguments rstate : clear implicits.

(** ** Termination *)

Section Termination.
  Context {V : Type} (g : dsp V) (inputs : list (string * V)) (requested : list string).

  Abbreviation measure := (measure g).
  Abbreviation step := (step g inputs).
  Abbreviation pot s := (pot_from (rs_pending s) 0 (dsp_funcs g)).

Definition pot_term (o : option nat) (f : func_node V) : nat :=
    match o with Some (S _) => length (fn_outputs f) | _ => 0 end.

Lemma pick_None (q : list (entry V)) : pick g q = None -> q = [].
  Proof. destruct q as [|e q]; simpl; [done|]. by destruct (pick g q) as [[]|]; [case_match|]. Qed.

Lemma pick_Some (q : list (entry V)) (e : entry V) (r : list (entry V)) :
    pick g q = Some (e, r) -> length q = S (length r) /\
      (forall x, In x q <-> x = e \/ In x r).
  Proof.
    revert e r. induction q as [|e0 q IH]; simpl; intros e r H; [done|].
    destruct (pick g q) as [[m r0]|] eqn:Hp.
    - destruct (IH m r0 eq_refl) as [Hl Hin]. case_match; simplify_eq; simpl.
      + split; [lia|]. intros x. rewrite Hin. naive_solver.
      + split; [lia|]. naive_solver.
    - apply pick_None in Hp as ->. simplify_eq. simpl. split; [done|]. naive_solver.
  Qed.

Lemma pot_from_insert_lt (p : gmap nat nat) (k i x : nat) (fs : list (func_node V)) :
    i < k -> pot_from (<[i:=x]> p) k fs = pot_from p k fs.
  Proof.
    revert k. induction fs as [|f fs IH]; intros k Hik; simpl; [done|].
    rewrite lookup_insert_ne by lia. rewrite IH by lia. done.
  Qed.

Lemma pot_from_insert (p : gmap nat nat) (k i x : nat) (fs : list (func_node V)) (f : func_node V) :
    k <= i -> fs !! (i - k) = Some f ->
    pot_from (<[i:=x]> p) k fs + pot_term (p !! i) f = pot_from p k fs + pot_term (Some x) f.
  Proof.
    revert k. induction fs as [|f' fs IH]; intros k Hk Hf; simpl; [done|].
    destruct (decide (i = k)) as [->|Hne].
    - rewrite Nat.sub_diag in Hf. simpl in Hf. simplify_eq.
      rewrite lookup_insert_eq, pot_from_insert_lt by lia. unfold pot_term.
      destruct (p !! k) as [[|]|], x; lia.
    - rewrite lookup_insert_ne by done.
      replace (i - k) with (S (i - S k)) in Hf by lia. simpl in Hf.
      specialize (IH (S k) ltac:(lia) Hf). unfold pot_term in *. lia.
  Qed.

Lemma ready_measure (i : nat) (f : func_node V) (s : rstate V) :
    measure (ready inputs i f s) <= measure s + length (fn_outputs f).
  Proof.
    unfold ready, measure. case_bool_decide; [lia|].
    destruct (negb (domain_ok inputs f)); simpl; [lia|].
    rewrite length_app, length_map.
    pose proof (List.filter_length_le (fun o => negb (settled_le s o (cand s f))) (fn_outputs f)).
    lia.
  Qed.

Lemma notify1_measure (d : string) (k : nat) (f : func_node V) (s : rstate V) :
    dsp_funcs g !! k = Some f -> measure (notify1 inputs d k f s) <= measure s.
  Proof.
    intros Hf. unfold notify1. case_bool_decide; [|lia].
    pose proof (pot_from_insert (rs_pending s) 0 k 0 (dsp_funcs g) f) as H0.
    rewrite Nat.sub_0_r in H0. specialize (H0 ltac:(lia) Hf).
    destruct (rs_pending s !! k) as [[|[|n]]|] eqn:Hp; try lia; simpl.
    - pose proof (ready_measure k f (set_pending s (<[k:=0]> (rs_pending s)))) as Hr.
      unfold measure in *. simpl in *. unfold pot_term in H0. lia.
    - pose proof (pot_from_insert (rs_pending s) 0 k (S n) (dsp_funcs g) f) as H1.
      rewrite Nat.sub_0_r, Hp in H1. specialize (H1 ltac:(lia) Hf).
      unfold measure, pot_term in *. simpl. lia.
  Qed.

Lemma notify_from_measure (d : string) (fs : list (func_node V)) :
    forall k s, drop k (dsp_funcs g) = fs -> measure (notify_from inputs d k fs s) <= measure s.
  Proof.
    induction fs as [|f fs IH]; intros k s Hd; simpl; [lia|].
    assert (Hk : dsp_funcs g !! k = Some f).
    { rewrite <-(Nat.add_0_r k), <-lookup_drop, Hd. done. }
    etrans; [apply IH|apply notify1_measure, Hk].
    rewrite (drop_S _ _ _ Hk) in Hd. by injection Hd.
  Qed.

Lemma notify_measure (d : string) (s : rstate V) :
    measure (notify g inputs d s) <= measure s.
  Proof. apply notify_from_measure. apply drop_0. Qed.

Lemma settle_measure (d : string) (st : settlement V) (s : rstate V) :
    measure (settle g inputs d st s) <= measure s.
  Proof. unfold settle. rewrite notify_measure. done. Qed.

Lemma start_measure (s : rstate V) : measure (start g inputs s) <= measure s.
  Proof. unfold start. rewrite notify_measure. done. Qed.

Lemma invoke_measure (i : nat) (f : func_node V) (s : rstate V) :
    measure (invoke i f s).2 = measure s.
  Proof. unfold invoke. repeat case_match; done. Qed.

Lemma pop_entry_measure (e : entry V) (s : rstate V) :
    measure (pop_entry g inputs e s) <= measure s.
  Proof.
    unfold pop_entry. destruct (e_src e) as [v| |v|i].
    - case_match; [lia|apply settle_measure].
    - case_match; [lia|apply start_measure].
    - case_match; [lia|apply settle_measure].
    - case_match; [lia|]. case_match; [|lia]. case_bool_decide; [lia|].
      destruct (invoke i _ s) as [r s'] eqn:Hi.
      pose proof (invoke_measure i f s) as Hm. rewrite Hi in Hm. simpl in Hm.
      case_match; [rewrite settle_measure|]; lia.
  Qed.

Lemma step_measure (s s' : rstate V) : step s = Some s' -> measure s' < measure s.
  Proof.
    unfold step. destruct (pick g (rs_queue s)) as [[e q]|] eqn:Hp.
    - intros [= <-]. apply pick_Some in Hp as [Hl _].
      eapply Nat.le_lt_trans; [apply pop_entry_measure|]. unfold measure in *. simpl. lia.
    - destruct (rs_deferred s) as [|[d v] ds] eqn:Hd; [done|]. intros [= <-].
      assert (measure (set_deferred s ds) < measure s) by (unfold measure; rewrite Hd; simpl; lia).
      case_match; [done|]. eapply Nat.le_lt_trans; [apply settle_measure|done].
  Qed.

Lemma step_None_measure (s : rstate V) : measure s = 0 -> step s = None.
  Proof.
    unfold measure, step. intros H.
    destruct (rs_queue s) eqn:Hq; [|simpl in H; lia].
    destruct (rs_deferred s) eqn:Hd; [|simpl in H; lia]. done.
  Qed.

  (** A state where the loop stops: the request is met or nothing is left. *)
Definition finished (s : rstate V) : Prop :=
    done requested s = true \/ step s = None.

Lemma run_finished (n : nat) : forall s, measure s <= n -> finished (run g inputs requested n s).
  Proof.
    induction n as [|n IH]; intros s Hm; simpl.
    - right. apply step_None_measure. lia.
    - destruct (done requested s) eqn:Hdone; [by left|].
      destruct (step s) as [s'|] eqn:Hs; [|by right].
      apply IH. apply step_measure in Hs. lia.
  Qed.

Lemma run_finished_stable (n : nat) (s : rstate V) :
    finished s -> run g inputs requested n s = s.
  Proof. destruct n; simpl; [done|]. intros [->| ->]; [done|]. by destruct (done _ _). Qed.
End Termination.

(** ** Runs as sequences of steps *)

Section Runs.
  Context {V : Type} (g : dsp V) (inputs : list (string * V)) (requested : list string).

Inductive steps : rstate V -> rstate V -> Prop :=
  | steps_refl s : steps s s
  | steps_step s s1 s2 : step g inputs s = Some s1 -> steps s1 s2 -> steps s s2.

Lemma run_steps (n : nat) : forall s, steps s (run g inputs requested n s).
  Proof.
    induction n as [|n IH]; intros s; simpl; [constructor|].
    destruct (done requested s); [constructor|].
    destruct (step g inputs s) eqn:Hs; [econstructor; eauto|constructor].
  Qed.

  (** A property of states preserved by every step holds along every run. *)
Lemma steps_ind_inv (P : rstate V -> Prop) :
    (forall s s', P s -> step g inputs s = Some s' -> P s') ->
    forall s s', steps s s' -> P s -> P s'.
  Proof. intros Hstep s s' Hst. induction Hst; eauto. Qed.

Lemma dispatch_steps : steps (init_state g inputs) (dispatch g inputs requested).
  Proof. apply run_steps. Qed.

Lemma run_more_fuel (n : nat) : forall m s,
    measure g s <= n -> run g inputs requested (n + m) s = run g inputs requested n s.
  Proof.
    induction n as [|n IH]; intros m s Hm.
    - simpl. apply run_finished_stable. right. apply step_None_measure. lia.
    - simpl. destruct (done requested s); [done|].
      destruct (step g inputs s) as [s'|] eqn:Hs; [|done].
      apply IH. apply step_measure in Hs. lia.
  Qed.
End Runs.

(** Termination: [dispatch] always stops in a
    final state: every requested output is settled (for a nonempty
    request), or the queue and the kept-back defaults are exhausted. *)
Theorem dispatch_finished {V} (g : dsp V) (inputs : list (string * V)) (requested : list string) :
  finished g inputs requested (dispatch g inputs requested).
Proof. apply run_finished. lia. Qed.

(** The fuel bound is enough: running the
    loop with any fuel at least [measure init_state] gives the same final
    state as [dispatch]. *)
Theorem dispatch_fuel_independent {V} (g : dsp V) (inputs : list (string * V))
    (requested : list string) (n : nat) :
  measure g (init_state g inputs) <= n ->
  run g inputs requested n (init_state g inputs) = dispatch g inputs requested.
Proof.
  intros Hn. unfold dispatch. replace n with (measure g (init_state g inputs) + (n - measure g (init_state g inputs))) by lia.
  apply run_more_fuel. lia.
Qed.

(** ** Frame lemmas: what notifying consumers changes *)

Section Frame.
  Context {V : Type} (g : dsp V) (inputs : list (string * V)).
  Implicit Types (s : rstate V) (f : func_node V).

  (** The fields that [ready] and [notify] never touch. *)
Definition same_core s s' : Prop :=
    rs_settled s' = rs_settled s /\ rs_results s' = rs_results s /\
    rs_started s' = rs_started s /\ rs_deferred s' = rs_deferred s.

Lemma same_core_refl s : same_core s s.
  Proof. done. Qed.

Lemma same_core_trans s1 s2 s3 : same_core s1 s2 -> same_core s2 s3 -> same_core s1 s3.
  Proof. unfold same_core. intros (?&?&?&?) (?&?&?&?). repeat split; congruence. Qed.

Lemma ready_core i f s : same_core s (ready inputs i f s) /\
    rs_pending (ready inputs i f s) = rs_pending s.
  Proof. unfold ready. case_bool_decide; [done|]. by case_match. Qed.

Lemma notify1_core d k f s : same_core s (notify1 inputs d k f s).
  Proof.
    unfold notify1. case_bool_decide; [|done]. case_match; [|done]. case_match; [done|].
    case_match; [|done]. eapply same_core_trans; [|apply ready_core]. done.
  Qed.

Lemma notify_from_core d fs : forall k s, same_core s (notify_from inputs d k fs s).
  Proof.
    induction fs as [|f fs IH]; intros k s; simpl; [done|].
    eapply same_core_trans; [apply notify1_core|apply IH].
  Qed.

Lemma notify_core d s : same_core s (notify g inputs d s).
  Proof. apply notify_from_core. Qed.

  (** [notify1] at index [k] only changes the counter and the flag of [k]. *)
Lemma notify1_other d k f s (j : nat) : j <> k ->
    rs_pending (notify1 inputs d k f s) !! j = rs_pending s !! j /\
    (j ∈ rs_discarded (notify1 inputs d k f s) <-> j ∈ rs_discarded s).
  Proof.
    intros Hjk. unfold notify1. case_bool_decide; [|done].
    destruct (rs_pending s !! k) as [[|n]|]; [done| |done]. simpl.
    destruct (n =? 0); simpl; [|by rewrite lookup_insert_ne by done].
    unfold ready. simpl. case_bool_decide; simpl; [by rewrite lookup_insert_ne by done|].
    destruct (negb _); simpl; rewrite lookup_insert_ne by done; [|done]. set_solver.
  Qed.

  (** The counter of [k] after [notify1]: decremented when [d] is an input. *)
Definition dec_pending (o : option nat) : option nat :=
    match o with Some (S n) => Some n | _ => o end.

Lemma notify1_self d k f s :
    rs_pending (notify1 inputs d k f s) !! k =
      if bool_decide (d ∈ fn_trig f) then dec_pending (rs_pending s !! k)
      else rs_pending s !! k.
  Proof.
    unfold notify1. case_bool_decide; [|done].
    destruct (rs_pending s !! k) as [[|n]|] eqn:Hp; simpl; rewrite ?Hp; [done| |done].
    destruct (n =? 0); simpl; [rewrite (proj2 (ready_core _ _ _)); simpl|];
      by rewrite lookup_insert_eq.
  Qed.

Lemma notify_from_pending d fs : forall k s, drop k (dsp_funcs g) = fs -> forall j,
    rs_pending (notify_from inputs d k fs s) !! j =
      match dsp_funcs g !! j with
      | Some f => if bool_decide (k <= j) && bool_decide (d ∈ fn_trig f)
                  then dec_pending (rs_pending s !! j) else rs_pending s !! j
      | None => rs_pending s !! j
      end.
  Proof.
    induction fs as [|f fs IH]; intros k s Hd j; simpl.
    - destruct (dsp_funcs g !! j) as [f|] eqn:Hj; [|done].
      destruct (decide (k <= j)); [|by rewrite bool_decide_false by lia].
      exfalso. assert (Hl : length (drop k (dsp_funcs g)) = 0) by (by rewrite Hd).
      rewrite length_drop in Hl. apply lookup_lt_Some in Hj. lia.
    - assert (Hk : dsp_funcs g !! k = Some f).
      { rewrite <-(Nat.add_0_r k), <-lookup_drop, Hd. done. }
      rewrite (drop_S _ _ _ Hk) in Hd. injection Hd as Hd.
      rewrite (IH (S k) _ Hd j).
      destruct (decide (j = k)) as [->|Hjk].
      + rewrite Hk, notify1_self. rewrite (bool_decide_false (S k <= k)) by lia.
        rewrite (bool_decide_true (k <= k)) by lia. simpl. by case_bool_decide.
      + destruct (notify1_other d k f s j Hjk) as [-> _].
        destruct (dsp_funcs g !! j); [|done].
        destruct (decide (k <= j)); [|rewrite (bool_decide_false (k <= j)), (bool_decide_false (S k <= j)) by lia; done].
        by rewrite (bool_decide_true (k <= j)), (bool_decide_true (S k <= j)) by lia.
  Qed.
Lemma notify_pending d s j :
    rs_pending (notify g inputs d s) !! j =
      match dsp_funcs g !! j with
      | Some f => if bool_decide (d ∈ fn_trig f) then dec_pending (rs_pending s !! j)
                  else rs_pending s !! j
      | None => rs_pending s !! j
      end.
  Proof.
    unfold notify. rewrite (notify_from_pending d _ 0 s (drop_0 _) j).
    destruct (dsp_funcs g !! j); [|done]. by rewrite (bool_decide_true (0 <= j)) by lia.
  Qed.
End Frame.

Section NotifyEffects.
  Context {V : Type} (g : dsp V) (inputs : list (string * V)).
  Implicit Types (s : rstate V) (f : func_node V).

Lemma cand_core s s' f : same_core s s' -> cand s' f = cand s f.
  Proof. intros [Hs _]. unfold cand, cost_of. by rewrite Hs. Qed.

Lemma settled_le_core s s' o c : same_core s s' -> settled_le s' o c = settled_le s o c.
  Proof. intros [Hs _]. unfold settled_le. by rewrite Hs. Qed.

  (** An entry pushed when [d] settles: an output of a function [i] with
      input [d] whose counter was 1 and whose domain holds, at the
      function's candidate cost. *)
Definition pushed (k : nat) s (d : string) (e : entry V) : Prop :=
    exists i f, k <= i /\ dsp_funcs g !! i = Some f /\ d ∈ fn_trig f /\
      rs_pending s !! i = Some 1 /\ domain_ok inputs f = true /\
      e_src e = SrcFun i /\ e_cost e = cand s f /\ e_data e ∈ fn_outputs f.

  (** A function discarded when [d] settles: its domain fails. *)
Definition dom_failed (k : nat) s (d : string) (i : nat) : Prop :=
    exists f, k <= i /\ dsp_funcs g !! i = Some f /\ d ∈ fn_trig f /\
      rs_pending s !! i = Some 1 /\ domain_ok inputs f = false.

Definition notify_effect (k : nat) s (d : string) s' : Prop :=
    (exists new, rs_queue s' = rs_queue s ++ new /\ forall e, In e new -> pushed k s d e) /\
    (exists t, rs_trace s' = rs_trace s ++ t /\
       forall ev, In ev t -> exists i, ev = EDomainFail i /\ dom_failed k s d i) /\
    rs_discarded s ⊆ rs_discarded s' /\
    (forall i, i ∈ rs_discarded s' -> i ∈ rs_discarded s \/ dom_failed k s d i).

Lemma notify1_effect d k f s :
    dsp_funcs g !! k = Some f -> notify_effect k s d (notify1 inputs d k f s).
  Proof.
    intros Hk. unfold notify1. case_bool_decide as Hd; [|repeat split; [exists []|exists []|..]; rewrite ?app_nil_r; set_solver].
    destruct (rs_pending s !! k) as [[|n]|] eqn:Hp;
      try (repeat split; [exists []|exists []|..]; rewrite ?app_nil_r; set_solver).
    simpl. destruct (n =? 0) eqn:Hn;
      [|repeat split; [exists []|exists []|..]; rewrite ?app_nil_r; set_solver].
    apply Nat.eqb_eq in Hn. subst n. unfold ready. simpl.
    case_bool_decide; [repeat split; [exists []|exists []|..]; rewrite ?app_nil_r; set_solver|].
    destruct (domain_ok inputs f) eqn:Hdom; simpl.
    - repeat split.
      + eexists. split; [done|]. intros e (o & <- & Ho)%in_map_iff.
        apply filter_In in Ho as [Ho _]. exists k, f. simpl.
        repeat split; auto. by apply list_elem_of_In.
      + exists []. rewrite app_nil_r. set_solver.
      + set_solver.
      + set_solver.
    - repeat split.
      + exists []. rewrite app_nil_r. set_solver.
      + eexists. split; [done|]. intros ev [<-|[]]. exists k. split; [done|]. by exists f.
      + set_solver.
      + simpl. intros i [->%elem_of_singleton|]%elem_of_union; [|by left]. right. by exists f.
  Qed.
End NotifyEffects.

Section NotifyLift.
  Context {V : Type} (g : dsp V) (inputs : list (string * V)).
  Implicit Types (s : rstate V) (f : func_node V).

Lemma notify1_pushed_shift d k f s e :
    pushed g inputs (S k) (notify1 inputs d k f s) d e -> pushed g inputs k s d e.
  Proof.
    intros (i & f' & Hi & Hf' & Hd & Hp & Hdom & Hsrc & Hc & Ho).
    destruct (notify1_other inputs d k f s i ltac:(lia)) as [Hp' _].
    exists i, f'. rewrite <-Hp', <-(cand_core _ _ f' (notify1_core inputs d k f s)).
    repeat split; auto; lia.
  Qed.

Lemma notify1_dom_failed_shift d k f s i :
    dom_failed g inputs (S k) (notify1 inputs d k f s) d i -> dom_failed g inputs k s d i.
  Proof.
    intros (f' & Hi & Hf' & Hd & Hp & Hdom).
    destruct (notify1_other inputs d k f s i ltac:(lia)) as [Hp' _].
    exists f'. rewrite <-Hp'. repeat split; auto; lia.
  Qed.

Lemma notify_from_effect d fs : forall k s, drop k (dsp_funcs g) = fs ->
    notify_effect g inputs k s d (notify_from inputs d k fs s).
  Proof.
    induction fs as [|f fs IH]; intros k s Hd; simpl.
    { repeat split; [exists []|exists []|..]; rewrite ?app_nil_r; set_solver. }
    assert (Hk : dsp_funcs g !! k = Some f).
    { rewrite <-(Nat.add_0_r k), <-lookup_drop, Hd. done. }
    rewrite (drop_S _ _ _ Hk) in Hd. injection Hd as Hd.
    destruct (notify1_effect g inputs d k f s Hk)
      as ((n1 & Hq1 & Hn1) & (t1 & Ht1 & Hev1) & Hsub1 & Hdis1).
    destruct (IH (S k) (notify1 inputs d k f s) Hd)
      as ((n2 & Hq2 & Hn2) & (t2 & Ht2 & Hev2) & Hsub2 & Hdis2).
    repeat split.
    - exists (n1 ++ n2). rewrite Hq2, Hq1, app_assoc. split; [done|].
      intros e [He|He]%in_app_or; [auto|]. apply (notify1_pushed_shift d k f). auto.
    - exists (t1 ++ t2). rewrite Ht2, Ht1, app_assoc. split; [done|].
      intros ev [Hev|Hev]%in_app_or; [auto|].
      destruct (Hev2 ev Hev) as (i & -> & Hi). exists i. split; [done|].
      by apply (notify1_dom_failed_shift d k f) in Hi.
    - set_solver.
    - intros i Hi. destruct (Hdis2 i Hi) as [Hi'|Hi']; [by apply Hdis1|].
      right. by apply (notify1_dom_failed_shift d k f) in Hi'.
  Qed.

Lemma notify_effect_0 d s : notify_effect g inputs 0 s d (notify g inputs d s).
  Proof. apply notify_from_effect, drop_0. Qed.

  (** A function whose last pending input is [d] fires: its outputs are
      queued at its candidate cost (or already settled no dearer), or it is
      discarded because its domain fails. *)
Definition fired_outputs s (i : nat) (f : func_node V) (s' : rstate V) : Prop :=
    (domain_ok inputs f = true -> forall o, o ∈ fn_outputs f ->
       settled_le s o (cand s f) = true \/ In (mk_entry (cand s f) o (SrcFun i)) (rs_queue s')) /\
    (domain_ok inputs f = false -> i ∈ rs_discarded s').

Lemma cand_set_pending s p : cand (set_pending s p) = cand s.
  Proof. reflexivity. Qed.
Lemma settled_le_set_pending s p : settled_le (set_pending s p) = settled_le s.
  Proof. reflexivity. Qed.

Lemma notify1_fires d i f s :
    d ∈ fn_trig f -> rs_pending s !! i = Some 1 -> i ∉ rs_discarded s ->
    fired_outputs s i f (notify1 inputs d i f s).
  Proof.
    intros Hd Hp Hnd. unfold notify1. rewrite bool_decide_true, Hp by done. simpl.
    unfold ready. simpl. rewrite bool_decide_false by done.
    rewrite cand_set_pending, settled_le_set_pending.
    split; intros Hdom; rewrite Hdom; simpl.
    - intros o Ho. destruct (settled_le s o (cand s f)) eqn:Hle; [by left|right].
      apply in_or_app. right. apply in_map_iff. exists o. split; [done|].
      apply filter_In. rewrite Hle. split; [by apply list_elem_of_In|done].
    - set_solver.
  Qed.

Lemma fired_outputs_mono s i f s1 s2 :
    (forall e, In e (rs_queue s1) -> In e (rs_queue s2)) -> rs_discarded s1 ⊆ rs_discarded s2 ->
    fired_outputs s i f s1 -> fired_outputs s i f s2.
  Proof.
    intros Hq Hdis [H1 H2]. split; [|set_solver].
    intros Hdom o Ho. destruct (H1 Hdom o Ho); auto.
  Qed.

Lemma notify_from_fires d fs : forall k s, drop k (dsp_funcs g) = fs ->
    forall i f, k <= i -> dsp_funcs g !! i = Some f -> d ∈ fn_trig f ->
    rs_pending s !! i = Some 1 -> i ∉ rs_discarded s ->
    fired_outputs s i f (notify_from inputs d k fs s).
  Proof.
    induction fs as [|f0 fs IH]; intros k s Hd i f Hki Hf Hdf Hp Hnd; simpl.
    { exfalso. assert (Hl : length (drop k (dsp_funcs g)) = 0) by (by rewrite Hd).
      rewrite length_drop in Hl. apply lookup_lt_Some in Hf. lia. }
    assert (Hk : dsp_funcs g !! k = Some f0).
    { rewrite <-(Nat.add_0_r k), <-lookup_drop, Hd. done. }
    rewrite (drop_S _ _ _ Hk) in Hd. injection Hd as Hd.
    destruct (notify_from_effect d fs (S k) (notify1 inputs d k f0 s) Hd)
      as ((n2 & Hq2 & _) & _ & Hsub2 & _).
    destruct (decide (i = k)) as [->|Hik].
    - rewrite Hk in Hf. injection Hf as <-.
      eapply fired_outputs_mono; [| |apply notify1_fires; done].
      + intros e He. rewrite Hq2. apply in_or_app. by left.
      + done.
    - destruct (notify1_other inputs d k f0 s i Hik) as [Hp' Hdis'].
      pose proof (notify1_core inputs d k f0 s) as Hcore.
      pose proof (IH (S k) (notify1 inputs d k f0 s) Hd i f ltac:(lia) Hf Hdf
                    ltac:(by rewrite Hp') ltac:(by rewrite Hdis')) as [H1 H2].
      split; [|done]. intros Hdom o Ho.
      destruct (H1 Hdom o Ho) as [Hx|Hx]; rewrite (cand_core _ _ f Hcore) in Hx; [left|by right].
      by rewrite (settled_le_core _ _ o _ Hcore) in Hx.
  Qed.

Lemma notify_fires d s i f :
    dsp_funcs g !! i = Some f -> d ∈ fn_trig f ->
    rs_pending s !! i = Some 1 -> i ∉ rs_discarded s ->
    fired_outputs s i f (notify g inputs d s).
  Proof. intros. eapply notify_from_fires; eauto using drop_0. lia. Qed.
End NotifyLift.

(** ** The specification's running example (section 8)

    Data [a] (an input) and [b]; [f1(a) -> b] of weight 0 and
    [f2(a) -> b] of weight 10. *)
Definition ex_inc (k : nat) : list nat -> option (list (option nat)) :=
  fun a => match a with [x] => Some [Some (x + k)] | _ => None end.

Definition ex_f1 : func_node nat := mk_func_node "f1" ["a"] ["b"] 0 None (ex_inc 1).
Definition ex_f2 : func_node nat := mk_func_node "f2" ["a"] ["b"] 10 None (ex_inc 100).

Definition ex_dsp : dsp nat :=
  mk_dsp "example" [("a", mk_data_node None false); ("b", mk_data_node None false)] [ex_f1; ex_f2].
