(* ===== verification/Dijkstra.v ===== *)
(** * The invariants of the resolver's search

    The invariant [Inv] of a run state bundles:
    - [counters_ok]: the pending-input counter of every function is the
      number of its distinct inputs not yet settled ([START] counts as
      settled once it has fired);
    - [queue_above]: no settled cost exceeds the cost of a queued entry
      (the Dijkstra order; it needs that no wait-for-input default is kept
      back, since those are settled at cost 0 after the queue empties);
    - [entries_ok], [start_ok]: only the [START] entry names [START], it
      costs 0, and [START] is never settled;
    - [fired_ok]: a function whose inputs are all settled is discarded when
      its domain fails, and otherwise each of its outputs is settled no
      dearer than the function's candidate cost, or queued at that cost, or
      left unproduced by the function's result.
    [Inv] holds initially and every [step] preserves it; the completeness
    theorem reads it on the final state. *)

From stdpp Require Import base list gmap strings.
From Stdlib Require Import Lia.
From S2P Require Import Prelude Graph Resolver.

Section Defs.
  Context {V : Type} (g : dsp V) (inputs : list (string * V)).
  Implicit Types (s : rstate V) (f : func_node V).

  (** [START] is a sentinel: no input, data node or output takes its name. *)
Definition start_reserved : bool :=
    negb (bool_decide (START ∈ map fst inputs)) &&
    negb (bool_decide (START ∈ map fst (dsp_data g))) &&
    forallb (fun f => negb (bool_decide (START ∈ fn_outputs f))) (dsp_funcs g).

  (** No data node has a default kept back until the queue is exhausted. *)
Definition no_wait_defaults : bool :=
    bool_decide (defaults g inputs true = []).

Definition trig_done s (d : string) : bool :=
    if bool_decide (d = START) then rs_started s else is_settled s d.

Definition unsettled_count s f : nat :=
    length (List.filter (fun d => negb (trig_done s d)) (remove_dups (fn_trig f))).

Definition counters_ok s : Prop :=
    forall i f, dsp_funcs g !! i = Some f -> rs_pending s !! i = Some (unsettled_count s f).

Definition queue_above s : Prop :=
    forall d st e, rs_settled s !! d = Some st -> In e (rs_queue s) -> st_cost st <= e_cost e.

Definition entries_ok s : Prop :=
    forall e, In e (rs_queue s) ->
      (e_src e = SrcStart <-> e_data e = START) /\ (e_src e = SrcStart -> e_cost e = 0).

Definition start_ok s : Prop :=
    rs_settled s !! START = None /\
    (rs_started s = false -> In (mk_entry 0 START SrcStart) (rs_queue s)).

  (** Output [o] of function [i] is accounted for. *)
Definition covered s (i : nat) f (o : string) : Prop :=
    (exists st, rs_settled s !! o = Some st /\ st_cost st <= cand s f) \/
    In (mk_entry (cand s f) o (SrcFun i)) (rs_queue s) \/
    (exists outs, rs_results s !! i = Some outs /\ out_at f outs o = None).

Definition fired_ok s : Prop :=
    forall i f, dsp_funcs g !! i = Some f -> rs_pending s !! i = Some 0 ->
      (domain_ok inputs f = false -> i ∈ rs_discarded s) /\
      (i ∉ rs_discarded s -> domain_ok inputs f = true ->
         forall o, o ∈ fn_outputs f -> covered s i f o).

  (** [fired_ok] up to the outputs that [P] accounts for: the form the
      invariant takes in the middle of a step. *)
Definition fired_ok_mod s (P : nat -> func_node V -> string -> Prop) : Prop :=
    forall i f, dsp_funcs g !! i = Some f -> rs_pending s !! i = Some 0 ->
      (domain_ok inputs f = false -> i ∈ rs_discarded s) /\
      (i ∉ rs_discarded s -> domain_ok inputs f = true ->
         forall o, o ∈ fn_outputs f -> covered s i f o \/ P i f o).

Record Inv s : Prop := {
    inv_counters : counters_ok s;
    inv_above : queue_above s;
    inv_entries : entries_ok s;
    inv_start : start_ok s;
    inv_fired : fired_ok s;
    inv_deferred : rs_deferred s = []
  }.

  (** The data after one step has grown: settlements and results are kept,
      the queue past the popped entry and the trace are extended. *)
Definition extends s1 s2 : Prop :=
    (forall d st, rs_settled s1 !! d = Some st -> rs_settled s2 !! d = Some st) /\
    (forall i r, rs_results s1 !! i = Some r -> rs_results s2 !! i = Some r) /\
    (forall e, In e (rs_queue s1) -> In e (rs_queue s2)) /\
    rs_discarded s1 ⊆ rs_discarded s2 /\
    (rs_started s1 = true -> rs_started s2 = true).
End Defs.

Section InitFacts.
  Context {V : Type} (g : dsp V) (inputs : list (string * V)).
  Implicit Types (s : rstate V) (f : func_node V).

Lemma start_reserved_spec :
    start_reserved g inputs = true ->
    START ∉ map fst inputs /\ START ∉ map fst (dsp_data g) /\
    (forall i f, dsp_funcs g !! i = Some f -> START ∉ fn_outputs f).
  Proof.
    unfold start_reserved. intros H.
    apply andb_true_iff in H as [H H3]. apply andb_true_iff in H as [H1 H2].
    apply negb_true_iff, bool_decide_eq_false in H1, H2. split; [done|]. split; [done|].
    intros i f Hf. apply forallb_forall with (x := f) in H3.
    - by apply negb_true_iff, bool_decide_eq_false in H3.
    - apply list_elem_of_In. by eapply list_elem_of_lookup_2.
  Qed.

Lemma pending_from_lookup (fs : list (func_node V)) : forall k j,
    pending_from k fs !! j =
      if bool_decide (k <= j)
      then (fun f => length (remove_dups (fn_trig f))) <$> fs !! (j - k) else None.
  Proof.
    induction fs as [|f fs IH]; intros k j; simpl.
    - rewrite lookup_empty. by case_bool_decide.
    - destruct (decide (j = k)) as [->|Hjk].
      + rewrite lookup_insert_eq, bool_decide_true, Nat.sub_diag by lia. done.
      + rewrite lookup_insert_ne by done. rewrite IH.
        destruct (decide (k <= j)).
        * rewrite !bool_decide_true by lia. by replace (j - k) with (S (j - S k)) by lia.
        * rewrite !bool_decide_false by lia. done.
  Qed.

Lemma remove_dups_trig_ne f : remove_dups (fn_trig f) <> [].
  Proof.
    intros H. assert (Hx : exists x, x ∈ fn_trig f).
    { unfold fn_trig. destruct (fn_inputs f) as [|x l]; [exists START|exists x]; set_solver. }
    destruct Hx as [x Hx]. apply elem_of_remove_dups in Hx. rewrite H in Hx. set_solver.
  Qed.

Lemma unsettled_count_none s f :
    (forall d, trig_done s d = false) -> unsettled_count s f = length (remove_dups (fn_trig f)).
  Proof.
    intros H. unfold unsettled_count. induction (remove_dups (fn_trig f)) as [|x l IH]; simpl; [done|].
    rewrite H. simpl. by rewrite IH.
  Qed.

Lemma defaults_data (w : bool) (d : string) (v : V) :
    In (d, v) (defaults g inputs w) -> d ∈ map fst (dsp_data g).
  Proof.
    unfold defaults. intros Hin%list_elem_of_In. apply list_elem_of_omap in Hin as ([d' dn] & Hin & Hx).
    destruct (dn_default dn); [|done]. case_match; simplify_eq.
    apply list_elem_of_fmap. by exists (d, dn).
  Qed.

Lemma init_inv :
    start_reserved g inputs = true -> no_wait_defaults g inputs = true ->
    Inv g inputs (init_state g inputs).
  Proof.
    intros (Hin & Hdata & _)%start_reserved_spec Hnw%bool_decide_eq_true. split.
    - intros i f Hf. simpl. rewrite pending_from_lookup, bool_decide_true, Nat.sub_0_r, Hf by lia.
      simpl. f_equal. symmetry. apply unsettled_count_none.
      intros d. unfold trig_done, is_settled. simpl. case_bool_decide; [done|].
      rewrite lookup_empty. by apply bool_decide_eq_false.
    - intros d st e. simpl. by rewrite lookup_empty.
    - intros e. simpl. intros [He|[<-|He]]%in_app_or.
      + apply in_map_iff in He as ([k v] & <- & Hkv). simpl. split; [|done].
        split; [done|]. intros ->. exfalso. apply Hin. apply list_elem_of_fmap. exists (START, v).
        split; [done|]. by apply list_elem_of_In.
      + done.
      + apply in_map_iff in He as ([k v] & <- & Hkv). simpl. split; [|done].
        split; [done|]. intros ->. exfalso. apply Hdata. by eapply defaults_data.
    - split; [apply lookup_empty|]. intros _. simpl. apply in_or_app. right. by left.
    - intros i f Hf. simpl. rewrite pending_from_lookup, bool_decide_true, Nat.sub_0_r, Hf by lia.
      simpl. intros [=Hl]. apply length_zero_iff_nil in Hl. by apply remove_dups_trig_ne in Hl.
    - done.
  Qed.
End InitFacts.

Section NotifyInv.
  Context {V : Type} (g : dsp V) (inputs : list (string * V)).
  Implicit Types (s : rstate V) (f : func_node V).

Lemma covered_mono s s' i f o :
    (forall d st, rs_settled s !! d = Some st -> rs_settled s' !! d = Some st) ->
    (forall j r, rs_results s !! j = Some r -> rs_results s' !! j = Some r) ->
    (forall e, In e (rs_queue s) -> In e (rs_queue s')) ->
    cand s' f = cand s f ->
    covered s i f o -> covered s' i f o.
  Proof.
    intros Hs Hr Hq Hc [(st & Hst & Hle)|[Hin|(outs & Ho & Hn)]]; unfold covered; rewrite Hc.
    - left. eauto.
    - right; left. auto.
    - right; right. eauto.
  Qed.

Lemma trig_done_core s s' d : same_core s s' -> trig_done s' d = trig_done s d.
  Proof. intros (Hs & _ & Hst & _). unfold trig_done, is_settled. by rewrite Hs, Hst. Qed.

Lemma unsettled_count_core s s' f : same_core s s' -> unsettled_count s' f = unsettled_count s f.
  Proof.
    intros H. unfold unsettled_count. apply filter_length_same. intros x _.
    by rewrite (trig_done_core _ _ x H).
  Qed.

Lemma cand_ge s f d : d ∈ fn_trig f -> cost_of s d <= cand s f.
  Proof.
    intros Hd. unfold cand. apply list_elem_of_In in Hd.
    pose proof (max_list_ge (map (cost_of s) (fn_trig f)) (cost_of s d) ltac:(by apply in_map)).
    lia.
  Qed.

Lemma notify_inv (d : string) (c : nat) s1 :
    (forall i f, dsp_funcs g !! i = Some f -> START ∉ fn_outputs f) ->
    cost_of s1 d = c ->
    (forall x st, rs_settled s1 !! x = Some st -> st_cost st <= c) ->
    (forall e, In e (rs_queue s1) -> c <= e_cost e) ->
    (forall i f, dsp_funcs g !! i = Some f -> rs_pending s1 !! i =
       Some (unsettled_count s1 f + if bool_decide (d ∈ fn_trig f) then 1 else 0)) ->
    entries_ok s1 -> start_ok s1 -> fired_ok g inputs s1 -> rs_deferred s1 = [] ->
    Inv g inputs (notify g inputs d s1).
  Proof.
    intros Hres Hc Hset Hq Hpend Hent Hstart Hfired Hdef.
    pose proof (notify_core g inputs d s1) as Hcore.
    destruct (notify_effect_0 g inputs d s1) as ((new & Hqn & Hnew) & _ & Hsub & _).
    destruct Hcore as (Hs & Hr & Hst & Hd). split.
    - intros i f Hf. rewrite (notify_pending g inputs d s1 i), Hf.
      rewrite (unsettled_count_core s1 _ f (notify_core g inputs d s1)), (Hpend i f Hf).
      case_bool_decide; simpl; [by rewrite Nat.add_1_r|by rewrite Nat.add_0_r].
    - intros x st e Hx. rewrite Hs in Hx. rewrite Hqn. intros [He|He]%in_app_or.
      + specialize (Hq e He). specialize (Hset x st Hx). lia.
      + destruct (Hnew e He) as (i & f & _ & Hf & Hdf & _ & _ & _ & Hcost & _).
        specialize (Hset x st Hx). rewrite Hcost. pose proof (cand_ge s1 f d Hdf). lia.
    - intros e. rewrite Hqn. intros [He|He]%in_app_or; [by apply Hent|].
      destruct (Hnew e He) as (i & f & _ & Hf & _ & _ & _ & Hsrc & Hcost & Ho).
      rewrite Hsrc. split; [|done]. split; [done|]. intros Hds. rewrite Hds in Ho.
      by apply (Hres i f Hf) in Ho.
    - destruct Hstart as [HS HS']. split; [by rewrite Hs|]. rewrite Hst, Hqn. intros H.
      apply in_or_app. left. auto.
    - intros i f Hf Hp0.
      rewrite (notify_pending g inputs d s1 i), Hf in Hp0.
      rewrite (Hpend i f Hf) in Hp0.
      assert (Hcand : cand (notify g inputs d s1) f = cand s1 f)
        by apply (cand_core _ _ f (notify_core g inputs d s1)).
      case_bool_decide as Hdf; simpl in Hp0.
      + rewrite Nat.add_1_r in Hp0. injection Hp0 as Hcnt.
        assert (Hp1 : rs_pending s1 !! i = Some 1) by (rewrite (Hpend i f Hf), bool_decide_true, Hcnt by done; done).
        destruct (decide (i ∈ rs_discarded s1)) as [Hdis|Hndis].
        { split; intros; [set_solver|]. exfalso. set_solver. }
        destruct (notify_fires g inputs d s1 i f Hf Hdf Hp1 Hndis) as [Hok Hko].
        split; [done|]. intros _ Hdom o Ho. unfold covered. rewrite Hcand.
        destruct (Hok Hdom o Ho) as [Hle|Hin]; [left|right; by left].
        unfold settled_le in Hle. destruct (rs_settled s1 !! o) as [st|] eqn:Ho'; [|done].
        exists st. rewrite Hs. split; [done|]. by apply Nat.leb_le.
      + assert (Hp0' : rs_pending s1 !! i = Some 0).
        { rewrite (Hpend i f Hf), bool_decide_false by done. rewrite Nat.add_0_r in Hp0 |- *. done. }
        destruct (Hfired i f Hf Hp0') as [H1 H2]. split; [intros; set_solver|].
        intros Hndis Hdom o Ho. eapply covered_mono; [| | |exact Hcand|apply H2; [set_solver|done|done]].
        * intros ??. by rewrite Hs.
        * intros ??. by rewrite Hr.
        * intros e He. rewrite Hqn. apply in_or_app. by left.
    - by rewrite Hd.
  Qed.
End NotifyInv.

Section SettleInv.
  Context {V : Type} (g : dsp V) (inputs : list (string * V)).
  Implicit Types (s : rstate V) (f : func_node V).

Lemma count_flip s s' f (d : string) :
    trig_done s d = false -> trig_done s' d = true ->
    (forall x, x <> d -> trig_done s' x = trig_done s x) ->
    unsettled_count s f = unsettled_count s' f + if bool_decide (d ∈ fn_trig f) then 1 else 0.
  Proof.
    intros H1 H2 H3. unfold unsettled_count. case_bool_decide as Hd.
    - rewrite Nat.add_1_r. apply filter_length_flip with (d := d).
      + apply NoDup_remove_dups.
      + by apply elem_of_remove_dups.
      + by rewrite H1.
      + by rewrite H2.
      + intros x Hx. by rewrite H3.
    - rewrite Nat.add_0_r. symmetry. apply filter_length_same. intros x Hx. rewrite H3; [done|].
      intros ->. apply Hd. apply elem_of_remove_dups, list_elem_of_In, Hx.
  Qed.

Lemma cand_ext s s' f :
    (forall x, x ∈ fn_trig f -> cost_of s' x = cost_of s x) -> cand s' f = cand s f.
  Proof.
    intros H. unfold cand. f_equal. f_equal. apply map_ext_in. intros x Hx.
    apply H. by apply list_elem_of_In.
  Qed.

  (** A function with no pending input has every input settled. *)
Lemma counters_zero_done s i f (x : string) :
    counters_ok g s -> dsp_funcs g !! i = Some f -> rs_pending s !! i = Some 0 ->
    x ∈ fn_trig f -> trig_done s x = true.
  Proof.
    intros Hc Hf Hp Hx. rewrite (Hc i f Hf) in Hp. injection Hp as Hp.
    apply length_zero_iff_nil in Hp. destruct (trig_done s x) eqn:Hd; [done|].
    assert (Hin : In x (List.filter (fun d => negb (trig_done s d)) (remove_dups (fn_trig f)))).
    { apply filter_In. rewrite Hd. split; [|done]. apply list_elem_of_In, elem_of_remove_dups, Hx. }
    rewrite Hp in Hin. done.
  Qed.

  (** Settling [d] at cost [c] keeps the invariant (the popped entry is
      already out of the queue). *)
Lemma settle_inv (d : string) (st : settlement V) s :
    (forall i f, dsp_funcs g !! i = Some f -> START ∉ fn_outputs f) ->
    d <> START -> rs_settled s !! d = None ->
    (forall x st', rs_settled s !! x = Some st' -> st_cost st' <= st_cost st) ->
    (forall e, In e (rs_queue s) -> st_cost st <= e_cost e) ->
    counters_ok g s -> entries_ok s -> start_ok s ->
    fired_ok_mod g inputs s (fun _ f o => o = d /\ st_cost st <= cand s f) -> rs_deferred s = [] ->
    Inv g inputs (settle g inputs d st s).
  Proof.
    intros Hres Hds Hnone Hset Hq Hcnt Hent [HS HS'] Hfired Hdef.
    set (s1 := mk_rstate (rs_queue s) (<[d:=st]> (rs_settled s)) (rs_pending s)
                (rs_discarded s) (rs_results s) (rs_started s) (rs_deferred s)
                (rs_trace s ++ [ESettle d st])).
    assert (Htd : forall x, x <> d -> trig_done s1 x = trig_done s x).
    { intros x Hx. unfold trig_done, is_settled. simpl. by rewrite lookup_insert_ne by done. }
    assert (Hcost : forall x, x <> d -> cost_of s1 x = cost_of s x).
    { intros x Hx. unfold cost_of. simpl. by rewrite lookup_insert_ne by done. }
    apply (notify_inv g inputs d (st_cost st) s1); auto.
    - unfold cost_of. simpl. by rewrite lookup_insert_eq.
    - intros x st'. simpl. destruct (decide (x = d)) as [->|Hx].
      + rewrite lookup_insert_eq. by intros [= <-].
      + rewrite lookup_insert_ne by done. apply Hset.
    - intros i f Hf. simpl. rewrite (Hcnt i f Hf). f_equal. apply count_flip; auto.
      + unfold trig_done, is_settled. rewrite bool_decide_false by done.
        rewrite Hnone. by apply bool_decide_eq_false.
      + unfold trig_done, is_settled. simpl. rewrite bool_decide_false by done.
        rewrite lookup_insert_eq. by apply bool_decide_eq_true.
    - split; simpl; [by rewrite lookup_insert_ne by done|done].
    - intros i f Hf Hp0. destruct (Hfired i f Hf Hp0) as [H1 H2]. split; [done|].
      assert (Hcand : cand s1 f = cand s f).
      { apply cand_ext. intros x Hx. apply Hcost. intros ->.
        pose proof (counters_zero_done s i f d Hcnt Hf Hp0 Hx) as Hdone.
        unfold trig_done, is_settled in Hdone. rewrite bool_decide_false, Hnone in Hdone by done.
        by apply bool_decide_eq_true in Hdone as []. }
      intros Hndis Hdom o Ho. destruct (H2 Hndis Hdom o Ho) as [Hcov|[-> Hle]].
      + eapply covered_mono; [| | |exact Hcand|exact Hcov]; [|done|done].
        intros x st' Hx. simpl. rewrite lookup_insert_ne; [done|]. intros ->. congruence.
      + left. exists st. simpl. rewrite lookup_insert_eq, Hcand. done.
  Qed.
End SettleInv.

Section StartInv.
  Context {V : Type} (g : dsp V) (inputs : list (string * V)).
  Implicit Types (s : rstate V) (f : func_node V).

  (** Firing [START] (its entry, of cost 0, is already out of the queue). *)
Lemma start_inv s :
    (forall i f, dsp_funcs g !! i = Some f -> START ∉ fn_outputs f) ->
    rs_started s = false -> rs_settled s !! START = None ->
    (forall x st, rs_settled s !! x = Some st -> st_cost st <= 0) ->
    counters_ok g s -> entries_ok s -> fired_ok g inputs s -> rs_deferred s = [] ->
    Inv g inputs (start g inputs s).
  Proof.
    intros Hres Hst HS Hset Hcnt Hent Hfired Hdef.
    set (s1 := mk_rstate (rs_queue s) (rs_settled s) (rs_pending s) (rs_discarded s)
                (rs_results s) true (rs_deferred s) (rs_trace s)).
    apply (notify_inv g inputs START 0 s1); auto.
    - unfold cost_of. simpl. by rewrite HS.
    - intros e _. lia.
    - intros i f Hf. simpl. rewrite (Hcnt i f Hf). f_equal. apply count_flip.
      + unfold trig_done. by rewrite bool_decide_true.
      + unfold trig_done. by rewrite bool_decide_true.
      + intros x Hx. unfold trig_done, is_settled. simpl. by rewrite !bool_decide_false by done.
    - split; done.
  Qed.
End StartInv.

Section StepInv.
  Context {V : Type} (g : dsp V) (inputs : list (string * V)).
  Implicit Types (s : rstate V) (f : func_node V).

Lemma pick_min (q : list (entry V)) (e : entry V) (r : list (entry V)) :
    pick g q = Some (e, r) -> forall x, In x q -> e_cost e <= e_cost x.
  Proof.
    assert (Hspec : forall a b, entry_ltb g a b = false ->
      ~ (e_cost a < e_cost b \/ (e_cost a = e_cost b /\
         src_rank g (e_src a) < src_rank g (e_src b)))).
    { intros a b. unfold entry_ltb. intros H.
      apply orb_false_iff in H as [H1 H2]. apply Nat.ltb_ge in H1.
      apply andb_false_iff in H2 as [H2|H2]; [apply Nat.eqb_neq in H2|apply Nat.ltb_ge in H2]; lia. }
    assert (Hmin : forall q e r, pick g q = Some (e, r) -> forall x, In x q ->
      ~ (e_cost x < e_cost e \/ (e_cost x = e_cost e /\
         src_rank g (e_src x) < src_rank g (e_src e)))).
    { clear q e r. induction q as [|e0 q IH]; intros e r H x Hx; [done|]. simpl in H.
      destruct (pick g q) as [[m r0]|] eqn:Hp.
      - specialize (IH m r0 eq_refl). destruct (entry_ltb g m e0) eqn:Hlt; simplify_eq.
        + unfold entry_ltb in Hlt. apply orb_true_iff in Hlt as [Hlt|Hlt];
            [apply Nat.ltb_lt in Hlt|apply andb_true_iff in Hlt as [Ha Hb];
             apply Nat.eqb_eq in Ha; apply Nat.ltb_lt in Hb];
            destruct Hx as [<-|Hx]; try (by apply IH); lia.
        + apply Hspec in Hlt. destruct Hx as [<-|Hx]; [lia|]. specialize (IH x Hx). lia.
      - apply pick_None in Hp as ->. simplify_eq. destruct Hx as [<-|[]]. lia. }
    intros H x Hx. specialize (Hmin q e r H x Hx). lia.
  Qed.

Lemma invoke_spec i f s :
    rs_queue (invoke i f s).2 = rs_queue s /\ rs_settled (invoke i f s).2 = rs_settled s /\
    rs_pending (invoke i f s).2 = rs_pending s /\ rs_started (invoke i f s).2 = rs_started s /\
    rs_deferred (invoke i f s).2 = rs_deferred s /\
    (forall j r, rs_results s !! j = Some r -> rs_results (invoke i f s).2 !! j = Some r) /\
    rs_discarded s ⊆ rs_discarded (invoke i f s).2 /\
    match (invoke i f s).1 with
    | Some outs => rs_results (invoke i f s).2 !! i = Some outs
    | None => i ∈ rs_discarded (invoke i f s).2
    end.
  Proof.
    unfold invoke. destruct (rs_results s !! i) as [outs|] eqn:Hr.
    { simpl. repeat split; auto; set_solver. }
    destruct (args s f) as [a|]; [|simpl; repeat split; auto; set_solver].
    destruct (fn_call f a) as [outs|]; [|simpl; repeat split; auto; set_solver].
    destruct (length outs =? length (fn_outputs f)); simpl; [|repeat split; auto; set_solver].
    repeat split; auto.
    - intros j r Hj. rewrite lookup_insert_ne; [done|]. intros ->. congruence.
    - by rewrite lookup_insert_eq.
  Qed.
End StepInv.

Section PopInv.
  Context {V : Type} (g : dsp V) (inputs : list (string * V)).
  Implicit Types (s : rstate V) (f : func_node V).

Definition start_entry : entry V := mk_entry 0 START SrcStart.

  (** What remains of the invariant once the least entry [e] is popped. *)
Record PopInv s (e : entry V) s1 : Prop := {
    pop_counters : counters_ok g s1;
    pop_entries : entries_ok s1;
    pop_above : queue_above s1;
    pop_deferred : rs_deferred s1 = [];
    pop_start_unsettled : rs_settled s1 !! START = None;
    pop_start : rs_started s1 = false -> In start_entry (rs_queue s1) \/ e = start_entry;
    pop_fired : fired_ok_mod g inputs s1 (fun i f o => e = mk_entry (cand s f) o (SrcFun i))
  }.

Lemma pop_base s e q :
    Inv g inputs s -> pick g (rs_queue s) = Some (e, q) -> PopInv s e (set_queue s q).
  Proof.
    intros [Hc Ha Hent [HS HS'] Hf Hd] Hp. apply pick_Some in Hp as [_ Hin].
    split; simpl; auto.
    - intros x Hx. apply Hent, Hin. by right.
    - intros d st x Hd' Hx. eapply Ha; [done|]. apply Hin. by right.
    - intros Hst. destruct (proj1 (Hin _) (HS' Hst)) as [Heq|Hx]; [right|left; done].
      symmetry. exact Heq.
    - intros i f Hfi Hp0. destruct (Hf i f Hfi Hp0) as [H1 H2]. split; [done|].
      intros Hndis Hdom o Ho. destruct (H2 Hndis Hdom o Ho) as [Hs|[Hq|Hr]].
      + left. by left.
      + apply Hin in Hq as [Hq|Hq]; [by right|]. left. right. by left.
      + left. by right; right.
  Qed.

  (** A popped entry that changes nothing leaves a state satisfying [Inv],
      provided it was not needed as a witness. *)
Lemma inv_pop_skip s e s1 :
    PopInv s e s1 -> cand s1 = cand s ->
    (forall i f o, dsp_funcs g !! i = Some f -> rs_pending s1 !! i = Some 0 ->
       i ∉ rs_discarded s1 -> e = mk_entry (cand s f) o (SrcFun i) -> covered s1 i f o) ->
    (rs_started s1 = false -> e <> start_entry) ->
    Inv g inputs s1.
  Proof.
    intros [Hc Hent Ha Hd HS HS' Hf] Hcand Hwit Hstart. split; auto.
    - split; [done|]. intros Hst. destruct (HS' Hst); [done|]. by apply Hstart in Hst.
    - intros i f Hfi Hp0. destruct (Hf i f Hfi Hp0) as [H1 H2]. split; [done|].
      intros Hndis Hdom o Ho. destruct (H2 Hndis Hdom o Ho) as [Hcov|Hw]; [done|]. eauto.
  Qed.

Lemma counters_ok_ext s s' :
    rs_pending s' = rs_pending s -> rs_settled s' = rs_settled s -> rs_started s' = rs_started s ->
    counters_ok g s -> counters_ok g s'.
  Proof.
    intros Hp Hs Hst Hc i f Hf. rewrite Hp, (Hc i f Hf). f_equal.
    unfold unsettled_count. apply filter_length_same. intros x _.
    unfold trig_done, is_settled. by rewrite Hs, Hst.
  Qed.
End PopInv.

Section StepInvMain.
  Context {V : Type} (g : dsp V) (inputs : list (string * V)).
  Implicit Types (s : rstate V) (f : func_node V).

  Hypothesis Hres : forall i f, dsp_funcs g !! i = Some f -> START ∉ fn_outputs f.

  (** Facts about the popped entry [e]. *)
Lemma popped_facts s e q :
    Inv g inputs s -> pick g (rs_queue s) = Some (e, q) ->
    (e_src e = SrcStart <-> e_data e = START) /\ (e_src e = SrcStart -> e_cost e = 0) /\
    (forall x st, rs_settled s !! x = Some st -> st_cost st <= e_cost e) /\
    (forall x, In x q -> e_cost e <= e_cost x).
  Proof.
    intros HI Hp. pose proof (pick_min g _ _ _ Hp) as Hmin.
    apply pick_Some in Hp as [_ Hin]. assert (He : In e (rs_queue s)) by (apply Hin; by left).
    destruct (inv_entries _ _ _ HI e He) as [H1 H2]. split; [done|]. split; [done|].
    split; [intros x st Hx; by apply (inv_above _ _ _ HI x st e)|].
    intros x Hx. apply Hmin, Hin. by right.
  Qed.

Lemma inv_pop_fun s e q i f :
    Inv g inputs s -> pick g (rs_queue s) = Some (e, q) -> e_src e = SrcFun i ->
    dsp_funcs g !! i = Some f -> rs_settled s !! e_data e = None ->
    Inv g inputs (let '(r, s') := invoke i f (set_queue s q) in
                  match r ≫= fun outs => out_at f outs (e_data e) with
                  | Some v => settle g inputs (e_data e) (mk_settlement v (e_cost e) (SrcFun i)) s'
                  | None => s'
                  end).
  Proof.
    intros HI Hp Hsrc Hf Hnone.
    destruct (popped_facts s e q HI Hp) as (Hsd & _ & Hset & Hmin).
    assert (Hd : e_data e <> START) by (intros Hx; apply Hsd in Hx; congruence).
    destruct (pop_base g inputs s e q HI Hp) as [Hc Hent Ha Hdef HS HS' Hfd].
    pose proof (invoke_spec i f (set_queue s q)) as (Hq2 & Hs2 & Hp2 & Hst2 & Hd2 & Hr2 & Hdis2 & Hres2).
    destruct (invoke i f (set_queue s q)) as [r s2]. simpl in *.
    assert (Hcand : cand s2 = cand s) by (unfold cand, cost_of; by rewrite Hs2).
    assert (Hfired2 : fired_ok_mod g inputs s2
      (fun i' f' o => i' = i /\ f' = f /\ o = e_data e /\ e_cost e = cand s f)).
    { intros i' f' Hf' Hp0. rewrite Hp2 in Hp0. destruct (Hfd i' f' Hf' Hp0) as [H1 H2].
      split; [intros; set_solver|]. intros Hndis Hdom o Ho.
      destruct (H2 ltac:(set_solver) Hdom o Ho) as [Hcov|Hw].
      - left. apply (covered_mono (set_queue s q) s2); [| | |by rewrite Hcand|exact Hcov];
          [by rewrite Hs2|done|by rewrite Hq2].
      - right. subst e. simpl in *. injection Hsrc as ->. rewrite Hf in Hf'. injection Hf' as ->. done. }
    destruct (r ≫= fun outs => out_at f outs (e_data e)) as [v|] eqn:Hout.
    - apply settle_inv; auto.
      + by rewrite Hs2.
      + intros x st. rewrite Hs2. apply Hset.
      + rewrite Hq2. apply Hmin.
      + eapply counters_ok_ext; [done|done|done|exact Hc].
      + intros x. rewrite Hq2. apply Hent.
      + split; [by rewrite Hs2|]. rewrite Hst2, Hq2. intros Hst. destruct (HS' Hst) as [? | ->]; [done|].
        by rewrite Hsrc in Hsd.
      + intros i' f' Hf' Hp0. destruct (Hfired2 i' f' Hf' Hp0) as [H1 H2]. split; [done|].
        intros Hndis Hdom o Ho. destruct (H2 Hndis Hdom o Ho) as [?|(-> & -> & -> & Hc')]; [by left|].
        right. simpl. rewrite Hcand. split; [done|lia].
      + by rewrite Hd2.
    - split.
      + eapply counters_ok_ext; [done|done|done|exact Hc].
      + intros x st y. rewrite Hs2, Hq2. apply Ha.
      + intros x. rewrite Hq2. apply Hent.
      + split; [by rewrite Hs2|]. rewrite Hst2, Hq2. intros Hst. destruct (HS' Hst) as [? | ->]; [done|].
        by rewrite Hsrc in Hsd.
      + intros i' f' Hf' Hp0. destruct (Hfired2 i' f' Hf' Hp0) as [H1 H2]. split; [done|].
        intros Hndis Hdom o Ho. destruct (H2 Hndis Hdom o Ho) as [?|(-> & -> & -> & Hc')]; [done|].
        destruct r as [outs|]; simpl in Hout; [|done]. right; right. eauto.
      + by rewrite Hd2.
  Qed.
End StepInvMain.

Section StepInvFinal.
  Context {V : Type} (g : dsp V) (inputs : list (string * V)).
  Implicit Types (s : rstate V) (f : func_node V).
  Hypothesis Hres : forall i f, dsp_funcs g !! i = Some f -> START ∉ fn_outputs f.

  (** Popping an entry that is not a function's, or is skipped. *)
Lemma inv_pop_plain s e q :
    Inv g inputs s -> pick g (rs_queue s) = Some (e, q) ->
    (forall i, e_src e = SrcFun i -> exists st, rs_settled s !! e_data e = Some st) ->
    (e_src e = SrcStart -> rs_started s = true) ->
    Inv g inputs (set_queue s q).
  Proof.
    intros HI Hp Hfun Hstart.
    destruct (popped_facts g inputs s e q HI Hp) as (Hsd & _ & Hset & _).
    apply (inv_pop_skip g inputs s e); [by apply pop_base|done| |].
    - intros i f o _ _ _ ->. simpl in *. destruct (Hfun i eq_refl) as [st Hst].
      left. exists st. split; [done|]. specialize (Hset _ _ Hst). done.
    - intros Hst ->. simpl in *. rewrite Hstart in Hst; done.
  Qed.

Lemma inv_pop_value s e q (v : V) :
    Inv g inputs s -> pick g (rs_queue s) = Some (e, q) ->
    (e_src e = SrcInput v \/ e_src e = SrcDefault v) -> rs_settled s !! e_data e = None ->
    Inv g inputs (settle g inputs (e_data e) (mk_settlement v (e_cost e) (e_src e)) (set_queue s q)).
  Proof.
    intros HI Hp Hsrc Hnone.
    destruct (popped_facts g inputs s e q HI Hp) as (Hsd & _ & Hset & Hmin).
    assert (Hns : e_src e <> SrcStart) by (destruct Hsrc as [-> | ->]; done).
    destruct (pop_base g inputs s e q HI Hp) as [Hc Hent Ha Hdef HS HS' Hfd].
    apply settle_inv; simpl; auto.
    - intros Hx. by apply Hsd in Hx.
    - split; [done|]. intros Hst. destruct (HS' Hst) as [? | ->]; done.
    - intros i f Hf Hp0. destruct (Hfd i f Hf Hp0) as [H1 H2]. split; [done|].
      intros Hndis Hdom o Ho. destruct (H2 Hndis Hdom o Ho) as [?| ->]; [by left|].
      destruct Hsrc as [Hx|Hx]; simpl in Hx; done.
  Qed.

  (** Every step preserves the invariant. *)
Lemma step_inv s s' : Inv g inputs s -> step g inputs s = Some s' -> Inv g inputs s'.
  Proof.
    intros HI. unfold step. destruct (pick g (rs_queue s)) as [[e q]|] eqn:Hp.
    2: { by rewrite (inv_deferred _ _ _ HI). }
    intros [= <-]. destruct (popped_facts g inputs s e q HI Hp) as (Hsd & Hs0 & Hset & _).
    unfold pop_entry. destruct (e_src e) as [v| |v|i] eqn:Hsrc.
    - unfold is_settled. simpl. case_bool_decide as Hs.
      + apply (inv_pop_plain s e q); auto; by rewrite Hsrc.
      + rewrite <-Hsrc. apply inv_pop_value; auto. by apply eq_None_not_Some.
    - destruct (rs_started (set_queue s q)) eqn:Hst.
      + apply (inv_pop_plain s e q); auto; by rewrite Hsrc.
      + destruct (pop_base g inputs s e q HI Hp) as [Hc Hent Ha Hdef HS HS' Hfd].
        apply start_inv; auto.
        * intros x st Hx. specialize (Hset x st Hx). rewrite Hs0 in Hset; auto.
        * intros i f Hf Hp0. destruct (Hfd i f Hf Hp0) as [H1 H2]. split; [done|].
          intros Hndis Hdom o Ho. destruct (H2 Hndis Hdom o Ho) as [?| ->]; [done|]. done.
    - unfold is_settled. simpl. case_bool_decide as Hs.
      + apply (inv_pop_plain s e q); auto; by rewrite Hsrc.
      + rewrite <-Hsrc. apply inv_pop_value; auto. by apply eq_None_not_Some.
    - unfold is_settled. simpl. case_bool_decide as Hs.
      { apply (inv_pop_plain s e q); [done|done| |]; [intros ? _; exact Hs|by rewrite Hsrc]. }
      destruct (dsp_funcs g !! i) as [f|] eqn:Hf.
      2: { apply (inv_pop_skip g inputs s e); [by apply pop_base|done| |].
           - intros i' f' o Hf' _ _ ->. simpl in Hsrc. injection Hsrc as ->. congruence.
           - intros _ ->. done. }
      case_bool_decide as Hdis.
      { apply (inv_pop_skip g inputs s e); [by apply pop_base|done| |].
        - intros i' f' o Hf' _ Hndis ->. simpl in Hsrc. injection Hsrc as ->. done.
        - intros _ ->. done. }
      apply (inv_pop_fun g inputs Hres s e q i f); auto. by apply eq_None_not_Some.
  Qed.
End StepInvFinal.

Section Completeness.
  Context {V : Type} (g : dsp V) (inputs : list (string * V)).
  Implicit Types (s : rstate V) (f : func_node V).

Lemma dispatch_inv (requested : list string) :
    start_reserved g inputs = true -> no_wait_defaults g inputs = true ->
    Inv g inputs (dispatch g inputs requested).
  Proof.
    intros Hr Hw. pose proof (start_reserved_spec g inputs Hr) as (_ & _ & Hres).
    eapply (steps_ind_inv g inputs); [|apply dispatch_steps|by apply init_inv].
    intros s s' HI Hs. by apply (step_inv g inputs Hres s).
  Qed.

Lemma filter_done_nil s f :
    (forall d, d ∈ fn_trig f -> trig_done s d = true) ->
    List.filter (fun d => negb (trig_done s d)) (remove_dups (fn_trig f)) = [].
  Proof.
    intros H. destruct (List.filter _ _) as [|x l] eqn:Hf; [done|].
    assert (Hx : In x (List.filter (fun d => negb (trig_done s d)) (remove_dups (fn_trig f))))
      by (rewrite Hf; by left).
    apply filter_In in Hx as [Hx Hn]. rewrite H in Hn; [done|].
    by apply elem_of_remove_dups, list_elem_of_In.
  Qed.

  (** In a final state of a full run, the pending counter of a function
      whose inputs are all settled is 0. *)
Lemma final_pending_zero s i f :
    Inv g inputs s -> rs_queue s = [] -> dsp_funcs g !! i = Some f ->
    (forall d, d ∈ fn_inputs f -> is_Some (rs_settled s !! d)) ->
    rs_pending s !! i = Some 0.
  Proof.
    intros HI Hq Hf Hin. rewrite (inv_counters _ _ _ HI i f Hf). f_equal.
    unfold unsettled_count. rewrite filter_done_nil; [done|].
    assert (Hst : rs_started s = true).
    { destruct (rs_started s) eqn:Hst; [done|].
      apply (proj2 (inv_start _ _ _ HI)) in Hst. by rewrite Hq in Hst. }
    intros d Hd. unfold trig_done. case_bool_decide; [done|].
    unfold fn_trig in Hd. destruct (fn_inputs f) eqn:Hi.
    - apply list_elem_of_singleton in Hd. done.
    - apply bool_decide_eq_true, Hin. by rewrite ?Hi.
  Qed.
End Completeness.

(** Completeness and optimality (the Bellman
    condition) of a full run ([requested_outputs] empty): for every function
    whose inputs are all settled and which is not discarded, each of its
    outputs is settled at a cost no greater than the function's candidate
    cost [weight + max(input costs)], unless the function's own result left
    that output unproduced (a sub-dispatcher that did not reach it).  It
    needs [START] to be a reserved id and no wait-for-input default (those
    are settled at cost 0 after the queue empties, out of cost order). *)
Theorem dispatch_complete {V} (g : dsp V) (inputs : list (string * V)) :
  start_reserved g inputs = true -> no_wait_defaults g inputs = true ->
  forall i f, dsp_funcs g !! i = Some f ->
  (forall d, d ∈ fn_inputs f -> is_Some (rs_settled (dispatch g inputs []) !! d)) ->
  i ∉ rs_discarded (dispatch g inputs []) ->
  forall o, o ∈ fn_outputs f ->
    (exists st, rs_settled (dispatch g inputs []) !! o = Some st /\
                st_cost st <= cand (dispatch g inputs []) f) \/
    (exists outs, rs_results (dispatch g inputs []) !! i = Some outs /\ out_at f outs o = None).
Proof.
  intros Hr Hw i f Hf Hin Hndis o Ho.
  pose proof (dispatch_inv g inputs [] Hr Hw) as HI.
  assert (Hq : rs_queue (dispatch g inputs []) = []).
  { destruct (dispatch_finished g inputs []) as [Hd|Hs]; [done|].
    unfold step in Hs. destruct (pick g _) as [[]|] eqn:Hp; [done|]. by apply pick_None in Hp. }
  pose proof (final_pending_zero g inputs _ i f HI Hq Hf Hin) as Hp0.
  destruct (inv_fired _ _ _ HI i f Hf Hp0) as [H1 H2].
  destruct (domain_ok inputs f) eqn:Hdom; [|exfalso; apply Hndis, H1; done].
  destruct (H2 Hndis eq_refl o Ho) as [?|[Hq'|?]]; [by left| |by right].
  by rewrite Hq in Hq'.
Qed.

(** The completeness theorem on the specification's example: [f2] never
    runs, yet its output [b] is settled no dearer than [f2]'s candidate. *)
Lemma dispatch_complete_witness :
  (exists st, rs_settled (dispatch ex_dsp [("a", 3)] []) !! "b" = Some st /\
              st_cost st <= cand (dispatch ex_dsp [("a", 3)] []) ex_f2) \/
  (exists outs, rs_results (dispatch ex_dsp [("a", 3)] []) !! 1 = Some outs /\
                out_at ex_f2 outs "b" = None).
Proof.
  apply (dispatch_complete ex_dsp [("a", 3)]) with (i := 1) (f := ex_f2).
  - vm_compute. reflexivity.
  - vm_compute. reflexivity.
  - reflexivity.
  - intros d Hd. apply list_elem_of_singleton in Hd. subst d. vm_compute. eexists. reflexivity.
  - apply (bool_decide_unpack _). vm_compute. reflexivity.
  - left.
Defined.
