(* ===== verification/Steps.v ===== *)
(** * One step of the resolver as a relation, and the properties of runs
    proved by rule induction over it

    [step] pops the least entry (or, once the queue is exhausted, the next
    kept-back default) and then does exactly one of: nothing (a duplicate
    or an entry of a discarded function), fire [START], settle an input or
    default value, or invoke a function lazily and settle the popped output
    from its result.  [op_result] lists these cases; [step_spec] shows that
    [step] is one of them.  The properties of the workflow trace follow:
    settlements are never revised, a function whose domain fails is never
    invoked, each function is invoked at most once, and an invocation
    always serves the output whose entry triggered it. *)

From stdpp Require Import base list gmap strings.
From Stdlib Require Import Lia.
From S2P Require Import Prelude Graph Resolver.

Section StepRel.
Context {V : Type} (g : dsp V) (inputs : list (string * V)).
Implicit Types (s : rstate V) (f : func_node V).

(** What processing the popped entry [e] does to the state [s1]. *)
Inductive op_result (e : entry V) (s1 : rstate V) : rstate V -> Prop :=
| op_skip : op_result e s1 s1
| op_start :
    e_src e = SrcStart -> rs_started s1 = false -> op_result e s1 (start g inputs s1)
| op_settle (v : V) :
    (e_src e = SrcInput v \/ e_src e = SrcDefault v) -> rs_settled s1 !! e_data e = None ->
    op_result e s1 (settle g inputs (e_data e) (mk_settlement v (e_cost e) (e_src e)) s1)
| op_call (j : nat) f (r : option (list (option V))) (s2 : rstate V) :
    e_src e = SrcFun j -> dsp_funcs g !! j = Some f -> j ∉ rs_discarded s1 ->
    rs_settled s1 !! e_data e = None -> invoke j f s1 = (r, s2) ->
    r ≫= (fun outs => out_at f outs (e_data e)) = None -> op_result e s1 s2
| op_call_settle (j : nat) f (r : option (list (option V))) (s2 : rstate V) (v : V) :
    e_src e = SrcFun j -> dsp_funcs g !! j = Some f -> j ∉ rs_discarded s1 ->
    rs_settled s1 !! e_data e = None -> invoke j f s1 = (r, s2) ->
    r ≫= (fun outs => out_at f outs (e_data e)) = Some v ->
    op_result e s1 (settle g inputs (e_data e) (mk_settlement v (e_cost e) (SrcFun j)) s2).

Lemma pop_entry_op (e : entry V) s1 : op_result e s1 (pop_entry g inputs e s1).
Proof.
  unfold pop_entry, is_settled. destruct (e_src e) as [v| |v|j] eqn:Hsrc.
  - case_bool_decide as Hs; [apply op_skip|]. rewrite <-Hsrc.
    apply op_settle; [by left|by apply eq_None_not_Some].
  - destruct (rs_started s1) eqn:Hst; [apply op_skip|by apply op_start].
  - case_bool_decide as Hs; [apply op_skip|]. rewrite <-Hsrc.
    apply op_settle; [by right|by apply eq_None_not_Some].
  - case_bool_decide as Hs; [apply op_skip|].
    destruct (dsp_funcs g !! j) as [f|] eqn:Hf; [|apply op_skip].
    case_bool_decide as Hd; [apply op_skip|].
    destruct (invoke j f s1) as [r s2] eqn:Hinv.
    destruct (r ≫= _) as [v|] eqn:Hout.
    + eapply op_call_settle; eauto. by apply eq_None_not_Some.
    + eapply op_call; eauto. by apply eq_None_not_Some.
Qed.

(** Every step pops an entry or a kept-back default and processes it. *)
Lemma step_spec s s' :
  step g inputs s = Some s' ->
  exists e s1, op_result e s1 s' /\
    ((exists q, pick g (rs_queue s) = Some (e, q) /\ s1 = set_queue s q) \/
     (exists v ds, rs_queue s = [] /\ rs_deferred s = (e_data e, v) :: ds /\
        e = mk_entry 0 (e_data e) (SrcDefault v) /\ s1 = set_deferred s ds)).
Proof.
  unfold step. destruct (pick g (rs_queue s)) as [[e q]|] eqn:Hp.
  - intros [= <-]. exists e, (set_queue s q). split; [apply pop_entry_op|]. left. eauto.
  - destruct (rs_deferred s) as [|[d v] ds] eqn:Hd; [done|]. intros [= <-].
    exists (mk_entry 0 d (SrcDefault v)), (set_deferred s ds). split.
    + unfold is_settled. case_bool_decide as Hs; [apply op_skip|].
      apply (op_settle (mk_entry 0 d (SrcDefault v)) _ v); [by right|by apply eq_None_not_Some].
    + right. exists v, ds. apply pick_None in Hp. done.
Qed.
End StepRel.

(** ** Rule induction over runs *)

Section RuleInduction.
Context {V : Type} (g : dsp V) (inputs : list (string * V)).
Implicit Types (s : rstate V) (f : func_node V).

(** A property of states preserved by popping and by each kind of
    processing holds along every run from a state that has it. *)
Lemma steps_rule_ind (P : rstate V -> Prop) :
  (forall s e q, P s -> pick g (rs_queue s) = Some (e, q) -> P (set_queue s q)) ->
  (forall s ds, P s -> P (set_deferred s ds)) ->
  (forall s e s1 s', P s -> (In e (rs_queue s) \/ exists v, e_src e = SrcDefault v) ->
     P s1 -> op_result g inputs e s1 s' -> P s') ->
  forall s s', steps g inputs s s' -> P s -> P s'.
Proof.
  intros Hpop Hdef Hop. apply steps_ind_inv. intros s s' HP Hs.
  destruct (step_spec g inputs s s' Hs) as (e & s1 & Hr & [(q & Hp & ->)|(v & ds & _ & _ & He & ->)]).
  - apply (Hop s e (set_queue s q) s'); [done| |by apply (Hpop s e q)|done].
    left. apply pick_Some in Hp as [_ Hin]. apply Hin. by left.
  - apply (Hop s e (set_deferred s ds) s'); [done| |by apply Hdef|done].
    right. exists v. by rewrite He.
Qed.
End RuleInduction.

(** ** Domain gating *)

Section Gating.
Context {V : Type} (g : dsp V) (inputs : list (string * V)).
Implicit Types (s : rstate V) (f : func_node V).
Variable (i : nat) (fi : func_node V).
Hypothesis Hfi : dsp_funcs g !! i = Some fi.
Hypothesis Hdom : domain_ok inputs fi = false.

(** Function [i] has no entry queued, no result, no settlement and no
    invocation in the trace. *)
Definition gated s : Prop :=
  (forall e, In e (rs_queue s) -> e_src e <> SrcFun i) /\
  rs_results s !! i = None /\
  (forall d st, rs_settled s !! d = Some st -> st_src st <> SrcFun i) /\
  (forall a o, ~ In (EInvoke i a o) (rs_trace s)).

Lemma notify_gated d s : gated s -> gated (notify g inputs d s).
Proof.
  intros (Hq & Hr & Hs & Ht).
  destruct (notify_core g inputs d s) as (Hs' & Hr' & _ & _).
  destruct (notify_effect_0 g inputs d s) as ((new & Hqn & Hnew) & (t & Htn & Hev) & _ & _).
  repeat split.
  - rewrite Hqn. intros e [He|He]%in_app_or; [by apply Hq|].
    destruct (Hnew e He) as (j & f & _ & Hf & _ & _ & Hok & Hsrc & _). rewrite Hsrc.
    intros [= ->]. congruence.
  - by rewrite Hr'.
  - intros d' st. rewrite Hs'. apply Hs.
  - rewrite Htn. intros a o [Hin|Hin]%in_app_or; [by apply (Ht a o)|].
    by destruct (Hev _ Hin) as (j & ? & _).
Qed.

Lemma settle_gated d st s : st_src st <> SrcFun i -> gated s -> gated (settle g inputs d st s).
Proof.
  intros Hst (Hq & Hr & Hs & Ht). apply notify_gated. repeat split; simpl; auto.
  - intros d' st'. destruct (decide (d' = d)) as [->|]; [rewrite lookup_insert_eq; by intros [= <-]|].
    rewrite lookup_insert_ne by done. apply Hs.
  - intros a o [Hin|[Hin|[]]]%in_app_or; [by apply (Ht a o)|done].
Qed.

Lemma start_gated s : gated s -> gated (start g inputs s).
Proof. intros (Hq & Hr & Hs & Ht). by apply notify_gated. Qed.

Lemma invoke_gated j f s : j <> i -> gated s -> gated (invoke j f s).2.
Proof.
  intros Hj (Hq & Hr & Hs & Ht). unfold invoke.
  destruct (rs_results s !! j); [done|].
  destruct (args s f); [|repeat split; simpl; auto; intros a o [?|[?|[]]]%in_app_or; [by apply (Ht a o)|done]].
  destruct (fn_call f _); [|repeat split; simpl; auto; intros a o [?|[?|[]]]%in_app_or; [by apply (Ht a o)|done]].
  case_match; repeat split; simpl; auto.
  - by rewrite lookup_insert_ne.
  - intros a o [?|[Heq|[]]]%in_app_or; [by apply (Ht a o)|]. injection Heq as ->. done.
  - intros a o [?|[?|[]]]%in_app_or; [by apply (Ht a o)|done].
Qed.

Lemma op_gated e s1 s' :
  e_src e <> SrcFun i -> gated s1 -> op_result g inputs e s1 s' -> gated s'.
Proof.
  intros He Hg Hop. destruct Hop as [| |v Hv _|j f r s2 Hsrc _ _ _ Hinv _|j f r s2 v Hsrc _ _ _ Hinv _].
  - done.
  - by apply start_gated.
  - apply settle_gated; [simpl; destruct Hv as [-> | ->]; done|done].
  - replace s2 with (invoke j f s1).2 by (by rewrite Hinv). apply invoke_gated; [|done].
    intros ->. by apply He.
  - apply settle_gated; [simpl; intros [= ->]; by apply He|].
    replace s2 with (invoke j f s1).2 by (by rewrite Hinv). apply invoke_gated; [|done].
    intros ->. by apply He.
Qed.

Lemma gated_steps s s' : steps g inputs s s' -> gated s -> gated s'.
Proof.
  apply steps_rule_ind.
  - intros s0 e q (Hq & Hr & Hs & Ht) Hp. repeat split; auto. simpl. intros x Hx. apply Hq.
    apply pick_Some in Hp as [_ Hin]. apply Hin. by right.
  - intros s0 ds (Hq & Hr & Hs & Ht). by repeat split.
  - intros s0 e s1 s'' (Hq & _) Hin Hg1 Hop. eapply op_gated; [|exact Hg1|exact Hop].
    destruct Hin as [Hin|[v ->]]; [by apply Hq|done].
Qed.

Lemma gated_init : gated (init_state g inputs).
Proof.
  repeat split; simpl.
  - intros e [He|[<-|He]]%in_app_or; [apply in_map_iff in He as (? & <- & _)|done|
      apply in_map_iff in He as (? & <- & _)]; done.
  - intros d st. by rewrite lookup_empty.
  - by intros a o [].
Qed.
End Gating.

(** Domain gating (spec, section 8): a function whose [input_domain] is
    false on the raw inputs is never invoked, so it never appears as an
    invocation in the workflow, and no settled value comes from it. *)
Theorem dispatch_domain_gated {V} (g : dsp V) (inputs : list (string * V))
    (requested : list string) (i : nat) (f : func_node V) :
  dsp_funcs g !! i = Some f -> domain_ok inputs f = false ->
  (forall a o, ~ In (EInvoke i a o) (rs_trace (dispatch g inputs requested))) /\
  (forall d st, rs_settled (dispatch g inputs requested) !! d = Some st -> st_src st <> SrcFun i).
Proof.
  intros Hf Hd.
  destruct (gated_steps g inputs i f Hf Hd _ _ (dispatch_steps g inputs requested)
              (gated_init g inputs i)) as (_ & _ & Hs & Ht).
  split; [exact Ht|exact Hs].
Qed.
