(* ===== verification/Unreach.v ===== *)
(** * Unreachable data (spec, section 2: "a Function node with an
    unsatisfiable input list is simply never eligible")

    A set [X] of data ids that no input supplies, that has no default, and
    whose every producer either fails its domain or itself needs an id of
    [X], is never settled; a function needing an id of [X] is never
    invoked.  The proof is an invariant of runs, [unreach], preserved by
    every step; it reads the pending counters through [counters_ok] of the
    search invariant [Inv] (file [Dijkstra]). *)

From stdpp Require Import base list gmap strings.
From Stdlib Require Import Lia.
From S2P Require Import Prelude Graph Resolver Dijkstra Steps.

Section Unreach.
Context {V : Type} (g : dsp V) (inputs : list (string * V)).
Implicit Types (s : rstate V) (f : func_node V).
Variable X : list string.

(** Function [f] needs an id of [X]. *)
Definition needs_X f : Prop := exists x, x ∈ X /\ x ∈ fn_trig f.

Definition unreach s : Prop :=
  (forall x, x ∈ X -> rs_settled s !! x = None) /\
  (forall e, In e (rs_queue s) -> e_data e ∉ X /\
     forall j f, e_src e = SrcFun j -> dsp_funcs g !! j = Some f -> ~ needs_X f) /\
  (forall j f, dsp_funcs g !! j = Some f -> needs_X f ->
     rs_results s !! j = None /\ forall a o, ~ In (EInvoke j a o) (rs_trace s)) /\
  (forall d v, In (d, v) (rs_deferred s) -> d ∉ X).

Hypothesis HX_start : START ∉ X.
Hypothesis HX_inputs : forall x v, x ∈ X -> ~ In (x, v) inputs.
Hypothesis HX_defaults : forall x dn, x ∈ X -> In (x, dn) (dsp_data g) -> dn_default dn = None.
Hypothesis HX_producers : forall j f o, dsp_funcs g !! j = Some f -> o ∈ fn_outputs f -> o ∈ X ->
  domain_ok inputs f = false \/ needs_X f.

Lemma unsettled_two s f (d x : string) :
  d ∈ fn_trig f -> x ∈ fn_trig f -> d <> x -> trig_done s d = false -> trig_done s x = false ->
  2 <= unsettled_count s f.
Proof.
  intros Hd Hx Hne Hdd Hxd. unfold unsettled_count.
  change 2 with (length [d; x]). apply NoDup_incl_length.
  - constructor; [by intros [->|[]]|]. constructor; [by intros []|constructor].
  - intros y [<-|[<-|[]]]; apply filter_In; rewrite ?Hdd, ?Hxd; split; try done;
      apply list_elem_of_In, elem_of_remove_dups; done.
Qed.

(** Functions that fire when [d] settles do not need [X]. *)
Definition fires_clean (d : string) s : Prop :=
  forall i f, dsp_funcs g !! i = Some f -> d ∈ fn_trig f -> rs_pending s !! i = Some 1 -> ~ needs_X f.

Lemma notify_unreach d s : unreach s -> fires_clean d s -> unreach (notify g inputs d s).
Proof.
  intros (H1 & H2 & H3 & H4) Hcl.
  destruct (notify_core g inputs d s) as (Hs & Hr & _ & Hd).
  destruct (notify_effect_0 g inputs d s) as ((new & Hq & Hnew) & (t & Ht & Hev) & _ & _).
  split; [|split; [|split]].
  - intros x Hx. rewrite Hs. auto.
  - rewrite Hq. intros e [He|He]%in_app_or; [by apply H2|].
    destruct (Hnew e He) as (i & f & _ & Hf & Hdf & Hp & Hdom & Hsrc & _ & Ho).
    pose proof (Hcl i f Hf Hdf Hp) as Hc. split.
    + intros HeX. destruct (HX_producers i f _ Hf Ho HeX) as [Hdom'|Hn]; [congruence|done].
    + intros j f' Hj Hf'. rewrite Hsrc in Hj. injection Hj as <-. congruence.
  - intros j f Hf Hn. rewrite Hr, Ht. destruct (H3 j f Hf Hn) as [Hr0 Ht0].
    split; [done|]. intros a o [Hin|Hin]%in_app_or; [by apply (Ht0 a o)|].
    by destruct (Hev _ Hin) as (? & ? & _).
  - intros d' v. rewrite Hd. apply H4.
Qed.
Lemma X_not_done s x : unreach s -> x ∈ X -> trig_done s x = false.
Proof.
  intros (H1 & _) Hx. unfold trig_done, is_settled.
  rewrite bool_decide_false by (intros ->; by apply HX_start).
  apply bool_decide_eq_false. rewrite (H1 x Hx). by intros [].
Qed.

(** With the counters exact, a function whose last pending input is [d]
    (not in [X]) has every other input settled, so it does not need [X]. *)
Lemma fires_clean_counters s s1 d :
  counters_ok g s -> rs_pending s1 = rs_pending s -> unreach s ->
  d ∉ X -> trig_done s d = false -> fires_clean d s1.
Proof.
  intros Hc Hp HU HdX Hdd i f Hf Hdf Hp1 (x & HxX & Hxf).
  rewrite Hp, (Hc i f Hf) in Hp1. injection Hp1 as Hp1.
  assert (Hne : d <> x) by (intros ->; done).
  pose proof (unsettled_two s f d x Hdf Hxf Hne Hdd (X_not_done s x HU HxX)). lia.
Qed.

Lemma settle_unreach d st s :
  counters_ok g s -> unreach s -> d ∉ X -> d <> START -> rs_settled s !! d = None ->
  unreach (settle g inputs d st s).
Proof.
  intros Hc HU HdX HdS Hd. pose proof HU as (H1 & H2 & H3 & H4). apply notify_unreach.
  - split; [|split; [|split]]; simpl; auto.
    + intros x Hx. rewrite lookup_insert_ne by (intros ->; done). auto.
    + intros j f Hf Hn. destruct (H3 j f Hf Hn) as [Hr Ht]. split; [done|].
      intros a o [Hin|[Hin|[]]]%in_app_or; [by apply (Ht a o)|done].
  - apply (fires_clean_counters s); [done|done|done|done|].
    unfold trig_done, is_settled. rewrite bool_decide_false by done.
    apply bool_decide_eq_false. rewrite Hd. by intros [].
Qed.

Lemma start_unreach s :
  counters_ok g s -> unreach s -> rs_started s = false -> unreach (start g inputs s).
Proof.
  intros Hc HU Hst. pose proof HU as (H1 & H2 & H3 & H4). apply notify_unreach.
  - split; [|split; [|split]]; simpl; auto.
  - apply (fires_clean_counters s); [done|done|done|done|].
    unfold trig_done. by rewrite bool_decide_true.
Qed.

Lemma invoke_unreach j f s :
  dsp_funcs g !! j = Some f -> ~ needs_X f -> unreach s -> unreach (invoke j f s).2.
Proof.
  intros Hf Hn (H1 & H2 & H3 & H4).
  assert (Hne : forall j' f', dsp_funcs g !! j' = Some f' -> needs_X f' -> j' <> j)
    by (intros j' f' Hf' Hn' ->; congruence).
  unfold invoke. destruct (rs_results s !! j); [done|].
  destruct (args s f) as [a|];
    [destruct (fn_call f a) as [outs|]; [destruct (length outs =? length (fn_outputs f))|]|];
    (split; [|split; [|split]]); simpl; auto;
    intros j' f' Hf' Hn'; destruct (H3 j' f' Hf' Hn') as [Hr Ht];
    (split; [rewrite ?lookup_insert_ne by (by apply not_eq_sym, (Hne j' f')); done|]);
    intros a' o' [Hin|[Hin|[]]]%in_app_or; try by apply (Ht a' o').
  injection Hin as -> _ _. by apply (Hne j' f').
Qed.

Lemma op_unreach e s1 s' :
  counters_ok g s1 -> unreach s1 -> e_data e ∉ X ->
  (e_src e <> SrcStart -> e_data e <> START) ->
  (forall j f, e_src e = SrcFun j -> dsp_funcs g !! j = Some f -> ~ needs_X f) ->
  op_result g inputs e s1 s' -> unreach s'.
Proof.
  intros Hc HU HeX HeS Hcl Hop.
  destruct Hop as [| |v Hv Hnone|j f r s2 Hsrc Hf _ _ Hinv _|j f r s2 v Hsrc Hf _ Hnone Hinv _].
  - done.
  - by apply start_unreach.
  - apply settle_unreach; [done|done|done| |done]. apply HeS. by destruct Hv as [-> | ->].
  - replace s2 with (invoke j f s1).2 by (by rewrite Hinv). apply invoke_unreach; [done|by apply (Hcl j)|done].
  - destruct (invoke_spec j f s1) as (_ & Hs & Hp & Hst & _). rewrite Hinv in Hs, Hp, Hst.
    simpl in Hs, Hp, Hst. apply settle_unreach.
    + by apply (counters_ok_ext g s1).
    + replace s2 with (invoke j f s1).2 by (by rewrite Hinv). apply invoke_unreach; [done|by apply (Hcl j)|done].
    + done.
    + apply HeS. by rewrite Hsrc.
    + by rewrite Hs.
Qed.

Lemma step_unreach s s' :
  Inv g inputs s -> unreach s -> step g inputs s = Some s' -> unreach s'.
Proof.
  intros HI HU Hs. pose proof HU as (H1 & H2 & H3 & H4).
  destruct (step_spec g inputs s s' Hs) as (e & s1 & Hop & [(q & Hp & ->)|(v & ds & _ & Hd & _)]).
  - pose proof (pop_base g inputs s e q HI Hp) as HP.
    apply pick_Some in Hp as [_ Hin]. assert (He : In e (rs_queue s)) by (apply Hin; by left).
    destruct (H2 e He) as [HeX Hcl].
    apply (op_unreach e (set_queue s q)); [apply (pop_counters _ _ _ _ _ HP)| |done| |done|done].
    + split; [|split; [|split]]; simpl; auto. intros x Hx. apply H2, Hin. by right.
    + intros Hns. destruct (inv_entries _ _ _ HI e He) as [Hiff _]. intros Hs'.
      by apply Hns, Hiff.
  - by rewrite (inv_deferred _ _ _ HI) in Hd.
Qed.

Lemma defaults_not_X (w : bool) (d : string) (v : V) : In (d, v) (defaults g inputs w) -> d ∉ X.
Proof.
  unfold defaults. intros Hin%list_elem_of_In HdX.
  apply list_elem_of_omap in Hin as ([d' dn] & Hin & Hx).
  destruct (dn_default dn) eqn:Hdn; [|done]. case_match; simplify_eq.
  apply list_elem_of_In in Hin. by rewrite (HX_defaults d dn HdX Hin) in Hdn.
Qed.

Lemma init_unreach : unreach (init_state g inputs).
Proof.
  split; [|split; [|split]]; simpl.
  - intros x _. apply lookup_empty.
  - intros e [He|[<-|He]]%in_app_or.
    + apply in_map_iff in He as ([k v] & <- & Hkv). split; [|done]. simpl.
      intros HkX. by apply (HX_inputs k v HkX).
    + done.
    + apply in_map_iff in He as ([k v] & <- & Hkv). split; [|done].
      by apply (defaults_not_X false k v).
  - intros j f _ _. split; [apply lookup_empty|by intros a o []].
  - apply defaults_not_X.
Qed.

(** A run never settles an id of [X] and never invokes a function needing
    one. *)
Lemma dispatch_unreach (requested : list string) :
  start_reserved g inputs = true -> no_wait_defaults g inputs = true ->
  unreach (dispatch g inputs requested).
Proof.
  intros Hr Hw. pose proof (start_reserved_spec g inputs Hr) as (_ & _ & Hres).
  cut (Inv g inputs (dispatch g inputs requested) /\ unreach (dispatch g inputs requested)); [tauto|].
  apply (steps_ind_inv g inputs (fun s => Inv g inputs s /\ unreach s)) with (s := init_state g inputs);
    [|apply dispatch_steps|split; [by apply init_inv|apply init_unreach]].
  intros s s' [HI HU] Hs. split; [by apply (step_inv g inputs Hres s)|by apply (step_unreach s)].
Qed.

End Unreach.
