(* ===== verification/Config.v ===== *)
(** * Configuration values ([traitlets.config.Config])

    The sampling application ([src/co2mpas/sampling/baseapp.py]) reads,
    merges and compares [traitlets] configurations: nested dictionaries
    from a configurable class name to its section, a dictionary from trait
    name to value.  The library is not part of the repository: [merge],
    [collisions] and truthiness are modelled from its documented behaviour.
    Maps are stdpp's [gmap], whose equality is Python's dictionary
    equality (insertion order does not matter). *)

From stdpp Require Import base list gmap strings.
From S2P Require Import Prelude.

(** A section: trait name |-> value; a configuration: class name |->
    section. *)
Notation section V := (gmap string V) (only parsing).
Notation config V := (gmap string (gmap string V)) (only parsing).

Section Config.
Context {V : Type} `{EqDecision V}.

(** [cfg[cls][trait]], absent when the class or the trait is. *)
Definition cfg_get (c : config V) (cls k : string) : option V := c !! cls ≫= lookup k.

(** [self.merge(other)]: a class both set gets its sections merged,
    [other]'s traits winning; [other]'s other classes are taken whole. *)
Definition cfg_merge (self other : config V) : config V :=
  union_with (fun s o => Some (o ∪ s)) self other.

(** [bool(cfg)]: a configuration is true when it sets some class. *)
Definition cfg_truthy (c : config V) : bool := bool_decide (c <> ∅).

(** [self.collisions(other)]: per class set by both, the traits both set
    to different values, as [(mine, theirs)]; a class without such a trait
    is left out. *)
Definition sec_collisions (m o : section V) : gmap string (V * V) :=
  merge (fun a b => match a, b with
                    | Some x, Some y => if decide (x = y) then None else Some (x, y)
                    | _, _ => None
                    end) m o.
Definition cfg_collisions (self other : config V) : gmap string (gmap string (V * V)) :=
  filter (fun kv => kv.2 <> ∅)
    (merge (fun ms os => match ms, os with
                         | Some m, Some o => Some (sec_collisions m o)
                         | _, _ => None
                         end) self other).

(** The value a list of configurations gives a trait when the first one
    that sets it wins: the "descending order" of the documentation. *)
Fixpoint cfg_first (cs : list (config V)) (cls k : string) : option V :=
  match cs with
  | [] => None
  | c :: cs' => match cfg_get c cls k with Some v => Some v | None => cfg_first cs' cls k end
  end.
End Config.

Section ConfigFacts.
Context {V : Type} `{EqDecision V}.
Implicit Types (a b c : config V).

(** A trait of a merged configuration comes from [other] if it sets it,
    from [self] otherwise. *)
Lemma cfg_get_merge a b cls k :
  cfg_get (cfg_merge a b) cls k =
    match cfg_get b cls k with Some v => Some v | None => cfg_get a cls k end.
Proof.
  unfold cfg_get, cfg_merge. rewrite lookup_union_with.
  destruct (a !! cls) as [sa|], (b !! cls) as [sb|]; simpl;
    [rewrite lookup_union; by destruct (sb !! k), (sa !! k)|by destruct (sa !! k)|by destruct (sb !! k)|done].
Qed.

Lemma cfg_merge_empty_l b : cfg_merge ∅ b = b.
Proof.
  apply map_eq. intros cls. unfold cfg_merge. rewrite lookup_union_with, lookup_empty.
  by destruct (b !! cls).
Qed.

(** Merging the configurations of a list from its last to its first gives
    every trait the value of the first configuration that sets it. *)
Lemma cfg_get_fold_merge (cs : list (config V)) acc cls k :
  cfg_get (fold_left cfg_merge (reverse cs) acc) cls k =
    match cfg_first cs cls k with Some v => Some v | None => cfg_get acc cls k end.
Proof.
  revert acc. induction cs as [|c cs IH]; intros acc; [done|].
  rewrite reverse_cons, fold_left_app. simpl. rewrite cfg_get_merge, IH.
  by destruct (cfg_get c cls k).
Qed.

Lemma cfg_first_app (cs1 cs2 : list (config V)) cls k :
  cfg_first (cs1 ++ cs2) cls k =
    match cfg_first cs1 cls k with Some v => Some v | None => cfg_first cs2 cls k end.
Proof.
  induction cs1 as [|c cs1 IH]; [done|]. simpl. rewrite IH. by destruct (cfg_get c cls k).
Qed.

(** The collisions of two configurations are exactly the traits both set
    to different values. *)
Lemma cfg_collisions_spec a b cls k x y :
  cfg_collisions a b !! cls ≫= lookup k = Some (x, y) <->
  cfg_get a cls k = Some x /\ cfg_get b cls k = Some y /\ x <> y.
Proof.
  unfold cfg_collisions, cfg_get.
  destruct (filter _ _ !! cls) as [s|] eqn:Hs; simpl.
  - apply map_lookup_filter_Some in Hs as [Hm _]. rewrite lookup_merge in Hm.
    destruct (a !! cls) as [sa|], (b !! cls) as [sb|]; simpl in Hm; try done.
    injection Hm as <-. unfold sec_collisions. rewrite lookup_merge.
    simpl. destruct (sa !! k) as [va|], (sb !! k) as [vb|]; simpl; try case_decide; naive_solver.
  - split; [done|]. intros (Ha & Hb & Hxy).
    destruct (a !! cls) as [sa|] eqn:Hsa; [|done]. destruct (b !! cls) as [sb|] eqn:Hsb; [|done].
    simpl in Ha, Hb. apply map_lookup_filter_None in Hs as [Hs|Hs].
    + rewrite lookup_merge, Hsa, Hsb in Hs. done.
    + exfalso. apply (Hs (sec_collisions sa sb)).
      * by rewrite lookup_merge, Hsa, Hsb.
      * simpl. intros He. assert (Hk : sec_collisions sa sb !! k = Some (x, y)).
        { unfold sec_collisions. rewrite lookup_merge, Ha, Hb. simpl. by rewrite decide_False. }
        by rewrite He, lookup_empty in Hk.
Qed.

(** No configuration collides with itself. *)
Lemma cfg_collisions_self a : cfg_collisions a a = ∅.
Proof.
  apply map_eq. intros cls. rewrite lookup_empty. unfold cfg_collisions.
  apply map_lookup_filter_None. rewrite lookup_merge.
  destruct (a !! cls) as [s|]; [right|by left]. intros s' [= <-]. simpl. intros Hne. apply Hne.
  apply map_eq. intros k. rewrite lookup_empty. unfold sec_collisions. rewrite lookup_merge.
  destruct (s !! k); simpl; [by rewrite decide_True|done].
Qed.
End ConfigFacts.
