(* ===== verification/Persist.v ===== *)
(** * Persistent traits ([PeristentMixin], [src/co2mpas/sampling/baseapp.py]
    lines 94-207)

    [_pconfig] and [_pconfig_orig] are class attributes holding
    [Config] objects.  [load_pconfig] is a classmethod that rebinds them on
    the class it is called on; [_ptrait_observed] looks [_pconfig] up on
    the class of the observed object and mutates the object it finds;
    [store_pconfig] compares the two objects it finds on its class.  What
    a class sees therefore depends on attribute lookup along its MRO and on
    which object it reaches: the model keeps the objects in a heap of
    configurations and the attributes as references into it, so that the
    aliasing of the source is the aliasing of the model. *)

From stdpp Require Import base list gmap strings.
From S2P Require Import Prelude Config.

(** The name of the mixin, the class that defines both attributes. *)
Definition PeristentMixin : string := "PeristentMixin".

Section Persist.
Context {V : Type} `{EqDecision V}.

(** The objects and the class attributes.  [w_pconfig !! c = Some l] when
    class [c] itself binds [_pconfig] (in its [__dict__]) to object [l]. *)
Record world := mk_world {
  w_heap : gmap nat (config V);
  w_next : nat;
  w_pconfig : gmap string nat;
  w_porig : gmap string nat
}.

(** The module as imported: the mixin binds two fresh empty [Config]s. *)
Definition world0 : world :=
  mk_world {[0 := ∅; 1 := ∅]} 2 {[PeristentMixin := 0]} {[PeristentMixin := 1]}.

(** [getattr(cls, name)]: the binding of the first class of the MRO that
    binds the attribute. *)
Fixpoint mro_lookup (attrs : gmap string nat) (mro : list string) : option nat :=
  match mro with
  | [] => None
  | c :: mro' => match attrs !! c with Some l => Some l | None => mro_lookup attrs mro' end
  end.

(** The object a class reaches, [∅] standing for an [AttributeError] that
    the invariant [world_wf] rules out. *)
Definition deref (w : world) (l : option nat) : config V :=
  from_option (fun l => from_option id ∅ (w_heap w !! l)) ∅ l.

(** [json.load] of the persist file, as [Config]. *)
Inductive json_result := JNotFound | JError (e : string) | JDict (c : config V).

(** [pndlu.ensure_file_ext] and the file system's JSON reader. *)
Context (ensure_file_ext : string -> string -> string) (json_read : string -> json_result).

(** [load_pconfig(cls, fpath)], with [cls] given by its name: on a read
    file, two new objects (the config and its [deepcopy]) bound on [cls];
    the config returned is the object bound to [_pconfig]. *)
Definition load_pconfig (cls fpath : string) (w : world)
    : string + (string * option (config V) * world) :=
  let fpath := ensure_file_ext fpath ".json" in
  match json_read fpath with
  | JNotFound => inr (fpath, None, w)
  | JError e => inl e
  | JDict c =>
      let l := w_next w in
      inr (fpath, Some c, mk_world (<[S l := c]> (<[l := c]> (w_heap w))) (S (S l))
                                    (<[cls := l]> (w_pconfig w)) (<[cls := S l]> (w_porig w)))
  end.

(** [cfg[cls_name][name] = value]: a missing section is created by
    [Config.__getitem__] (class names are section keys). *)
Definition cfg_set (c : config V) (cls k : string) (v : V) : config V :=
  <[cls := <[k := v]> (from_option id ∅ (c !! cls))]> c.

(** [_ptrait_observed(self, change)] for an object of class [cls] (name
    [cls_name], MRO [mro]): the object found through [cls._pconfig] is
    mutated in place. *)
Definition ptrait_observed (mro : list string) (cls_name name : string) (value : V) (w : world) : world :=
  match mro_lookup (w_pconfig w) mro with
  | Some l => mk_world (<[l := cfg_set (deref w (Some l)) cls_name name value]> (w_heap w))
                       (w_next w) (w_pconfig w) (w_porig w)
  | None => w
  end.

(** [store_pconfig(cls, fpath)] for the class of MRO [mro]: the file
    written and its content, if any. *)
Definition store_pconfig (mro : list string) (fpath : string) (w : world) : option (string * config V) :=
  let cfg := deref w (mro_lookup (w_pconfig w) mro) in
  if cfg_truthy cfg && bool_decide (cfg <> deref w (mro_lookup (w_porig w) mro))
  then Some (ensure_file_ext fpath ".json", cfg) else None.

(** Every binding refers to an allocated object, the mixin binds both
    attributes, and allocation is fresh. *)
Definition world_wf (w : world) : Prop :=
  (forall c l, w_pconfig w !! c = Some l -> is_Some (w_heap w !! l) /\ l < w_next w) /\
  (forall c l, w_porig w !! c = Some l -> is_Some (w_heap w !! l) /\ l < w_next w) /\
  (forall l, is_Some (w_heap w !! l) -> l < w_next w) /\
  is_Some (w_pconfig w !! PeristentMixin) /\ is_Some (w_porig w !! PeristentMixin).
End Persist.

Arguments world : clear implicits.
Arguments json_result : clear implicits.

(** A sequence of observed changes: the observing object's MRO, its class
    name, the trait and the new value. *)
Record pchange {V} := mk_pchange { pc_mro : list string; pc_cls : string; pc_name : string; pc_value : V }.
Arguments pchange : clear implicits.
Arguments mk_pchange {V}.

Definition observe_all {V} (chs : list (pchange V)) (w : world V) : world V :=
  fold_left (fun w ch => ptrait_observed (pc_mro ch) (pc_cls ch) (pc_name ch) (pc_value ch) w) chs w.

Section PersistFacts.
Context {V : Type} `{EqDecision V}.
Context (ensure_file_ext : string -> string -> string) (json_read : string -> json_result V).
Implicit Types (w : world V).

Lemma world0_wf : world_wf (@world0 V).
Proof.
  split; [|split; [|split; [|split]]]; simpl.
  - intros c l Hl. apply lookup_singleton_Some in Hl as [_ <-]. split; [by eexists|lia].
  - intros c l Hl. apply lookup_singleton_Some in Hl as [_ <-]. split; [by eexists|lia].
  - intros l [x Hx]. apply lookup_insert_Some in Hx as [[<- _]|[_ Hx]]; [lia|].
    apply lookup_singleton_Some in Hx as [<- _]. lia.
  - by rewrite lookup_singleton.
  - by rewrite lookup_singleton.
Qed.

Lemma mro_lookup_Some (attrs : gmap string nat) mro l :
  mro_lookup attrs mro = Some l -> exists c, c ∈ mro /\ attrs !! c = Some l.
Proof.
  induction mro as [|c mro IH]; [done|]. simpl. destruct (attrs !! c) eqn:Hc.
  - intros [= <-]. exists c. split; [by left|done].
  - intros (c' & Hin & Hc')%IH. exists c'. split; [by right|done].
Qed.

Lemma mro_lookup_mixin (attrs : gmap string nat) mro :
  PeristentMixin ∈ mro -> is_Some (attrs !! PeristentMixin) -> is_Some (mro_lookup attrs mro).
Proof.
  intros Hin Hm. induction mro as [|c mro IH]; [by apply not_elem_of_nil in Hin|]. simpl.
  destruct (attrs !! c) eqn:Hc; [done|]. apply IH.
  apply elem_of_cons in Hin as [Heq|]; [subst; destruct Hm; congruence|done].
Qed.

Lemma ptrait_observed_wf w mro cn k v : world_wf w -> world_wf (ptrait_observed mro cn k v w).
Proof.
  unfold ptrait_observed. destruct (mro_lookup _ mro) as [l|] eqn:Hl; [|done].
  intros (H1 & H2 & H3 & H4 & H5). apply mro_lookup_Some in Hl as (c & _ & Hc).
  destruct (H1 c l Hc) as [_ Hlt].
  split; [|split; [|split; [|split]]]; simpl; try done.
  - intros c' l' Hl'. rewrite lookup_insert_is_Some'. destruct (H1 c' l' Hl'). auto.
  - intros c' l' Hl'. rewrite lookup_insert_is_Some'. destruct (H2 c' l' Hl'). auto.
  - intros l' [Heq|Hs]%lookup_insert_is_Some'; [by subst|auto].
Qed.

Lemma observe_all_wf chs w : world_wf w -> world_wf (observe_all chs w).
Proof.
  revert w. induction chs as [|ch chs IH]; intros w Hw; [done|]. simpl. by apply IH, ptrait_observed_wf.
Qed.

Lemma load_pconfig_wf cls fpath w p o w' :
  world_wf w -> load_pconfig ensure_file_ext json_read cls fpath w = inr (p, o, w') -> world_wf w'.
Proof.
  unfold load_pconfig. intros (H1 & H2 & H3 & H4 & H5).
  destruct (json_read _) as [| |c]; [by intros [= _ _ <-]|done|intros [= _ _ <-]].
  split; [|split; [|split; [|split]]]; simpl.
  - intros c' l' [[_ <-]|[_ Hl']]%lookup_insert_Some.
    + split; [rewrite lookup_insert_ne by lia; rewrite lookup_insert_eq; by eexists|lia].
    + destruct (H1 c' l' Hl') as [[x Hx] Hlt]. split; [|lia].
      rewrite !lookup_insert_ne by lia. by eexists.
  - intros c' l' [[_ <-]|[_ Hl']]%lookup_insert_Some.
    + split; [rewrite lookup_insert_eq; by eexists|lia].
    + destruct (H2 c' l' Hl') as [[x Hx] Hlt]. split; [|lia].
      rewrite !lookup_insert_ne by lia. by eexists.
  - intros l' [Heq|[Heq|Hs]%lookup_insert_is_Some']%lookup_insert_is_Some'; [lia|lia|].
    specialize (H3 l' Hs). lia.
  - rewrite lookup_insert_is_Some'. auto.
  - rewrite lookup_insert_is_Some'. auto.
Qed.

Lemma observe_all_bindings chs w :
  w_pconfig (observe_all chs w) = w_pconfig w /\ w_porig (observe_all chs w) = w_porig w /\
  w_next (observe_all chs w) = w_next w.
Proof.
  revert w. induction chs as [|ch chs IH]; intros w; [done|]. simpl.
  destruct (IH (ptrait_observed (pc_mro ch) (pc_cls ch) (pc_name ch) (pc_value ch) w)) as (-> & -> & ->).
  unfold ptrait_observed. by destruct (mro_lookup _ _).
Qed.

(** Observations only touch the objects their classes reach. *)
Lemma observe_all_heap_other chs w l :
  Forall (fun ch => mro_lookup (w_pconfig w) (pc_mro ch) <> Some l) chs ->
  w_heap (observe_all chs w) !! l = w_heap w !! l.
Proof.
  revert w. induction chs as [|ch chs IH]; intros w Hf; [done|]. simpl.
  apply Forall_cons in Hf as [Hch Hf].
  set (w1 := ptrait_observed (pc_mro ch) (pc_cls ch) (pc_name ch) (pc_value ch) w).
  assert (Hb : w_pconfig w1 = w_pconfig w) by (subst w1; unfold ptrait_observed; by destruct (mro_lookup _ _)).
  rewrite IH by (by rewrite Hb). subst w1. unfold ptrait_observed.
  destruct (mro_lookup _ _) as [l'|] eqn:Hl; [|done]. simpl.
  rewrite lookup_insert_ne; [done|]. intros ->. by apply Hch.
Qed.

Lemma mro_lookup_insert_notin (attrs : gmap string nat) mro c l :
  c ∉ mro -> mro_lookup (<[c := l]> attrs) mro = mro_lookup attrs mro.
Proof.
  induction mro as [|c' mro IH]; intros Hc; [done|]. simpl.
  rewrite lookup_insert_ne by (intros ->; apply Hc; by left).
  destruct (attrs !! c'); [done|]. apply IH. intros Hin. apply Hc. by right.
Qed.

Lemma load_pconfig_found cls fpath w p c w1 :
  load_pconfig ensure_file_ext json_read cls fpath w = inr (p, Some c, w1) ->
  w1 = mk_world (<[S (w_next w) := c]> (<[w_next w := c]> (w_heap w))) (S (S (w_next w)))
                (<[cls := w_next w]> (w_pconfig w)) (<[cls := S (w_next w)]> (w_porig w)).
Proof. unfold load_pconfig. by destruct (json_read _); [|done|]; intros [= <- <- <-]. Qed.

Lemma fold_cfg_set_nonempty (chs : list (pchange V)) (c : config V) :
  c <> ∅ \/ chs <> [] ->
  fold_left (fun c ch => cfg_set c (pc_cls ch) (pc_name ch) (pc_value ch)) chs c <> ∅.
Proof.
  revert c. induction chs as [|ch chs IH]; intros c Hc; simpl; [by destruct Hc|].
  apply IH. left. apply insert_non_empty.
Qed.

Lemma mro_lookup_mixin_only mro l : PeristentMixin ∈ mro -> mro_lookup {[PeristentMixin := l]} mro = Some l.
Proof.
  induction mro as [|c mro IH]; intros Hin; [by apply not_elem_of_nil in Hin|]. simpl.
  destruct (decide (c = PeristentMixin)) as [->|Hne]; [by rewrite lookup_singleton|].
  rewrite lookup_singleton_ne by done. apply IH. by apply elem_of_cons in Hin as [?|?].
Qed.
End PersistFacts.

Section PersistTheorems.
Context {V : Type} `{EqDecision V}.
Context (ensure_file_ext : string -> string -> string) (json_read : string -> json_result V).

(** C4: Once a persist file has been read by [load_pconfig] on a command
    class [C] (as [_read_config_from_persist_file] does, through
    [self.load_pconfig]), the persistent-trait changes observed on objects
    whose class does not derive from [C] (every [Spec]) are never written by
    [store_pconfig] on [C]: they go to the mixin's object, while [C]
    compares its own two copies of the file, which stay equal. *)
Theorem spec_changes_not_stored (C fpath fpath' : string) (rest : list string) (w w1 : world V) p c chs :
  world_wf w ->
  load_pconfig ensure_file_ext json_read C fpath w = inr (p, Some c, w1) ->
  Forall (fun ch => C ∉ pc_mro ch) chs ->
  store_pconfig ensure_file_ext (C :: rest) fpath' (observe_all chs w1) = None.
Proof.
  intros Hwf Hl Hchs. pose proof (load_pconfig_found _ _ _ _ _ _ _ _ Hl) as ->.
  set (w1 := mk_world _ _ _ _). destruct Hwf as (H1 & _).
  assert (Hother : forall l, w_next w <= l ->
            Forall (fun ch => mro_lookup (w_pconfig w1) (pc_mro ch) <> Some l) chs).
  { intros l Hle. eapply Forall_impl; [exact Hchs|]. intros ch Hc. simpl.
    rewrite mro_lookup_insert_notin by done. intros (c' & _ & Hc')%mro_lookup_Some.
    destruct (H1 c' l Hc'). lia. }
  destruct (observe_all_bindings chs w1) as (Hp & Ho & _).
  unfold store_pconfig, deref. rewrite Hp, Ho. simpl. rewrite !lookup_insert_eq. simpl.
  rewrite !observe_all_heap_other by (apply Hother; lia). simpl.
  rewrite lookup_insert_ne, !lookup_insert_eq by lia. simpl.
  rewrite bool_decide_false by tauto. by rewrite andb_false_r.
Qed.

(** C18: Without a persist file, [load_pconfig] binds nothing, every class
    reaches the mixin's object, and [store_pconfig] on a command class
    writes every change observed on any [Spec] or command: whether a
    [Spec]'s persistent trait is stored depends on whether the file
    existed before. *)
Theorem changes_stored_without_file (C fpath fpath' : string) (mroC : list string) p o w1 chs :
  load_pconfig ensure_file_ext json_read C fpath world0 = inr (p, o, w1) -> o = None ->
  PeristentMixin ∈ mroC -> chs <> [] -> Forall (fun ch => PeristentMixin ∈ pc_mro ch) chs ->
  store_pconfig ensure_file_ext mroC fpath' (observe_all chs w1) =
    Some (ensure_file_ext fpath' ".json",
          fold_left (fun c ch => cfg_set c (pc_cls ch) (pc_name ch) (pc_value ch)) chs ∅).
Proof.
  intros Hl -> HC Hne Hchs. assert (w1 = world0) as ->.
  { revert Hl. unfold load_pconfig. by destruct (json_read _); [intros [= _ <-]|done|]. }
  assert (Hgen : forall h, is_Some (h !! 0) -> Forall (fun ch => PeristentMixin ∈ pc_mro ch) chs ->
    observe_all chs (mk_world h 2 {[PeristentMixin := 0]} {[PeristentMixin := 1]}) =
    mk_world (<[0 := fold_left (fun c ch => cfg_set c (pc_cls ch) (pc_name ch) (pc_value ch)) chs
                       (from_option id ∅ (h !! 0))]> h) 2 {[PeristentMixin := 0]} {[PeristentMixin := 1]}).
  { clear Hne Hchs. induction chs as [|ch chs IH]; intros h Hh Hf; simpl.
    - f_equal. apply map_eq. intros i. destruct (decide (i = 0)) as [->|Hi].
      + rewrite lookup_insert_eq. by destruct Hh as [? ->].
      + by rewrite lookup_insert_ne.
    - apply Forall_cons in Hf as [Hch Hf]. unfold ptrait_observed. simpl.
      rewrite mro_lookup_mixin_only by done. simpl. rewrite IH by (rewrite ?lookup_insert_eq; done).
      rewrite lookup_insert_eq. simpl. by rewrite insert_insert. }
  unfold world0. rewrite Hgen by (rewrite ?lookup_insert_eq; done). unfold store_pconfig, deref. simpl.
  rewrite !mro_lookup_mixin_only by done. simpl.
  simplify_map_eq.
  assert (Hnz : fold_left (fun c ch => cfg_set c (pc_cls ch) (pc_name ch) (pc_value ch)) chs ∅ <> ∅)
    by (apply fold_cfg_set_nonempty; by right).
  unfold cfg_truthy. by rewrite !bool_decide_true by done.
Qed.
(** C19: A command's own persistent-trait change is stored: after
    [load_pconfig] on [C] read a file, observing on a [C] object a value
    that changes the loaded config makes [store_pconfig] on [C] write the
    loaded config with that change. *)
Theorem cmd_change_stored (C fpath fpath' cn k : string) (v : V) (rest : list string) (w w1 : world V) p c :
  world_wf w ->
  load_pconfig ensure_file_ext json_read C fpath w = inr (p, Some c, w1) ->
  cfg_set c cn k v <> c ->
  store_pconfig ensure_file_ext (C :: rest) fpath' (ptrait_observed (C :: rest) cn k v w1) =
    Some (ensure_file_ext fpath' ".json", cfg_set c cn k v).
Proof.
  intros Hwf Hl Hch. pose proof (load_pconfig_found _ _ _ _ _ _ _ _ Hl) as ->.
  unfold ptrait_observed, store_pconfig, deref. simpl. simplify_map_eq.
  unfold cfg_truthy. rewrite !bool_decide_true; [done|done|apply insert_non_empty].
Qed.

(** The operations of the persistence life cycle. *)
Inductive pop := PLoad (cls fpath : string) | PObserve (ch : pchange V).

Definition run_pop (w : world V) (o : pop) : world V :=
  match o with
  | PLoad cls fpath =>
      match load_pconfig ensure_file_ext json_read cls fpath w with inr (_, _, w') => w' | inl _ => w end
  | PObserve ch => ptrait_observed (pc_mro ch) (pc_cls ch) (pc_name ch) (pc_value ch) w
  end.

End PersistTheorems.

(** ** Witnesses, on a command class [ReportCmd] and a spec class
    [Project] that both derive from the mixin. *)
Definition demo_ext (p e : string) : string := p +:+ e.
Definition demo_cfg : config nat := {[ "ReportCmd" := {[ "force" := 0 ]} ]}.
Definition demo_mroC : list string := ["ReportCmd"; "Cmd"; PeristentMixin].
Definition demo_ch : pchange nat := mk_pchange ["Project"; "Spec"; PeristentMixin] "Project" "repo" 1.

Lemma spec_changes_not_stored_witness :
  store_pconfig demo_ext demo_mroC "p"
    (observe_all [demo_ch] (mk_world {[2 := demo_cfg; 3 := demo_cfg; 0 := ∅; 1 := ∅]} 4
       {["ReportCmd" := 2; PeristentMixin := 0]} {["ReportCmd" := 3; PeristentMixin := 1]})) = None.
Proof.
  apply (spec_changes_not_stored demo_ext (fun _ => JDict demo_cfg) "ReportCmd" "p" "p" ["Cmd"; PeristentMixin]
           world0 _ "p.json" demo_cfg [demo_ch] world0_wf).
  - reflexivity.
  - apply (bool_decide_unpack _). reflexivity.
Defined.

Lemma changes_stored_without_file_witness :
  store_pconfig demo_ext demo_mroC "p" (observe_all [demo_ch] world0) =
    Some ("p.json", cfg_set ∅ "Project" "repo" 1).
Proof.
  apply (changes_stored_without_file demo_ext (fun _ => JNotFound) "ReportCmd" "p" "p" demo_mroC "p.json" None
           world0 [demo_ch]).
  - reflexivity.
  - reflexivity.
  - apply (bool_decide_unpack _). reflexivity.
  - discriminate.
  - apply (bool_decide_unpack _). reflexivity.
Defined.

Lemma cmd_change_stored_witness :
  store_pconfig demo_ext demo_mroC "p"
    (ptrait_observed demo_mroC "ReportCmd" "force" 1
       (mk_world {[3 := demo_cfg; 2 := demo_cfg; 0 := ∅; 1 := ∅]} 4
          {["ReportCmd" := 2; PeristentMixin := 0]} {["ReportCmd" := 3; PeristentMixin := 1]})) =
    Some ("p.json", cfg_set demo_cfg "ReportCmd" "force" 1).
Proof.
  apply (cmd_change_stored demo_ext (fun _ => JDict demo_cfg) "ReportCmd" "p" "p" "ReportCmd" "force" 1
           ["Cmd"; PeristentMixin] world0 _ "p.json" demo_cfg world0_wf).
  - reflexivity.
  - apply (bool_decide_unpack _). reflexivity.
Defined.

