(* ===== verification/ConfigFiles.v ===== *)
(** * Reading the configuration files ([Cmd] in
    [src/co2mpas/sampling/baseapp.py], lines 62-91, 379-553 and 733-766)

    A command collects the static config files ([_collect_static_fpaths]),
    reads them from the last to the first so that the first overrides the
    rest ([_read_config_from_static_files], with a warning per collision),
    reads the persist file through [load_pconfig] (file [Persist]), keeps
    the list [loaded_config_files] of what it read, and on [initialize]
    merges static, persistent and command-line values.  The operating
    system ([os.path], [os.environ]), the path helpers of [pandalone] and
    the config loaders of [traitlets] are the parameters [os_env]; the
    methods run in the state-and-exception monad of the prelude (no value
    is yielded), the state holding the class attributes of [Persist],
    [loaded_config_files], the log and the files the process wrote. *)

From stdpp Require Import base list gmap strings.
From S2P Require Import Prelude Config Persist.

(** The module constants (lines 62-64, 73-75, 88-91). *)
Definition APPNAME : string := "co2dice".
Definition CONFIG_VAR_NAME : string := "CO2DICE_CONFIG_PATH".
Definition PERSIST_VAR_NAME : string := "CO2DICE_PERSIST_PATH".
Definition default_config_fname : string := APPNAME +:+ "_config".

(** The operating system and the library helpers the methods call. *)
Record os_env {V} := mk_os_env {
  os_split_pathsep : string -> list string;  (** [p.split(os.pathsep)] *)
  os_convpath : string -> string;            (** [pndlu.convpath] *)
  os_ensure_file_ext : string -> string -> string;
  os_join : string -> string -> string;      (** [osp.join] *)
  os_splitext_root : string -> string;       (** [osp.splitext(p)[0]] *)
  os_isfile : string -> bool;
  os_isdir : string -> bool;
  os_getenv : string -> option string;       (** [os.environ.get] *)
  os_mydir : string;                         (** [_mydir] *)
  os_load : string -> json_result V          (** the config loaders, [json.load] *)
}.
Arguments os_env : clear implicits.
Arguments mk_os_env {V}.

(** What the log receives. *)
Inductive logrec {V} :=
| LDebugLoaded (cfpath : string)
| LErrorSkipped (cfpath : string) (e : string)
| LWarnCollisions (filename cfpath : string) (collisions : gmap string (gmap string (V * V)))
| LErrorSkippedPersist (fpath : string) (e : string)
| LInfoNoPersist (fpath : string)
| LDebugLoadedPersist (fpath : string)
| LErrorNonEncrypted (cls trait : string)
| LInfoWriting (overwrite : bool) (fpath : string).
Arguments logrec : clear implicits.

(** The exceptions the methods raise. *)
Inductive cexc := ELoad (e : string) | ETraitError (cls trait : string) | ECmdException (fpath : string).

(** The command's state. *)
Record cstate {V} := mk_cstate {
  cs_world : world V;
  cs_loaded : list string;   (** [self.loaded_config_files] *)
  cs_log : list (logrec V);
  cs_files : list string     (** the files the process wrote, which [osp.isfile] then sees *)
}.
Arguments cstate : clear implicits.
Arguments mk_cstate {V}.

Section ConfigFiles.
Context {V : Type} `{EqDecision V}.
Context (os : os_env V).

Notation cmdm := (gen cexc Empty_set (cstate V)).
Local Open Scope gen_scope.

Definition log (r : logrec V) : cmdm unit :=
  s <- gen_get ;; gen_put (mk_cstate (cs_world s) (cs_loaded s) (cs_log s ++ [r]) (cs_files s)).
Definition add_loaded (p : string) : cmdm unit :=
  s <- gen_get ;; gen_put (mk_cstate (cs_world s) (cs_loaded s ++ [p]) (cs_log s) (cs_files s)).
Definition set_loaded (l : list string) : cmdm unit :=
  s <- gen_get ;; gen_put (mk_cstate (cs_world s) l (cs_log s) (cs_files s)).

(** [try: m finally: f]. *)
Definition gen_finally {A} (m : cmdm A) (f : cmdm unit) : cmdm A :=
  fun s => let r := m s in let r' := f (g_state r) in
           mk_gres (g_yields r ++ g_yields r') (g_state r')
                   (match g_out r' with inl e => inl e | inr _ => g_out r end).

Definition default_config_dir : string := os_convpath os ("~/." +:+ APPNAME).
Definition default_config_fpaths : list string :=
  [os_join os default_config_dir default_config_fname;
   os_join os (os_convpath os (os_mydir os)) default_config_fname].
Definition default_persist_fpath : string :=
  os_join os default_config_dir (APPNAME +:+ "_runtime").

(** [try_json_and_py(basepath)]: the existing [.py] and [.json] files. *)
Definition try_json_and_py (basepath : string) : list string :=
  omap (fun ext => let f := os_ensure_file_ext os basepath ext in
                   if os_isfile os f then Some f else None) [".py"; ".json"].

(** [_derive_config_fpaths(path)]. *)
Definition derive_config_fpaths (path : string) : list string :=
  flat_map (fun p0 =>
    let p := os_convpath os p0 in
    if os_isdir os p then try_json_and_py (os_join os p default_config_fname)
    else match try_json_and_py p with
         | [] => try_json_and_py (os_splitext_root os p)
         | found => found
         end) (os_split_pathsep os path).

(** A string environment variable is true when set and not empty. *)
Definition env_true (v : option string) : option string :=
  match v with Some "" | None => None | Some e => Some e end.

(** [_collect_static_fpaths()], [config_paths] being the trait
    ([None] allowed). *)
Definition collect_static_fpaths (config_paths : option (list string)) : list string :=
  let env_paths := (fun e => [e]) <$> env_true (os_getenv os CONFIG_VAR_NAME) in
  let cps := match config_paths with
             | Some ((_ :: _) as l) => l
             | _ => from_option id default_config_fpaths env_paths
             end in
  iset (flat_map derive_config_fpaths cps).

(** [_read_config_from_json_or_py(cfpath)]: a missing file gives [None]
    silently, a failing one raises or is logged. *)
Definition read_config_from_json_or_py (raise_errors : bool) (cfpath : string) : cmdm (option (config V)) :=
  match os_load os cfpath with
  | JNotFound => gen_ret None
  | JError e => if raise_errors then gen_raise (ELoad e)
                else log (LErrorSkipped cfpath e) ;;; gen_ret None
  | JDict c => log (LDebugLoaded cfpath) ;;; gen_ret (Some c)
  end.

(** [new_config.merge(config)] stores by reference the sections of
    [config] that [new_config] has not yet ([if k not in self:
    to_update[k] = v]), and later merges update those section objects in
    place.  A file of the registry [loaded] therefore shows, for the
    sections it was first to set ([owned]), their content in [new_config]
    ([acc]) at the time it is read again, and its own elsewhere. *)
Definition cfg_view (acc : config V) (owned : gset string) (earlier : config V) : config V :=
  filter (fun kv => kv.1 ∈ owned) acc ∪ earlier.

(** The collision warnings against every file loaded before, as the
    registry shows them when [new_config] is [acc]. *)
Definition log_collisions (loaded : list (string * config V * gset string)) (acc : config V) (cfpath : string)
    (c : config V) : cmdm unit :=
  gen_for loaded (fun '(filename, earlier, owned) =>
    let col := cfg_collisions (cfg_view acc owned earlier) c in
    if bool_decide (col <> ∅) then log (LWarnCollisions filename cfpath col) else gen_ret tt).

(** The loop of [_read_config_from_static_files] over the paths in the
    order it visits them, with the registry [loaded] and [new_config]. *)
Fixpoint static_loop (raise_errors : bool) (loaded : list (string * config V * gset string)) (acc : config V)
    (ps : list string) : cmdm (config V) :=
  match ps with
  | [] => gen_ret acc
  | cfpath :: ps' =>
      oc <- read_config_from_json_or_py raise_errors cfpath ;;
      match oc with
      | Some c =>
          if cfg_truthy c then
            add_loaded cfpath ;;;
            log_collisions loaded acc cfpath c ;;;
            static_loop raise_errors (loaded ++ [(cfpath, c, dom c ∖ dom acc)]) (cfg_merge acc c) ps'
          else static_loop raise_errors loaded acc ps'
      | None => static_loop raise_errors loaded acc ps'
      end
  end.

(** [_read_config_from_static_files()]: [config_paths[::-1]]. *)
Definition read_config_from_static_files (raise_errors : bool) (config_paths : option (list string))
    : cmdm (config V) :=
  static_loop raise_errors [] ∅ (reverse (collect_static_fpaths config_paths)).

(** [_read_config_from_persist_file()] of a command of class [cls]:
    [self.load_pconfig] binds the read file on [cls]. *)
Definition persist_fpath (persist_path : option string) : string :=
  os_convpath os (from_option id default_persist_fpath
    (match env_true persist_path with
     | Some p => Some p
     | None => env_true (os_getenv os PERSIST_VAR_NAME)
     end)).

Definition read_config_from_persist_file (raise_errors : bool) (cls : string) (persist_path : option string)
    : cmdm (option (config V)) :=
  let pp := persist_fpath persist_path in
  s <- gen_get ;;
  match load_pconfig (os_ensure_file_ext os) (os_load os) cls pp (cs_world s) with
  | inl e => if raise_errors then gen_raise (ELoad e)
             else log (LErrorSkippedPersist pp e) ;;; gen_ret None
  | inr (pp', oc, w') =>
      gen_put (mk_cstate w' (cs_loaded s) (cs_log s) (cs_files s)) ;;;
      match oc with
      | Some c => if cfg_truthy c then log (LDebugLoadedPersist pp') ;;; add_loaded pp' ;;; gen_ret (Some c)
                  else log (LInfoNoPersist pp') ;;; gen_ret None
      | None => log (LInfoNoPersist pp') ;;; gen_ret None
      end
  end.

(** [load_configurables_from_files()]: the list is reset, then reversed
    even when reading raises. *)
Definition load_configurables_from_files (raise_errors : bool) (cls : string)
    (config_paths : option (list string)) (persist_path : option string)
    : cmdm (config V * option (config V)) :=
  set_loaded [] ;;;
  gen_finally
    (static <- read_config_from_static_files raise_errors config_paths ;;
     persist <- read_config_from_persist_file raise_errors cls persist_path ;;
     gen_ret (static, persist))
    (s <- gen_get ;; set_loaded (reverse (cs_loaded s))).

(** [_check_non_encrypted_in_config_files]: [cipher_traits] are the
    [crypto.Cipher] traits of [dice.all_configurables()] in order, and
    [is_pgp_encrypted] the test of [crypto]. *)
Context (cipher_traits : list (string * string)) (is_pgp_encrypted : V -> bool).
Definition check_non_encrypted_in_config_files (raise_errors : bool) (static : config V) : cmdm unit :=
  gen_for cipher_traits (fun '(cls, tr) =>
    match cfg_get static cls tr with
    | None => gen_ret tt
    | Some v => if is_pgp_encrypted v then gen_ret tt
                else if raise_errors then gen_raise (ETraitError cls tr)
                else log (LErrorNonEncrypted cls tr)
    end).

(** The configuration part of [initialize(argv)]: [cli_config] is what
    [parse_command_line] parsed and [cfg0] the command's [config] after
    it; the result is the command's [config] at the end. *)
Definition initialize (raise_errors dispatching : bool) (cls : string)
    (config_paths : option (list string)) (persist_path : option string)
    (cli_config cfg0 : config V) : cmdm (config V) :=
  if dispatching then gen_ret cfg0 else
  sp <- load_configurables_from_files raise_errors cls config_paths persist_path ;;
  check_non_encrypted_in_config_files raise_errors sp.1 ;;;
  let static1 := match sp.2 with
                 | Some pc => if cfg_truthy pc then cfg_merge sp.1 pc else sp.1
                 | None => sp.1
                 end in
  gen_ret (cfg_merge cfg0 (cfg_merge static1 cli_config)).

(** The target of [write_default_config(config_file, force)]. *)
Definition config_file_target (config_file : option string) : string :=
  let cf := match env_true config_file with
            | None => from_option id "" (head default_config_fpaths)
            | Some f => let f := os_convpath os f in
                        if os_isdir os f then os_join os f default_config_fname else f
            end in
  os_ensure_file_ext os cf ".py".

(** [osp.isfile(p)]: a file on disk, or one the process has written. *)
Definition is_file (s : cstate V) (p : string) : bool := os_isfile os p || bool_decide (p ∈ cs_files s).

(** [write_default_config(config_file, force)]: raises when the target
    exists and [force] is not set, else logs and writes it (returning
    [None]); the text of [generate_config_file()] and [ensure_dir_exists]
    are not modelled. *)
Definition write_default_config (config_file : option string) (force : bool) : cmdm unit :=
  let cf := config_file_target config_file in
  s <- gen_get ;;
  let is_overwrite := is_file s cf in
  if is_overwrite && negb force then gen_raise (ECmdException cf)
  else log (LInfoWriting is_overwrite cf) ;;;
       s <- gen_get ;; gen_put (mk_cstate (cs_world s) (cs_loaded s) (cs_log s) (cs_files s ++ [cf])).
End ConfigFiles.

Section ConfigFilesFacts.
Context {V : Type} `{EqDecision V}.
Context (os : os_env V).
Implicit Types (s : cstate V).

(** What a file gives when read: its config, [∅] when missing or failing. *)
Definition file_cfg (p : string) : config V :=
  match os_load os p with JDict c => c | _ => ∅ end.
(** A file that is read and sets something: the ones the command records. *)
Definition accepted (p : string) : bool :=
  match os_load os p with JDict c => cfg_truthy c | _ => false end.
Definition load_ok (p : string) : bool :=
  match os_load os p with JError _ => false | _ => true end.

(** [x] comes before [y] in [L]. *)
Definition before (L : list string) (x y : string) : Prop :=
  exists i j, i < j /\ L !! i = Some x /\ L !! j = Some y.

(** A collision warning is right about the order when the file it says
    has the higher priority does come first in [L] (the list in
    descending priority), and it reports some collision. *)
Definition warn_ok (L : list string) (r : logrec V) : Prop :=
  match r with
  | LWarnCollisions f p col => before L p f /\ col <> ∅
  | _ => True
  end.

Lemma before_app_r L M x y : before L x y -> before (L ++ M) x y.
Proof. intros (i & j & Hij & Hi & Hj). exists i, j. by rewrite !lookup_app_l by (by eapply lookup_lt_Some). Qed.

Lemma before_app_l L M x y : before L x y -> before (M ++ L) x y.
Proof.
  intros (i & j & Hij & Hi & Hj). exists (length M + i), (length M + j).
  split; [lia|]. by rewrite !lookup_app_r, !Nat.add_sub' by lia.
Qed.

Lemma warn_ok_app_l L M r : warn_ok L r -> warn_ok (M ++ L) r.
Proof. destruct r; simpl; try done. intros (Hb & Hc). split; [by apply before_app_l|done]. Qed.

Lemma warn_ok_app_r L M r : warn_ok L r -> warn_ok (L ++ M) r.
Proof. destruct r; simpl; try done. intros (Hb & Hc). split; [by apply before_app_r|done]. Qed.

Lemma log_runs r s : gen_runs (log r) s (mk_cstate (cs_world s) (cs_loaded s) (cs_log s ++ [r]) (cs_files s)) tt.
Proof. done. Qed.
Lemma add_loaded_runs p s : gen_runs (add_loaded p) s (mk_cstate (cs_world s) (cs_loaded s ++ [p]) (cs_log s) (cs_files s)) tt.
Proof. done. Qed.
Lemma set_loaded_runs l s : gen_runs (set_loaded l) s (mk_cstate (cs_world s) l (cs_log s) (cs_files s)) tt.
Proof. done. Qed.

Lemma read_config_runs raise p s :
  raise = false \/ load_ok p = true ->
  exists new, gen_runs (read_config_from_json_or_py os raise p) s
                (mk_cstate (cs_world s) (cs_loaded s) (cs_log s ++ new) (cs_files s))
                (match os_load os p with JDict c => Some c | _ => None end) /\
              Forall (fun r => forall L, warn_ok L r) new.
Proof.
  unfold read_config_from_json_or_py, load_ok. intros Hr.
  destruct (os_load os p) as [|e|c].
  - exists []. rewrite app_nil_r. split; [|done]. by destruct s.
  - destruct Hr as [->|]; [|done]. exists [LErrorSkipped p e]. split; [|by repeat constructor].
    eapply gen_runs_bind; [apply log_runs|apply gen_runs_ret].
  - exists [LDebugLoaded p]. split; [|by repeat constructor].
    eapply gen_runs_bind; [apply log_runs|apply gen_runs_ret].
Qed.

Lemma log_collisions_runs (l : list (string * config V * gset string)) acc p c old s :
  cs_loaded s = old ++ [p] ->
  Forall (fun fc => fc.1.1 ∈ old) l ->
  exists new, gen_runs (log_collisions l acc p c) s (mk_cstate (cs_world s) (cs_loaded s) (cs_log s ++ new) (cs_files s)) tt /\
              Forall (warn_ok (reverse (cs_loaded s))) new.
Proof.
  intros Hl Hf. revert s Hl. induction l as [|[[f ec] ow] l IH]; intros s Hl.
  - exists []. rewrite app_nil_r. split; [|done]. by destruct s.
  - apply Forall_cons in Hf as [Hfo Hf]. simpl in Hfo.
    unfold log_collisions. simpl. case_bool_decide as Hne.
    + set (col := cfg_collisions (cfg_view acc ow ec) c) in Hne |- *.
      destruct (IH Hf (mk_cstate (cs_world s) (cs_loaded s) (cs_log s ++ [LWarnCollisions f p col]) (cs_files s)))
        as (new & Hr & Hok); [done|].
      exists (LWarnCollisions f p col :: new). split.
      * eapply gen_runs_bind; [apply log_runs|]. simpl in Hr. by rewrite <-app_assoc in Hr.
      * constructor; [|done]. simpl. rewrite Hl, reverse_app. simpl. split; [|done].
        apply list_elem_of_lookup in Hfo as [i Hi]. pose proof (lookup_lt_Some _ _ _ Hi).
        exists 0, (S (length old - S i)). split; [lia|]. split; [done|]. simpl.
        rewrite reverse_lookup by lia. by replace (length old - S (length old - S i)) with i by lia.
    + destruct (IH Hf s Hl) as (new & Hr & Hok). exists new. split; [|done].
      eapply gen_runs_bind; [apply gen_runs_ret|exact Hr].
Qed.

Lemma warn_ok_trivial_all (new : list (logrec V)) L :
  Forall (fun r => forall L, warn_ok L r) new -> Forall (warn_ok L) new.
Proof. intros H. eapply Forall_impl; [exact H|]. auto. Qed.

(** The static loop never raises when errors are logged (or no file
    fails); it records the accepted files in visiting order, returns their
    merge in that order, and every collision warning it logs is right
    about the list it recorded, read backwards. *)
Lemma static_loop_runs raise loaded acc ps s :
  raise = false \/ Forall (fun p => load_ok p = true) ps ->
  map (fun fc => fc.1.1) loaded = cs_loaded s ->
  exists new, gen_runs (static_loop os raise loaded acc ps) s
     (mk_cstate (cs_world s) (cs_loaded s ++ List.filter accepted ps) (cs_log s ++ new) (cs_files s))
     (fold_left cfg_merge (map file_cfg (List.filter accepted ps)) acc) /\
   Forall (warn_ok (reverse (cs_loaded s ++ List.filter accepted ps))) new.
Proof.
  revert loaded acc s. induction ps as [|p ps IH]; intros loaded acc s Hr Hl.
  - exists []. rewrite !app_nil_r. split; [|done]. by destruct s.
  - assert (Hr' : raise = false \/ Forall (fun p => load_ok p = true) ps)
      by (destruct Hr as [|Hr]; [by left|apply Forall_cons in Hr; tauto]).
    assert (Hp : raise = false \/ load_ok p = true)
      by (destruct Hr as [|Hr]; [by left|apply Forall_cons in Hr; tauto]).
    destruct (read_config_runs raise p s Hp) as (new1 & Hrd & Hn1).
    set (s1 := mk_cstate (cs_world s) (cs_loaded s) (cs_log s ++ new1) (cs_files s)).
    assert (Hacc : accepted p = match os_load os p with JDict c => cfg_truthy c | _ => false end) by done.
    assert (Hfc : file_cfg p = match os_load os p with JDict c => c | _ => ∅ end) by done.
    cbn [static_loop List.filter]. setoid_rewrite (gen_runs_bind_iff _ _ _ _ _ _ _ Hrd).
    assert (Hskip : accepted p = false ->
      exists new, gen_runs (static_loop os raise loaded acc ps) s1
        (mk_cstate (cs_world s) (cs_loaded s ++ List.filter accepted (p :: ps)) (cs_log s ++ new) (cs_files s))
        (fold_left cfg_merge (map file_cfg (List.filter accepted (p :: ps))) acc) /\
        Forall (warn_ok (reverse (cs_loaded s ++ List.filter accepted (p :: ps)))) new).
    { intros Hf0. cbn [List.filter]. rewrite Hf0.
      destruct (IH loaded acc s1 Hr' Hl) as (new2 & Hr2 & Hn2).
      exists (new1 ++ new2). simpl in Hr2. rewrite <-app_assoc in Hr2. split; [done|].
      apply Forall_app. split; [by apply warn_ok_trivial_all|done]. }
    cbn [List.filter] in Hskip |- *.
    destruct (os_load os p) as [|e|c] eqn:Hload; cbn beta iota; rewrite Hacc in Hskip |- *.
    1, 2: by apply Hskip.
    destruct (cfg_truthy c) eqn:Ht; [|by apply Hskip].
    set (s2 := mk_cstate (cs_world s) (cs_loaded s ++ [p]) (cs_log s ++ new1) (cs_files s)).
    destruct (log_collisions_runs loaded acc p c (cs_loaded s) s2) as (new2 & Hr2 & Hn2); [done|..].
    { apply Forall_forall. intros fc Hin. rewrite <-Hl. apply list_elem_of_In.
      apply (in_map (fun fc : string * config V * gset string => fc.1.1)). by apply list_elem_of_In. }
    set (s3 := mk_cstate (cs_world s) (cs_loaded s ++ [p]) ((cs_log s ++ new1) ++ new2) (cs_files s)).
    destruct (IH (loaded ++ [(p, c, dom c ∖ dom acc)]) (cfg_merge acc c) s3 Hr') as (new3 & Hr3 & Hn3).
    { rewrite map_app. simpl. by rewrite Hl. }
    exists (new1 ++ new2 ++ new3). split.
    + eapply gen_runs_bind; [apply add_loaded_runs|].
      eapply gen_runs_bind; [exact Hr2|]. simpl in Hr3 |- *. rewrite Hfc. rewrite <-!app_assoc in Hr3. exact Hr3.
    + simpl in Hn3. rewrite <-!app_assoc in Hn3. rewrite !Forall_app. split; [by apply warn_ok_trivial_all|].
      split; [|done]. eapply Forall_impl; [exact Hn2|]. intros r Hwr. simpl.
      replace (cs_loaded s ++ p :: List.filter accepted ps) with (cs_loaded s2 ++ List.filter accepted ps)
        by (simpl; by rewrite <-app_assoc). rewrite reverse_app. by apply warn_ok_app_l.
Qed.

(** The persist file after [ensure_file_ext]. *)
Definition persist_json (persist_path : option string) : string :=
  os_ensure_file_ext os (persist_fpath os persist_path) ".json".

Lemma read_persist_runs raise cls ppath s :
  raise = false \/ load_ok (persist_json ppath) = true ->
  exists new, gen_runs (read_config_from_persist_file os raise cls ppath) s
     (mk_cstate (match load_pconfig (os_ensure_file_ext os) (os_load os) cls (persist_fpath os ppath) (cs_world s) with
                 | inr (_, _, w') => w' | inl _ => cs_world s end)
                (cs_loaded s ++ List.filter accepted [persist_json ppath]) (cs_log s ++ new) (cs_files s))
     (if accepted (persist_json ppath) then Some (file_cfg (persist_json ppath)) else None) /\
   Forall (fun r => forall L, warn_ok L r) new.
Proof.
  intros Hr. unfold read_config_from_persist_file.
  setoid_rewrite (gen_runs_bind_iff _ _ _ _ _ _ _ (gen_runs_get s)).
  unfold load_pconfig, accepted, file_cfg, load_ok in *. fold (persist_json ppath) in *.
  set (pj := persist_json ppath) in *. cbn [List.filter].
  destruct (os_load os pj) as [|e|c] eqn:Hl; cbn beta iota zeta.
  - exists [LInfoNoPersist pj]. rewrite app_nil_r. split; [|by repeat constructor].
    eapply gen_runs_bind; [apply gen_runs_put|]. eapply gen_runs_bind; [apply log_runs|apply gen_runs_ret].
  - destruct Hr as [->|]; [|done]. exists [LErrorSkippedPersist (persist_fpath os ppath) e].
    rewrite app_nil_r. split; [|by repeat constructor].
    eapply gen_runs_bind; [apply log_runs|]. destruct s. apply gen_runs_ret.
  - destruct (cfg_truthy c).
    + exists [LDebugLoadedPersist pj]. split; [|by repeat constructor].
      eapply gen_runs_bind; [apply gen_runs_put|]. eapply gen_runs_bind; [apply log_runs|].
      eapply gen_runs_bind; [apply add_loaded_runs|apply gen_runs_ret].
    + exists [LInfoNoPersist pj]. rewrite app_nil_r. split; [|by repeat constructor].
      eapply gen_runs_bind; [apply gen_runs_put|]. eapply gen_runs_bind; [apply log_runs|apply gen_runs_ret].
Qed.

Lemma gen_finally_runs {A} (m : gen cexc Empty_set (cstate V) A) f s s1 s2 (a : A) :
  gen_runs m s s1 a -> gen_runs f s1 s2 tt -> gen_runs (gen_finally m f) s s2 a.
Proof.
  intros [Ho Hs] [Ho' Hs']. unfold gen_runs, gen_finally. simpl. rewrite Hs, Ho', Hs'. by rewrite Ho.
Qed.

Lemma filter_reverse_bool {A} (f : A -> bool) (l : list A) :
  List.filter f (reverse l) = reverse (List.filter f l).
Proof.
  induction l as [|x l IH]; [done|]. rewrite reverse_cons, List.filter_app, IH. simpl.
  destruct (f x); simpl; [by rewrite reverse_cons|by rewrite app_nil_r].
Qed.

(** [load_configurables_from_files()] without a raising error: the
    static files accepted, then the persist file if accepted, recorded
    and then reversed, so that [loaded_config_files] is the persist file
    followed by the static files in their given order; the static config
    is their merge from the last to the first; every collision warning is
    right about [loaded_config_files]. *)
Lemma load_configurables_runs raise cls cps ppath s :
  raise = false \/ (Forall (fun p => load_ok p = true) (collect_static_fpaths os cps) /\
                    load_ok (persist_json ppath) = true) ->
  exists s' static, gen_runs (load_configurables_from_files os raise cls cps ppath) s s'
       (static, if accepted (persist_json ppath) then Some (file_cfg (persist_json ppath)) else None) /\
     cs_loaded s' = List.filter accepted (persist_json ppath :: collect_static_fpaths os cps) /\
     static = fold_left cfg_merge (reverse (map file_cfg (List.filter accepted (collect_static_fpaths os cps)))) ∅ /\
     exists new, cs_log s' = cs_log s ++ new /\ Forall (warn_ok (cs_loaded s')) new.
Proof.
  intros Hr. set (C := collect_static_fpaths os cps). set (pj := persist_json ppath).
  set (s0 := mk_cstate (cs_world s) [] (cs_log s) (cs_files s)).
  destruct (static_loop_runs raise [] ∅ (reverse C) s0) as (new1 & Hr1 & Hn1); [|done|].
  { destruct Hr as [|[Hc _]]; [by left|right]. by apply Forall_reverse. }
  set (s1 := mk_cstate (cs_world s) ([] ++ List.filter accepted (reverse C)) (cs_log s ++ new1) (cs_files s)).
  destruct (read_persist_runs raise cls ppath s1) as (new2 & Hr2 & Hn2); [destruct Hr as [|[_ ?]]; auto|].
  set (s2 := mk_cstate _ _ (cs_log s1 ++ new2) _) in Hr2.
  exists (mk_cstate (cs_world s2) (reverse (cs_loaded s2)) (cs_log s2) (cs_files s2)), (fold_left cfg_merge (map file_cfg (List.filter accepted (reverse C))) ∅).
  split; [|split; [|split]].
  - eapply gen_runs_bind; [apply set_loaded_runs|]. apply (gen_finally_runs _ _ _ s2).
    + eapply gen_runs_bind; [exact Hr1|]. eapply gen_runs_bind; [exact Hr2|apply gen_runs_ret].
    + eapply gen_runs_bind; [apply gen_runs_get|apply set_loaded_runs].
  - simpl. rewrite reverse_app, filter_reverse_bool, reverse_involutive. simpl.
    unfold pj. by destruct (accepted (persist_json ppath)).
  - by rewrite filter_reverse_bool, map_reverse.
  - exists (new1 ++ new2). simpl. rewrite <-app_assoc. split; [done|].
    rewrite reverse_app, filter_reverse_bool, reverse_involutive. apply Forall_app. split.
    + simpl in Hn1. rewrite filter_reverse_bool, reverse_involutive in Hn1. eapply Forall_impl; [exact Hn1|].
      intros r Hwr. by apply warn_ok_app_l.
    + by apply warn_ok_trivial_all.
Qed.

Lemma check_non_encrypted_runs cipher_traits is_pgp_encrypted static s :
  exists new, gen_runs (check_non_encrypted_in_config_files cipher_traits is_pgp_encrypted false static) s
                (mk_cstate (cs_world s) (cs_loaded s) (cs_log s ++ new) (cs_files s)) tt /\
              Forall (fun r => forall L, warn_ok L r) new.
Proof.
  unfold check_non_encrypted_in_config_files. revert s.
  induction cipher_traits as [|[cls tr] cts IH]; intros s.
  - exists []. rewrite app_nil_r. split; [|done]. by destruct s.
  - cbn [gen_for]. destruct (cfg_get static cls tr) as [v|]; [destruct (is_pgp_encrypted v)|].
    2: destruct (IH (mk_cstate (cs_world s) (cs_loaded s) (cs_log s ++ [LErrorNonEncrypted cls tr]) (cs_files s)))
         as (new & Hr & Hn);
       exists (LErrorNonEncrypted cls tr :: new); split; [|by constructor];
       eapply gen_runs_bind; [apply log_runs|]; simpl in Hr; by rewrite <-app_assoc in Hr.
    all: destruct (IH s) as (new & Hr & Hn); exists new; split; [|done];
         eapply gen_runs_bind; [apply gen_runs_ret|exact Hr].
Qed.

Lemma cfg_get_empty cls k : cfg_get (∅ : config V) cls k = None.
Proof. done. Qed.
End ConfigFilesFacts.

Section ConfigFilesTheorems.
Context {V : Type} `{EqDecision V}.
Context (os : os_env V) (cipher_traits : list (string * string)) (is_pgp_encrypted : V -> bool).

(** C6: [loaded_config_files] lists the files read in descending order of
    precedence, as its documentation says: when errors are only logged,
    [load_configurables_from_files] records the persist file (if it was
    read and sets something) followed by the static files that were read
    and set something, in the order [_collect_static_fpaths] gave them;
    and every collision warning it logs reports some collision and names
    as the file of higher priority one that comes first in that list. *)
Theorem loaded_config_files_descending cls cps ppath s :
  exists s' static persist,
    gen_runs (load_configurables_from_files os false cls cps ppath) s s' (static, persist) /\
    cs_loaded s' = List.filter (accepted os) (persist_json os ppath :: collect_static_fpaths os cps) /\
    exists new, cs_log s' = cs_log s ++ new /\ Forall (warn_ok (cs_loaded s')) new.
Proof.
  destruct (load_configurables_runs os false cls cps ppath s (or_introl eq_refl))
    as (s' & static & Hr & Hl & _ & Hn).
  eexists _, static, _. split; [exact Hr|]. split; [exact Hl|exact Hn].
Qed.

(** C2: The configuration a command ends [initialize] with gives every
    trait the value of the first source that sets it, in the order
    command line, then [loaded_config_files] (persist file, then the
    static files in their given order), then what the command had before
    reading files: the documented precedence ("persistent parameters
    override static ones", "1st one overrides the rest", "command-line
    values take precedence"). *)
Theorem initialize_precedence cls cps ppath (cli cfg0 : config V) s :
  exists s' cfg,
    gen_runs (initialize os cipher_traits is_pgp_encrypted false false cls cps ppath cli cfg0) s s' cfg /\
    cs_loaded s' = List.filter (accepted os) (persist_json os ppath :: collect_static_fpaths os cps) /\
    forall c k, cfg_get cfg c k =
      match cfg_first (cli :: map (file_cfg os) (cs_loaded s')) c k with
      | Some v => Some v
      | None => cfg_get cfg0 c k
      end.
Proof.
  destruct (load_configurables_runs os false cls cps ppath s (or_introl eq_refl))
    as (s1 & static & Hr & Hl & Hst & _).
  destruct (check_non_encrypted_runs cipher_traits is_pgp_encrypted static s1) as (new & Hc & _).
  set (pj := persist_json os ppath) in *.
  set (st1 := match (if accepted os pj then Some (file_cfg os pj) else None) with
              | Some pc => if cfg_truthy pc then cfg_merge static pc else static
              | None => static end).
  eexists _, (cfg_merge cfg0 (cfg_merge st1 cli)). split; [|split].
  - unfold initialize. eapply gen_runs_bind; [exact Hr|]. simpl.
    eapply gen_runs_bind; [exact Hc|apply gen_runs_ret].
  - done.
  - intros c k. simpl. rewrite Hl, !cfg_get_merge. simpl.
    destruct (cfg_get cli c k) as [v|]; [done|].
    assert (Hs : cfg_get static c k = cfg_first (map (file_cfg os) (List.filter (accepted os) (collect_static_fpaths os cps))) c k).
    { rewrite Hst, cfg_get_fold_merge. by destruct (cfg_first _ _ _). }
    subst st1. destruct (accepted os pj) eqn:Ha; simpl.
    + assert (Ht : cfg_truthy (file_cfg os pj) = true).
      { revert Ha. unfold accepted, file_cfg. by destruct (os_load os pj). }
      rewrite Ht, cfg_get_merge, Hs. by destruct (cfg_get (file_cfg os pj) c k).
    + rewrite Hs. done.
Qed.

End ConfigFilesTheorems.

(** ** A concrete command: the static path [conf] resolves to [conf.py]
    and [conf.json], and a persist file exists; all three set
    [Cmd.force]. *)
Definition demo_files : list (string * config nat) :=
  [("conf.py", {["Cmd" := {["force" := 1]}]});
   ("conf.json", {["Cmd" := {["force" := 0; "verbose" := 1]}]});
   ("~/.co2dice/co2dice_runtime.json", {["Cmd" := {["force" := 2]}]})].

Definition demo_os : os_env nat :=
  mk_os_env (fun p => [p]) id (fun p e => p +:+ e) (fun a b => a +:+ "/" +:+ b) id
    (fun p => bool_decide (p ∈ map fst demo_files)) (fun _ => false) (fun _ => None) "."
    (fun p => from_option JDict JNotFound (assoc p demo_files)).

Definition demo_state : cstate nat := mk_cstate world0 [] [] [].

(** On the concrete command, [initialize] records the persist file, then
    [conf.py], then [conf.json]; the persist file's [Cmd.force] wins; and
    the one collision warning says [conf.py] overrides [conf.json]. *)
Example demo_initialize :
  let r := initialize demo_os [] (fun _ => true) false false "ReportCmd" (Some ["conf"]) None ∅ ∅ demo_state in
  cs_loaded (g_state r) = ["~/.co2dice/co2dice_runtime.json"; "conf.py"; "conf.json"] /\
  (cfg_get <$> (match g_out r with inr c => Some c | inl _ => None end)) ≫= (fun f => f "Cmd" "force") = Some 2 /\
  (exists col, LWarnCollisions "conf.json" "conf.py" col ∈ cs_log (g_state r)).
Proof.
  split; [reflexivity|]. split; [reflexivity|]. eexists. apply list_elem_of_In. vm_compute.
  right; right; left. reflexivity.
Qed.

(** Three static files in descending priority: [a.json] sets [X.b = 3],
    [b.json] sets [X.b = 2], [c.json] sets [X.a = 1].  [c.json], read
    first, lends its section [X] to [new_config]; merging [b.json] updates
    it in place, so when [a.json] is read the registry's [c.json] shows
    [X.b = 2] and a collision on [X.b] is reported against [c.json], a file
    that never set it. *)
Definition alias_files : list (string * config nat) :=
  [("a.json", {["X" := {["b" := 3]}]}); ("b.json", {["X" := {["b" := 2]}]}); ("c.json", {["X" := {["a" := 1]}]})].

Definition alias_os : os_env nat :=
  mk_os_env (fun p => [p]) id (fun p e => p +:+ e) (fun a b => a +:+ "/" +:+ b) id
    (fun p => bool_decide (p ∈ map fst alias_files)) (fun _ => false) (fun _ => None) "."
    (fun p => from_option JDict JNotFound (assoc p alias_files)).

Example static_collision_on_shared_section :
  cs_log (g_state (static_loop alias_os false [] ∅ ["c.json"; "b.json"; "a.json"] demo_state)) =
    [LDebugLoaded "c.json"; LDebugLoaded "b.json"; LDebugLoaded "a.json";
     LWarnCollisions "c.json" "a.json" {["X" := {["b" := (2, 3)]}]};
     LWarnCollisions "b.json" "a.json" {["X" := {["b" := (2, 3)]}]}].
Proof. vm_compute. reflexivity. Qed.
