(* ===== verification/Draw.v ===== *)
(** * Node labels of the drawings ([src/dispatcher/draw.py], lines 19-30)

    [replace_under_score(s)] repeats [node_label_regex.subn(under_rpl, s)]
    until a pass replaces nothing.  The pattern
    [(^|[^(_ )])(_)[^(_ )]] matches an underscore preceded by the start of
    the string or by a character outside [( _ space )] and followed by such
    a character; [under_rpl] turns the underscores of the match into
    spaces.  One pass ([subn]) is a left-to-right scan for non-overlapping
    matches: [pass] below, with the [^] alternative tried first at
    position 0.  The loop is [us_loop], run with fuel; the theorems show
    that the fuel [count_us s + 1] always suffices (each pass that
    replaces something removes underscores), and that the result is the
    one-pass reference [us_ref]: an underscore becomes a space exactly when
    both its neighbours in the input allow it. *)

From stdpp Require Import base list strings.
From Stdlib Require Import Ascii Lia.
From S2P Require Import Prelude.

Local Open Scope char_scope.

(** [[^(_ )]]: a character the pattern accepts next to an underscore. *)
Definition lbl_ok (c : ascii) : bool := bool_decide (c ∉ ["("; "_"; " "; ")"]).

(** One [subn] pass from a position after the start: the matches of the
    second alternative [c1 _ c2], the count of replacements. *)
Fixpoint pass_tail (s : string) : string * nat :=
  match s with
  | EmptyString => (EmptyString, 0)
  | String c1 t =>
      match t with
      | String u (String c2 rest) =>
          if lbl_ok c1 && bool_decide (u = "_") && lbl_ok c2 then
            let '(r, n) := pass_tail rest in (String c1 (String " " (String c2 r)), S n)
          else let '(r, n) := pass_tail t in (String c1 r, n)
      | _ => let '(r, n) := pass_tail t in (String c1 r, n)
      end
  end.

(** [node_label_regex.subn(under_rpl, s)]: at position 0 the [^]
    alternative [_ c2] is tried first. *)
Definition pass (s : string) : string * nat :=
  match s with
  | String u (String c2 rest) =>
      if bool_decide (u = "_") && lbl_ok c2 then
        let '(r, n) := pass_tail rest in (String " " (String c2 r), S n)
      else pass_tail s
  | _ => pass_tail s
  end.

(** [while n: s, n = node_label_regex.subn(under_rpl, s)], with fuel. *)
Fixpoint us_loop (fuel : nat) (s : string) (n : nat) : option string :=
  match fuel with
  | 0 => None
  | S f => if bool_decide (n = 0) then Some s else let '(s', n') := pass s in us_loop f s' n'
  end.

(** The number of underscores of a string. *)
Fixpoint count_us (s : string) : nat :=
  match s with
  | EmptyString => 0
  | String c t => (if bool_decide (c = "_") then 1 else 0) + count_us t
  end.

(** [replace_under_score(s)]: the first pass, then the loop; the fuel is
    enough (theorem [replace_under_score_terminates]). *)
Definition replace_under_score (s : string) : string :=
  let '(s1, n) := pass s in from_option id s1 (us_loop (S (count_us s)) s1 n).

(** The reference: one scan over the input, an underscore becoming a
    space when the character before it (or the start) and the one after
    it are accepted. *)
Fixpoint ref_from (pok : bool) (s : string) : string :=
  match s with
  | EmptyString => EmptyString
  | String c t =>
      let nxt := match t with String c2 _ => lbl_ok c2 | EmptyString => false end in
      String (if bool_decide (c = "_") && pok && nxt then " " else c) (ref_from (lbl_ok c) t)
  end.
Definition us_ref (s : string) : string := ref_from true s.

(** ** The passes *)

(** The recursion scheme of [pass_tail]: a string steps to its tail
    after one character, or after three when the match succeeds. *)
Lemma pass_tail_ind (P : string -> Prop) :
  P EmptyString ->
  (forall c1 t, P t -> (forall u c2 rest, t = String u (String c2 rest) -> P rest) -> P (String c1 t)) ->
  forall s, P s.
Proof.
  intros H0 H s. remember (String.length s) as k. revert s Heqk.
  induction k as [k IH] using lt_wf_ind. intros [|c1 t] ->; [done|]. apply H.
  - apply (IH (String.length t)); [simpl; lia|done].
  - intros u c2 rest ->. apply (IH (String.length rest)); [simpl; lia|done].
Qed.

Lemma pass_tail_cons c t : exists r n, pass_tail (String c t) = (String c r, n).
Proof.
  destruct t as [|u [|c2 rest]]; simpl; repeat case_match; by eexists _, _.
Qed.

Lemma lbl_ok_space : lbl_ok " " = false.
Proof. reflexivity. Qed.
Lemma lbl_ok_us : lbl_ok "_" = false.
Proof. reflexivity. Qed.
Lemma lbl_ok_not_us c : lbl_ok c = true -> bool_decide (c = "_") = false.
Proof. intros H. apply bool_decide_eq_false. intros ->. by rewrite lbl_ok_us in H. Qed.
Lemma space_not_us : bool_decide (" " = "_") = false.
Proof. reflexivity. Qed.

Lemma pass_tail_eq3 c1 u c2 rest :
  pass_tail (String c1 (String u (String c2 rest))) =
    if lbl_ok c1 && bool_decide (u = "_") && lbl_ok c2 then
      let '(r, n) := pass_tail rest in (String c1 (String " " (String c2 r)), S n)
    else let '(r, n) := pass_tail (String u (String c2 rest)) in (String c1 r, n).
Proof. reflexivity. Qed.

(** A pass never changes the first character it scans from. *)
Lemma ref_from_head pok c r t :
  (match r with String c2 _ => lbl_ok c2 | EmptyString => false end) =
  (match t with String c2 _ => lbl_ok c2 | EmptyString => false end) ->
  ref_from (lbl_ok c) r = ref_from (lbl_ok c) t ->
  ref_from pok (String c r) = ref_from pok (String c t).
Proof. intros Hn Ht. simpl. by rewrite Hn, Ht. Qed.

(** A pass from a position after the start keeps the reference. *)
Lemma ref_pass_tail s : forall pok, ref_from pok (pass_tail s).1 = ref_from pok s.
Proof.
  induction s as [|c1 t IH1 IH3] using pass_tail_ind; intros pok; [done|].
  destruct t as [|u [|c2 rest]]; [done|done|].
  rewrite pass_tail_eq3. destruct (lbl_ok c1 && bool_decide (u = "_") && lbl_ok c2) eqn:Hm.
  - apply andb_prop in Hm as [[Hc1 Hu]%andb_prop Hc2]. apply bool_decide_eq_true in Hu as ->.
    destruct (pass_tail rest) as [r n] eqn:Hr. simpl.
    rewrite Hc1, Hc2, (lbl_ok_not_us c2 Hc2). rewrite ?lbl_ok_space, ?lbl_ok_us, ?space_not_us. simpl.
    specialize (IH3 "_" c2 rest eq_refl true). rewrite Hr in IH3. simpl in IH3. by rewrite IH3.
  - destruct (pass_tail_cons u (String c2 rest)) as (r' & n' & Hr'). rewrite Hr'. cbn [fst].
    apply ref_from_head; [done|]. specialize (IH1 (lbl_ok c1)). by rewrite Hr' in IH1.
Qed.

(** A whole pass keeps the reference. *)
Lemma ref_pass s : us_ref (pass s).1 = us_ref s.
Proof.
  unfold us_ref. destruct s as [|u [|c2 rest]]; [done|apply ref_pass_tail|].
  cbn [pass]. destruct (bool_decide (u = "_") && lbl_ok c2) eqn:Hm; [|apply ref_pass_tail].
  apply andb_prop in Hm as [Hu Hc2]. apply bool_decide_eq_true in Hu as ->.
  pose proof (ref_pass_tail rest true) as H. destruct (pass_tail rest) as [r n]. simpl in *.
  rewrite Hc2, (lbl_ok_not_us c2 Hc2). simpl. by rewrite H.
Qed.

(** Each replacement of a pass removes one underscore. *)
Lemma count_pass_tail s : count_us (pass_tail s).1 + (pass_tail s).2 = count_us s.
Proof.
  induction s as [|c1 t IH1 IH3] using pass_tail_ind; [done|].
  destruct t as [|u [|c2 rest]]; [done|done|].
  rewrite pass_tail_eq3. destruct (lbl_ok c1 && bool_decide (u = "_") && lbl_ok c2) eqn:Hm.
  - apply andb_prop in Hm as [[Hc1 Hu]%andb_prop Hc2]. apply bool_decide_eq_true in Hu as ->.
    specialize (IH3 "_" c2 rest eq_refl). destruct (pass_tail rest) as [r n]. simpl in *.
    rewrite (lbl_ok_not_us c1 Hc1), (lbl_ok_not_us c2 Hc2). simpl. lia.
  - destruct (pass_tail (String u (String c2 rest))) as [r n]. simpl in *. lia.
Qed.

Lemma count_pass s : count_us (pass s).1 + (pass s).2 = count_us s.
Proof.
  destruct s as [|u [|c2 rest]]; [done|apply count_pass_tail|].
  cbn [pass]. destruct (bool_decide (u = "_") && lbl_ok c2) eqn:Hm; [|apply count_pass_tail].
  apply andb_prop in Hm as [Hu Hc2]. apply bool_decide_eq_true in Hu as ->.
  pose proof (count_pass_tail rest) as H. destruct (pass_tail rest) as [r n]. simpl in *.
  rewrite (lbl_ok_not_us c2 Hc2). simpl. lia.
Qed.

(** The reference does not look at the character before a string whose
    head is not a replaceable underscore. *)
Lemma ref_from_true_false t :
  (forall c2 rest, t = String "_" (String c2 rest) -> lbl_ok c2 = false) ->
  ref_from true t = ref_from false t.
Proof.
  intros H. destruct t as [|u [|c2 rest]]; simpl; [done|by rewrite !andb_false_r|].
  destruct (decide (u = "_")) as [->|Hu].
  - by rewrite (H c2 rest eq_refl), !andb_false_r.
  - by rewrite bool_decide_false.
Qed.

(** A pass that replaces nothing leaves the string as it is, and the
    string is its own reference. *)
Lemma pass_tail_none s : (pass_tail s).2 = 0 -> (pass_tail s).1 = s /\ ref_from false s = s.
Proof.
  induction s as [|c1 t IH1 IH3] using pass_tail_ind; [done|].
  assert (Hcons : (pass_tail t).2 = 0 -> (pass_tail (String c1 t)).1 = String c1 (pass_tail t).1 ->
                  (lbl_ok c1 = true -> forall c2 rest, t = String "_" (String c2 rest) -> lbl_ok c2 = false) ->
                  (pass_tail (String c1 t)).1 = String c1 t /\ ref_from false (String c1 t) = String c1 t).
  { intros H0 Hpt Hno. destruct (IH1 H0) as [Ht Hr]. rewrite Hpt, Ht. split; [done|]. simpl.
    rewrite andb_false_r. f_equal. destruct (lbl_ok c1) eqn:Hc1; [|done].
    by rewrite (ref_from_true_false t (Hno eq_refl)). }
  destruct t as [|u [|c2 rest]]; [intros _; apply Hcons; [done|done|by intros _ ? ? ?]..|].
  destruct (lbl_ok c1 && bool_decide (u = "_") && lbl_ok c2) eqn:Hm.
  - rewrite pass_tail_eq3, Hm. by destruct (pass_tail rest).
  - assert (Heq : pass_tail (String c1 (String u (String c2 rest))) =
                  let '(r, n) := pass_tail (String u (String c2 rest)) in (String c1 r, n))
      by (rewrite pass_tail_eq3, Hm; reflexivity).
    intros H0. apply Hcons.
    + rewrite Heq in H0. by destruct (pass_tail (String u (String c2 rest))).
    + rewrite Heq. by destruct (pass_tail (String u (String c2 rest))).
    + intros Hc1 c2' rest' [= -> <- <-]. rewrite Hc1 in Hm. destruct (lbl_ok c2); [|done]. vm_compute in Hm. discriminate.
Qed.

Lemma pass_none s : (pass s).2 = 0 -> (pass s).1 = s /\ us_ref s = s.
Proof.
  unfold us_ref. intros H.
  assert (Hno : forall c2 rest, s = String "_" (String c2 rest) -> lbl_ok c2 = false).
  { intros c2 rest ->. revert H. cbn [pass]. rewrite bool_decide_true by done. simpl.
    destruct (lbl_ok c2); [by destruct (pass_tail rest)|done]. }
  assert (Hpt : pass s = pass_tail s).
  { destruct s as [|u [|c2 rest]]; [done|done|]. cbn [pass].
    destruct (decide (u = "_")) as [->|Hu]; [by rewrite (Hno c2 rest eq_refl), andb_false_r|].
    by rewrite bool_decide_false. }
  rewrite Hpt in H |- *. rewrite ref_from_true_false by done. by apply pass_tail_none.
Qed.

(** ** The loop *)

(** With one unit of fuel more than the underscores left (or after a
    pass that replaced nothing), the loop exits, on a string that no pass
    changes, with the reference of the string it started from. *)
Lemma us_loop_spec f : forall s n,
  1 <= f -> (n = 0 \/ count_us s + 1 < f) -> (n = 0 -> (pass s).2 = 0) ->
  exists r, us_loop f s n = Some r /\ us_ref r = us_ref s /\ (pass r).2 = 0.
Proof.
  induction f as [|f IH]; intros s n Hf Hfuel Hn; [lia|]. cbn [us_loop].
  destruct (decide (n = 0)) as [->|Hn0].
  - rewrite bool_decide_true by done. exists s. auto.
  - rewrite bool_decide_false by done. destruct Hfuel as [|Hfuel]; [done|].
    pose proof (count_pass s) as Hc. pose proof (ref_pass s) as Hr. pose proof (pass_none s) as Hnone.
    destruct (pass s) as [s' n'] eqn:Hp. simpl in Hc, Hr, Hnone.
    destruct (IH s' n') as (r & Hl & Hrr & Hpr).
    + lia.
    + destruct (decide (n' = 0)); [by left|right; lia].
    + intros ->. destruct (Hnone eq_refl) as [-> _]. by rewrite Hp.
    + exists r. split; [done|]. split; [by rewrite Hrr|done].
Qed.

(** C20: [replace_under_score] terminates: after its first [subn] pass,
    the [while n] loop exits within [count_us s + 1] iterations, whatever
    the string (each pass that replaces something removes as many
    underscores). *)
Theorem replace_under_score_terminates (s : string) :
  exists r, us_loop (S (count_us s)) (pass s).1 (pass s).2 = Some r.
Proof.
  pose proof (count_pass s) as Hc. pose proof (pass_none s) as Hnone.
  destruct (us_loop_spec (S (count_us s)) (pass s).1 (pass s).2) as (r & Hr & _).
  - lia.
  - destruct (decide ((pass s).2 = 0)); [by left|right; lia].
  - intros H0. destruct (Hnone H0) as [Heq _]. by rewrite Heq.
  - by exists r.
Qed.

(** C11: [replace_under_score] computes the one-scan reference: an
    underscore of the input becomes a space exactly when the character
    before it (or the start of the string) and the one after it are
    outside [( _ space )]; and no match of [node_label_regex] is left. *)
Theorem replace_under_score_ref (s : string) :
  replace_under_score s = us_ref s /\ (pass (replace_under_score s)).2 = 0.
Proof.
  pose proof (count_pass s) as Hc. pose proof (pass_none s) as Hnone. pose proof (ref_pass s) as Href.
  unfold replace_under_score. destruct (pass s) as [s1 n] eqn:Hp. simpl in Hc, Hnone, Href.
  destruct (us_loop_spec (S (count_us s)) s1 n) as (r & -> & Hrr & Hpr).
  - lia.
  - destruct (decide (n = 0)); [by left|right; lia].
  - intros ->. destruct (Hnone eq_refl) as [-> _]. by rewrite Hp.
  - simpl. destruct (pass_none r Hpr) as [_ Hfix]. split; [|done].
    by rewrite <-Hfix, Hrr, Href.
Qed.
