(* ===== verification/Dot.v ===== *)
(** * The Graphviz drawing ([plot_dsp_graphviz], [src/dispatcher/draw.py]
    lines 153-276)

    The function walks the nodes of the graph being drawn ([g.node], the
    dispatcher map or a workflow), emits a [node] statement per data or
    function node, recurses into every [SubDispatch] function node with a
    fresh [Digraph('cluster_%s' % cnt())], then emits the edges and two
    attribute lines.  The counter [cnt] is created once, by the outermost
    call, and shared by the whole recursion: the model threads it.  The
    graph to draw is a tree: a function node carries the graph its
    sub-dispatcher is drawn from.  [str()] of a default or of an edge value
    may raise: the model gives [None] for a value whose [str] raises, and
    [hash] is a parameter. *)

From stdpp Require Import base list strings pretty.
From Stdlib Require Import Ascii Lia.
From S2P Require Import Prelude Graph.

(** The graph being drawn: whether [START] is one of its nodes, its
    nodes in order with what [dsp.nodes] says of them, its edges with
    [str(a['value'])] ([None]: missing or raising), and the dispatcher's
    defaults as strings ([None]: [str] raises). *)
Inductive pgraph :=
  mk_pgraph (pg_start : bool) (pg_nodes : list (string * nkind))
            (pg_edges : list (string * string * option string))
            (pg_dfl : list (string * option string))
with nkind :=
| NAbsent                                  (** [dsp.nodes.get(k, {})] is empty *)
| NData
| NFunction (sub : option (bool * pgraph)) (** a [SubDispatch]: its [workflow] flag and graph *)
| NOther.                                  (** another node type *)

(** The statements of a [Digraph] body. *)
Inductive dstmt :=
| DNode (id label : string) (attrs : list (string * string))
| DEdge (u v : string) (label : option string)
| DSub (name : string) (body : list dstmt)   (** [dot.subgraph(sub)] *)
| DLine (line : string).
Record digraph := mk_digraph { dg_name : string; dg_body : list dstmt }.

Section PlotDot.
Context (hash : string -> string).

(** The double-quote and newline characters. *)
Definition dquote : string := String "034"%char EmptyString.
Definition newline : string := String "010"%char EmptyString.

Definition id_node (dot_name k : string) : string := dot_name +:+ "_" +:+ hash k.

Definition cluster_name (n : nat) : string := "cluster_" +:+ pretty n.

Definition data_attrs : list (string * string) := [("shape", "oval"); ("fillcolor", "cyan")].
Definition fun_attrs : list (string * string) := [("shape", "box"); ("fillcolor", "springgreen")].
Definition sub_attrs : list (string * string) :=
  [("shape", "box"); ("fillcolor", "gray"); ("color", "black")].
Definition start_attrs : list (string * string) := [("shape", "triangle"); ("fillcolor", "orange")].

(** [data_label = '%s\n default = %s' % (k, str(dfl[k]))], [k] when the
    lookup or [str] raises. *)
Definition data_label (dfl : list (string * option string)) (k : string) : string :=
  match assoc k dfl with
  | Some (Some v) => k +:+ newline +:+ " default = " +:+ v
  | _ => k
  end.

(** One node of [g.node.items()] (lines 223-264), [rec] being the
    recursive call on a sub-dispatcher. *)
Definition plot_node (rec : pgraph -> bool -> string -> string -> nat -> list dstmt * nat)
    (dfl : list (string * option string)) (title dot_name k : string) (kind : nkind) (cnt : nat)
    : list dstmt * nat :=
  match kind with
  | NAbsent | NOther => ([], cnt)
  | NData => ([DNode (id_node dot_name k) (data_label dfl k) data_attrs], cnt)
  | NFunction None => ([DNode (id_node dot_name k) k fun_attrs], cnt)
  | NFunction (Some (w, sg)) =>
      let name := cluster_name cnt in
      let '(body, cnt2) := rec sg w (title +:+ ":" +:+ k) name (S cnt) in
      ([DSub name (body ++ [DLine "style=filled"; DLine "fillcolor=gray"; DLine "color=black"]);
        DNode (id_node dot_name k) k sub_attrs], cnt2)
  end.

(** [for k, v in g.node.items(): ...]. *)
Fixpoint plot_nodes (rec : pgraph -> bool -> string -> string -> nat -> list dstmt * nat)
    (dfl : list (string * option string)) (title dot_name : string)
    (l : list (string * nkind)) (cnt : nat) : list dstmt * nat :=
  match l with
  | [] => ([], cnt)
  | (k, kind) :: l' =>
      let '(here, cnt1) := plot_node rec dfl title dot_name k kind cnt in
      let '(rest, cnt3) := plot_nodes rec dfl title dot_name l' cnt1 in (here ++ rest, cnt3)
  end.

(** [plot_dsp_graphviz(dsp, workflow, title, dot, cnt)] on a graph [g]:
    the statements appended to [dot]'s body, and the counter after. *)
Fixpoint plot_gv (g : pgraph) (workflow : bool) (title : string) (dot_name : string) (cnt : nat)
    : list dstmt * nat :=
  match g with
  | mk_pgraph start nodes edges dfl0 =>
      let dfl := if workflow then [] else dfl0 in
      let st := if start then [DNode (id_node dot_name START) "start" start_attrs] else [] in
      let '(ns, cnt') := plot_nodes plot_gv dfl title dot_name nodes cnt in
      (st ++ ns ++
       map (fun '(u, v, lbl) => DEdge (id_node dot_name u) (id_node dot_name v) lbl) edges ++
       [DLine ("label = " +:+ dquote +:+ title +:+ dquote); DLine "splines = ortho"], cnt')
  end.

(** The outermost call: [dot = Digraph('main', format='svg')] with
    [node_attr] [style=filled], and [cnt = count(0).__next__]. *)
Definition plot_dsp_graphviz (g : pgraph) (workflow : bool) (title : string) : digraph :=
  mk_digraph "main" (plot_gv g workflow title "main" 0).1.
End PlotDot.

(** The induction scheme of the graphs to draw: through the graphs of
    the sub-dispatchers of their function nodes. *)
Section PgraphInd.
Variable P : pgraph -> Prop.
Hypothesis Hg : forall start nodes edges dfl,
  Forall (fun kn => match kn.2 with NFunction (Some (_, sg)) => P sg | _ => True end) nodes ->
  P (mk_pgraph start nodes edges dfl).
Fixpoint pgraph_ind' (g : pgraph) : P g :=
  match g with
  | mk_pgraph start nodes edges dfl =>
      Hg start nodes edges dfl
        ((fix go (l : list (string * nkind)) :
             Forall (fun kn => match kn.2 with NFunction (Some (_, sg)) => P sg | _ => True end) l :=
            match l with
            | [] => List.Forall_nil _
            | (k, kind) :: l' =>
                List.Forall_cons _ (k, kind) l'
                  (match kind return match kind with NFunction (Some (_, sg)) => P sg | _ => True end with
                   | NFunction (Some (w, sg)) => pgraph_ind' sg
                   | NFunction None => I
                   | NAbsent => I
                   | NData => I
                   | NOther => I
                   end) (go l')
            end) nodes)
  end.
End PgraphInd.

(** The sub-dispatchers drawn, at every depth. *)
Fixpoint n_subs (g : pgraph) : nat :=
  match g with
  | mk_pgraph _ nodes _ _ =>
      sum_list_with (fun kn => match kn.2 with NFunction (Some (_, sg)) => S (n_subs sg) | _ => 0 end) nodes
  end.

(** The names of the clusters of a body, at every depth, in order. *)
Fixpoint stmt_clusters (d : dstmt) : list string :=
  match d with
  | DSub name body =>
      name :: (fix go (b : list dstmt) : list string :=
                 match b with [] => [] | d :: b' => stmt_clusters d ++ go b' end) body
  | _ => []
  end.
Definition clusters (b : list dstmt) : list string := flat_map stmt_clusters b.

Lemma clusters_sub name body : stmt_clusters (DSub name body) = name :: clusters body.
Proof. reflexivity. Qed.

Lemma clusters_app b1 b2 : clusters (b1 ++ b2) = clusters b1 ++ clusters b2.
Proof. apply flat_map_app. Qed.

Lemma string_app_inj_l (p s t : string) : p +:+ s = p +:+ t -> s = t.
Proof. induction p as [|c p IH]; [done|]. simpl. intros [= H]. by apply IH. Qed.

Lemma cluster_name_inj n m : cluster_name n = cluster_name m -> n = m.
Proof. intros H. apply string_app_inj_l in H. by apply (inj pretty). Qed.

Section PlotClusters.
Context (hash : string -> string).

(** What a drawing of [g] from counter [c] does with the counter: it
    takes the next [n_subs g] values, one cluster name each, in order. *)
Definition clusters_ok (g : pgraph) : Prop :=
  forall w t name c,
    (plot_gv hash g w t name c).2 = c + n_subs g /\
    clusters (plot_gv hash g w t name c).1 = map cluster_name (seq c (n_subs g)).

Definition n_subs_node (kn : string * nkind) : nat :=
  match kn.2 with NFunction (Some (_, sg)) => S (n_subs sg) | _ => 0 end.

Lemma clusters_map_nil {A} (f : A -> dstmt) (l : list A) :
  (forall x, stmt_clusters (f x) = []) -> clusters (map f l) = [].
Proof. intros Hf. induction l as [|x l IH]; [done|]. simpl. by rewrite Hf, IH. Qed.

Lemma plot_nodes_clusters dfl title dot_name (l : list (string * nkind)) :
  Forall (fun kn => match kn.2 with NFunction (Some (_, sg)) => clusters_ok sg | _ => True end) l ->
  forall c, (plot_nodes hash (plot_gv hash) dfl title dot_name l c).2 = c + sum_list_with n_subs_node l /\
    clusters (plot_nodes hash (plot_gv hash) dfl title dot_name l c).1 =
      map cluster_name (seq c (sum_list_with n_subs_node l)).
Proof.
  induction l as [|[k kind] l IHl]; intros Hf c; [simpl; split; [lia|done]|].
  apply Forall_cons in Hf as [Hk Hf]. cbn [plot_nodes sum_list_with].
  assert (Hn : exists here c1, plot_node hash (plot_gv hash) dfl title dot_name k kind c = (here, c1) /\
             c1 = c + n_subs_node (k, kind) /\ clusters here = map cluster_name (seq c (n_subs_node (k, kind)))).
  { unfold plot_node, n_subs_node. simpl in Hk |- *.
    destruct kind as [| |[[w sg]|]|]; try (eexists _, _; split; [reflexivity|split; [lia|done]]).
    destruct (Hk w (title +:+ ":" +:+ k) (cluster_name c) (S c)) as [H1 H2].
    destruct (plot_gv hash sg w _ _ (S c)) as [body c2]. simpl in H1, H2.
    eexists _, _. split; [reflexivity|]. split; [lia|].
    cbn [clusters flat_map]. rewrite clusters_sub, app_nil_r, clusters_app, H2. simpl. by rewrite app_nil_r. }
  destruct Hn as (here & c1 & -> & -> & Hh).
  destruct (IHl Hf (c + n_subs_node (k, kind))) as [H1 H2].
  destruct (plot_nodes _ _ _ _ _ l _) as [rest c3]. simpl in H1, H2 |- *. split; [lia|].
  rewrite clusters_app, Hh, H2, seq_app, map_app. done.
Qed.

Lemma plot_gv_clusters g : clusters_ok g.
Proof.
  induction g as [start nodes edges dfl IH] using pgraph_ind'. intros w t name c.
  cbn [plot_gv n_subs]. destruct (plot_nodes_clusters (if w then [] else dfl) t name nodes IH c) as [H1 H2].
  destruct (plot_nodes _ _ _ _ _ nodes c) as [ns c']. simpl in H1, H2 |- *.
  fold n_subs_node. split; [done|].
  rewrite !clusters_app, H2, clusters_map_nil by (by intros [[? ?] ?]).
  destruct start; simpl; by rewrite app_nil_r.
Qed.
End PlotClusters.

(** What Graphviz makes of the statements of one graph: the value of an
    attribute of a node is the one of the last [node] statement of that
    id that sets it. *)
Definition gv_step (id key : string) (acc : option string) (d : dstmt) : option string :=
  match d with
  | DNode i _ attrs =>
      if bool_decide (i = id) then match assoc key attrs with Some v => Some v | None => acc end else acc
  | _ => acc
  end.
Definition gv_attr (id key : string) (b : list dstmt) : option string := fold_left (gv_step id key) b None.

(** Statements about other nodes leave an attribute as it is. *)
Lemma gv_fold_other id key (b : list dstmt) acc :
  Forall (fun d => match d with DNode i _ _ => i <> id | _ => True end) b ->
  fold_left (gv_step id key) b acc = acc.
Proof.
  revert acc. induction b as [|d b IH]; intros acc Hb; [done|]. apply Forall_cons in Hb as [Hd Hb].
  simpl. rewrite IH by done. destruct d; simpl; try done. by rewrite bool_decide_false.
Qed.

Lemma plot_node_ids hash rec dfl title dot_name k kind c :
  Forall (fun d => match d with DNode i _ _ => i = id_node hash dot_name k | _ => True end)
    (plot_node hash rec dfl title dot_name k kind c).1.
Proof.
  unfold plot_node. destruct kind as [| |[[w sg]|]|]; repeat constructor.
  destruct (rec sg w _ _ _). repeat constructor.
Qed.

Lemma id_node_inj hash dot_name k k' :
  (forall x y, hash x = hash y -> x = y) -> id_node hash dot_name k = id_node hash dot_name k' -> k = k'.
Proof. intros Hh Heq. apply Hh. unfold id_node in Heq. apply string_app_inj_l in Heq. by apply (string_app_inj_l "_") in Heq. Qed.

Section PlotStart.
Context (hash : string -> string) (Hhash : forall x y, hash x = hash y -> x = y).
Context (dfl : list (string * option string)) (title dot_name : string).

Lemma plot_nodes_fold_other (l : list (string * nkind)) id key :
  (forall k, k ∈ map fst l -> id_node hash dot_name k <> id) ->
  forall c acc, fold_left (gv_step id key) (plot_nodes hash (plot_gv hash) dfl title dot_name l c).1 acc = acc.
Proof.
  induction l as [|[k kind] l IH]; intros Hl c acc; [done|]. cbn [plot_nodes].
  pose proof (plot_node_ids hash (plot_gv hash) dfl title dot_name k kind c) as Hids.
  destruct (plot_node _ _ _ _ _ _ _ _) as [here c1]. destruct (plot_nodes _ _ _ _ _ l c1) as [rest c3] eqn:Hr.
  simpl in Hids |- *. rewrite fold_left_app, (gv_fold_other _ _ here acc).
  - specialize (IH (fun k' Hk' => Hl k' (list_elem_of_further _ _ _ Hk')) c1 acc). by rewrite Hr in IH.
  - eapply Forall_impl; [exact Hids|]. intros [] Hd; try done. rewrite Hd. apply Hl. by left.
Qed.

(** Once the data node [START] is met, its [node] statement decides the
    shape. *)
Lemma plot_nodes_start (l : list (string * nkind)) :
  NoDup (map fst l) -> (START, NData) ∈ l ->
  forall c acc, fold_left (gv_step (id_node hash dot_name START) "shape")
                  (plot_nodes hash (plot_gv hash) dfl title dot_name l c).1 acc = Some "oval".
Proof.
  induction l as [|[k kind] l IH]; intros Hnd Hin c acc; [by apply not_elem_of_nil in Hin|].
  cbn [plot_nodes]. simpl in Hnd. apply NoDup_cons in Hnd as [Hk Hnd].
  destruct (decide (k = START)) as [->|Hne].
  - assert (kind = NData) as ->.
    { apply elem_of_cons in Hin as [[= ->]|Hin]; [done|].
      exfalso. apply Hk. apply list_elem_of_In, in_map_iff. exists (START, NData). split; [done|].
      by apply list_elem_of_In. }
    simpl. destruct (plot_nodes _ _ _ _ _ l c) as [rest c3] eqn:Hr. simpl.
    rewrite bool_decide_true by done. simpl.
    assert (Hl' : forall k', k' ∈ map fst l -> id_node hash dot_name k' <> id_node hash dot_name START).
    { intros k' Hk' Heq. apply id_node_inj in Heq; [|done]. by subst. }
    pose proof (plot_nodes_fold_other l _ "shape" Hl' c (Some "oval")) as Ho. rewrite Hr in Ho. exact Ho.
  - apply elem_of_cons in Hin as [Heq|Hin]; [injection Heq as Heq _; congruence|].
    pose proof (plot_node_ids hash (plot_gv hash) dfl title dot_name k kind c) as Hids.
    destruct (plot_node _ _ _ _ _ _ _ _) as [here c1]. destruct (plot_nodes _ _ _ _ _ l c1) as [rest c3] eqn:Hr.
    simpl in Hids |- *. rewrite fold_left_app, (gv_fold_other _ _ here acc).
    + specialize (IH Hnd Hin c1 acc). by rewrite Hr in IH.
    + eapply Forall_impl; [exact Hids|]. intros [] Hd; try done. rewrite Hd.
      intros Heq. apply id_node_inj in Heq; [|done]. by subst.
Qed.
End PlotStart.

Section PlotTheorems.
Context (hash : string -> string).

(** C21: [plot_dsp_graphviz] names its clusters [cluster_0],
    [cluster_1], ... in the order it meets the sub-dispatchers, one per
    [SubDispatch] node at any depth: the counter created by the outermost
    call is shared by the whole recursion, so no two clusters of a drawing
    share a name. *)
Theorem plot_dsp_graphviz_clusters (g : pgraph) (w : bool) (t : string) :
  clusters (dg_body (plot_dsp_graphviz hash g w t)) = map cluster_name (seq 0 (n_subs g)) /\
  NoDup (clusters (dg_body (plot_dsp_graphviz hash g w t))).
Proof.
  unfold plot_dsp_graphviz. simpl. destruct (plot_gv_clusters hash g w t "main" 0) as [_ ->].
  split; [done|]. apply NoDup_fmap_2; [intros n m; apply cluster_name_inj|apply NoDup_seq].
Qed.

(** C12: When [START] is a node of the graph drawn and a data node of the
    dispatcher (the sentinel data node of the specification), the drawing
    emits the orange triangle [start] statement first, and later the
    generic data-node statement for the same id, whose [oval] shape
    Graphviz keeps: the special [START] styling never shows. *)
Theorem start_drawn_as_data (Hhash : forall x y, hash x = hash y -> x = y)
    nodes edges dfl (w : bool) (t : string) :
  NoDup (map fst nodes) -> (START, NData) ∈ nodes ->
  head (dg_body (plot_dsp_graphviz hash (mk_pgraph true nodes edges dfl) w t)) =
    Some (DNode (id_node hash "main" START) "start" start_attrs) /\
  gv_attr (id_node hash "main" START) "shape" (dg_body (plot_dsp_graphviz hash (mk_pgraph true nodes edges dfl) w t)) =
    Some "oval".
Proof.
  intros Hnd Hin. unfold plot_dsp_graphviz. cbn [plot_gv dg_body].
  pose proof (plot_nodes_start hash Hhash (if w then [] else dfl) t "main" nodes Hnd Hin 0) as Hs.
  destruct (plot_nodes _ _ _ _ _ nodes 0) as [ns c'] eqn:Hn. simpl in Hs |- *. split; [done|].
  unfold gv_attr. simpl. rewrite bool_decide_true by done. simpl.
  rewrite fold_left_app, Hs, gv_fold_other; [done|].
  apply Forall_app. split.
  - apply Forall_forall. intros d Hd. apply list_elem_of_In, in_map_iff in Hd as ([[u v] l] & <- & _). done.
  - by repeat constructor.
Qed.
End PlotTheorems.

(** ** A drawing: a dispatcher with [START], a data node [a] with a
    default, and a sub-dispatcher [sub] whose own graph has one. *)
Definition demo_hash (k : string) : string := k.
Definition demo_sub : pgraph := mk_pgraph false [("x", NData); ("inner", NFunction (Some (false, mk_pgraph false [] [] [])))] [] [].
Definition demo_nodes : list (string * nkind) :=
  [(START, NData); ("a", NData); ("sub", NFunction (Some (false, demo_sub)))].
Definition demo_edges : list (string * string * option string) := [(START, "a", None); ("a", "sub", Some "1")].

Lemma start_drawn_as_data_witness :
  NoDup (map fst demo_nodes) /\ (START, NData) ∈ demo_nodes /\
  gv_attr (id_node demo_hash "main" START) "shape"
    (dg_body (plot_dsp_graphviz demo_hash (mk_pgraph true demo_nodes demo_edges [("a", Some "1")]) false "Dispatcher")) =
    Some "oval".
Proof.
  assert (Hnd : NoDup (map fst demo_nodes)) by (apply (bool_decide_unpack _); reflexivity).
  assert (Hin : (START, NData) ∈ demo_nodes) by (left).
  split; [done|]. split; [done|].
  apply (start_drawn_as_data demo_hash (fun x y H => H) demo_nodes demo_edges [("a", Some "1")] false "Dispatcher" Hnd Hin).
Defined.

(** The two clusters of the drawing are [cluster_0] ([sub]) and
    [cluster_1] ([inner], inside it). *)
Example demo_clusters :
  clusters (dg_body (plot_dsp_graphviz demo_hash (mk_pgraph true demo_nodes demo_edges []) false "Dispatcher")) =
    ["cluster_0"; "cluster_1"].
Proof. reflexivity. Qed.
