(* ===== verification/Plot.v ===== *)
(** * The Matplotlib drawing ([plot_dsp], [src/dispatcher/draw.py] lines
    33-150)

    [plot_dsp] sorts the nodes of the graph into the lists [data] and
    [function] with [eval(data_type).append(k)] (a node type naming no
    list raises [NameError]), draws every [SubDispatch] node's graph into a
    figure of its own (recursively), and labels the nodes with
    [replace_under_score] (file [Draw]), a default's [str] after a colon,
    and [START] as [start].  The graph to draw is the tree [pgraph] of file
    [Dot]; the figures are the record [mpl_fig]; the Matplotlib calls
    themselves are not modelled. *)

From stdpp Require Import base list strings.
From Stdlib Require Import Lia.
From S2P Require Import Prelude Graph Draw Dot.

(** [{title: (fig, figs)}] with what the figure shows. *)
Inductive mpl_fig := mk_mpl_fig {
  mf_title : string;
  mf_data : list string;
  mf_function : list string;
  mf_labels : list (string * string);             (** [label_nodes] *)
  mf_edge_labels : list (string * string * string);
  mf_subs : list mpl_fig                           (** [figs] *)
}.

(** What the loop of lines 94-105 collects. *)
Record nodes_acc := mk_nodes_acc { na_data : list string; na_function : list string; na_figs : list mpl_fig }.

(** One node: [None] is the [NameError] of [eval(data_type)]. *)
Definition mpl_node (rec : pgraph -> bool -> string -> option mpl_fig) (title k : string) (kind : nkind)
    (acc : nodes_acc) : option nodes_acc :=
  match kind with
  | NAbsent => Some acc
  | NOther => None
  | NData => Some (mk_nodes_acc (na_data acc ++ [k]) (na_function acc) (na_figs acc))
  | NFunction None => Some (mk_nodes_acc (na_data acc) (na_function acc ++ [k]) (na_figs acc))
  | NFunction (Some (w, sg)) =>
      rec sg w (title +:+ ":" +:+ k) ≫= fun f =>
      Some (mk_nodes_acc (na_data acc) (na_function acc ++ [k]) (na_figs acc ++ [f]))
  end.

Fixpoint mpl_nodes (rec : pgraph -> bool -> string -> option mpl_fig) (title : string)
    (l : list (string * nkind)) (acc : nodes_acc) : option nodes_acc :=
  match l with
  | [] => Some acc
  | (k, kind) :: l' => mpl_node rec title k kind acc ≫= mpl_nodes rec title l'
  end.

(** [label_nodes] (lines 114-125): every node's id rewritten, then each
    default's label, then [START]. *)
Definition label_nodes (ids : list string) (dfl : list (string * option string)) (start : bool)
    : list (string * string) :=
  let l0 := od_of_list (map (fun k => (k, replace_under_score k)) ids) in
  let l1 := fold_left (fun acc '(k, v) =>
              od_set k (match v with
                        | Some sv => replace_under_score k +:+ ":" +:+ sv
                        | None => replace_under_score k
                        end) acc) dfl l0 in
  if start then od_set START "start" l1 else l1.

(** [plot_dsp(dsp, workflow=workflow, title=title)]. *)
Fixpoint plot_dsp (g : pgraph) (workflow : bool) (title : string) : option mpl_fig :=
  match g with
  | mk_pgraph start nodes edges dfl0 =>
      let dfl := if workflow then [] else dfl0 in
      mpl_nodes plot_dsp title nodes (mk_nodes_acc [] [] []) ≫= fun acc =>
      Some (mk_mpl_fig title (na_data acc) (na_function acc)
              (label_nodes (map fst nodes) dfl start)
              (map (fun '(u, v, lbl) => (u, v, from_option id "" lbl)) edges)
              (na_figs acc))
  end.

(** Some node of the graph, or of a sub-dispatcher's graph at any depth,
    has a type that names no list. *)
Fixpoint has_other (g : pgraph) : bool :=
  match g with
  | mk_pgraph _ nodes _ _ =>
      existsb (fun kn => match kn.2 with
                         | NOther => true
                         | NFunction (Some (_, sg)) => has_other sg
                         | _ => false
                         end) nodes
  end.

Lemma mpl_nodes_spec title (l : list (string * nkind)) :
  Forall (fun kn => match kn.2 with
                    | NFunction (Some (_, sg)) => forall w t, plot_dsp sg w t = None <-> has_other sg = true
                    | _ => True end) l ->
  forall acc, mpl_nodes plot_dsp title l acc = None <->
    existsb (fun kn => match kn.2 with
                       | NOther => true
                       | NFunction (Some (_, sg)) => has_other sg
                       | _ => false
                       end) l = true.
Proof.
  induction l as [|[k kind] l IH]; intros Hf acc; [done|]. apply Forall_cons in Hf as [Hk Hf].
  cbn [mpl_nodes existsb]. simpl in Hk. unfold mpl_node.
  destruct kind as [| |[[w sg]|]|]; simpl; try done; try (rewrite IH; [done|done]).
  - specialize (Hk w (title +:+ ":" +:+ k)). destruct (plot_dsp sg w _) as [f|] eqn:Hp; simpl.
    + rewrite IH by done. destruct (has_other sg) eqn:Ho; [discriminate (proj2 Hk eq_refl)|done].
    + rewrite (proj1 Hk eq_refl). done.
Qed.

(** C22: [plot_dsp] raises ([NameError] of [eval(data_type)]) exactly
    when some node of the graph, or of a sub-dispatcher's graph at any
    depth, has a type other than [data] and [function]. *)
Theorem plot_dsp_raises_iff g : forall w t, plot_dsp g w t = None <-> has_other g = true.
Proof.
  induction g as [start nodes edges dfl IH] using pgraph_ind'. intros w t. cbn [plot_dsp has_other].
  pose proof (mpl_nodes_spec t nodes IH (mk_nodes_acc [] [] [])) as H.
  destruct (mpl_nodes _ _ _ _); simpl.
  - split; [done|]. intros Hx. by apply H in Hx.
  - split; [intros _; by apply H|done].
Qed.

Lemma assoc_map_graph {A} (g : string -> A) (k : string) (l : list string) :
  k ∈ l -> assoc k (map (fun x => (x, g x)) l) = Some (g k).
Proof.
  induction l as [|x l IH]; intros Hk; [by apply not_elem_of_nil in Hk|]. simpl.
  case_decide as Hx; [by subst|]. apply IH. by apply elem_of_cons in Hk as [?|?].
Qed.

(** C26: [plot_dsp] labels every node other than [START] with the
    reference rewriting of its id (file [Draw]: an underscore between two
    accepted characters becomes a space), followed by a colon and the
    [str] of its default when it has one and [str] does not raise. *)
Theorem plot_dsp_labels start nodes edges dfl (w : bool) (t : string) (fig : mpl_fig) (k : string) :
  plot_dsp (mk_pgraph start nodes edges dfl) w t = Some fig ->
  NoDup (map fst dfl) -> k ∈ map fst nodes -> k <> START ->
  assoc k (mf_labels fig) =
    Some (match assoc k (if w then [] else dfl) with
          | Some (Some sv) => us_ref k +:+ ":" +:+ sv
          | _ => us_ref k
          end).
Proof.
  intros Hp Hnd Hk Hks. cbn [plot_dsp] in Hp.
  destruct (mpl_nodes _ _ _ _) as [acc|]; simpl in Hp; [|done]. injection Hp as <-. simpl.
  unfold label_nodes.
  assert (Hl : forall l1 : list (string * string), assoc k (if start then od_set START "start" l1 else l1) = assoc k l1)
    by (intros l1; destruct start; [rewrite assoc_od_set, decide_False by done|]; done).
  rewrite Hl, (assoc_fold_od_set (fun k v => match v with Some sv => replace_under_score k +:+ ":" +:+ sv | None => replace_under_score k end)).
  rewrite assoc_reverse_NoDup by (destruct w; [apply NoDup_nil_2|exact Hnd]).
  rewrite assoc_od_of_list, <-map_reverse, assoc_map_graph by (by apply elem_of_reverse).
  rewrite (proj1 (replace_under_score_ref k)). by destruct (assoc k _) as [[]|].
Qed.

Definition demo_mpl : pgraph :=
  mk_pgraph true [(START, NData); ("my_var", NData); ("f", NFunction None)] [] [("my_var", Some "1")].

Lemma plot_dsp_labels_witness :
  match plot_dsp demo_mpl false "Dispatcher" with
  | Some fig => assoc "my_var" (mf_labels fig) = Some "my var:1"
  | None => False
  end.
Proof.
  destruct (plot_dsp demo_mpl false "Dispatcher") as [fig|] eqn:Hp; [|discriminate Hp].
  rewrite (plot_dsp_labels true [(START, NData); ("my_var", NData); ("f", NFunction None)] [] [("my_var", Some "1")]
             false "Dispatcher" fig "my_var" Hp).
  - reflexivity.
  - apply (bool_decide_unpack _). reflexivity.
  - apply (bool_decide_unpack _). reflexivity.
  - discriminate.
Defined.
