(* ===== verification/SubDispatch.v ===== *)
(** * The sub-dispatcher adapter (spec, sections 3 and 4.2, step 5)

    [add_dispatcher(dsp, dsp_id, inputs, outputs, input_domain,
    include_defaults)] registers a whole child graph as one function node
    of the parent.  Its inputs are the parent ids of the input rename map,
    its outputs the parent ids of the output rename map, and its callable
    runs the resolver on the child with the renamed values (the ones mapped
    to [SINK] only reach the domain predicate) and the renamed outputs
    requested; each parent output is the child's value for the child id it
    renames, absent when the child did not reach it.  With
    [include_defaults] the child's defaults of mapped inputs become defaults
    of the parent's ids (the behaviour the library documents; the
    specification does not say). *)

From stdpp Require Import base list gmap strings.
From Stdlib Require Import Lia.
From S2P Require Import Prelude Graph Resolver.

Section SubDispatch.
Context {V : Type} (child : dsp V).
(** [inmap]: parent input id |-> child input id (or [SINK]), in dict order;
    [outmap]: child output id |-> parent output id. *)
Context (inmap outmap : list (string * string)).

(** The child's inputs: the parent's values under their child ids, the
    ones mapped to [SINK] left out. *)
Definition child_inputs (vs : list V) : list (string * V) :=
  omap (fun '((_, c), v) => if bool_decide (c = SINK) then None else Some (c, v)) (zip inmap vs).

(** The adapter's callable: a nested resolution, renamed back. *)
Definition sub_call (vs : list V) : option (list (option V)) :=
  let sol := solution (dispatch child (child_inputs vs) (map fst outmap)) in
  Some (map (fun co => sol !! co.1) outmap).

(** The child's defaults carried to the parent ids that feed them. *)
Definition included_defaults : list (reg_cmd V) :=
  omap (fun '(p, c) =>
          if bool_decide (c = SINK) then None
          else match assoc c (dsp_data child) ≫= dn_default with
               | Some v => Some (RegDefault p v)
               | None => None
               end) inmap.

(** The registration calls [add_dispatcher] makes; without an explicit id
    the adapter is named after the child dispatcher. *)
Definition add_dispatcher_cmds (id : option string)
    (domain : option (list (string * V) -> bool)) (include_defaults : bool) : list (reg_cmd V) :=
  (if include_defaults then included_defaults else []) ++
  [RegFuncDecl id (dsp_name child) (map fst inmap) (map snd outmap) 0 domain sub_call].
End SubDispatch.

Section SubDispatchFacts.
Context {V : Type} (child : dsp V) (inmap outmap : list (string * string)).

(** The adapter never raises and returns one value per renamed output, so
    the resolver's arity check always accepts its result. *)
Lemma sub_call_length (vs : list V) :
  exists outs, sub_call child inmap outmap vs = Some outs /\ length outs = length outmap.
Proof. eexists. split; [reflexivity|]. by rewrite length_map. Qed.

(** Values mapped to [SINK] never reach the child; the others reach it
    under their child ids, in order. *)
Lemma child_inputs_spec (vs : list V) (c : string) (v : V) :
  In (c, v) (child_inputs inmap vs) <->
  c <> SINK /\ exists p, In ((p, c), v) (zip inmap vs).
Proof.
  unfold child_inputs. rewrite <-list_elem_of_In, list_elem_of_omap. split.
  - intros ([[p c'] v'] & Hin & Hx). case_bool_decide; [done|]. injection Hx as -> ->.
    split; [done|]. exists p. by apply list_elem_of_In.
  - intros [Hc [p Hin]]. exists ((p, c), v). split; [by apply list_elem_of_In|].
    by rewrite bool_decide_false.
Qed.
End SubDispatchFacts.

Section AddDispatcherShape.
Context {V : Type} (child : dsp V) (inmap outmap : list (string * string)).

Lemma included_defaults_no_funcs :
  Forall (fun c => forall id, cmd_funcs c id = []) (included_defaults child inmap).
Proof.
  apply Forall_forall. intros c Hc. unfold included_defaults in Hc.
  apply list_elem_of_omap in Hc as ([p c'] & _ & Hx).
  case_bool_decide; [done|]. by destruct (assoc c' (dsp_data child) ≫= dn_default); simplify_eq.
Qed.

(** A successful [add_dispatcher] appends exactly its adapter node. *)
Lemma add_dispatcher_funcs (g g' : dsp V) id dom (incl : bool) :
  register_all g (add_dispatcher_cmds child inmap outmap id dom incl) = inr g' ->
  exists fid, dsp_funcs g' = dsp_funcs g ++
      [mk_func_node fid (map fst inmap) (map snd outmap) 0 dom (sub_call child inmap outmap)] /\
    dsp_name g' = dsp_name g.
Proof.
  unfold add_dispatcher_cmds. rewrite register_all_app.
  destruct (register_all g (if incl then _ else [])) as [|g1] eqn:Hd; [done|].
  assert (Hg1 : dsp_funcs g1 = dsp_funcs g /\ dsp_name g1 = dsp_name g).
  { destruct incl; [|by injection Hd as <-].
    eapply register_all_no_funcs; [apply included_defaults_no_funcs|exact Hd]. }
  cbn [register_all]. destruct (run_cmd g1 (RegFuncDecl id (dsp_name child) (map fst inmap) (map snd outmap) 0 dom (sub_call child inmap outmap))) as [|[fid g2]] eqn:Hr; [done|]. intros [= <-].
  apply run_cmd_funcs in Hr as [Hf Hn]. exists fid. rewrite Hf, Hn. simpl. by rewrite (proj1 Hg1), (proj2 Hg1).
Qed.
End AddDispatcherShape.
