(* ===== verification/Cycle.v ===== *)
(** * The cycle model ([src/co2mpas/model/physical/cycle/__init__.py])

    [cycle()] builds the dispatcher "Cycle model" out of two sub-dispatchers,
    the NEDC and the WLTP cycle models, each registered by [add_dispatcher]
    with [include_defaults=True], the same three outputs (times, velocities,
    gears) and an input domain, [is_nedc] or [is_wltp], that selects the
    branch from the [cycle_type] among the raw inputs.  The two children
    ([nedc_cycle()], [wltp_cycle()]) are not under [src/]: the model takes
    them as parameters.  The values flowing through are Python values
    ([pyval]); the domain predicates see the raw inputs as the dict
    [kwargs], in insertion order. *)

From stdpp Require Import base list gmap strings.
From Stdlib Require Import Lia.
From S2P Require Import Prelude Graph Resolver Dijkstra Steps Unreach SubDispatch.

(** The key test of lines 31 and 38:
    [':cycle_type' in k or 'cycle_type' == k]. *)
Definition is_cycle_type_key (k : string) : bool :=
  str_contains ":cycle_type" k || bool_decide ("cycle_type" = k).

(** [is_nedc(kwargs)]: the first key naming a cycle type decides. *)
Fixpoint is_nedc (kwargs : list (string * pyval)) : bool :=
  match kwargs with
  | [] => false
  | (k, v) :: kw => if is_cycle_type_key k then py_eq_str v "NEDC" else is_nedc kw
  end.

(** [is_wltp(kwargs)]. *)
Fixpoint is_wltp (kwargs : list (string * pyval)) : bool :=
  match kwargs with
  | [] => false
  | (k, v) :: kw => if is_cycle_type_key k then py_eq_str v "WLTP" else is_wltp kw
  end.

(** The [inputs] rename map of the NEDC branch (lines 65-74). *)
Definition nedc_inputs : list (string * string) :=
  [("cycle_type", SINK); ("k1", "k1"); ("k2", "k2"); ("k5", "k5");
   ("max_gear", "max_gear"); ("time_sample_frequency", "time_sample_frequency");
   ("gear_box_type", "gear_box_type"); ("times", "times")].

(** The [inputs] rename map of the WLTP branch (lines 87-110). *)
Definition wltp_inputs : list (string * string) :=
  [("cycle_type", SINK); ("time_sample_frequency", "time_sample_frequency");
   ("gear_box_type", "gear_box_type"); ("times", "times"); ("velocities", "velocities");
   ("accelerations", "accelerations"); ("motive_powers", "motive_powers");
   ("gear_box_ratios", "gear_box_ratios"); ("idle_engine_speed", "idle_engine_speed");
   ("inertial_factor", "inertial_factor"); ("downscale_phases", "downscale_phases");
   ("climbing_force", "climbing_force"); ("full_load_curve", "full_load_curve");
   ("downscale_factor", "downscale_factor");
   ("downscale_factor_threshold", "downscale_factor_threshold");
   ("vehicle_mass", "vehicle_mass"); ("driver_mass", "driver_mass");
   ("road_loads", "road_loads"); ("engine_max_power", "engine_max_power");
   ("engine_max_speed_at_max_power", "engine_max_speed_at_max_power");
   ("max_velocity", "max_velocity"); ("wltp_class", "wltp_class")].

(** The [outputs] rename map, the same for both branches (lines 75-79 and
    111-115). *)
Definition cycle_outputs : list (string * string) :=
  [("times", "times"); ("velocities", "velocities"); ("gears", "gears")].

(** [cycle()], given the two children. *)
Definition cycle (nedc_cycle wltp_cycle : dsp pyval) : result (dsp pyval) :=
  register_all (empty_dsp "Cycle model")
    (add_dispatcher_cmds nedc_cycle nedc_inputs cycle_outputs None (Some is_nedc) true ++
     add_dispatcher_cmds wltp_cycle wltp_inputs cycle_outputs None (Some is_wltp) true).

(** The adapters [cycle()] registers, in order. *)
Definition nedc_node (nedc_cycle : dsp pyval) (id : string) : func_node pyval :=
  mk_func_node id (map fst nedc_inputs) (map snd cycle_outputs) 0 (Some is_nedc)
    (sub_call nedc_cycle nedc_inputs cycle_outputs).
Definition wltp_node (wltp_cycle : dsp pyval) (id : string) : func_node pyval :=
  mk_func_node id (map fst wltp_inputs) (map snd cycle_outputs) 0 (Some is_wltp)
    (sub_call wltp_cycle wltp_inputs cycle_outputs).

(** A reference reading of both predicates: the value under the first key
    that names a cycle type. *)
Definition cycle_type_of (kwargs : list (string * pyval)) : option pyval :=
  snd <$> List.find (fun kv => is_cycle_type_key kv.1) kwargs.

(** ** The domain predicates *)

Lemma is_nedc_ref (kwargs : list (string * pyval)) :
  is_nedc kwargs = from_option (fun v => py_eq_str v "NEDC") false (cycle_type_of kwargs).
Proof.
  unfold cycle_type_of. induction kwargs as [|[k v] kw IH]; simpl; [done|].
  by destruct (is_cycle_type_key k).
Qed.

Lemma is_wltp_ref (kwargs : list (string * pyval)) :
  is_wltp kwargs = from_option (fun v => py_eq_str v "WLTP") false (cycle_type_of kwargs).
Proof.
  unfold cycle_type_of. induction kwargs as [|[k v] kw IH]; simpl; [done|].
  by destruct (is_cycle_type_key k).
Qed.

(** ** The graph [cycle()] builds *)

Lemma cycle_funcs (nedc_cycle wltp_cycle g : dsp pyval) :
  cycle nedc_cycle wltp_cycle = inr g ->
  exists idn idw, dsp_funcs g = [nedc_node nedc_cycle idn; wltp_node wltp_cycle idw].
Proof.
  unfold cycle. rewrite register_all_app.
  destruct (register_all _ (add_dispatcher_cmds nedc_cycle _ _ _ _ _)) as [|g1] eqn:H1; [done|].
  intros H2. apply add_dispatcher_funcs in H1 as (idn & Hf1 & _).
  apply add_dispatcher_funcs in H2 as (idw & Hf2 & _). exists idn, idw.
  by rewrite Hf2, Hf1.
Qed.

Lemma from_option_py_eq (o : option pyval) (s : string) :
  from_option (fun v => py_eq_str v s) false o = true <-> o = Some (PyStr s).
Proof.
  destruct o as [v|]; simpl; split; try done.
  - by intros ->%py_eq_str_iff.
  - intros [= ->]. simpl. by rewrite bool_decide_true.
Qed.

Lemma is_nedc_not_wltp (kwargs : list (string * pyval)) :
  is_nedc kwargs = true -> is_wltp kwargs = false.
Proof.
  rewrite is_nedc_ref, is_wltp_ref. destruct (cycle_type_of kwargs) as [v|]; simpl; [|done].
  by intros ->%py_eq_str_iff.
Qed.


Lemma cycle_domain_wltp (wltp_cycle : dsp pyval) (id : string) (inputs : list (string * pyval)) :
  domain_ok inputs (wltp_node wltp_cycle id) = is_wltp inputs.
Proof. reflexivity. Qed.


(** Under the specification's AND semantics for an adapter, the NEDC
    branch needs [times] among its inputs although it is also the branch's
    output: with the NEDC cycle type and no [times] supplied or defaulted,
    [times] is never settled and the NEDC model never runs. *)
Lemma cycle_times_unreach (nedc_cycle wltp_cycle g : dsp pyval)
    (inputs : list (string * pyval)) (requested : list string) :
  cycle nedc_cycle wltp_cycle = inr g ->
  start_reserved g inputs = true -> no_wait_defaults g inputs = true ->
  is_nedc inputs = true -> (forall v, ~ In ("times", v) inputs) ->
  (forall dn, In ("times", dn) (dsp_data g) -> dn_default dn = None) ->
  unreach g ["times"] (dispatch g inputs requested).
Proof.
  intros Hc Hr Hw Hn Hin Hdef. destruct (cycle_funcs _ _ _ Hc) as (idn & idw & Hf).
  apply dispatch_unreach; [| | | |done|done].
  - by intros ?%list_elem_of_singleton.
  - by intros x v ->%list_elem_of_singleton.
  - intros x dn ->%list_elem_of_singleton. apply Hdef.
  - intros j f o Hj _ ->%list_elem_of_singleton. rewrite Hf in Hj.
    destruct j as [|[|j]]; simpl in Hj; [injection Hj as <-|injection Hj as <-|done].
    + right. exists "times". split; [by apply list_elem_of_singleton|]. simpl. set_solver.
    + left. rewrite cycle_domain_wltp. by apply is_nedc_not_wltp.
Qed.

Lemma cycle_type_of_spec (kwargs : list (string * pyval)) (v : pyval) :
  cycle_type_of kwargs = Some v <->
  exists pre k post, kwargs = pre ++ (k, v) :: post /\ is_cycle_type_key k = true /\
    Forall (fun kv => is_cycle_type_key kv.1 = false) pre.
Proof.
  unfold cycle_type_of. induction kwargs as [|[k' v'] kw IH]; simpl.
  - split; [done|]. intros ([|??] & ? & ? & ? & _); done.
  - destruct (is_cycle_type_key k') eqn:Hk; split.
    + intros [= <-]. by exists [], k', kw.
    + intros ([|[k0 v0] pre] & k & post & Heq & Hkk & Hpre); simpl in Heq.
      * by injection Heq as -> -> _.
      * injection Heq as -> -> _. apply Forall_cons in Hpre as [Hk0 _]. simpl in Hk0. congruence.
    + intros Hs. apply IH in Hs as (pre & k & post & -> & Hkk & Hpre).
      exists ((k', v') :: pre), k, post. split; [done|]. split; [done|]. by constructor.
    + intros ([|[k0 v0] pre] & k & post & Heq & Hkk & Hpre); simpl in Heq.
      * injection Heq as -> -> _. congruence.
      * injection Heq as -> -> ->. apply IH. apply Forall_cons in Hpre as [_ Hpre]. by exists pre, k, post.
Qed.

(** ** Properties of the cycle model *)

(** C23: [is_nedc] and [is_wltp] hold exactly when the
    first key of [kwargs] that is [cycle_type] or contains [:cycle_type]
    carries the string ["NEDC"] (resp. ["WLTP"]); later keys are never
    looked at, and without such a key both are false. *)
Theorem is_nedc_spec (kwargs : list (string * pyval)) :
  (is_nedc kwargs = true <->
   exists pre k post, kwargs = pre ++ (k, PyStr "NEDC") :: post /\ is_cycle_type_key k = true /\
     Forall (fun kv => is_cycle_type_key kv.1 = false) pre) /\
  (is_wltp kwargs = true <->
   exists pre k post, kwargs = pre ++ (k, PyStr "WLTP") :: post /\ is_cycle_type_key k = true /\
     Forall (fun kv => is_cycle_type_key kv.1 = false) pre).
Proof.
  rewrite is_nedc_ref, is_wltp_ref, <-!cycle_type_of_spec. split; apply from_option_py_eq.
Qed.



(** ** The properties on stub children *)



