(* ===== verification/Engine.v ===== *)
(** * The engine model ([src/compas/models/physical/engine/__init__.py])

    [engine()] builds the dispatcher "Engine": about thirty physical
    functions wired by their data ids, two data nodes with defaults, the
    defaults of the CO2 emission model, and that model as a sub-dispatcher
    [CO2_emission_model].  The physical functions are imported from modules
    that are not under [src/]: the model takes them as a parameter [impl]
    that maps a function's [__name__] to its callable.  The CO2 emission
    model is a parameter too. *)

From stdpp Require Import base list gmap strings.
From Stdlib Require Import Lia.
From S2P Require Import Prelude Graph Resolver Dijkstra Steps SubDispatch.

Section Engine.
Context {V : Type}.
(** The imported functions, by name ([bypass] included). *)
Context (impl : string -> list V -> option (list (option V))).
(** The default values of lines 93 ([100.0]) and 244 ([True]). *)
Context (idle_engine_speed_std_default engine_is_turbo_default : V).
(** [co2_emission()]. *)
Context (co_e : dsp V).

(** [engine.add_function(function=f, inputs=..., outputs=..., weight=w)]:
    the id is derived from [f.__name__] unless [function_id] is given. *)
Definition fn (id : option string) (name : string) (inputs outputs : list string) (weight : nat)
    : reg_cmd V :=
  RegFuncDecl id name inputs outputs weight None (impl name).

(** Lines 46-110. *)
Definition engine_full_load_cmds : list (reg_cmd V) :=
  [fn None "get_full_load" ["fuel_type"] ["full_load_curve"] 20;
   fn (Some "calculate_full_load_powers") "calculate_wheel_powers"
     ["full_load_torques"; "full_load_speeds"] ["full_load_powers"] 0;
   fn (Some "calculate_full_load_speeds") "calculate_wheel_torques"
     ["full_load_powers"; "full_load_torques"] ["full_load_speeds"] 0;
   fn None "calculate_full_load" ["full_load_speeds"; "full_load_powers"; "idle_engine_speed"]
     ["full_load_curve"; "engine_max_power"; "engine_max_speed_at_max_power"] 0;
   fn None "calculate_full_load" ["full_load_speeds"; "full_load_powers"; "idle_engine_speed"]
     ["full_load_curve"; "engine_max_power"; "engine_max_speed_at_max_power"] 0;
   RegData "idle_engine_speed_median" None false;
   RegData "idle_engine_speed_std" (Some idle_engine_speed_std_default) false;
   fn None "bypass" ["idle_engine_speed_median"; "idle_engine_speed_std"] ["idle_engine_speed"] 0;
   fn None "identify_idle_engine_speed_out" ["velocities"; "engine_speeds_out"] ["idle_engine_speed"] 5].

(** Lines 115-165. *)
Definition engine_temperature_cmds : list (reg_cmd V) :=
  [fn None "identify_upper_bound_engine_speed" ["gears"; "engine_speeds_out"; "idle_engine_speed"]
     ["upper_bound_engine_speed"] 0;
   fn None "calibrate_engine_temperature_regression_model"
     ["engine_coolant_temperatures"; "gear_box_powers_in"; "gear_box_speeds_in"]
     ["engine_temperature_regression_model"] 0;
   fn None "predict_engine_coolant_temperatures"
     ["engine_temperature_regression_model"; "gear_box_powers_in"; "gear_box_speeds_in";
      "initial_engine_temperature"] ["engine_coolant_temperatures"] 0;
   fn None "identify_thermostat_engine_temperature" ["engine_coolant_temperatures"]
     ["engine_thermostat_temperature"] 0;
   fn None "identify_normalization_engine_temperature" ["engine_coolant_temperatures"]
     ["engine_normalization_temperature"; "engine_normalization_temperature_window"] 0;
   fn None "identify_initial_engine_temperature" ["engine_coolant_temperatures"]
     ["initial_engine_temperature"] 0;
   fn None "calculate_engine_max_torque" ["engine_max_power"; "engine_max_speed_at_max_power"; "fuel_type"]
     ["engine_max_torque"] 0;
   fn None "identify_on_engine" ["times"; "engine_speeds_out"; "idle_engine_speed"] ["on_engine"] 0].

(** Lines 167-251. *)
Definition engine_speed_cmds : list (reg_cmd V) :=
  [fn None "identify_engine_starts" ["on_engine"] ["engine_starts"] 0;
   fn None "calibrate_start_stop_model"
     ["on_engine"; "velocities"; "accelerations"; "engine_coolant_temperatures"] ["start_stop_model"] 0;
   fn None "predict_on_engine"
     ["start_stop_model"; "times"; "velocities"; "accelerations"; "engine_coolant_temperatures";
      "cycle_type"; "gear_box_type"] ["on_engine"] 0;
   fn None "calibrate_cold_start_speed_model"
     ["velocities"; "accelerations"; "engine_speeds_out"; "engine_coolant_temperatures";
      "engine_speeds_out_hot"; "on_engine"; "idle_engine_speed"; "engine_normalization_temperature";
      "engine_normalization_temperature_window"] ["cold_start_speed_model"] 0;
   fn None "calibrate_cold_start_speed_model_v1"
     ["times"; "velocities"; "accelerations"; "engine_speeds_out"; "engine_coolant_temperatures";
      "idle_engine_speed"] ["cold_start_speed_model_v1"] 0;
   fn None "calculate_engine_speeds_out_hot" ["gear_box_speeds_in"; "on_engine"; "idle_engine_speed"]
     ["engine_speeds_out_hot"] 0;
   fn None "calculate_engine_speeds_out_with_cold_start"
     ["cold_start_speed_model"; "engine_speeds_out_hot"; "on_engine"; "engine_coolant_temperatures"]
     ["engine_speeds_out"] 0;
   fn None "bypass" ["engine_speeds_out_hot"] ["engine_speeds_out"] 50;
   fn None "calculate_engine_powers_out" ["gear_box_powers_in"; "on_engine"; "alternator_powers_demand"]
     ["engine_powers_out"] 0;
   fn None "calculate_engine_powers_out" ["gear_box_powers_in"; "on_engine"; "alternator_powers_demand"]
     ["engine_powers_out"] 20;
   fn None "calculate_mean_piston_speeds" ["engine_speeds_out"; "engine_stroke"] ["mean_piston_speeds"] 0;
   RegData "engine_is_turbo" (Some engine_is_turbo_default) false;
   fn None "calculate_engine_type" ["fuel_type"; "engine_is_turbo"] ["engine_type"] 0].

(** [co_e.default_values]: the data ids of the CO2 model with a default. *)
Definition default_values (g : dsp V) : list (string * V) :=
  omap (fun '(d, dn) => (fun v => (d, v)) <$> dn_default dn) (dsp_data g).

(** The rename maps of the CO2 emission sub-dispatcher (lines 264-302). *)
Definition co2_inputs : list (string * string) :=
  map (fun d => (d, d))
    ["co2_emission_low"; "co2_emission_medium"; "co2_emission_high"; "co2_emission_extra_high";
     "co2_params"; "cycle_type"; "engine_capacity"; "engine_fuel_lower_heating_value";
     "engine_idle_fuel_consumption"; "engine_powers_out"; "engine_speeds_out"; "engine_stroke";
     "engine_coolant_temperatures"; "engine_normalization_temperature"; "engine_type";
     "fuel_carbon_content"; "idle_engine_speed"; "mean_piston_speeds";
     "engine_normalization_temperature_window"; "times"; "velocities"].
Definition co2_outputs : list (string * string) :=
  map (fun d => (d, d))
    ["co2_emissions_model"; "co2_emission_value"; "co2_emissions"; "identified_co2_emissions";
     "co2_error_function"; "co2_params"; "co2_params_bounds"; "co2_params_initial_guess";
     "fuel_consumptions"; "phases_co2_emissions"; "P0"].

(** Lines 253-303: [add_from_lists] of the CO2 model's defaults, then the
    sub-dispatcher. *)
Definition engine_co2_cmds : list (reg_cmd V) :=
  map (fun '(k, v) => RegData k (Some v) false) (default_values co_e) ++
  add_dispatcher_cmds co_e co2_inputs co2_outputs (Some "CO2_emission_model") None false.

(** [engine()]. *)
Definition engine : result (dsp V) :=
  register_all (empty_dsp "Engine")
    (engine_full_load_cmds ++ engine_temperature_cmds ++ engine_speed_cmds ++ engine_co2_cmds).
End Engine.

(** ** The graph [engine()] builds *)

(** The function ids [engine()] registers before the CO2 model, read off
    lines 46-251: [calculate_full_load], [bypass] and
    [calculate_engine_powers_out] are registered twice, the second time
    under the derived id [name<0>]. *)
Definition engine_base_fn_ids : list string :=
  ["get_full_load"; "calculate_full_load_powers"; "calculate_full_load_speeds";
   "calculate_full_load"; "calculate_full_load<0>"; "bypass"; "identify_idle_engine_speed_out";
   "identify_upper_bound_engine_speed"; "calibrate_engine_temperature_regression_model";
   "predict_engine_coolant_temperatures"; "identify_thermostat_engine_temperature";
   "identify_normalization_engine_temperature"; "identify_initial_engine_temperature";
   "calculate_engine_max_torque"; "identify_on_engine"; "identify_engine_starts";
   "calibrate_start_stop_model"; "predict_on_engine"; "calibrate_cold_start_speed_model";
   "calibrate_cold_start_speed_model_v1"; "calculate_engine_speeds_out_hot";
   "calculate_engine_speeds_out_with_cold_start"; "bypass<0>"; "calculate_engine_powers_out";
   "calculate_engine_powers_out<0>"; "calculate_mean_piston_speeds"; "calculate_engine_type"].

(** The data ids they declare, in order of first use. *)
Definition engine_base_data_ids : list string :=
  ["fuel_type"; "full_load_curve"; "full_load_torques"; "full_load_speeds"; "full_load_powers";
   "idle_engine_speed"; "engine_max_power"; "engine_max_speed_at_max_power";
   "idle_engine_speed_median"; "idle_engine_speed_std"; "velocities"; "engine_speeds_out"; "gears";
   "upper_bound_engine_speed"; "engine_coolant_temperatures"; "gear_box_powers_in";
   "gear_box_speeds_in"; "engine_temperature_regression_model"; "initial_engine_temperature";
   "engine_thermostat_temperature"; "engine_normalization_temperature";
   "engine_normalization_temperature_window"; "engine_max_torque"; "times"; "on_engine";
   "engine_starts"; "accelerations"; "start_stop_model"; "cycle_type"; "gear_box_type";
   "engine_speeds_out_hot"; "cold_start_speed_model"; "cold_start_speed_model_v1";
   "alternator_powers_demand"; "engine_powers_out"; "engine_stroke"; "mean_piston_speeds";
   "engine_is_turbo"; "engine_type"].

Section EngineFacts.
Context {V : Type} (impl : string -> list V -> option (list (option V))).
Context (idle_engine_speed_std_default engine_is_turbo_default : V) (co_e : dsp V).

Lemma engine_base_ok :
  exists g0, register_all (empty_dsp "Engine")
      (engine_full_load_cmds impl idle_engine_speed_std_default ++ engine_temperature_cmds impl ++
       engine_speed_cmds impl engine_is_turbo_default) = inr g0 /\
    fn_ids g0 = engine_base_fn_ids /\ data_ids g0 = engine_base_data_ids.
Proof. eexists. split; [vm_compute; reflexivity|]. split; vm_compute; reflexivity. Qed.

Lemma engine_split :
  engine impl idle_engine_speed_std_default engine_is_turbo_default co_e =
  match register_all (empty_dsp "Engine")
      (engine_full_load_cmds impl idle_engine_speed_std_default ++ engine_temperature_cmds impl ++
       engine_speed_cmds impl engine_is_turbo_default) with
  | inl e => inl e
  | inr g0 => register_all g0 (engine_co2_cmds co_e)
  end.
Proof.
  unfold engine. rewrite !app_assoc, register_all_app. by rewrite <-!app_assoc.
Qed.
End EngineFacts.

Section EngineOk.
Context {V : Type} (impl : string -> list V -> option (list (option V))).
Context (idle_engine_speed_std_default engine_is_turbo_default : V) (co_e : dsp V).

Lemma engine_ok_eq :
  NoDup (map fst (default_values co_e)) ->
  Forall (fun k => k ∉ engine_base_data_ids ++ engine_base_fn_ids /\ k <> "CO2_emission_model")
    (map fst (default_values co_e)) ->
  exists g, engine impl idle_engine_speed_std_default engine_is_turbo_default co_e = inr g /\
    fn_ids g = engine_base_fn_ids ++ ["CO2_emission_model"].
Proof.
  intros Hnd Hfr. destruct (engine_base_ok impl idle_engine_speed_std_default engine_is_turbo_default)
    as (g0 & H0 & Hf0 & Hd0).
  rewrite engine_split, H0. unfold engine_co2_cmds. rewrite register_all_app.
  destruct (register_data_ok g0 (default_values co_e)) as (g1 & H1 & Hf1 & Hd1 & _); [done| |].
  { eapply Forall_impl; [exact Hfr|]. intros k [Hk _]. by rewrite node_ids_split, Hd0, Hf0. }
  rewrite H1. unfold add_dispatcher_cmds. cbn [app register_all run_cmd].
  unfold add_function_decl.
  assert (Hfn1 : fn_ids g1 = engine_base_fn_ids) by (unfold fn_ids; rewrite Hf1; exact Hf0).
  destruct (declare_all_ok (map fst co2_inputs ++ map snd co2_outputs) g1)
    as (g2 & H2 & Hf2 & _ & Hw2 & Hsub2 & _).
  { rewrite Hfn1. apply (bool_decide_unpack _). vm_compute. reflexivity. }
  assert (Hfn2 : fn_ids g2 = engine_base_fn_ids) by (unfold fn_ids; rewrite Hf2; exact Hfn1).
  rewrite H2, add_function_explicit_ok; [|rewrite node_ids_split|done].
  - eexists. split; [reflexivity|]. unfold fn_ids. simpl. rewrite map_app. fold (fn_ids g2). by rewrite Hfn2.
  - assert (Hn1 : "CO2_emission_model" ∉ engine_base_fn_ids)
      by (apply (bool_decide_unpack _); vm_compute; reflexivity).
    assert (Hn2 : "CO2_emission_model" ∉ map fst co2_inputs ++ map snd co2_outputs)
      by (apply (bool_decide_unpack _); vm_compute; reflexivity).
    assert (Hn3 : "CO2_emission_model" ∉ engine_base_data_ids)
      by (apply (bool_decide_unpack _); vm_compute; reflexivity).
    rewrite Hfn2. intros [Hx|Hx]%elem_of_app; [|exact (Hn1 Hx)].
    destruct (Hsub2 _ Hx) as [Hx1|Hx1]; [|exact (Hn2 Hx1)].
    rewrite Hd1, Hd0 in Hx1. apply elem_of_app in Hx1 as [Hx1|Hx1]; [exact (Hn3 Hx1)|].
    destruct (proj1 (Forall_forall _ _) Hfr "CO2_emission_model" Hx1) as [_ Hne].
    exact (Hne eq_refl).
Qed.
End EngineOk.

(** C17: [engine()] registers without error and builds a well-formed
    graph whose function ids are the ones read off the source, the CO2
    model last under its explicit id, provided the CO2 model's defaults are
    on distinct data ids that [engine()] has not used yet and that are not
    [CO2_emission_model] (else [add_from_lists] would raise
    [DuplicateNodeId]). *)
Theorem engine_registers {V} (impl : string -> list V -> option (list (option V)))
    (idle_engine_speed_std_default engine_is_turbo_default : V) (co_e : dsp V) :
  NoDup (map fst (default_values co_e)) ->
  Forall (fun k => k ∉ engine_base_data_ids ++ engine_base_fn_ids /\ k <> "CO2_emission_model")
    (map fst (default_values co_e)) ->
  exists g, engine impl idle_engine_speed_std_default engine_is_turbo_default co_e = inr g /\
    wf_dsp g /\ fn_ids g = engine_base_fn_ids ++ ["CO2_emission_model"].
Proof.
  intros Hnd Hfr. destruct (engine_ok_eq impl idle_engine_speed_std_default engine_is_turbo_default co_e Hnd Hfr)
    as (g & Hg & Hf).
  exists g. split; [done|]. split; [|done].
  eapply register_all_wf; [apply empty_dsp_wf|exact Hg].
Qed.

(** A CO2 model with two defaulted parameters, one of them named like no
    node of the engine graph. *)
Definition demo_co2 : dsp nat :=
  mk_dsp "CO2" [("co2_params", mk_data_node (Some 1) false);
                ("fuel_carbon_content", mk_data_node (Some 3) false);
                ("times", mk_data_node None false)] [].

Lemma engine_registers_witness :
  NoDup (map fst (default_values demo_co2)) /\
  exists g, engine (fun _ _ => None) 100 1 demo_co2 = inr g /\
    wf_dsp g /\ fn_ids g = engine_base_fn_ids ++ ["CO2_emission_model"].
Proof.
  split; [apply (bool_decide_unpack _); vm_compute; reflexivity|].
  apply (engine_registers (fun _ _ => None) 100 1 demo_co2).
  - apply (bool_decide_unpack _); vm_compute; reflexivity.
  - apply (bool_decide_unpack _); vm_compute; reflexivity.
Defined.
