(* ===== verification/Commands.v ===== *)
(** * Commands and command chains ([src/co2mpas/sampling/baseapp.py],
    lines 282-298, 555-646, 729-804 and 823-855)

    A command's name comes from its class name ([class2cmd_name]); a
    command object has a [parent] and possibly a [subapp]; [my_cmd_chain]
    walks from the [subapp] (or the command itself) up the parents;
    [_inherit_parent_cmd] merges the configurables, aliases and flags of
    that chain; [chain_cmds] instantiates a list of command classes, links
    each to the previous one and initializes it; [run] refuses to run a
    command that has sub-commands.  Command objects live in a store
    ([gmap] from object ids) so that the links between them are the
    references of the source; classes are known by their name and MRO. *)

From stdpp Require Import base list gmap strings.
From Stdlib Require Import Ascii Lia.
From S2P Require Import Prelude Config Persist ConfigFiles.

(** ** Command names *)

Definition is_upper (c : ascii) : bool := bool_decide (65 <= nat_of_ascii c <= 90)%nat.
Definition is_lower_or_digit (c : ascii) : bool :=
  bool_decide (97 <= nat_of_ascii c <= 122)%nat || bool_decide (48 <= nat_of_ascii c <= 57)%nat.
Definition to_lower (c : ascii) : ascii :=
  if is_upper c then ascii_of_nat (nat_of_ascii c + 32) else c.
Fixpoint str_map (f : ascii -> ascii) (s : string) : string :=
  match s with EmptyString => EmptyString | String c t => String (f c) (str_map f t) end.
(** [str.lower()] on ASCII. *)
Definition str_lower (s : string) : string := str_map to_lower s.

(** [pndlu.camel_to_cmd_name] (the [pandalone] library):
    [re.sub('(?<=[a-z0-9])([A-Z]+)', r'_\1', s).lower().replace('_', '-')].
    An underscore goes before an upper-case letter whose predecessor in the
    original string is a lower-case letter or a digit. *)
Fixpoint camel_snake (prev : option ascii) (s : string) : string :=
  match s with
  | EmptyString => EmptyString
  | String c t =>
      let rest := String c (camel_snake (Some c) t) in
      match prev with
      | Some p => if is_upper c && is_lower_or_digit p then String "_"%char rest else rest
      | None => rest
      end
  end.

Definition us_to_dash (c : ascii) : ascii := if bool_decide (c = "_"%char) then "-"%char else c.

Definition camel_to_cmd_name (s : string) : string :=
  str_map us_to_dash (str_lower (camel_snake None s)).

(** [class2cmd_name(cls)]: strip a trailing [cmd] (of any case) from a
    name longer than three characters. *)
Definition class2cmd_name (name : string) : string :=
  let n := String.length name in
  let name := if bool_decide (String.substring (n - 3) 3 (str_lower name) = "cmd") && bool_decide (3 < n)
              then String.substring 0 (n - 3) name else name in
  camel_to_cmd_name name.

(** [build_sub_cmds( *subapp_classes)]: an [OrderedDict] of
    [cmd-name --> (cmd-class, help-msg)]; a later class of the same name
    replaces the value of an earlier one in the earlier one's place. *)
Definition build_sub_cmds (short_help : string -> string) (classes : list string)
    : list (string * (string * string)) :=
  od_of_list (map (fun sa => (class2cmd_name sa, (sa, short_help sa))) classes).

(** ** Command objects *)

(** What a class's own [__init__] passes on to [Cmd.__init__] in [kwds]
    (with [kwds.setdefault]); [None] for a keyword it leaves out. *)
Record cmd_kwds := mk_kwds {
  k_conf_classes : option (list string);
  k_cmd_aliases : option (list (string * string));
  k_cmd_flags : option (list (list string * string));
  k_subcommands : option (list (string * (string * string)));
  k_default_subcmd : option string
}.

(** A [Cmd] instance.  A flag is keyed by the tuple of its names; of its
    value only the help message is kept (the configuration it sets is not
    modelled). *)
Record cmd := mk_cmd {
  c_cls : string;                                    (** [type(self)] *)
  c_name : string;
  c_parent : option nat;
  c_subapp : option nat;
  c_conf_classes : list string;
  c_cmd_aliases : list (string * string);
  c_cmd_flags : list (list string * string);
  c_subcommands : list (string * (string * string));
  c_default_subcmd : option string;
  c_classes : list string;
  c_aliases : list (string * string);
  c_flags : list (list string * string)
}.

(** The objects, the next free id, the class attribute [_instance] of
    [SingletonConfigurable] by class, and for each initialized command
    whether it was dispatching and the configuration it ended with. *)
Record cstore {V} := mk_cstore {
  st_cmds : gmap nat cmd;
  st_next : nat;
  st_instance : gmap string nat;
  st_inited : gmap nat (bool * config V)
}.
Arguments cstore : clear implicits.
Arguments mk_cstore {V}.

(** [Cmd.__init__]'s defaults (lines 662-694), overridden by [kwds]. *)
Definition default_cmd_aliases : list (string * string) := [("config-paths", "Cmd.config_paths")].
Definition default_cmd_flags : list (list string * string) :=
  [(["d"; "debug"], "Log more logging, fail on configuration errors, and print configuration on each cmd startup.");
   (["v"; "verbose"], "Make various sub-commands increase their verbosity (not to be confused with --debug):");
   (["f"; "force"], "Force various sub-commands to perform their duties without complaints.")].

(** [dict.update(u)] on an ordered dict, and [dtz.merge(ds)]: a later
    value replaces an earlier one in its place. *)
Definition dict_update {K A} `{EqDecision K} (d u : list (K * A)) : list (K * A) :=
  fold_left (fun acc '(k, v) => od_set k v acc) u d.
Definition dtz_merge {K A} `{EqDecision K} (ds : list (list (K * A))) : list (K * A) :=
  fold_left dict_update ds [].

(** The errors [chain_cmds] can raise: its own [ValueError]s and those of
    [Cmd.initialize] (file [ConfigFiles]). *)
Inductive chain_exc := CValueError (msg : string) | CConfig (e : cexc).

(** What [SingletonConfigurable.instance()] does. *)
Inductive inst_result := IExisting (i : nat) | ICreated | IMultipleInstanceError.

(** [Cmd.run()]: the [CmdException] naming the sub-commands and the
    command line, or the failed [assert]. *)
Inductive run_exc := RCmdException (subcmds : list string) (cmd_line : string) | RAssertionError.

(** Where [Cmd.start()] ends: in [run( *extra_args)] of a command, in
    [initialize_subcommand] of the default sub-command, or nowhere (a
    store that the invariant rules out). *)
Inductive start_result := SRun (i : nat) | SInitSubcommand (i : nat) (subcmd : string) | SStuck.

(** [if self.default_subcmd:]: the trait is [None] or a string, and the
    empty string is false. *)
Definition truthy_subcmd (o : option string) : option string :=
  match o with Some d => if bool_decide (d = "") then None else Some d | None => None end.

Section Commands.
Context {V : Type} `{EqDecision V}.
(** The classes: the keywords their own [__init__] adds, their class-level
    [aliases] and [flags], whether they are [Application] classes, their
    MRO (the class first). *)
Context (cls_kwds : string -> cmd_kwds) (cls_aliases0 : string -> list (string * string))
        (cls_flags0 : string -> list (list string * string)) (cls_is_app : string -> bool)
        (cls_mro : string -> list string).
(** What [Cmd.initialize] reads (file [ConfigFiles]). *)
Context (os : os_env V) (cipher_traits : list (string * string)) (is_pgp_encrypted : V -> bool)
        (raise_errors : bool) (config_paths : option (list string)) (persist_path : option string).

Notation chainm := (gen chain_exc Empty_set (cstore V * cstate V)).
Local Open Scope gen_scope.

Definition set_cmd (st : cstore V) (i : nat) (c : cmd) : cstore V :=
  mk_cstore (<[i := c]> (st_cmds st)) (st_next st) (st_instance st) (st_inited st).

(** [pcl = pcl.parent] until [None]; the fuel is the number of ids
    allocated, which bounds a chain of strictly decreasing ids. *)
Fixpoint parents_from (st : cstore V) (fuel : nat) (pcl : option nat) : option (list nat) :=
  match pcl with
  | None => Some []
  | Some p =>
      match fuel with
      | 0 => None
      | S f => st_cmds st !! p ≫= fun c => (p ::.) <$> parents_from st f (c_parent c)
      end
  end.

(** [my_cmd_chain()]: from [self.subapp], or [self] when it has none. *)
Definition my_cmd_chain (st : cstore V) (self : nat) : option (list nat) :=
  st_cmds st !! self ≫= fun c => parents_from st (st_next st) (Some (from_option id self (c_subapp c))).

(** [_inherit_parent_cmd()]. *)
Definition inherit_parent_cmd (st : cstore V) (self : nat) : option (cstore V) :=
  st_cmds st !! self ≫= fun c =>
  (match c_parent c with
   | Some _ =>
       my_cmd_chain st self ≫= fun chain =>
       mapM (fun i => st_cmds st !! i) chain ≫= fun cs =>
       Some (cs, concat (map c_conf_classes cs),
             dtz_merge (map c_cmd_aliases (reverse cs)), dtz_merge (map c_cmd_flags (reverse cs)))
   | None => Some ([c], c_conf_classes c, c_cmd_aliases c, c_cmd_flags c)
   end) ≫= fun '(cs, conf_classes, cmd_aliases, cmd_flags) =>
  Some (set_cmd st self
    (mk_cmd (c_cls c) (c_name c) (c_parent c) (c_subapp c) (c_conf_classes c) (c_cmd_aliases c)
       (c_cmd_flags c) (c_subcommands c) (c_default_subcmd c)
       (iset (map c_cls cs ++ conf_classes))
       (dict_update (c_aliases c) cmd_aliases) (dict_update (c_flags c) cmd_flags))).

(** [Cmd.__init__]'s [dkwds.update(kwds)]: the class's keywords, else the
    defaults. *)
Definition kw_conf_classes (cls : string) : list string := from_option id [] (k_conf_classes (cls_kwds cls)).
Definition kw_cmd_aliases (cls : string) : list (string * string) :=
  from_option id default_cmd_aliases (k_cmd_aliases (cls_kwds cls)).
Definition kw_cmd_flags (cls : string) : list (list string * string) :=
  from_option id default_cmd_flags (k_cmd_flags (cls_kwds cls)).

(** [cls(parent=parent)]: [Cmd.__init__]'s keywords over the class's own
    ones, then the observer [_inherit_parent_cmd]. *)
Definition new_cmd (st : cstore V) (cls : string) (parent : option nat) : option (nat * cstore V) :=
  let kw := cls_kwds cls in
  let c := mk_cmd cls (class2cmd_name cls) parent None
             (kw_conf_classes cls) (kw_cmd_aliases cls) (kw_cmd_flags cls)
             (from_option id [] (k_subcommands kw)) (k_default_subcmd kw)
             [] (cls_aliases0 cls) (cls_flags0 cls) in
  let i := st_next st in
  inherit_parent_cmd (mk_cstore (<[i := c]> (st_cmds st)) (S i) (st_instance st) (st_inited st)) i
    ≫= fun st' => Some (i, st').

(** [app.subapp = child], then the observer on [app]. *)
Definition set_subapp (st : cstore V) (app child : nat) : option (cstore V) :=
  st_cmds st !! app ≫= fun c =>
  inherit_parent_cmd (set_cmd st app
    (mk_cmd (c_cls c) (c_name c) (c_parent c) (Some child) (c_conf_classes c) (c_cmd_aliases c)
       (c_cmd_flags c) (c_subcommands c) (c_default_subcmd c) (c_classes c) (c_aliases c) (c_flags c))) app.

(** Errors of an operation on the store that the invariant rules out
    (a dangling id) surface as this [ValueError]. *)
Definition of_option {A} (o : option A) : chainm A :=
  match o with Some a => gen_ret a | None => gen_raise (CValueError "dangling command") end.

Definition get_store : chainm (cstore V) := p <- gen_get ;; gen_ret p.1.
Definition put_store (st : cstore V) : chainm unit := p <- gen_get ;; gen_put (st, p.2).

(** A [cmdm] action of file [ConfigFiles] on the configuration state. *)
Definition lift_cfg {A} (m : gen cexc Empty_set (cstate V) A) : chainm A :=
  fun p => let r := m p.2 in
           mk_gres [] (p.1, g_state r) (match g_out r with inl e => inl (CConfig e) | inr a => inr a end).

(** [app.initialize(argv or [])] of [Cmd] (lines 733-764; the classes of a
    chain are taken not to override it, as [ShowCmd] does, file [CfgCmd]):
    no command-line configuration, the initial [config] being the parent's
    ([Configurable.__init__] takes [parent.config]); the store records
    whether the command was dispatching and the configuration it ends
    with. *)
Definition initialize_cmd (i : nat) : chainm unit :=
  st <- get_store ;;
  c <- of_option (st_cmds st !! i) ;;
  let dispatching := bool_decide (is_Some (c_subapp c)) in
  let cfg0 := match c_parent c ≫= fun p => st_inited st !! p with Some (_, pc) => pc | None => ∅ end in
  cfg <- lift_cfg (initialize os cipher_traits is_pgp_encrypted raise_errors dispatching (c_cls c)
                     config_paths persist_path ∅ cfg0) ;;
  st <- get_store ;;
  put_store (mk_cstore (st_cmds st) (st_next st) (st_instance st) (<[i := (dispatching, cfg)]> (st_inited st))).

(** One turn of [chain_cmds]'s loop: [ra] is [(root, app)] once the root
    exists. *)
Definition chain_step (ra : option (nat * nat)) (cls : string) : chainm (option (nat * nat)) :=
  if negb (cls_is_app cls) then gen_raise (CValueError ("Expected an Application-class instance, got " +:+ cls)) else
  st <- get_store ;;
  match ra with
  | None =>
      r <- of_option (new_cmd st cls None) ;; let '(i, st1) := r in
      put_store st1 ;;;
      initialize_cmd i ;;;
      gen_ret (Some (i, i))
  | Some (root, app) =>
      r <- of_option (new_cmd st cls (Some app)) ;; let '(i, st1) := r in
      st2 <- of_option (set_subapp st1 app i) ;;
      put_store st2 ;;;
      initialize_cmd i ;;;
      gen_ret (Some (root, i))
  end.

Fixpoint chain_loop (classes : list string) (ra : option (nat * nat)) : chainm (option (nat * nat)) :=
  match classes with
  | [] => gen_ret ra
  | cls :: rest => ra' <- chain_step ra cls ;; chain_loop rest ra'
  end.

(** [chain_cmds(app_classes)] with no [root_kwds]: the root's id. *)
Definition chain_cmds (classes : list string) : chainm nat :=
  match classes with
  | [] => gen_raise (CValueError "No cmds to chained passed in!")
  | cls0 :: _ =>
      ra <- chain_loop classes None ;;
      ra' <- of_option ra ;; let '(root, app) := ra' in
      st <- get_store ;;
      put_store (mk_cstore (st_cmds st) (st_next st) (<[cls0 := app]> (st_instance st)) (st_inited st)) ;;;
      gen_ret root
  end.

(** [cls.instance()] of [SingletonConfigurable]: [cls._instance] is found
    along the MRO; an instance that is not of the class raises. *)
Definition singleton_instance (st : cstore V) (cls : string) : inst_result :=
  match mro_lookup (st_instance st) (cls_mro cls) with
  | None => ICreated
  | Some i =>
      match st_cmds st !! i with
      | Some c => if bool_decide (cls ∈ cls_mro (c_cls c)) then IExisting i else IMultipleInstanceError
      | None => IMultipleInstanceError
      end
  end.

(** [Cmd.run( *args)]. *)
Definition cmd_run (st : cstore V) (self : nat) : option run_exc :=
  st_cmds st !! self ≫= fun c =>
  if bool_decide (c_subcommands c = []) then Some RAssertionError else
  my_cmd_chain st self ≫= fun chain =>
  mapM (fun i => c_name <$> st_cmds st !! i) (reverse chain) ≫= fun names =>
  Some (RCmdException (map fst (c_subcommands c)) (String.concat " " names)).

(** [Cmd.start()] (the logging of [print_config] apart): down the
    [subapp] links to the command that runs. *)
Fixpoint cmd_start (fuel : nat) (st : cstore V) (self : nat) : start_result :=
  match fuel with
  | 0 => SStuck
  | S f =>
      match st_cmds st !! self with
      | None => SStuck
      | Some c =>
          match c_subapp c, truthy_subcmd (c_default_subcmd c) with
          | Some s, _ => cmd_start f st s
          | None, Some d => SInitSubcommand self d
          | None, None => SRun self
          end
      end
  end.
End Commands.

(** ** The links of the command objects *)

(** What a command declares for its chain: [conf_classes], [cmd_aliases],
    [cmd_flags]. *)
Definition decl (c : cmd) : list string * list (string * string) * list (list string * string) :=
  (c_conf_classes c, c_cmd_aliases c, c_cmd_flags c).

Definition links (c : cmd) :=
  (c_cls c, c_name c, c_parent c, c_subapp c, c_subcommands c, c_default_subcmd c, decl c).

Lemma links_subapp c a b p d e f g : links c = (a, b, p, d, e, f, g) -> c_subapp c = d.
Proof. by intros [= _ _ _ ->]. Qed.

Lemma links_inv c a b p d e f g : links c = (a, b, p, d, e, f, g) ->
  c_cls c = a /\ c_name c = b /\ c_parent c = p /\ c_subapp c = d /\ c_subcommands c = e /\
  c_default_subcmd c = f /\ decl c = g.
Proof. by intros [= -> -> -> -> -> -> ->]. Qed.

(** ** Command names of camel-case classes *)

Fixpoint str_forallb (f : ascii -> bool) (s : string) : bool :=
  match s with EmptyString => true | String c t => f c && str_forallb f t end.

(** A word of a camel-case class name: an upper-case letter followed by
    at least one lower-case letter or digit. *)
Definition word_ok (w : string) : bool :=
  match w with
  | String c r => is_upper c && negb (bool_decide (r = EmptyString)) && str_forallb is_lower_or_digit r
  | EmptyString => false
  end.

Lemma str_length_app a b : String.length (a +:+ b) = String.length a + String.length b.
Proof. induction a as [|c a IH]; [done|exact (f_equal S IH)]. Qed.

Lemma str_app_nil_r a : a +:+ "" = a.
Proof. induction a as [|c a IH]; [done|exact (f_equal (String c) IH)]. Qed.

Lemma str_map_app f a b : str_map f (a +:+ b) = str_map f a +:+ str_map f b.
Proof. induction a as [|c a IH]; [done|exact (f_equal (String (f c)) IH)]. Qed.

Lemma str_lower_app a b : str_lower (a +:+ b) = str_lower a +:+ str_lower b.
Proof. apply str_map_app. Qed.

Lemma str_map_length f a : String.length (str_map f a) = String.length a.
Proof. induction a as [|c a IH]; simpl; [done|by rewrite IH]. Qed.

Lemma str_lower_length a : String.length (str_lower a) = String.length a.
Proof. apply str_map_length. Qed.

Lemma str_map_concat f sep ws :
  str_map f (String.concat sep ws) = String.concat (str_map f sep) (map (str_map f) ws).
Proof.
  induction ws as [|w ws IH]; [done|]. destruct ws as [|w2 ws]; [done|].
  change (String.concat sep (w :: w2 :: ws)) with (w +:+ sep +:+ String.concat sep (w2 :: ws)).
  rewrite !str_map_app, IH. done.
Qed.

Lemma substring_app_l a b : String.substring 0 (String.length a) (a +:+ b) = a.
Proof. induction a as [|c a IH]; simpl; [by destruct b|by rewrite IH]. Qed.

Lemma substring_full b : String.substring 0 (String.length b) b = b.
Proof. induction b as [|c b IH]; simpl; [done|by rewrite IH]. Qed.

Lemma substring_app_r a b : String.substring (String.length a) (String.length b) (a +:+ b) = b.
Proof. induction a as [|c a IH]; simpl; [apply substring_full|done]. Qed.

Lemma class2cmd_name_strip x : x <> EmptyString -> class2cmd_name (x +:+ "Cmd") = camel_to_cmd_name x.
Proof.
  intros Hx. unfold class2cmd_name. rewrite str_length_app, str_lower_app.
  replace (String.length x + String.length "Cmd" - 3) with (String.length x) by (simpl; lia).
  replace (str_lower "Cmd") with "cmd" by reflexivity.
  pose proof (substring_app_r (str_lower x) "cmd") as Hs. rewrite str_lower_length in Hs. simpl in Hs. rewrite Hs.
  rewrite bool_decide_eq_true_2 by done. rewrite bool_decide_eq_true_2 by (destruct x; [done|simpl; lia]).
  simpl. by rewrite substring_app_l.
Qed.

Lemma lower_or_digit_not_upper c : is_lower_or_digit c = true -> is_upper c = false.
Proof.
  unfold is_lower_or_digit, is_upper. intros H.
  apply orb_true_iff in H as [H|H]; apply bool_decide_eq_true in H; apply bool_decide_eq_false_2; lia.
Qed.

Fixpoint last_or (p : option ascii) (s : string) : option ascii :=
  match s with EmptyString => p | String c t => last_or (Some c) t end.

Lemma camel_snake_lower p r t :
  str_forallb is_lower_or_digit r = true -> camel_snake p (r +:+ t) = r +:+ camel_snake (last_or p r) t.
Proof.
  revert p. induction r as [|c r IH]; intros p Hr; [done|]. simpl in Hr. apply andb_true_iff in Hr as [Hc Hr].
  simpl. rewrite (lower_or_digit_not_upper c Hc), IH by done. by destruct p.
Qed.

Definition prev_ok (p : option ascii) : bool := match p with Some q => is_lower_or_digit q | None => false end.

Lemma camel_snake_word p w t :
  word_ok w = true ->
  camel_snake p (w +:+ t) = (if prev_ok p then "_" else "") +:+ w +:+ camel_snake (last_or None w) t /\
  prev_ok (last_or None w) = true.
Proof.
  destruct w as [|c r]; [done|]. simpl. intros Hw. apply andb_true_iff in Hw as [Hw Hr].
  apply andb_true_iff in Hw as [Hc Hne]. rewrite camel_snake_lower by done. split.
  - destruct p as [a|]; simpl; [|done]. rewrite Hc. simpl. by destruct (is_lower_or_digit a).
  - destruct r as [|d r]; [done|]. simpl in Hr |- *. apply andb_true_iff in Hr as [Hd Hr]. clear Hne.
    revert d Hd. induction r as [|e r IH]; intros d Hd; simpl; [done|].
    simpl in Hr. apply andb_true_iff in Hr as [He Hr]. by apply IH.
Qed.

Lemma camel_snake_words p ws :
  ws <> [] -> Forall (fun w => word_ok w = true) ws ->
  camel_snake p (String.concat "" ws) = (if prev_ok p then "_" else "") +:+ String.concat "_" ws.
Proof.
  revert p. induction ws as [|w ws IH]; intros p Hne Hws; [done|]. apply Forall_cons in Hws as [Hw Hws].
  destruct ws as [|w2 ws].
  - simpl. rewrite <-(str_app_nil_r w) at 1 2. rewrite (proj1 (camel_snake_word p w "" Hw)). done.
  - change (String.concat "" (w :: w2 :: ws)) with (w +:+ String.concat "" (w2 :: ws)).
    destruct (camel_snake_word p w (String.concat "" (w2 :: ws)) Hw) as [-> Hl].
    rewrite IH, Hl by done. done.
Qed.

Lemma to_lower_not_us c : is_upper c || is_lower_or_digit c = true -> to_lower c <> "_"%char.
Proof.
  intros H Heq. apply (f_equal nat_of_ascii) in Heq. change (nat_of_ascii "_") with 95 in Heq.
  unfold to_lower in Heq. destruct (is_upper c) eqn:Hu; unfold is_upper in Hu.
  - apply bool_decide_eq_true in Hu. rewrite nat_ascii_embedding in Heq by lia. lia.
  - apply bool_decide_eq_false in Hu. simpl in H. unfold is_lower_or_digit in H.
    apply orb_true_iff in H as [H|H]; apply bool_decide_eq_true in H; lia.
Qed.

Lemma word_no_us w : word_ok w = true -> str_map us_to_dash (str_lower w) = str_lower w.
Proof.
  destruct w as [|c r]; [done|]. simpl. intros Hw. apply andb_true_iff in Hw as [Hw Hr].
  apply andb_true_iff in Hw as [Hc _].
  assert (Hus : forall d, is_upper d || is_lower_or_digit d = true -> us_to_dash (to_lower d) = to_lower d)
    by (intros d Hd; unfold us_to_dash; by rewrite bool_decide_eq_false_2 by by apply to_lower_not_us).
  unfold str_lower. simpl. rewrite Hus by (by rewrite Hc). f_equal.
  clear Hc. induction r as [|d r IH]; [done|]. simpl in Hr |- *.
  apply andb_true_iff in Hr as [Hd Hr]. rewrite Hus by (by rewrite Hd, orb_true_r). f_equal. by apply IH.
Qed.

(** C30: a class named by camel-case words followed by [Cmd] (as
    [ConfigCmd], [InitCmd] or [AddReportCmd]) gets as command name its
    words in lower case joined by dashes ([config], [init], [add-report]). *)
Theorem class2cmd_name_words ws :
  ws <> [] -> Forall (fun w => word_ok w = true) ws ->
  class2cmd_name (String.concat "" ws +:+ "Cmd") = String.concat "-" (map str_lower ws).
Proof.
  intros Hne Hws. rewrite class2cmd_name_strip.
  - unfold camel_to_cmd_name. rewrite camel_snake_words by done.
    change ((if prev_ok None then "_" else "") +:+ String.concat "_" ws) with (String.concat "_" ws).
    unfold str_lower at 1. rewrite !str_map_concat, map_map.
    change (str_map us_to_dash (str_map to_lower "_")) with "-". f_equal.
    apply map_ext_in. intros w Hw. apply word_no_us. rewrite Forall_forall in Hws. by apply Hws, list_elem_of_In.
  - destruct ws as [|w ws]; [done|]. apply Forall_cons in Hws as [Hw _].
    destruct w as [|c r]; [done|]. by destruct ws.
Qed.

Section CommandsFacts.
Context {V : Type} `{EqDecision V}.
Context (cls_kwds : string -> cmd_kwds) (cls_aliases0 : string -> list (string * string))
        (cls_flags0 : string -> list (list string * string)) (cls_is_app : string -> bool)
        (cls_mro : string -> list string).
Context (os : os_env V) (cipher_traits : list (string * string)) (is_pgp_encrypted : V -> bool)
        (raise_errors : bool) (config_paths : option (list string)) (persist_path : option string).

Local Open Scope gen_scope.

Lemma of_option_runs {A} (o : option A) s s' (a : A) :
  gen_runs (of_option (V:=V) o) s s' a -> o = Some a /\ s' = s.
Proof. destruct o; [by intros [[= ->] <-]|by intros [? _]]. Qed.

Lemma get_store_runs s s' (st : cstore V) : gen_runs (get_store (V:=V)) s s' st -> s' = s /\ st = s.1.
Proof. intros H. unfold get_store in H. by gen_inv H. Qed.

Lemma put_store_runs s s' (st : cstore V) u : gen_runs (put_store (V:=V) st) s s' u -> s' = (st, s.2).
Proof. intros H. unfold put_store in H. by gen_inv H. Qed.

Lemma set_cmd_lookup (st : cstore V) i c j :
  st_cmds (set_cmd st i c) !! j = if decide (j = i) then Some c else st_cmds st !! j.
Proof. simpl. case_decide; subst; [apply lookup_insert_eq|by apply lookup_insert_ne]. Qed.

Lemma inherit_links (st st' : cstore V) self :
  inherit_parent_cmd st self = Some st' ->
  exists c c', st_cmds st !! self = Some c /\ st' = set_cmd st self c' /\ links c' = links c.
Proof.
  unfold inherit_parent_cmd. destruct (st_cmds st !! self) as [c|]; simpl; [|done].
  intros H. apply bind_Some in H as ([[[cs cc] al] fl] & _ & [= <-]). by eexists _, _.
Qed.

(** The keys of [dict.update] and of [dtz.merge]. *)
Lemma od_set_keys {K A} `{EqDecision K} (k k' : K) (v : A) d :
  k ∈ map fst (od_set k' v d) <-> k = k' \/ k ∈ map fst d.
Proof.
  induction d as [|[k'' v''] d IH]; simpl; [set_solver|].
  case_decide; subst; simpl; rewrite ?elem_of_cons, ?IH; naive_solver.
Qed.

Lemma dict_update_keys {K A} `{EqDecision K} (d u : list (K * A)) k :
  k ∈ map fst (dict_update d u) <-> k ∈ map fst d \/ k ∈ map fst u.
Proof.
  unfold dict_update. revert d. induction u as [|[k' v] u IH]; intros d; simpl; [set_solver|].
  rewrite IH, od_set_keys, elem_of_cons. naive_solver.
Qed.

Lemma dtz_merge_keys {K A} `{EqDecision K} (ds : list (list (K * A))) k :
  k ∈ map fst (dtz_merge ds) <-> exists d, d ∈ ds /\ k ∈ map fst d.
Proof.
  unfold dtz_merge. cut (forall acc, k ∈ map fst (fold_left dict_update ds acc) <->
                                    k ∈ map fst acc \/ exists d, d ∈ ds /\ k ∈ map fst d).
  { intros H. rewrite (H []). simpl. rewrite elem_of_nil. tauto. }
  induction ds as [|d ds IH]; intros acc; simpl.
  - split; [tauto|]. intros [?|(? & Hd & _)]; [done|by apply elem_of_nil in Hd].
  - rewrite IH, dict_update_keys. setoid_rewrite elem_of_cons. naive_solver.
Qed.

(** What a command [c'] has from a class [cls] with declarations [d]:
    the class, its [conf_classes] in [classes], and its aliases and flags
    among [aliases] and [flags]. *)
Definition inherits (c' : cmd) (cls : string)
    (d : list string * list (string * string) * list (list string * string)) : Prop :=
  cls ∈ c_classes c' /\ d.1.1 ⊆ c_classes c' /\
  (forall k, k ∈ map fst d.1.2 -> k ∈ map fst (c_aliases c')) /\
  (forall k, k ∈ map fst d.2 -> k ∈ map fst (c_flags c')).

(** [_inherit_parent_cmd] gives [self] what every command of its chain
    declares (itself alone when it is a root). *)
Lemma inherit_parent_inherits (st st' : cstore V) self :
  inherit_parent_cmd st self = Some st' ->
  exists c c' cs, st_cmds st !! self = Some c /\ st' = set_cmd st self c' /\ links c' = links c /\
    match c_parent c with
    | Some _ => (my_cmd_chain st self ≫= mapM (fun i => st_cmds st !! i)) = Some cs
    | None => cs = [c]
    end /\ Forall (fun x => inherits c' (c_cls x) (decl x)) cs.
Proof.
  unfold inherit_parent_cmd. destruct (st_cmds st !! self) as [c|] eqn:Hc; simpl; [|done].
  intros H. apply bind_Some in H as ([[[cs cc] al] fl] & Hcs & [= <-]).
  assert (Hsub : Forall (fun x => c_conf_classes x ⊆ cc /\ (forall k, k ∈ map fst (c_cmd_aliases x) -> k ∈ map fst al) /\
                                  (forall k, k ∈ map fst (c_cmd_flags x) -> k ∈ map fst fl)) cs /\
                 match c_parent c with
                 | Some _ => (my_cmd_chain st self ≫= mapM (fun i => st_cmds st !! i)) = Some cs
                 | None => cs = [c]
                 end).
  { destruct (c_parent c).
    - apply bind_Some in Hcs as (ch & Hch & Hcs). apply bind_Some in Hcs as (cs' & Hm & [= <- <- <- <-]).
      rewrite Hch. split; [|done]. apply Forall_forall. intros x Hx. split; [|split]; intros k Hk.
      + apply list_elem_of_In, in_concat. exists (c_conf_classes x).
        split; apply list_elem_of_In; [by apply list_elem_of_In, in_map, list_elem_of_In|done].
      + apply dtz_merge_keys. exists (c_cmd_aliases x). split; [|done]. by apply list_elem_of_In, in_map, list_elem_of_In, elem_of_reverse.
      + apply dtz_merge_keys. exists (c_cmd_flags x). split; [|done]. by apply list_elem_of_In, in_map, list_elem_of_In, elem_of_reverse.
    - injection Hcs as <- <- <- <-. split; [|done]. repeat constructor; done. }
  destruct Hsub as [Hsub Hm]. eexists c, _, cs. do 3 (split; [done|]). split; [done|].
  apply Forall_forall. intros x Hx. rewrite Forall_forall in Hsub. destruct (Hsub x Hx) as (Hcc & Hal & Hfl).
  unfold inherits, decl. simpl. rewrite !(proj2 (iset_spec _)). split; [|split; [|split]].
  - apply elem_of_app. left. by apply list_elem_of_In, in_map, list_elem_of_In.
  - intros y Hy. rewrite (proj2 (iset_spec _)), elem_of_app. right. by apply Hcc.
  - intros k Hk. apply dict_update_keys. right. by apply Hal.
  - intros k Hk. apply dict_update_keys. right. by apply Hfl.
Qed.
Lemma new_cmd_spec (st st' : cstore V) cls parent i :
  new_cmd cls_kwds cls_aliases0 cls_flags0 st cls parent = Some (i, st') ->
  i = st_next st /\ st_next st' = S i /\ st_instance st' = st_instance st /\ st_inited st' = st_inited st /\
  (forall j, j <> i -> st_cmds st' !! j = st_cmds st !! j) /\
  exists c, st_cmds st' !! i = Some c /\
    links c = (cls, class2cmd_name cls, parent, None, from_option id [] (k_subcommands (cls_kwds cls)),
               k_default_subcmd (cls_kwds cls), (kw_conf_classes cls_kwds cls, kw_cmd_aliases cls_kwds cls, kw_cmd_flags cls_kwds cls)).
Proof.
  unfold new_cmd. intros H. apply bind_Some in H as (st1 & Hi & [= <- ->]).
  apply inherit_links in Hi as (c & c' & Hc & -> & Hl). simpl in *.
  rewrite lookup_insert_eq in Hc. injection Hc as <-.
  do 4 (split; [done|]). split.
  - intros j Hj. rewrite !lookup_insert_ne by done. done.
  - exists c'. by rewrite lookup_insert_eq.
Qed.

(** The new command [c] gets, through [_inherit_parent_cmd], what the
    commands of its chain (itself alone for a root) declare. *)
Lemma new_cmd_inherits (st st' : cstore V) cls parent i :
  new_cmd cls_kwds cls_aliases0 cls_flags0 st cls parent = Some (i, st') ->
  exists c c' cs, i = st_next st /\ c_cls c = cls /\ c_parent c = parent /\ c_subapp c = None /\
    decl c = (kw_conf_classes cls_kwds cls, kw_cmd_aliases cls_kwds cls, kw_cmd_flags cls_kwds cls) /\
    st_cmds st' !! i = Some c' /\ Forall (fun x => inherits c' (c_cls x) (decl x)) cs /\
    match parent with
    | Some _ => (my_cmd_chain (mk_cstore (<[i := c]> (st_cmds st)) (S i) (st_instance st) (st_inited st)) i ≫=
                 mapM (fun j => <[i := c]> (st_cmds st) !! j)) = Some cs
    | None => cs = [c]
    end.
Proof.
  unfold new_cmd. intros H. apply bind_Some in H as (st1 & Hi & [= <- ->]).
  apply inherit_parent_inherits in Hi as (c0 & c' & cs & Hc0 & -> & _ & Hm & Hf). simpl in Hc0.
  rewrite lookup_insert_eq in Hc0. injection Hc0 as <-.
  eexists _, c', cs. split_and!; [..|exact Hf|exact Hm]; try done. simpl. by rewrite lookup_insert_eq.
Qed.

Lemma set_subapp_spec (st st' : cstore V) app child :
  set_subapp st app child = Some st' ->
  st_next st' = st_next st /\ st_instance st' = st_instance st /\ st_inited st' = st_inited st /\
  (forall j, j <> app -> st_cmds st' !! j = st_cmds st !! j) /\
  exists c c', st_cmds st !! app = Some c /\ st_cmds st' !! app = Some c' /\
    links c' = (c_cls c, c_name c, c_parent c, Some child, c_subcommands c, c_default_subcmd c, decl c).
Proof.
  unfold set_subapp. destruct (st_cmds st !! app) as [c|] eqn:Hc; simpl; [|done].
  intros H. apply inherit_links in H as (c1 & c' & Hc1 & -> & Hl). simpl in *.
  rewrite lookup_insert_eq in Hc1. injection Hc1 as <-.
  do 3 (split; [done|]). split.
  - intros j Hj. rewrite !lookup_insert_ne by done. done.
  - exists c, c'. by rewrite !lookup_insert_eq.
Qed.

Lemma initialize_cmd_runs i (st st' : cstore V) cs cs' u :
  gen_runs (initialize_cmd os cipher_traits is_pgp_encrypted raise_errors config_paths persist_path i)
    (st, cs) (st', cs') u ->
  st_cmds st' = st_cmds st /\ st_next st' = st_next st /\ st_instance st' = st_instance st /\
  exists c cfg, st_cmds st !! i = Some c /\
    st_inited st' = <[i := (bool_decide (is_Some (c_subapp c)), cfg)]> (st_inited st).
Proof.
  unfold initialize_cmd. intros H. gen_inv H.
  apply get_store_runs in Hrun as [-> ->].
  apply of_option_runs in Hrun0 as [Hc ->].
  unfold lift_cfg in Hrun1. destruct Hrun1 as [Ho Hs].
  destruct (g_out _) as [e|cfg] eqn:Hg in Ho; [done|]. injection Ho as <-. subst s1.
  apply get_store_runs in Hrun2 as [-> ->].
  apply put_store_runs in H. injection H as -> _. simpl.
  do 3 (split; [done|]). by eexists _, _.
Qed.

(** The commands [base], ..., [base + n - 1] that a chain of the classes
    [cls] builds: command [j] is of class [cls !! j], its parent is [j - 1]
    and its [subapp] is [j + 1], and it was initialized while not
    dispatching. *)
Definition chain_entry (st : cstore V) (base n j : nat) (c0 : string) : Prop :=
  exists c cfg, st_cmds st !! (base + j) = Some c /\
    links c = (c0, class2cmd_name c0, (match j with 0 => None | S j' => Some (base + j') end),
               (if bool_decide (S j = n) then None else Some (base + S j)),
               from_option id [] (k_subcommands (cls_kwds c0)), k_default_subcmd (cls_kwds c0),
               (kw_conf_classes cls_kwds c0, kw_cmd_aliases cls_kwds c0, kw_cmd_flags cls_kwds c0)) /\
    st_inited st !! (base + j) = Some (false, cfg).

Definition chain_shape (st : cstore V) (base : nat) (cls : list string) : Prop :=
  st_next st = base + length cls /\ forall j c0, cls !! j = Some c0 -> chain_entry st base (length cls) j c0.

Notation step := (chain_step cls_kwds cls_aliases0 cls_flags0 cls_is_app os cipher_traits is_pgp_encrypted
                    raise_errors config_paths persist_path).

(** One turn of the loop: the new command, the parent's [subapp], then
    [initialize]. *)
Lemma chain_step_runs (st st' : cstore V) cs cs' ra cls ra' :
  gen_runs (step ra cls) (st, cs) (st', cs') ra' ->
  exists i st1 st2, new_cmd cls_kwds cls_aliases0 cls_flags0 st cls (snd <$> ra) = Some (i, st1) /\
    match ra with None => st2 = st1 | Some (_, app) => set_subapp st1 app i = Some st2 end /\
    gen_runs (initialize_cmd os cipher_traits is_pgp_encrypted raise_errors config_paths persist_path i)
      (st2, cs) (st', cs') tt /\
    ra' = Some (from_option fst i ra, i).
Proof.
  unfold chain_step. destruct (cls_is_app cls); simpl; intros H; gen_inv H.
  apply get_store_runs in Hrun as [-> ->]. destruct ra as [[root app]|]; gen_inv H.
  - apply of_option_runs in Hrun as [Hn ->]. destruct a as [i st1]. gen_inv H.
    apply of_option_runs in Hrun as [Hs ->]. apply put_store_runs in Hrun0. subst s0. destruct a1.
    by exists i, st1, a.
  - apply of_option_runs in Hrun as [Hn ->]. destruct a as [i st1]. gen_inv H.
    apply put_store_runs in Hrun. subst s. destruct a0. by exists i, st1, st1.
Qed.

Lemma chain_step_root (st st' : cstore V) cs cs' cls ra :
  gen_runs (step None cls) (st, cs) (st', cs') ra ->
  chain_shape st' (st_next st) [cls] /\ ra = Some (st_next st, st_next st).
Proof.
  intros H. apply chain_step_runs in H as (i & st1 & st2 & Hn & -> & Hrun & ->).
  apply initialize_cmd_runs in Hrun as (Hc & Hnx & _ & c & cfg & Hci & Hin).
  apply new_cmd_spec in Hn as (-> & Hnx1 & _ & Hin1 & _ & c1 & Hc1 & Hl1). simpl in *.
  split; [|done]. split; [rewrite Hnx, Hnx1; simpl; lia|].
  intros [|j] c0 Hj; [|done]. injection Hj as <-. exists c1, cfg. rewrite Nat.add_0_r, Hc.
  rewrite Hc1 in Hci. injection Hci as <-. split; [done|]. rewrite Hl1. split; [done|].
  rewrite Hin, Hin1, (links_subapp _ _ _ _ _ _ _ _ Hl1). by rewrite lookup_insert_eq.
Qed.

Lemma chain_entry_frame (st st' : cstore V) base n n' j c0 :
  st_cmds st' !! (base + j) = st_cmds st !! (base + j) ->
  st_inited st' !! (base + j) = st_inited st !! (base + j) ->
  S j <> n -> S j <> n' ->
  chain_entry st base n j c0 -> chain_entry st' base n' j c0.
Proof.
  intros Hc Hi Hn Hn' (c & cfg & Hc0 & Hl & Hi0). exists c, cfg. rewrite Hc, Hi, Hl.
  by rewrite !bool_decide_eq_false_2.
Qed.

Lemma chain_step_child (st st' : cstore V) cs cs' base done cls ra :
  done <> [] -> chain_shape st base done ->
  gen_runs (step (Some (base, base + pred (length done))) cls) (st, cs) (st', cs') ra ->
  chain_shape st' base (done ++ [cls]) /\ ra = Some (base, base + length done).
Proof.
  intros Hne [Hnx Hsh]. assert (Hn0 : 0 < length done) by (destruct done; [done|simpl; lia]).
  intros H. apply chain_step_runs in H as (i & st1 & st2 & Hn & Hs & Hrun & ->). simpl in *.
  apply initialize_cmd_runs in Hrun as (Hc & Hnx' & _ & ci & cfg & Hci & Hin).
  apply new_cmd_spec in Hn as (-> & Hnx1 & _ & Hin1 & Hoth1 & c1 & Hc1 & Hl1).
  apply set_subapp_spec in Hs as (Hnx2 & _ & Hin2 & Hoth2 & ca & ca' & Hca & Hca' & Hla).
  rewrite Hoth2 in Hci by lia. rewrite Hc1 in Hci. injection Hci as <-.
  rewrite (links_subapp _ _ _ _ _ _ _ _ Hl1) in Hin. simpl in Hin.
  split; [|by rewrite <-Hnx]. split; [rewrite Hnx', Hnx2, Hnx1, Hnx, length_app; simpl; lia|].
  rewrite length_app. simpl. intros j c0 Hj.
  destruct (decide (j < length done)) as [Hlt|Hge].
  - rewrite lookup_app_l in Hj by done. specialize (Hsh j c0 Hj).
    destruct (decide (S j = length done)) as [Hlast|Hnl].
    + destruct Hsh as (c & cfg' & Hc0 & Hl & Hi0).
      rewrite Hoth1 in Hca by lia. replace (base + pred (length done)) with (base + j) in Hca, Hca' by lia.
      rewrite Hc0 in Hca. injection Hca as <-. exists ca', cfg'. rewrite Hc, Hca'. split; [done|]. split.
      * rewrite Hla. unfold links, decl in Hl |- *. injection Hl as -> -> -> _ -> -> -> -> ->.
        rewrite Hnx, bool_decide_eq_false_2 by lia. repeat f_equal; lia.
      * rewrite Hin, lookup_insert_ne, Hin2, Hin1 by lia. done.
    + apply (chain_entry_frame st st' base (length done)); [rewrite Hc, Hoth2, Hoth1 by lia; done|
                                      rewrite Hin, lookup_insert_ne, Hin2, Hin1 by lia; done|done|lia|done].
  - rewrite lookup_app_r in Hj by lia. apply list_lookup_singleton_Some in Hj as [Hj <-].
    replace j with (length done) by lia. exists c1, cfg. rewrite Hc, Hoth2 by lia. rewrite <-Hnx.
    split; [done|]. split.
    + rewrite Hl1, bool_decide_eq_true_2 by lia. destruct (length done); [lia|]. simpl. repeat f_equal; lia.
    + rewrite Hin, lookup_insert_eq. done.
Qed.

Notation loop := (chain_loop cls_kwds cls_aliases0 cls_flags0 cls_is_app os cipher_traits is_pgp_encrypted
                    raise_errors config_paths persist_path).

Lemma chain_loop_shape base rest : forall done (st st' : cstore V) cs cs' app ra,
  done <> [] -> chain_shape st base done -> app = base + pred (length done) ->
  gen_runs (loop rest (Some (base, app))) (st, cs) (st', cs') ra ->
  chain_shape st' base (done ++ rest) /\ ra = Some (base, base + pred (length (done ++ rest))).
Proof.
  induction rest as [|cls rest IH]; intros done st st' cs cs' app ra Hne Hsh -> H; simpl in H.
  - apply gen_runs_ret_inv in H as [[= -> ->] ->]. by rewrite List.app_nil_r.
  - apply gen_runs_bind_inv in H as ([st1 cs1] & ra1 & H1 & H).
    apply chain_step_child in H1 as [Hsh1 ->]; [|done|done].
    apply (IH (done ++ [cls])) in H as [Hsh' ->]; [|by destruct done|done|rewrite length_app; simpl; lia].
    by rewrite <-app_assoc in *.
Qed.

(** What [chain_cmds] builds, when it returns. *)
Lemma chain_cmds_shape (st st' : cstore V) cs cs' classes root :
  gen_runs (chain_cmds cls_kwds cls_aliases0 cls_flags0 cls_is_app os cipher_traits is_pgp_encrypted
              raise_errors config_paths persist_path classes) (st, cs) (st', cs') root ->
  root = st_next st /\ chain_shape st' root classes /\
  exists cls0 rest, classes = cls0 :: rest /\ st_instance st' !! cls0 = Some (root + length rest).
Proof.
  destruct classes as [|cls0 rest]; simpl; intros H; [by apply gen_runs_raise_inv in H|].
  apply gen_runs_bind_inv in H as ([st1 cs1] & ra & H1 & H).
  apply gen_runs_bind_inv in H1 as ([st0 cs0] & ra0 & H0 & H1).
  apply chain_step_root in H0 as [Hsh0 ->].
  apply (chain_loop_shape (st_next st) rest [cls0]) in H1 as [Hsh1 ->]; [|done|exact Hsh0|simpl; lia]. simpl in *.
  gen_inv H. apply get_store_runs in Hrun as [-> ->]. apply put_store_runs in Hrun0. injection Hrun0 as -> _.
  destruct Hsh1 as [Hnx Hent]. split; [done|]. split; [by split|].
  exists cls0, rest. split; [done|]. simpl. by rewrite lookup_insert_eq.
Qed.

Lemma chain_shape_lookup (st : cstore V) root classes j :
  chain_shape st root classes -> j < length classes ->
  exists cls c, classes !! j = Some cls /\ st_cmds st !! (root + j) = Some c /\
    links c = (cls, class2cmd_name cls, (match j with 0 => None | S j' => Some (root + j') end),
               (if bool_decide (S j = length classes) then None else Some (root + S j)),
               from_option id [] (k_subcommands (cls_kwds cls)), k_default_subcmd (cls_kwds cls),
               (kw_conf_classes cls_kwds cls, kw_cmd_aliases cls_kwds cls, kw_cmd_flags cls_kwds cls)).
Proof.
  intros [_ Hsh] Hj. destruct (lookup_lt_is_Some_2 classes j Hj) as [cls Hc].
  destruct (Hsh j cls Hc) as (c & cfg & Hc' & Hl & _). by exists cls, c.
Qed.

(** Up the parents from command [j] of commands [root], [root + 1], ...
    each the parent of the next: [j], ..., [0]. *)
Lemma parents_from_ids (st : cstore V) root j : forall fuel,
  (forall k, k <= j -> exists c, st_cmds st !! (root + k) = Some c /\
                       c_parent c = match k with 0 => None | S k' => Some (root + k') end) ->
  j < fuel -> parents_from st fuel (Some (root + j)) = Some (reverse (map (Nat.add root) (seq 0 (S j)))).
Proof.
  induction j as [|j IH]; intros [|fuel] Hp Hf; try lia;
    [|rewrite (seq_S (S j) 0), map_app, reverse_app];
    destruct (Hp _ (le_n _)) as (c & Hc & Hpc); simpl; rewrite Hc; simpl; rewrite Hpc.
  - by destruct fuel.
  - rewrite IH by (lia || (intros; apply Hp; lia)). reflexivity.
Qed.

(** Up the parents from command [j] of a chain. *)
Lemma parents_from_chain (st : cstore V) root classes j fuel :
  chain_shape st root classes -> j < length classes -> j < fuel ->
  parents_from st fuel (Some (root + j)) = Some (reverse (map (Nat.add root) (seq 0 (S j)))).
Proof.
  intros Hsh Hj. apply parents_from_ids. intros k Hk.
  destruct (chain_shape_lookup st root classes k Hsh ltac:(lia)) as (cls & c & _ & Hc & Hl).
  apply links_inv in Hl as (_ & _ & Hp & _). eauto.
Qed.

(** [mapM] of lookups finds every id of the list. *)
Lemma mapM_lookup_elem (m : gmap nat cmd) ids xs j :
  mapM (fun j => m !! j) ids = Some xs -> j ∈ ids -> exists x, m !! j = Some x /\ x ∈ xs.
Proof.
  intros Hm Hj. apply mapM_Some_1 in Hm. apply list_elem_of_lookup in Hj as [n Hn].
  destruct (Forall2_lookup_l _ _ _ _ _ Hm Hn) as (x & Hx & Hjx). exists x. split; [done|].
  by apply list_elem_of_lookup_2 with n.
Qed.

(** The last command of a chain of [classes] has what every class
    declares. *)
Definition leaf_inherits (st : cstore V) (l : nat) (classes : list string) : Prop :=
  exists c, st_cmds st !! l = Some c /\
    Forall (fun cls => inherits c cls (kw_conf_classes cls_kwds cls, kw_cmd_aliases cls_kwds cls,
                                       kw_cmd_flags cls_kwds cls)) classes.

Lemma chain_step_child_inherits (st st' : cstore V) cs cs' base done cls ra :
  done <> [] -> chain_shape st base done ->
  gen_runs (step (Some (base, base + pred (length done))) cls) (st, cs) (st', cs') ra ->
  leaf_inherits st' (base + length done) (done ++ [cls]).
Proof.
  intros Hne Hsh H. pose proof Hsh as [Hnx _]. assert (Hn0 : 0 < length done) by (destruct done; [done|simpl; lia]).
  apply chain_step_runs in H as (i & st1 & st2 & Hn & Hs & Hrun & _). simpl in Hn, Hs.
  apply initialize_cmd_runs in Hrun as (Hc & _).
  apply new_cmd_inherits in Hn as (c & c' & xs & -> & Hcls & Hpar & Hsub & Hdecl & Hc' & Hf & Hm).
  apply set_subapp_spec in Hs as (_ & _ & _ & Hoth2 & _).
  exists c'. rewrite <-Hnx, Hc, Hoth2 by lia. split; [done|].
  remember (<[st_next st := c]> (st_cmds st)) as m eqn:Hmdef.
  assert (Hent : forall k, k <= length done -> exists x, m !! (base + k) = Some x /\
            c_parent x = (match k with 0 => None | S k' => Some (base + k') end) /\
            forall cl, (done ++ [cls]) !! k = Some cl -> c_cls x = cl /\
              decl x = (kw_conf_classes cls_kwds cl, kw_cmd_aliases cls_kwds cl, kw_cmd_flags cls_kwds cl)).
  { intros k Hk. subst m. destruct (decide (k = length done)) as [->|Hk'].
    - exists c. rewrite Hnx, lookup_insert_eq.
      split; [done|]. split.
      + rewrite Hpar. by destruct (length done); [lia|].
      + intros cl Hcl. rewrite lookup_app_r, Nat.sub_diag in Hcl by lia. by injection Hcl as <-.
    - destruct (chain_shape_lookup st base done k Hsh ltac:(lia)) as (cl & x & Hcl & Hx & Hl).
      apply links_inv in Hl as (Hxc & _ & Hxp & _ & _ & _ & Hxd). exists x.
      rewrite lookup_insert_ne by lia. do 2 (split; [done|]).
      intros cl' Hcl'. rewrite lookup_app_l in Hcl' by lia. rewrite Hcl in Hcl'. by injection Hcl' as <-. }
  assert (Hp : parents_from (mk_cstore m (S (st_next st)) (st_instance st) (st_inited st)) (S (st_next st))
                 (Some (st_next st)) = Some (reverse (map (Nat.add base) (seq 0 (S (length done)))))).
  { rewrite Hnx. apply parents_from_ids; [|lia]. intros k Hk. destruct (Hent k Hk) as (x & ? & ? & _). by exists x. }
  unfold my_cmd_chain in Hm. cbn [st_cmds st_next] in Hm. rewrite Hmdef, lookup_insert_eq, <-Hmdef in Hm.
  cbn [mbind option_bind] in Hm. rewrite Hsub in Hm. cbn [from_option id] in Hm. rewrite Hp in Hm.
  cbn [mbind option_bind] in Hm. rewrite Forall_forall in Hf. apply Forall_lookup. intros k cl Hcl.
  assert (Hk : k <= length done) by (apply lookup_lt_Some in Hcl; rewrite length_app in Hcl; simpl in Hcl; lia).
  destruct (Hent k Hk) as (x & Hx & _ & Hxcl). destruct (Hxcl cl Hcl) as [<- <-].
  destruct (mapM_lookup_elem m _ xs (base + k) Hm) as (x' & Hx' & Hxs).
  - apply elem_of_reverse, list_elem_of_In, in_map, in_seq. lia.
  - rewrite Hx in Hx'. injection Hx' as <-. by apply Hf.
Qed.

Lemma chain_step_root_inherits (st st' : cstore V) cs cs' cls ra :
  gen_runs (step None cls) (st, cs) (st', cs') ra -> leaf_inherits st' (st_next st) [cls].
Proof.
  intros H. apply chain_step_runs in H as (i & st1 & st2 & Hn & -> & Hrun & _).
  apply initialize_cmd_runs in Hrun as (Hc & _).
  apply new_cmd_inherits in Hn as (c & c' & xs & -> & Hcls & _ & _ & Hdecl & Hc' & Hf & ->).
  exists c'. rewrite Hc. split; [done|].
  apply Forall_inv in Hf. constructor; [|constructor]. cbv beta. by rewrite <-Hdecl, <-Hcls.
Qed.

Lemma chain_loop_inherits base rest : forall done (st st' : cstore V) cs cs' app ra,
  done <> [] -> chain_shape st base done -> app = base + pred (length done) -> leaf_inherits st app done ->
  gen_runs (loop rest (Some (base, app))) (st, cs) (st', cs') ra ->
  leaf_inherits st' (base + pred (length (done ++ rest))) (done ++ rest).
Proof.
  induction rest as [|cls rest IH]; intros done st st' cs cs' app ra Hne Hsh -> Hinh H; simpl in H.
  - apply gen_runs_ret_inv in H as [[= -> ->] ->]. by rewrite List.app_nil_r.
  - apply gen_runs_bind_inv in H as ([st1 cs1] & ra1 & H1 & H).
    pose proof (chain_step_child_inherits _ _ _ _ _ _ _ _ Hne Hsh H1) as Hinh1.
    apply chain_step_child in H1 as [Hsh1 ->]; [|done|done].
    rewrite cons_middle, app_assoc. apply (IH (done ++ [cls]) st1 _ cs1 cs' (base + length done) ra); try done.
    + by destruct done.
    + rewrite length_app. simpl. by rewrite Nat.add_1_r.
Qed.

(** The last command [chain_cmds] builds has what every class of the chain
    declares. *)
Lemma chain_cmds_inherits (st st' : cstore V) cs cs' classes root :
  gen_runs (chain_cmds cls_kwds cls_aliases0 cls_flags0 cls_is_app os cipher_traits is_pgp_encrypted
              raise_errors config_paths persist_path classes) (st, cs) (st', cs') root ->
  leaf_inherits st' (root + pred (length classes)) classes.
Proof.
  destruct classes as [|cls0 rest]; simpl; intros H; [by apply gen_runs_raise_inv in H|].
  apply gen_runs_bind_inv in H as ([st1 cs1] & ra & H1 & H).
  apply gen_runs_bind_inv in H1 as ([st0 cs0] & ra0 & H0 & H1).
  pose proof (chain_step_root_inherits _ _ _ _ _ _ H0) as Hinh0.
  apply chain_step_root in H0 as [Hsh0 ->].
  pose proof (chain_loop_inherits (st_next st) rest [cls0] _ _ _ _ (st_next st) _ ltac:(done) Hsh0
                ltac:(simpl; lia) Hinh0 H1) as Hinh1.
  apply (chain_loop_shape (st_next st) rest [cls0]) in H1 as [_ ->]; [|done|exact Hsh0|simpl; lia]. simpl in *.
  gen_inv H. apply get_store_runs in Hrun as [-> ->]. apply put_store_runs in Hrun0. by injection Hrun0 as -> _.
Qed.

Lemma chain_names (st : cstore V) root classes :
  chain_shape st root classes ->
  mapM (fun i => c_name <$> st_cmds st !! i) (map (Nat.add root) (seq 0 (length classes))) =
    Some (map class2cmd_name classes).
Proof.
  intros Hsh. apply mapM_Some_2, Forall2_same_length_lookup_2; [by rewrite !length_map, length_seq|].
  intros j x y Hx Hy. apply list_lookup_fmap_Some_1 in Hx as (x' & -> & Hx).
  apply lookup_seq in Hx as [-> Hj]. apply list_lookup_fmap_Some_1 in Hy as (cls' & -> & Hy).
  destruct (chain_shape_lookup st root classes j Hsh Hj) as (cls & c & Hcls & Hc & Hl).
  rewrite Hcls in Hy. injection Hy as <-. apply links_inv in Hl as (_ & Hn & _).
  by rewrite Nat.add_0_l, Hc; simpl; rewrite Hn.
Qed.

(** [start()] from command [j] of a chain goes down the [subapp] links. *)
Lemma start_chain (st : cstore V) root classes leafcls : forall k j fuel,
  chain_shape st root classes -> last classes = Some leafcls -> j + k = pred (length classes) -> k < fuel ->
  cmd_start fuel st (root + j) =
    match truthy_subcmd (k_default_subcmd (cls_kwds leafcls)) with
    | Some d => SInitSubcommand (root + pred (length classes)) d
    | None => SRun (root + pred (length classes))
    end.
Proof.
  induction k as [|k IH]; intros j [|fuel] Hsh Hlast Hjk Hf; try lia;
    rewrite last_lookup in Hlast; assert (Hj : j < length classes) by (destruct classes; simpl in *; [done|lia]);
    destruct (chain_shape_lookup st root classes j Hsh Hj) as (cls & c & Hcls & Hc & Hl);
    apply links_inv in Hl as (_ & _ & _ & Hsub & _ & Hdef & _); simpl; rewrite Hc, Hsub.
  - rewrite bool_decide_eq_true_2 by lia. replace j with (pred (length classes)) in * by lia.
    rewrite Hcls in Hlast. injection Hlast as ->. rewrite Hdef. done.
  - rewrite bool_decide_eq_false_2 by lia. replace (root + S j) with (root + (S j)) by done.
    apply IH; [done|by rewrite last_lookup|lia|lia].
Qed.

(** ** The well-formedness of the store

    Every command's id was allocated, its parent is an older command and
    its [subapp] a command of the store: what the references of the
    source guarantee, and what bounds [my_cmd_chain]'s walk. *)
Definition store_wf (st : cstore V) : Prop :=
  map_Forall (fun i c => i < st_next st /\
    match c_parent c with Some p => p < i /\ is_Some (st_cmds st !! p) | None => True end /\
    match c_subapp c with Some s => is_Some (st_cmds st !! s) | None => True end) (st_cmds st).

#[global] Instance store_wf_dec st : Decision (store_wf st).
Proof. unfold store_wf. apply map_Forall_dec. intros i c. destruct (c_parent c), (c_subapp c); apply _. Defined.

Lemma parents_from_total (st : cstore V) : store_wf st -> forall fuel p, p < fuel -> is_Some (st_cmds st !! p) ->
  exists l, parents_from st fuel (Some p) = Some l /\ 0 < length l <= S p.
Proof.
  intros Hwf. induction fuel as [|fuel IH]; intros p Hp [c Hc]; [lia|]. simpl. rewrite Hc. simpl.
  destruct (Hwf p c Hc) as (_ & Hpar & _). destruct (c_parent c) as [q|] eqn:Hq.
  - destruct Hpar as [Hqp Hqs]. destruct (IH q ltac:(lia) Hqs) as (l & -> & Hl). exists (p :: l). split; [done|simpl; lia].
  - exists [p]. split; [by destruct fuel|simpl; lia].
Qed.

Lemma store_wf_set (st : cstore V) i c c' :
  store_wf st -> st_cmds st !! i = Some c -> c_parent c' = c_parent c ->
  match c_subapp c' with Some s => is_Some (st_cmds st !! s) | None => True end ->
  store_wf (set_cmd st i c').
Proof.
  intros Hwf Hc Hpar Hsub' j cj. rewrite set_cmd_lookup.
  assert (Hdom : forall k, is_Some (st_cmds st !! k) -> is_Some (st_cmds (set_cmd st i c') !! k))
    by (intros k Hk; rewrite set_cmd_lookup; case_decide; [done|exact Hk]).
  case_decide as Hji; intros Hj; [injection Hj as <-; subst j|];
    [destruct (Hwf i c Hc) as (Hi & Hp & Hs)|destruct (Hwf j cj Hj) as (Hi & Hp & Hs)]; simpl.
  - split; [done|]. rewrite Hpar. split.
    + destruct (c_parent c); [split; [apply Hp|apply Hdom, Hp]|done].
    + destruct (c_subapp c'); [apply Hdom, Hsub'|done].
  - split; [done|]. split.
    + destruct (c_parent cj); [split; [apply Hp|apply Hdom, Hp]|done].
    + destruct (c_subapp cj); [apply Hdom, Hs|done].
Qed.

Lemma store_wf_set_links (st : cstore V) i c c' :
  store_wf st -> st_cmds st !! i = Some c -> links c' = links c -> store_wf (set_cmd st i c').
Proof.
  intros Hwf Hc Hl. unfold links in Hl. injection Hl as _ _ Hpar Hsub _ _ _.
  apply (store_wf_set _ _ c); [done|done|done|]. rewrite Hsub.
  destruct (Hwf i c Hc) as (_ & _ & Hs). exact Hs.
Qed.

Lemma inherit_wf (st st' : cstore V) self :
  store_wf st -> inherit_parent_cmd st self = Some st' -> store_wf st'.
Proof.
  intros Hwf H. apply inherit_links in H as (c & c' & Hc & -> & Hl). by apply (store_wf_set_links _ _ c).
Qed.

Lemma new_cmd_wf (st st' : cstore V) cls parent i :
  store_wf st -> match parent with Some p => is_Some (st_cmds st !! p) | None => True end ->
  new_cmd cls_kwds cls_aliases0 cls_flags0 st cls parent = Some (i, st') -> store_wf st'.
Proof.
  intros Hwf Hp H. unfold new_cmd in H. apply bind_Some in H as (st1 & Hi & [= _ <-]).
  eapply inherit_wf; [|exact Hi]. intros j cj. simpl.
  assert (Hdom : forall k (x : cmd), is_Some (st_cmds st !! k) -> is_Some (<[st_next st := x]> (st_cmds st) !! k))
    by (intros k x Hk; apply lookup_insert_is_Some'; by right).
  destruct (decide (j = st_next st)) as [->|Hj].
  - rewrite lookup_insert_eq. intros [= <-]. simpl. split; [lia|]. split; [|done].
    destruct parent as [p|]; [|done]. destruct Hp as [c Hc]. destruct (Hwf p c Hc) as (Hlt & _).
    split; [done|]. apply Hdom. by exists c.
  - rewrite lookup_insert_ne by done. intros Hc. destruct (Hwf j cj Hc) as (Hlt & Hpar & Hs).
    split; [lia|]. split.
    + destruct (c_parent cj); [split; [apply Hpar|apply Hdom, Hpar]|done].
    + destruct (c_subapp cj); [apply Hdom, Hs|done].
Qed.

Lemma set_subapp_wf (st st' : cstore V) app child :
  store_wf st -> is_Some (st_cmds st !! child) -> set_subapp st app child = Some st' -> store_wf st'.
Proof.
  intros Hwf Hch H. unfold set_subapp in H. destruct (st_cmds st !! app) as [c|] eqn:Hc; [|done]. simpl in H.
  eapply inherit_wf; [|exact H]. by apply (store_wf_set _ _ c).
Qed.


Definition app_ok (st : cstore V) (ra : option (nat * nat)) : Prop :=
  match ra with Some (_, a) => is_Some (st_cmds st !! a) | None => True end.

Lemma chain_step_wf (st st' : cstore V) cs cs' ra cls ra' :
  store_wf st -> app_ok st ra -> gen_runs (step ra cls) (st, cs) (st', cs') ra' ->
  store_wf st' /\ app_ok st' ra'.
Proof.
  intros Hwf Hra. unfold chain_step. destruct (cls_is_app cls); simpl; intros H; gen_inv H.
  apply get_store_runs in Hrun as [-> ->].
  destruct ra as [[root app]|]; cbn iota beta in H; gen_inv H; apply of_option_runs in Hrun as [Hn ->];
    destruct a as [i st1]; gen_inv H.
  - apply of_option_runs in Hrun as [Hs ->]. apply put_store_runs in Hrun0. subst s0. simpl in *.
    apply initialize_cmd_runs in Hrun1 as (Hc & Hnx & _).
    pose proof (new_cmd_wf _ _ _ (Some app) _ Hwf Hra Hn) as Hwf1.
    apply new_cmd_spec in Hn as (-> & _ & _ & _ & _ & c1 & Hc1 & _).
    pose proof (set_subapp_wf _ _ _ _ Hwf1 ltac:(by exists c1) Hs) as Hwf2.
    apply set_subapp_spec in Hs as (_ & _ & _ & Hoth & _).
    unfold store_wf, app_ok. rewrite Hc, Hnx. split; [exact Hwf2|].
    destruct (decide (st_next st = app)) as [<-|Hne]; [|rewrite Hoth by done; by exists c1].
    by destruct Hra as [? Hra]; destruct (Hwf _ _ Hra); lia.
  - apply put_store_runs in Hrun. subst s. simpl in *.
    apply initialize_cmd_runs in Hrun0 as (Hc & Hnx & _).
    pose proof (new_cmd_wf _ _ _ None _ Hwf I Hn) as Hwf1.
    apply new_cmd_spec in Hn as (-> & _ & _ & _ & _ & c1 & Hc1 & _).
    unfold store_wf, app_ok. rewrite Hc, Hnx. split; [exact Hwf1|by exists c1].
Qed.

Lemma chain_loop_wf rest : forall (st st' : cstore V) cs cs' ra ra',
  store_wf st -> app_ok st ra -> gen_runs (loop rest ra) (st, cs) (st', cs') ra' -> store_wf st' /\ app_ok st' ra'.
Proof.
  induction rest as [|cls rest IH]; intros st st' cs cs' ra ra' Hwf Hra H; simpl in H.
  - by apply gen_runs_ret_inv in H as [[= -> ->] ->].
  - apply gen_runs_bind_inv in H as ([st1 cs1] & ra1 & H1 & H).
    apply chain_step_wf in H1 as [Hwf1 Hra1]; [|done|done]. exact (IH st1 st' cs1 cs' ra1 ra' Hwf1 Hra1 H).
Qed.
End CommandsFacts.

Section CommandsTheorems.
Context {V : Type} `{EqDecision V}.
Context (cls_kwds : string -> cmd_kwds) (cls_aliases0 : string -> list (string * string))
        (cls_flags0 : string -> list (list string * string)) (cls_is_app : string -> bool)
        (cls_mro : string -> list string).
Context (os : os_env V) (cipher_traits : list (string * string)) (is_pgp_encrypted : V -> bool)
        (raise_errors : bool) (config_paths : option (list string)) (persist_path : option string).

Notation chain := (chain_cmds cls_kwds cls_aliases0 cls_flags0 cls_is_app os cipher_traits is_pgp_encrypted
                     raise_errors config_paths persist_path).

(** C27: [chain_cmds(app_classes)] returns a new command, the first of as
    many new commands as classes: command [j] is of the [j]-th class and
    is named after it, its [parent] is command [j - 1] (the first is an
    orphan) and its [subapp] is command [j + 1] (the last has none). *)
Theorem chain_cmds_links (s s' : cstore V * cstate V) classes root :
  gen_runs (chain classes) s s' root ->
  root = st_next s.1 /\
  forall j cls, classes !! j = Some cls -> exists c,
    st_cmds s'.1 !! (root + j) = Some c /\ c_cls c = cls /\ c_name c = class2cmd_name cls /\
    c_parent c = (match j with 0 => None | S j' => Some (root + j') end) /\
    c_subapp c = (if bool_decide (S j = length classes) then None else Some (root + S j)).
Proof.
  destruct s as [st cs], s' as [st' cs']. intros H. apply chain_cmds_shape in H as (-> & Hsh & _). split; [done|].
  intros j cls Hj. destruct (chain_shape_lookup _ _ _ _ j Hsh (lookup_lt_Some _ _ _ Hj))
    as (cls' & c & Hcls & Hc & Hl). rewrite Hj in Hcls. injection Hcls as <-.
  apply links_inv in Hl as (? & ? & ? & ? & _). by exists c.
Qed.

(** C8: every command [chain_cmds] builds is initialized while it is not
    dispatching (its [subapp] is only set when the next class is
    instantiated), so every one of them reads the configuration files,
    where the comment of [Cmd.initialize] says only the final child does. *)
Theorem chain_cmds_every_cmd_reads_files (s s' : cstore V * cstate V) classes root :
  gen_runs (chain classes) s s' root ->
  forall j, j < length classes -> exists cfg, st_inited s'.1 !! (root + j) = Some (false, cfg).
Proof.
  destruct s as [st cs], s' as [st' cs']. intros H j Hj.
  apply chain_cmds_shape in H as (_ & [_ Hsh] & _).
  destruct (lookup_lt_is_Some_2 classes j Hj) as [cls Hc].
  destruct (Hsh j cls Hc) as (c & cfg & _ & _ & Hi). by exists cfg.
Qed.

(** C9: [chain_cmds] stores the last command as the singleton instance of
    the first class, so when the last class does not derive from the first
    one, [instance()] of the first class raises [MultipleInstanceError]. *)
Theorem chain_cmds_root_instance_raises (s s' : cstore V * cstate V) cls0 rest leaf root :
  gen_runs (chain (cls0 :: rest)) s s' root ->
  last (cls0 :: rest) = Some leaf -> head (cls_mro cls0) = Some cls0 -> cls0 ∉ cls_mro leaf ->
  singleton_instance cls_mro s'.1 cls0 = IMultipleInstanceError.
Proof.
  destruct s as [st cs], s' as [st' cs']. intros H Hlast Hmro Hnot.
  apply chain_cmds_shape in H as (_ & Hsh & cls0' & rest' & [= <- <-] & Hinst).
  rewrite last_lookup in Hlast. simpl in Hlast.
  destruct (chain_shape_lookup _ _ _ _ (length rest) Hsh ltac:(simpl; lia)) as (cls & c & Hcls & Hc & Hl).
  rewrite Hcls in Hlast. injection Hlast as ->. apply links_inv in Hl as (Hcl & _).
  unfold singleton_instance. destruct (cls_mro cls0) as [|m mro]; [done|]. injection Hmro as ->.
  simpl. rewrite Hinst, Hc, Hcl. by rewrite bool_decide_eq_false_2.
Qed.

(** C28: [run()] of the last command of a chain, when its class has
    sub-commands, raises the [CmdException] that lists them and gives the
    command line of the chain: the names of the classes, first to last. *)
Theorem chain_leaf_run_cmd_line (s s' : cstore V * cstate V) classes leaf root :
  gen_runs (chain classes) s s' root -> last classes = Some leaf ->
  from_option id [] (k_subcommands (cls_kwds leaf)) <> [] ->
  cmd_run s'.1 (root + pred (length classes)) =
    Some (RCmdException (map fst (from_option id [] (k_subcommands (cls_kwds leaf))))
            (String.concat " " (map class2cmd_name classes))).
Proof.
  destruct s as [st cs], s' as [st' cs']. intros H Hlast Hsub. simpl.
  apply chain_cmds_shape in H as (_ & Hsh & cls0 & rest & -> & _). rewrite last_lookup in Hlast.
  set (line := String.concat " " (map class2cmd_name (cls0 :: rest))).
  assert (Hn : pred (length (cls0 :: rest)) < length (cls0 :: rest)) by (simpl; lia).
  destruct (chain_shape_lookup _ _ _ _ _ Hsh Hn) as (cls & c & Hcls & Hc & Hl).
  rewrite Hcls in Hlast. injection Hlast as ->.
  apply links_inv in Hl as (_ & _ & _ & Hsa & Hsc & _).
  rewrite bool_decide_eq_true_2 in Hsa by (simpl; lia).
  unfold cmd_run, my_cmd_chain. rewrite Hc. simpl. rewrite Hsc, bool_decide_eq_false_2 by done. simpl.
  rewrite Hsa. simpl. change (root + length rest) with (root + pred (length (cls0 :: rest))).
  destruct Hsh as [Hnx Hsh']. rewrite (parents_from_chain _ _ _ _ _ _ (conj Hnx Hsh') Hn) by (rewrite Hnx; simpl; lia).
  cbn [mbind option_bind]. rewrite reverse_involutive.
  change (S (pred (length (cls0 :: rest)))) with (length (cls0 :: rest)).
  rewrite (chain_names _ _ _ _ (conj Hnx Hsh')). reflexivity.
Qed.

(** C29: [start()] of the first command of a chain goes down the [subapp]
    links and runs the last command (or, when its class names a default
    sub-command, initializes that one). *)
Theorem chain_root_start (s s' : cstore V * cstate V) classes leaf root fuel :
  gen_runs (chain classes) s s' root -> last classes = Some leaf -> length classes <= fuel ->
  cmd_start fuel s'.1 root =
    match truthy_subcmd (k_default_subcmd (cls_kwds leaf)) with
    | Some d => SInitSubcommand (root + pred (length classes)) d
    | None => SRun (root + pred (length classes))
    end.
Proof.
  destruct s as [st cs], s' as [st' cs']. intros H Hlast Hf.
  apply chain_cmds_shape in H as (_ & Hsh & cls0 & rest & -> & _).
  rewrite <-(Nat.add_0_r root) at 1. apply (start_chain _ _ _ _ _ (pred (length (cls0 :: rest)))); [done|done|done|simpl in *; lia].
Qed.

(** C16: [_inherit_parent_cmd] gives the last command of a chain what every
    command of the chain declares: each class of the chain and each of
    their [conf_classes] is among its [classes], and each of their
    [cmd_aliases] and [cmd_flags] is among its [aliases] and [flags], so
    the command that runs accepts the options of all its parents. *)
Theorem chain_leaf_inherits (s s' : cstore V * cstate V) classes root :
  gen_runs (chain classes) s s' root ->
  exists c, st_cmds s'.1 !! (root + pred (length classes)) = Some c /\
    forall cls, cls ∈ classes ->
      cls ∈ c_classes c /\ kw_conf_classes cls_kwds cls ⊆ c_classes c /\
      (forall k, k ∈ map fst (kw_cmd_aliases cls_kwds cls) -> k ∈ map fst (c_aliases c)) /\
      (forall k, k ∈ map fst (kw_cmd_flags cls_kwds cls) -> k ∈ map fst (c_flags c)).
Proof.
  destruct s, s'. intros H. apply chain_cmds_inherits in H as (cl & Hc & Hf). exists cl. split; [done|].
  intros cls Hcls. rewrite Forall_forall in Hf. exact (Hf cls Hcls).
Qed.
End CommandsTheorems.

(** ** A concrete chain: [co2dice config] *)

Definition demo_kwds (cls : string) : cmd_kwds :=
  if bool_decide (cls = "ConfigCmd")
  then mk_kwds None None None (Some (build_sub_cmds (fun _ => "") ["InitCmd"; "PathsCmd"; "ShowCmd"])) None
  else if bool_decide (cls = "MainCmd") then mk_kwds (Some ["Project"]) None None None None
  else mk_kwds None None None None None.
Definition demo_mro (cls : string) : list string := [cls; "Cmd"; "Application"; "SingletonConfigurable"].
Definition demo_cstore : cstore nat := mk_cstore ∅ 0 ∅ ∅.
Definition demo_chain (classes : list string) :=
  chain_cmds demo_kwds (fun _ => []) (fun _ => []) (fun _ => true) demo_os [] (fun _ => true) false
    (Some ["conf"]) None classes (demo_cstore, demo_state).

Ltac runs_by_compute := split; [vm_compute; reflexivity|reflexivity].

Lemma chain_cmds_links_witness :
  exists c, st_cmds (g_state (demo_chain ["MainCmd"; "ConfigCmd"])).1 !! 1 = Some c /\
            c_name c = "config" /\ c_parent c = Some 0 /\ c_subapp c = None.
Proof.
  destruct (chain_cmds_links demo_kwds (fun _ => []) (fun _ => []) (fun _ => true) demo_os [] (fun _ => true) false
              (Some ["conf"]) None (demo_cstore, demo_state) (g_state (demo_chain ["MainCmd"; "ConfigCmd"]))
              ["MainCmd"; "ConfigCmd"] 0 ltac:(runs_by_compute)) as [_ H].
  destruct (H 1 "ConfigCmd" eq_refl) as (c & Hc & _ & Hn & Hp & Hs). exists c.
  split; [exact Hc|]. split; [rewrite Hn; vm_compute; reflexivity|]. split; [exact Hp|exact Hs].
Defined.

Lemma chain_cmds_every_cmd_reads_files_witness :
  exists cfg, st_inited (g_state (demo_chain ["MainCmd"; "ConfigCmd"; "PathsCmd"])).1 !! 0 = Some (false, cfg).
Proof.
  exact (chain_cmds_every_cmd_reads_files demo_kwds (fun _ => []) (fun _ => []) (fun _ => true) demo_os []
           (fun _ => true) false (Some ["conf"]) None (demo_cstore, demo_state)
           (g_state (demo_chain ["MainCmd"; "ConfigCmd"; "PathsCmd"])) ["MainCmd"; "ConfigCmd"; "PathsCmd"] 0
           ltac:(runs_by_compute) 0 ltac:(simpl; lia)).
Defined.

Lemma chain_cmds_root_instance_raises_witness :
  singleton_instance demo_mro (g_state (demo_chain ["MainCmd"; "ConfigCmd"; "PathsCmd"])).1 "MainCmd"
    = IMultipleInstanceError.
Proof.
  apply (chain_cmds_root_instance_raises demo_kwds (fun _ => []) (fun _ => []) (fun _ => true) demo_mro demo_os []
           (fun _ => true) false (Some ["conf"]) None (demo_cstore, demo_state)
           (g_state (demo_chain ["MainCmd"; "ConfigCmd"; "PathsCmd"])) "MainCmd" ["ConfigCmd"; "PathsCmd"] "PathsCmd" 0).
  - runs_by_compute.
  - reflexivity.
  - reflexivity.
  - apply (bool_decide_unpack _). vm_compute. reflexivity.
Defined.

Lemma chain_leaf_run_cmd_line_witness :
  cmd_run (g_state (demo_chain ["MainCmd"; "ConfigCmd"])).1 1 =
    Some (RCmdException ["init"; "paths"; "show"] "main config").
Proof.
  etransitivity.
  - apply (chain_leaf_run_cmd_line demo_kwds (fun _ => []) (fun _ => []) (fun _ => true) demo_os []
             (fun _ => true) false (Some ["conf"]) None (demo_cstore, demo_state)
             (g_state (demo_chain ["MainCmd"; "ConfigCmd"])) ["MainCmd"; "ConfigCmd"] "ConfigCmd" 0);
      [runs_by_compute|reflexivity|vm_compute; discriminate].
  - vm_compute. reflexivity.
Defined.

Lemma chain_root_start_witness :
  cmd_start 3 (g_state (demo_chain ["MainCmd"; "ConfigCmd"; "PathsCmd"])).1 0 = SRun 2.
Proof.
  rewrite (chain_root_start demo_kwds (fun _ => []) (fun _ => []) (fun _ => true) demo_os []
             (fun _ => true) false (Some ["conf"]) None (demo_cstore, demo_state)
             (g_state (demo_chain ["MainCmd"; "ConfigCmd"; "PathsCmd"])) ["MainCmd"; "ConfigCmd"; "PathsCmd"]
             "PathsCmd" 0 3).
  - reflexivity.
  - runs_by_compute.
  - reflexivity.
  - simpl; lia.
Defined.

Lemma class2cmd_name_words_witness : class2cmd_name "AddReportCmd" = "add-report".
Proof.
  exact (class2cmd_name_words ["Add"; "Report"] ltac:(discriminate) ltac:(repeat constructor)).
Defined.

Lemma chain_leaf_inherits_witness :
  exists c, st_cmds (g_state (demo_chain ["MainCmd"; "ConfigCmd"; "PathsCmd"])).1 !! 2 = Some c /\
    "Project" ∈ c_classes c /\ ["d"; "debug"] ∈ map fst (c_flags c).
Proof.
  destruct (chain_leaf_inherits demo_kwds (fun _ => []) (fun _ => []) (fun _ => true) demo_os [] (fun _ => true) false
              (Some ["conf"]) None (demo_cstore, demo_state) (g_state (demo_chain ["MainCmd"; "ConfigCmd"; "PathsCmd"]))
              ["MainCmd"; "ConfigCmd"; "PathsCmd"] 0 ltac:(runs_by_compute)) as (c & Hc & H).
  destruct (H "MainCmd" ltac:(apply (bool_decide_unpack _); vm_compute; reflexivity)) as (_ & Hcc & _ & Hfl).
  exists c. split; [exact Hc|]. split; [apply Hcc|apply Hfl]; apply (bool_decide_unpack _); vm_compute; reflexivity.
Defined.
