(* ===== verification/CfgCmd.v ===== *)
(** * The [config] sub-commands ([src/co2mpas/sampling/cfgcmd.py])

    [ConfigCmd] has three sub-commands (built by [build_sub_cmds], file
    [Commands]): [InitCmd.run] writes the default configuration to each
    path given (or to the default path) with [write_default_config] (file
    [ConfigFiles]); [PathsCmd.run] formats the list [loaded_config_files]
    that [load_configurables_from_files] left; [ShowCmd.__init__] adds its
    [--onfiles] flag to the keywords of [Cmd.__init__]; [ShowCmd] overrides
    [initialize] to merge the files' configuration without applying it, and
    its [run] prints it, alone ([--onfiles]) or beside the traits'
    defaults.  Generators are the [gen] monad of file [Prelude]; a
    [Config]'s [items()] are those of its [gmap] (file [Config]). *)

From stdpp Require Import base list gmap strings sorting.
From Stdlib Require Import Ascii Lia.
From S2P Require Import Prelude Config Persist ConfigFiles Commands.

Local Open Scope gen_scope.

(** [config_subcmds] and [ConfigCmd.__init__]'s [subcommands]. *)
Definition config_subcmds : list string := ["InitCmd"; "PathsCmd"; "ShowCmd"].
Definition config_subcommands (short_help : string -> string) : list (string * (string * string)) :=
  build_sub_cmds short_help config_subcmds.

(** ** [InitCmd] *)

Section InitCmd.
Context {V : Type} `{EqDecision V} (os : os_env V).

(** [InitCmd.run( *args)]: [for fpath in args or [None]]. *)
Definition init_cmd_run (force : bool) (args : list string) : gen cexc Empty_set (cstate V) unit :=
  gen_for (match args with [] => [None] | _ => map Some args end)
          (fun fpath => write_default_config os fpath force).
End InitCmd.

(** ** [PathsCmd] *)

(** The errors of [PathsCmd.run]: its [CmdException] on arguments, and the
    [ValueError] of unpacking an element of [loaded_config_files] into
    [p, f]. *)
Inductive paths_exc := PCmdException (name : string) (nargs : nat) | PValueError (elem : string).

(** [for p, f in ...] over a [str]: its two characters, or [ValueError]. *)
Definition unpack2 (s : string) : option (string * string) :=
  match s with
  | String a (String b EmptyString) => Some (String a EmptyString, String b EmptyString)
  | _ => None
  end.

Fixpoint str_last (s : string) : option ascii :=
  match s with
  | EmptyString => None
  | String c EmptyString => Some c
  | String _ t => str_last t
  end.

(** [format_tuple(path, files)]; [files or ''] is [files] for a [str]. *)
Definition format_tuple (sep : ascii) (path files : string) : string :=
  let endpath := if bool_decide (str_last path <> Some sep) then String sep EmptyString else EmptyString in
  path +:+ endpath +:+ ": " +:+ files.

(** [PathsCmd.run( *args)]: the lines of the generator expression, as the
    caller pulls them. *)
Definition paths_cmd_run {S} (name : string) (sep : ascii) (args loaded : list string)
    : gen paths_exc string S unit :=
  if bool_decide (0 < length args) then gen_raise (PCmdException name (length args)) else
  gen_for loaded (fun pf => match unpack2 pf with
                            | Some (p, f) => gen_yield (format_tuple sep p f)
                            | None => gen_raise (PValueError pf)
                            end).

(** ** [ShowCmd] *)

(** The [onfiles] trait's help, and [ShowCmd.__init__]'s
    [kwds.setdefault('cmd_flags', ...)]: its [--onfiles] flag unless the
    caller gives flags; [first_line] is [pndlu.first_line]. *)
Definition onfiles_help : string := "Show only configuration parameters stored on disk files.".
Definition show_cmd_kwds (first_line : string -> string) (kwds : cmd_kwds) : cmd_kwds :=
  mk_kwds (k_conf_classes kwds) (k_cmd_aliases kwds)
    (Some (from_option id [(["onfiles"], first_line onfiles_help)] (k_cmd_flags kwds)))
    (k_subcommands kwds) (k_default_subcmd kwds).

Section ShowCmd.
Context {V : Type} `{EqDecision V} (os : os_env V).
(** [str(v)] of a configured value. *)
Context (show : V -> string).

(** [ShowCmd.initialize(argv)]: the files' configuration, the persisted
    one over it when it is truthy, the command line's over both; neither
    validated nor applied ([_loaded_config]). *)
Definition show_initialize (raise_errors : bool) (cls : string) (config_paths : option (list string))
    (persist_path : option string) (cli_config : config V) : gen cexc Empty_set (cstate V) (config V) :=
  sp <- load_configurables_from_files os raise_errors cls config_paths persist_path ;;
  let static1 := match sp.2 with
                 | Some pc => if cfg_truthy pc then cfg_merge sp.1 pc else sp.1
                 | None => sp.1
                 end in
  gen_ret (cfg_merge static1 cli_config).

Definition trait_line (name value : string) : string := "  +--" +:+ name +:+ " = " +:+ value.

(** [_yield_file_configs(config)]: each class, then its traits.  A
    configuration is a two-level [gmap], so the [except] branch for a
    section that is not a dict (lines 113-114) cannot occur in the model,
    and the classes come in the [gmap]'s order, not in insertion order. *)
Definition yield_file_configs (c : config V) : list string :=
  concat (map (fun '(k, sec) => k :: map (fun '(kk, vv) => trait_line kk (show vv)) (map_to_list sec))
              (map_to_list c)).

(** Python's [<] on [str]: by code points. *)
Definition trait_le (a b : string * string) : Prop := String.leb a.1 b.1 = true.
#[global] Instance trait_le_dec : RelDecision trait_le.
Proof. intros a b. unfold trait_le. apply _. Defined.

(** The loop of [_yield_configs_and_defaults] over one class's sorted
    traits, with its flag [cls_printed]. *)
Fixpoint class_lines (c : config V) (clsname : string) (cls_printed : bool) (traits : list (string * string))
    : list string :=
  match traits with
  | [] => []
  | (name, dflt) :: rest =>
      let val := match cfg_get c clsname name with Some v => show v | None => dflt end in
      (if cls_printed then [] else [clsname]) ++ [trait_line name val] ++ class_lines c clsname true rest
  end.

(** [_yield_configs_and_defaults(config)]: for each class with
    configurable traits (its name, its own traits and all its traits, each
    with the [repr] of its default), the traits [verbose] selects, sorted. *)
Definition yield_configs_and_defaults (classes : list (string * list (string * string) * list (string * string)))
    (verbose : bool) (c : config V) : list string :=
  concat (map (fun '(clsname, own, all) =>
                 class_lines c clsname false (merge_sort trait_le (if verbose then all else own)))
              classes).

(** [ShowCmd.run( *args)], a generator: the [CmdException] is raised when
    the caller pulls the first line. *)
Definition show_cmd_run {S} (name : string) (args : list string) (onfiles verbose : bool)
    (classes : list (string * list (string * string) * list (string * string))) (loaded : config V)
    : gen paths_exc string S unit :=
  if bool_decide (0 < length args) then gen_raise (PCmdException name (length args)) else
  gen_for (if onfiles then yield_file_configs loaded else yield_configs_and_defaults classes verbose loaded)
          gen_yield.
End ShowCmd.

(** ** Properties *)

#[global] Instance trait_le_total : Total trait_le.
Proof. intros a b. unfold trait_le. apply String.leb_total. Qed.

Lemma empty_yields {S} (l : list (Empty_set * S)) : l = [].
Proof. by destruct l as [|[[] _] _]. Qed.

Section InitCmdFacts.
Context {V : Type} `{EqDecision V} (os : os_env V).

Lemma init_cmd_run_args (force : bool) (pre : list string) (a : string) (post : list string) :
  init_cmd_run os force (pre ++ a :: post) =
    gen_for (map Some pre ++ Some a :: map Some post) (fun fpath => write_default_config os fpath force).
Proof.
  unfold init_cmd_run. change (Some a :: map Some post) with (map Some (a :: post)).
  rewrite <-map_app. by destruct pre.
Qed.

Lemma write_default_config_raises config_file (s : cstate V) :
  is_file os s (config_file_target os config_file) = true ->
  write_default_config os config_file false s = mk_gres [] s (inl (ECmdException (config_file_target os config_file))).
Proof. intros H. unfold write_default_config, gen_bind, gen_get. simpl. by rewrite H. Qed.

Lemma write_default_config_writes config_file (s : cstate V) :
  let cf := config_file_target os config_file in
  is_file os s cf = false ->
  gen_runs (write_default_config os config_file false) s
    (mk_cstate (cs_world s) (cs_loaded s) (cs_log s ++ [LInfoWriting false cf]) (cs_files s ++ [cf])) tt.
Proof. intros cf H. unfold gen_runs, write_default_config, gen_bind, gen_get, gen_put, log. fold cf. simpl. by rewrite H. Qed.

(** C10: without [--force], [config init] writes the paths given in
    order until the first one whose target file exists, on disk or
    because the same command wrote it a moment before, and there raises
    the [CmdException] "already exists": the docstring's "It OVERWRITES
    any pre-existing configuration file(s)!" holds only with [--force]. *)
Theorem init_cmd_run_stops_at_existing (pre : list string) (a : string) (post : list string) (s : cstate V) :
  let tgt p := config_file_target os (Some p) in
  Forall (fun p => os_isfile os (tgt p) = false /\ tgt p ∉ cs_files s) pre -> NoDup (map tgt pre) ->
  os_isfile os (tgt a) = true \/ tgt a ∈ cs_files s \/ tgt a ∈ map tgt pre ->
  g_out (init_cmd_run os false (pre ++ a :: post) s) = inl (ECmdException (tgt a)) /\
  g_state (init_cmd_run os false (pre ++ a :: post) s) =
    mk_cstate (cs_world s) (cs_loaded s) (cs_log s ++ map (fun p => LInfoWriting false (tgt p)) pre)
      (cs_files s ++ map tgt pre).
Proof.
  intros tgt. rewrite init_cmd_run_args.
  induction pre as [|p pre IH] in s |- *; intros Hpre Hnd Ha; cbn [app map gen_for].
  - assert (Hf : is_file os s (tgt a) = true).
    { unfold is_file. destruct Ha as [->|[Hin|Hin]]; [done| |by apply elem_of_nil in Hin].
      apply orb_true_intro. right. by apply bool_decide_eq_true_2. }
    pose proof (write_default_config_raises (Some a) s Hf) as Hw.
    destruct (gen_bind_out_inl (write_default_config os (Some a) false) (fun _ => gen_for (map Some post)
                (fun fpath => write_default_config os fpath false)) s (ECmdException (tgt a))) as [-> ->];
      [by rewrite Hw|].
    rewrite Hw, !List.app_nil_r. by destruct s.
  - apply Forall_cons in Hpre as [[Hp Hps] Hpre]. cbn [map] in Hnd. rewrite NoDup_cons in Hnd. destruct Hnd as [Hnin Hnd].
    assert (Hf : is_file os s (tgt p) = false) by (unfold is_file; rewrite Hp, bool_decide_eq_false_2; done).
    destruct (write_default_config_writes (Some p) s Hf) as [Ho Hs].
    destruct (gen_bind_out_inr _ (fun _ => gen_for (map Some pre ++ Some a :: map Some post)
                (fun fpath => write_default_config os fpath false)) s tt Ho) as [-> ->].
    rewrite Hs. destruct (IH (mk_cstate (cs_world s) (cs_loaded s) (cs_log s ++ [LInfoWriting false (tgt p)])
                                (cs_files s ++ [tgt p]))) as [Hout Hst]; [..|split; [exact Hout|]].
    + apply Forall_forall. intros q Hq. rewrite Forall_forall in Hpre. destruct (Hpre q Hq) as [Hq1 Hq2].
      split; [done|]. simpl. rewrite elem_of_app, list_elem_of_singleton. intros [H|H]; [done|].
      apply Hnin. rewrite <-H. apply list_elem_of_In, in_map, list_elem_of_In, Hq.
    + done.
    + simpl. rewrite elem_of_app, list_elem_of_singleton. cbn [map] in Ha. rewrite elem_of_cons in Ha. tauto.
    + etransitivity; [exact Hst|]. simpl. by rewrite <-!app_assoc.
Qed.
End InitCmdFacts.

Lemma unpack2_two q : String.length q = 2 -> unpack2 q = Some (String.substring 0 1 q, String.substring 1 1 q).
Proof. by destruct q as [|a [|b [|c t]]]. Qed.

Lemma unpack2_not_two q : String.length q <> 2 -> unpack2 q = None.
Proof. destruct q as [|a [|b [|c t]]]; simpl; done || lia. Qed.

(** C7: [config paths] unpacks each path of [loaded_config_files] (a list
    of [str]) into [p, f]: it raises [ValueError] at the first path that is
    not exactly two characters long, after printing, for each earlier one,
    its first character and its second; no loaded file's path is ever
    printed. *)
Theorem paths_cmd_run_unpacks_paths {S} name sep pre p post (s : S) :
  Forall (fun q => String.length q = 2) pre -> String.length p <> 2 ->
  paths_cmd_run name sep [] (pre ++ p :: post) s =
    mk_gres (map (fun q => (format_tuple sep (String.substring 0 1 q) (String.substring 1 1 q), s)) pre) s
            (inl (PValueError p)).
Proof.
  intros Hpre Hp. unfold paths_cmd_run. rewrite bool_decide_eq_false_2 by (simpl; lia).
  induction pre as [|q pre IH]; cbn [app gen_for map]; unfold gen_bind at 1.
  - by rewrite unpack2_not_two.
  - apply Forall_cons in Hpre as [Hq Hpre]. rewrite unpack2_two by done. simpl. by rewrite IH.
Qed.

Section ShowCmdFacts.
Context {V : Type} `{EqDecision V} (show : V -> string).

Lemma class_lines_printed c clsname ts :
  class_lines show c clsname true ts =
    map (fun '(name, dflt) => trait_line name (match cfg_get c clsname name with Some v => show v | None => dflt end)) ts.
Proof. induction ts as [|[name dflt] ts IH]; [done|]. simpl. by rewrite IH. Qed.

(** C31: [config show] (without [--onfiles]) prints, for each class that
    has configurable traits selected ([--verbose] selects the inherited
    ones too), its name and then one line per trait, sorted by name, with
    the value the files or the command line set or else the default's
    [repr]; a class with no such trait prints nothing: the loop with its
    flag [cls_printed] is this listing. *)
Theorem show_defaults_lines classes verbose c :
  yield_configs_and_defaults show classes verbose c =
    concat (map (fun '(clsname, own, all) =>
      let ts := merge_sort trait_le (if verbose then all else own) in
      if bool_decide (ts = []) then []
      else clsname :: map (fun '(name, dflt) =>
                             trait_line name (match cfg_get c clsname name with Some v => show v | None => dflt end)) ts)
      classes) /\
  forall clsname own all, (clsname, own, all) ∈ classes ->
    Sorted trait_le (merge_sort trait_le (if verbose then all else own)) /\
    merge_sort trait_le (if verbose then all else own) ≡ₚ (if verbose then all else own).
Proof.
  split.
  - unfold yield_configs_and_defaults. f_equal. apply map_ext. intros [[clsname own] all].
    destruct (merge_sort trait_le _) as [|[name dflt] ts]; [done|].
    rewrite bool_decide_eq_false_2 by done. simpl. by rewrite class_lines_printed.
  - intros. split; [apply Sorted_merge_sort, _|apply merge_sort_Permutation].
Qed.

(** The block [f x] of an element [x] of [l] is a contiguous part of
    [concat (map f l)]. *)
Lemma concat_map_block {A B} (f : A -> list B) (l : list A) x :
  x ∈ l -> exists l1 l2, concat (map f l) = l1 ++ f x ++ l2.
Proof.
  intros Hx. apply list_elem_of_split in Hx as (k1 & k2 & ->).
  exists (concat (map f k1)), (concat (map f k2)). by rewrite map_app, concat_app.
Qed.

(** C32: [config show --onfiles] prints each class of the loaded
    configuration once, immediately followed by one line
    [+--trait = value] per trait it sets in that class, and nothing
    else: every class's block is a contiguous part of the listing, and
    the listing is as long as the blocks together. *)
Theorem show_file_configs_lines (c : config V) :
  (forall k sec, c !! k = Some sec -> exists l1 l2,
     yield_file_configs show c =
       l1 ++ (k :: map (fun kv => trait_line kv.1 (show kv.2)) (map_to_list sec)) ++ l2) /\
  length (yield_file_configs show c) = sum_list_with (fun ks => S (size ks.2)) (map_to_list c).
Proof.
  unfold yield_file_configs. split.
  - intros k sec Hk. apply elem_of_map_to_list in Hk.
    destruct (concat_map_block (fun '(k, sec) => k :: map (fun '(kk, vv) => trait_line kk (show vv))
                (map_to_list sec)) _ _ Hk) as (l1 & l2 & ->).
    exists l1, l2. do 3 f_equal. apply map_ext. by intros [].
  - induction (map_to_list c) as [|[k sec] l IH]; simpl; [done|].
    by rewrite length_app, IH, length_map, length_map_to_list.
Qed.
End ShowCmdFacts.

(** ** Concrete runs *)

(** [ConfigCmd]'s sub-commands are named [init], [paths] and [show]. *)
Example config_subcommand_names : map fst (config_subcommands (fun _ => "")) = ["init"; "paths"; "show"].
Proof. vm_compute. reflexivity. Qed.

(** [config init new new]: the second [new.py] is the file the first
    one wrote, so the command raises there. *)
Lemma init_cmd_run_stops_at_existing_witness :
  let r := init_cmd_run demo_os false ["new"; "new"; "other"] demo_state in
  g_out r = inl (ECmdException "new.py") /\
  g_state r = mk_cstate world0 [] [LInfoWriting false "new.py"] ["new.py"].
Proof.
  exact (init_cmd_run_stops_at_existing demo_os ["new"] "new" ["other"] demo_state
           (List.Forall_cons _ "new" [] (conj eq_refl (not_elem_of_nil _)) (List.Forall_nil _))
           (NoDup_singleton _)
           ltac:(right; right; apply (bool_decide_unpack _); vm_compute; reflexivity)).
Defined.

Lemma paths_cmd_run_unpacks_paths_witness :
  let loaded := cs_loaded (g_state (initialize demo_os [] (fun _ => true) false false "PathsCmd"
                                      (Some ["conf"]) None ∅ ∅ demo_state)) in
  paths_cmd_run (S:=unit) "paths" "/"%char [] loaded tt =
    mk_gres [] tt (inl (PValueError "~/.co2dice/co2dice_runtime.json")).
Proof.
  intros loaded.
  assert (Hl : loaded = [] ++ "~/.co2dice/co2dice_runtime.json" :: ["conf.py"; "conf.json"])
    by (vm_compute; reflexivity).
  rewrite Hl. apply (paths_cmd_run_unpacks_paths "paths" "/"%char [] _ _ tt); [constructor|simpl; lia].
Defined.

(** [config show] accepts its own [--onfiles] and the [--debug] of the
    commands above it (the flags come from [__init__]; the chain runs
    [Cmd.initialize], not [ShowCmd]'s own, which does not touch them). *)
Definition show_chain :=
  chain_cmds (fun cls => if bool_decide (cls = "ShowCmd") then show_cmd_kwds (fun h => h) (mk_kwds None None None None None)
                         else mk_kwds None None None None None)
    (fun _ => []) (fun _ => []) (fun _ => true) demo_os [] (fun _ => true) false (Some ["conf"]) None
    ["MainCmd"; "ConfigCmd"; "ShowCmd"] (mk_cstore ∅ 0 ∅ ∅, demo_state).

Example show_cmd_flags :
  match st_cmds (g_state show_chain).1 !! 2 with
  | Some c => bool_decide (["onfiles"] ∈ map fst (c_flags c) /\ ["d"; "debug"] ∈ map fst (c_flags c)) = true
  | None => False
  end.
Proof. vm_compute. reflexivity. Qed.
