(* ===== verification/Report.v ===== *)
(** * Dice reports ([src/co2mpas/sampling/report.py])

    [Report] mines the vehicle-family id (vfid) and the dice report from
    co2mpas input and output spreadsheets; [yield_report_tuples_from_iofiles]
    is a generator that yields one [(fpath, iokind, report)] tuple per file
    (inputs, then outputs, then other files) and checks that all extracted
    vfids agree, raising [CmdException] on a mismatch unless [force], when
    it only logs a warning.  [ReportCmd.run] drives it and prints YAML.

    The spreadsheet reader ([xleash.lasso]), [pndlu.convpath], the project
    database and [yaml.dump] are libraries the code only calls: they are
    parameters of the sections below.  The generator is modelled in the
    generator monad of the prelude, its nonlocal [expected_vfid] and the
    warnings it logs as the generator's state. *)

From stdpp Require Import base list strings.
From Stdlib Require Import ZArith Lia Ascii.
From S2P Require Import Prelude ConfigFiles Commands.

Local Open Scope gen_scope.

(** ** Data *)

(** A pandas data frame: row labels, column labels and rows of cells. *)
Record frame := mk_frame {
  df_index : list string;
  df_columns : list string;
  df_rows : list (list pyval)
}.

(** What [xleash.lasso] returns: a data frame or some other value. *)
Inductive xl_value := XFrame (df : frame) | XOther (v : pyval).

(** The messages the code formats. *)
Inductive msg :=
| MsgMismatch (fpath : string) (file_vfid expected : pyval)
| MsgProjectTakesNoArgs (name : string) (nargs : nat)
| MsgNeedsFiles (name : string) (nargs : nat)
| MsgNoFiles.

(** The exceptions raised: [CmdException], the [assert] on the lasso
    result, a missing [df.at] label, a failed tuple unpacking, and any
    failure of the spreadsheet reader. *)
Inductive exc :=
| CmdException (m : msg)
| AssertionError
| KeyError
| ValueError
| XleashError.

(** The report of a tuple: the input [OrderedDict], an output data frame, a
    series, or [None] for other files. *)
Inductive report :=
| RDict (items : list (string * pyval))
| RFrame (df : frame)
| RSeries (items : list (string * pyval))
| RNone.

(** [(fpath, iokind, report)]. *)
Record rtuple := mk_rtuple { rt_fpath : string; rt_iokind : string; rt_report : report }.

(** [PFiles(inp, out, other)]. *)
Record pfiles := mk_pfiles { pf_inp : list string; pf_out : list string; pf_other : list string }.

(** The traits of a [Report] spec (lines 30-48) and the inherited [force]. *)
Record report_spec := mk_report_spec {
  input_head_xlref : string;
  input_vfid_coords : string * string;
  dice_report_xlref : string;
  output_vfid_coords : string * string;
  force : bool
}.

(** A double quote, for the xlref defaults that contain JSON. *)
Definition dq : string := String "034"%char EmptyString.
Definition df_kwds : string :=
  "{" +:+ dq +:+ "func" +:+ dq +:+ ": " +:+ dq +:+ "df" +:+ dq +:+ ", " +:+ dq +:+ "kwds" +:+ dq +:+
  ": {" +:+ dq +:+ "index_col" +:+ dq +:+ ": 0}}".

Definition report_spec_defaults : report_spec :=
  mk_report_spec ("#Inputs!B1:D5:" +:+ df_kwds) ("flag.vehicle_family_id", "Value")
                 ("#dice_report!:" +:+ df_kwds) ("vehicle_family_id", "vehicle-H") false.

(** [df.at[(row, col)]]: the cell at the first row and column so labelled. *)
Definition frame_at (df : frame) (rc : string * string) : option pyval :=
  match list_find (fun r => r = rc.1) (df_index df), list_find (fun c => c = rc.2) (df_columns df) with
  | Some (i, _), Some (j, _) => df_rows df !! i ≫= fun row => row !! j
  | _, _ => None
  end.

(** [df.where(pd.notnull(df), None)]: missing cells become [None]. *)
Definition frame_notnull (df : frame) : frame :=
  mk_frame (df_index df) (df_columns df)
    (map (map (fun v => match v with PyNaN => PyNone | _ => v end)) (df_rows df)).

(** [osp.basename]: the part after the last ["/"]. *)
Fixpoint basename_from (cur s : string) : string :=
  match s with
  | EmptyString => cur
  | String c s' => if bool_decide (c = "/"%char) then basename_from "" s'
                   else basename_from (cur +:+ String c EmptyString) s'
  end.
Definition basename (p : string) : string := basename_from "" p.

(** The state a run of the generator carries: its nonlocal
    [expected_vfid] and the warnings logged so far. *)
Record ystate := mk_ystate { y_expected : pyval; y_log : list msg }.

(** ** The [Report] spec *)

Section ReportSpec.
(** [xleash.lasso(xlref, url_file=fpath)]: [None] when the reader fails. *)
Context (lasso : string -> string -> option xl_value).
(** [pndlu.convpath]. *)
Context (convpath : string -> string).
Context (sp : report_spec).

(** [extract_vfid_from_input(fpath)] (lines 50-57). *)
Definition extract_vfid_from_input (fpath : string) : exc + pyval :=
  match lasso (input_head_xlref sp) fpath with
  | None => inl XleashError
  | Some (XOther _) => inl AssertionError
  | Some (XFrame df) =>
      match frame_at df (input_vfid_coords sp) with Some v => inr v | None => inl KeyError end
  end.

(** [extract_dice_report_from_output(fpath)] (lines 59-69). *)
Definition extract_dice_report_from_output (fpath : string) : exc + (pyval * frame) :=
  match lasso (dice_report_xlref sp) fpath with
  | None => inl XleashError
  | Some (XOther _) => inl AssertionError
  | Some (XFrame df0) =>
      let df := frame_notnull df0 in
      match frame_at df (output_vfid_coords sp) with Some v => inr (v, df) | None => inl KeyError end
  end.

(** The nested [check_vfid_missmatch(fpath, file_vfid)] (lines 95-106). *)
Definition check_vfid_missmatch {Y} (fpath : string) (file_vfid : pyval) : gen exc Y ystate unit :=
  st <- gen_get ;;
  if py_is_none (y_expected st) then gen_put (mk_ystate file_vfid (y_log st))
  else if negb (py_eq (y_expected st) file_vfid) then
    let m := MsgMismatch fpath file_vfid (y_expected st) in
    if force sp then gen_put (mk_ystate (y_expected st) (y_log st ++ [m]))
    else gen_raise (CmdException m)
  else gen_ret tt.

Definition input_report (file_vfid : pyval) : report :=
  RDict [("report_type", PyStr "input_report"); ("vehicle_family_id", file_vfid)].

(** The three loops of the generator (lines 108-127). *)
Definition yield_inputs (inp : list string) : gen exc rtuple ystate unit :=
  gen_for inp (fun f =>
    let fpath := convpath f in
    file_vfid <- gen_lift (extract_vfid_from_input fpath) ;;
    check_vfid_missmatch fpath file_vfid ;;;
    gen_yield (mk_rtuple fpath "inp" (input_report file_vfid))).

Definition yield_outputs (out : list string) : gen exc rtuple ystate unit :=
  gen_for out (fun f =>
    let fpath := convpath f in
    r <- gen_lift (extract_dice_report_from_output fpath) ;;
    check_vfid_missmatch fpath r.1 ;;;
    gen_yield (mk_rtuple fpath "out" (RFrame r.2))).

Definition yield_others (other : list string) : gen exc rtuple ystate unit :=
  gen_for other (fun f => gen_yield (mk_rtuple (convpath f) "other" RNone)).

(** [yield_report_tuples_from_iofiles(iofiles, expected_vfid=None)] (lines
    71-127): line 93 overwrites the parameter with [None]. *)
Definition yield_report_tuples_from_iofiles (iofiles : pfiles) (expected_vfid : pyval)
    : gen exc rtuple ystate unit :=
  st <- gen_get ;;
  gen_put (mk_ystate PyNone (y_log st)) ;;;
  yield_inputs (pf_inp iofiles) ;;;
  yield_outputs (pf_out iofiles) ;;;
  yield_others (pf_other iofiles).
End ReportSpec.

(** ** [report_tuple_2_dict] (lines 137-152) *)

(** The YAML-able report: an ordered dict of values, of rows, or [None]. *)
Inductive yreport :=
| YItems (items : list (string * pyval))
| YRows (rows : list (string * list pyval))
| YNone.

(** [OrderedDict([('file', ...), ('iokind', ...)])] with ['report'] added. *)
Record rdict := mk_rdict { rd_file : string; rd_iokind : string; rd_report : yreport }.

Definition report_tuple_2_dict (t : rtuple) : rdict :=
  mk_rdict (basename (rt_fpath t)) (rt_iokind t)
    (match rt_report t with
     | RFrame df => YRows (od_of_list (zip (df_index df) (df_rows df)))
     | RSeries items => YItems (od_of_list items)
     | RDict items => YItems items
     | RNone => YNone
     end).

(** [get_dice_report(iofiles, expected_vfid)] (lines 129-134): the
    [OrderedDict] of the converted tuples keyed by their path, or the
    exception the generator raised; the warnings logged persist either way. *)
Definition get_dice_report (lasso : string -> string -> option xl_value) (convpath : string -> string)
    (sp : report_spec) (iofiles : pfiles) (expected_vfid : pyval) (log : list msg)
    : (exc + list (string * rdict)) * list msg :=
  let r := yield_report_tuples_from_iofiles lasso convpath sp iofiles expected_vfid
             (mk_ystate PyNone log) in
  (match g_out r with
   | inl e => inl e
   | inr _ => inr (od_of_list (map (fun t => (rt_fpath t.1, report_tuple_2_dict t.1)) (g_yields r)))
   end, y_log (g_state r)).

(** ** [ReportCmd] (lines 160-277) *)

(** The traits of the command: its name and the [--project] and
    [--vfids] flags. *)
Record report_cmd := mk_report_cmd { rc_name : string; rc_project : bool; rc_vfids_only : bool }.

(** The command's mutable state: the cached [__report] and the log. *)
Record cmd_state := mk_cmd_state { cs_report : option report_spec; cs_log : list msg }.


(** The inner generator sees and extends the command's log. *)
Definition ystate_of (s : cmd_state) : ystate := mk_ystate PyNone (cs_log s).
Definition cmd_state_back (s : cmd_state) (t : ystate) : cmd_state :=
  mk_cmd_state (cs_report s) (y_log t).

Definition set_force (sp : report_spec) (b : bool) : report_spec :=
  mk_report_spec (input_head_xlref sp) (input_vfid_coords sp) (dice_report_xlref sp)
    (output_vfid_coords sp) b.

(** Line 270: [for vfid, fpath, _, _ in ...] unpacks each yielded 3-tuple
    into four targets, which raises [ValueError]. *)
Definition unpack_vfid_fpath (t : rtuple) : exc + (pyval * string) := inl ValueError.

(** The help texts of the [project] and [vfids_only] traits (lines
    189-193, 195-197): the second opens with four quotes, so its text
    starts with a stray double quote. *)
Definition project_help : string :=
  String "010" ("        Whether to extract report from files present already in the *current-project*." +:+
                 String "010" "        ").
Definition vfids_only_help : string := String "034" "Prints `- fpath: vehicle_family_id` YAML lines.".

(** [ReportCmd.__init__(self, **kwds)]: its [conf_classes] and [cmd_flags], then
    [dkwds.update(kwds)]; [first_line] is [pndlu.first_line]. *)
Definition report_cmd_kwds (first_line : string -> string) (kwds : cmd_kwds) : cmd_kwds :=
  mk_kwds (Some (from_option id ["ProjectsDB"; "Project"; "Report"] (k_conf_classes kwds)))
    (k_cmd_aliases kwds)
    (Some (from_option id [(["project"], first_line project_help); (["vfids"], first_line vfids_only_help)]
             (k_cmd_flags kwds)))
    (k_subcommands kwds) (k_default_subcmd kwds).

Section ReportCmd.
Context (lasso : string -> string -> option xl_value) (convpath : string -> string).
(** [Report(config=self.config)]: the spec the configuration gives. *)
Context (config_report : report_spec).
(** [project.list_pfiles('out', _as_index_paths=True)] of the current
    project; [None] is a falsy result. *)
Context (project_pfiles : option pfiles).
(** [PFiles.parse_io_args( *args)], [yaml.dump({fpath: drep}, indent=2)] and
    [str] on values. *)
Context (parse_io_args : list string -> pfiles) (yaml_dump : string -> rdict -> string)
        (py_str : pyval -> string).

(** The [report] property (lines 201-205): created once, then cached. *)
Definition report_prop {Y} : gen exc Y cmd_state report_spec :=
  st <- gen_get ;;
  match cs_report st with
  | Some r => gen_ret r
  | None => gen_put (mk_cmd_state (Some config_report) (cs_log st)) ;;; gen_ret config_report
  end.

(** [_build_io_files_from_project] (lines 228-234). *)
Definition build_io_files_from_project : exc + pfiles :=
  match project_pfiles with None => inl (CmdException MsgNoFiles) | Some p => inr p end.

(** [run( *args)] (lines 242-277); the command's own [log.info] lines
    (251, 255-256) are not modelled. *)
Definition report_cmd_run (cmd : report_cmd) (args : list string) : gen exc string cmd_state unit :=
  let nargs := length args in
  pfiles <- (if rc_project cmd then
               if bool_decide (0 < nargs)
               then gen_raise (CmdException (MsgProjectTakesNoArgs (rc_name cmd) nargs))
               else gen_lift build_io_files_from_project
             else if bool_decide (nargs < 1)
               then gen_raise (CmdException (MsgNeedsFiles (rc_name cmd) nargs))
               else gen_ret (parse_io_args (iset args))) ;;
  report <- report_prop ;;
  if rc_vfids_only cmd then
    let report' := set_force report true in
    st <- gen_get ;;
    gen_put (mk_cmd_state (Some report') (cs_log st)) ;;;
    gen_for_gen ystate_of cmd_state_back
      (yield_report_tuples_from_iofiles lasso convpath report' pfiles PyNone)
      (fun t => vp <- gen_lift (unpack_vfid_fpath t) ;;
                gen_yield ("- " +:+ vp.2 +:+ ": " +:+ py_str vp.1))
  else
    gen_for_gen ystate_of cmd_state_back
      (yield_report_tuples_from_iofiles lasso convpath report pfiles PyNone)
      (fun t => gen_yield (yaml_dump (rt_fpath t) (report_tuple_2_dict t))).
End ReportCmd.

(** ** The vfid check as a scan *)

(** The reference reading of [check_vfid_missmatch] over the files in
    order: the warnings (or the first one, raised) and the final
    [expected_vfid].  [None] stands for "not yet seen", so the first
    non-[None] vfid becomes the expected one. *)
Fixpoint vscan (e : pyval) (items : list (string * pyval)) : list msg * pyval :=
  match items with
  | [] => ([], e)
  | (fpath, v) :: rest =>
      if py_is_none e then vscan v rest
      else if py_eq e v then vscan e rest
      else let '(ms, e') := vscan e rest in (MsgMismatch fpath v e :: ms, e')
  end.

(** The shape shared by the input and the output loops. *)
Definition scan_loop {X} (sp : report_spec) (convpath : string -> string) (kind : string)
    (ext : string -> exc + X) (proj : X -> pyval) (rep : X -> report) (l : list string)
    : gen exc rtuple ystate unit :=
  gen_for l (fun f =>
    let fpath := convpath f in
    x <- gen_lift (ext fpath) ;;
    check_vfid_missmatch sp fpath (proj x) ;;;
    gen_yield (mk_rtuple fpath kind (rep x))).

Lemma yield_inputs_scan lasso convpath sp (l : list string) :
  yield_inputs lasso convpath sp l =
  scan_loop sp convpath "inp" (extract_vfid_from_input lasso sp) (fun v => v) input_report l.
Proof. reflexivity. Qed.

Lemma yield_outputs_scan lasso convpath sp (l : list string) :
  yield_outputs lasso convpath sp l =
  scan_loop sp convpath "out" (extract_dice_report_from_output lasso sp) fst (fun r => RFrame r.2) l.
Proof. reflexivity. Qed.

Lemma vscan_cons_mismatch (fpath : string) (v e : pyval) (rest : list (string * pyval)) :
  py_is_none e = false -> py_eq e v = false ->
  vscan e ((fpath, v) :: rest) = (MsgMismatch fpath v e :: (vscan e rest).1, (vscan e rest).2).
Proof. intros Hn Hq. simpl. rewrite Hn, Hq. by destruct (vscan e rest). Qed.

Lemma vscan_app (e : pyval) (l1 l2 : list (string * pyval)) :
  vscan e (l1 ++ l2) =
  ((vscan e l1).1 ++ (vscan (vscan e l1).2 l2).1, (vscan (vscan e l1).2 l2).2).
Proof.
  revert e. induction l1 as [|[f v] l1 IH]; intros e; simpl; [by destruct (vscan e l2)|].
  destruct (py_is_none e); [apply IH|]. destruct (py_eq e v); [apply IH|].
  rewrite IH. by destruct (vscan e l1).
Qed.

(** One check: what [check_vfid_missmatch] does to the state. *)
Lemma check_vfid_missmatch_spec {Y} sp (fpath : string) (v e : pyval) (log : list msg) :
  @check_vfid_missmatch sp Y fpath v (mk_ystate e log) =
    if force sp || bool_decide ((vscan e [(fpath, v)]).1 = [])
    then mk_gres [] (mk_ystate (vscan e [(fpath, v)]).2 (log ++ (vscan e [(fpath, v)]).1)) (inr tt)
    else mk_gres [] (mk_ystate e log) (inl (CmdException (MsgMismatch fpath v e))).
Proof.
  unfold check_vfid_missmatch, gen_bind, gen_get, gen_put, gen_ret, gen_raise. simpl.
  destruct (py_is_none e) eqn:Hn; simpl; [by rewrite orb_true_r, app_nil_r|].
  destruct (py_eq e v); simpl; [by rewrite orb_true_r, app_nil_r|].
  by destruct (force sp).
Qed.

(** What a loop of checks promises: with [force] or without a mismatch it
    returns, having yielded one tuple per file and logged the warnings;
    otherwise it raises the first mismatch, the log untouched. *)
Definition scan_ok {Y} (r : gres exc Y ystate unit) (e' : pyval) (log : list msg) (ys : list Y) :=
  g_out r = inr tt /\ g_state r = mk_ystate e' log /\ map fst (g_yields r) = ys.

Definition scan_result {Y} (force : bool) (r : gres exc Y ystate unit) (log : list msg)
    (res : list msg * pyval) (ys : list Y) : Prop :=
  if force || bool_decide (res.1 = []) then scan_ok r res.2 (log ++ res.1) ys
  else exists m rest, res.1 = m :: rest /\ g_out r = inl (CmdException m) /\ y_log (g_state r) = log.

Lemma scan_loop_cons {X} sp convpath kind (ext : string -> exc + X) proj rep f l s :
  scan_loop sp convpath kind ext proj rep (f :: l) s =
  gen_bind (x <- gen_lift (ext (convpath f)) ;;
            check_vfid_missmatch sp (convpath f) (proj x) ;;;
            gen_yield (mk_rtuple (convpath f) kind (rep x)))
           (fun _ => scan_loop sp convpath kind ext proj rep l) s.
Proof. reflexivity. Qed.

Lemma scan_loop_spec {X} sp convpath kind (ext : string -> exc + X) proj rep
    (l : list string) (xs : list X) :
  Forall2 (fun f x => ext (convpath f) = inr x) l xs ->
  forall e log,
  scan_result (force sp) (scan_loop sp convpath kind ext proj rep l (mk_ystate e log)) log
    (vscan e (zip (map convpath l) (map proj xs)))
    (zip_with (fun f x => mk_rtuple (convpath f) kind (rep x)) l xs).
Proof.
  induction 1 as [|f x l xs Hfx Hl IH]; intros e log.
  { unfold scan_result, scan_ok. simpl. rewrite orb_true_r, app_nil_r. by repeat split. }
  rewrite scan_loop_cons. unfold gen_lift. rewrite Hfx, gen_bind_assoc, gen_bind_ret.
  replace (zip (map convpath (f :: l)) (map proj (x :: xs)))
    with ([(convpath f, proj x)] ++ zip (map convpath l) (map proj xs)) by reflexivity.
  rewrite vscan_app, gen_bind_assoc.
  pose proof (@check_vfid_missmatch_spec rtuple sp (convpath f) (proj x) e log) as Hc.
  destruct (vscan e [(convpath f, proj x)]) as [ms1 e1] eqn:Hv1. cbn [fst snd] in Hc |- *.
  unfold scan_result. cbn [fst snd].
  destruct (force sp || bool_decide (ms1 = [])) eqn:Hc1.
  - erewrite gen_bind_inr by exact Hc. cbn [g_yields g_state g_out app].
    rewrite gen_bind_inr with (ys := [(mk_rtuple (convpath f) kind (rep x), mk_ystate e1 (log ++ ms1))])
      (s1 := mk_ystate e1 (log ++ ms1)) (a := tt) by reflexivity.
    cbn [g_yields g_state g_out app].
    specialize (IH e1 (log ++ ms1)). unfold scan_result in IH.
    apply orb_true_iff in Hc1 as [Hf|Hm%bool_decide_eq_true].
    + rewrite Hf in IH |- *. simpl in IH |- *. destruct IH as (Ho & Hs & Hy).
      unfold scan_ok. cbn [g_out g_state g_yields map fst]. rewrite Ho, Hs, Hy, app_assoc.
      by repeat split.
    + subst ms1. rewrite app_nil_r in IH. rewrite ?app_nil_r. simpl.
      destruct (force sp || bool_decide ((vscan e1 (zip (map convpath l) (map proj xs))).1 = [])).
      * destruct IH as (Ho & Hs & Hy). unfold scan_ok. cbn [g_out g_state g_yields map fst].
        rewrite Ho, Hs, Hy. by repeat split.
      * destruct IH as (m & rest & Hr & Ho & Hl'). exists m, rest. by rewrite Ho, Hl'.
  - apply orb_false_iff in Hc1 as [Hf Hm%bool_decide_eq_false]. rewrite Hf. simpl.
    erewrite gen_bind_inl by exact Hc.
    rewrite bool_decide_false by (intros [Hn _]%app_eq_nil; done).
    destruct ms1 as [|m ms1]; [done|]. simpl in Hv1.
    destruct (py_is_none e); [by injection Hv1|].
    destruct (py_eq e (proj x)); [by injection Hv1|]. injection Hv1 as <- _ _.
    by eexists _, _.
Qed.

(** Two loops of checks in sequence. *)
Lemma scan_result_bind {Y} (frc : bool) (m : gen exc Y ystate unit) (k : unit -> gen exc Y ystate unit)
    (s : ystate) (log : list msg) (e : pyval) (items1 items2 : list (string * pyval)) (ys1 ys2 : list Y) :
  scan_result frc (m s) log (vscan e items1) ys1 ->
  (forall log', scan_result frc (k tt (mk_ystate (vscan e items1).2 log')) log'
                  (vscan (vscan e items1).2 items2) ys2) ->
  scan_result frc (gen_bind m k s) log (vscan e (items1 ++ items2)) (ys1 ++ ys2).
Proof.
  rewrite vscan_app. destruct (vscan e items1) as [ms1 e1]. cbn [fst snd].
  unfold scan_result. intros H1 H2. cbn [fst snd] in *.
  destruct (frc || bool_decide (ms1 = [])) eqn:Hc1.
  - unfold scan_ok in *. destruct H1 as (Ho & Hs & Hy).
    rewrite (gen_bind_inr m k s (g_state (m s)) (g_yields (m s)) tt) by (destruct (m s); simpl in *; by subst).
    rewrite Hs. specialize (H2 (log ++ ms1)).
    apply orb_true_iff in Hc1 as [Hf|Hm%bool_decide_eq_true].
    + subst frc. simpl in H2 |- *. destruct H2 as (Ho2 & Hs2 & Hy2).
      unfold scan_ok. cbn [g_out g_state g_yields]. rewrite map_app, Ho2, Hs2, Hy2, Hy, app_assoc.
      by repeat split.
    + subst ms1. rewrite app_nil_r in H2. rewrite ?app_nil_r. simpl.
      destruct (frc || bool_decide ((vscan e1 items2).1 = [])).
      * destruct H2 as (Ho2 & Hs2 & Hy2). unfold scan_ok. cbn [g_out g_state g_yields].
        rewrite map_app, Ho2, Hs2, Hy2, Hy. by repeat split.
      * destruct H2 as (m' & rest & Hr & Ho2 & Hl2). exists m', rest. by rewrite Ho2, Hl2.
  - destruct H1 as (m' & rest & -> & Ho & Hl1). apply orb_false_iff in Hc1 as [-> _].
    simpl. exists m', (rest ++ (vscan e1 items2).1). split; [done|].
    rewrite (gen_bind_inl m k s (g_state (m s)) (g_yields (m s)) (CmdException m'))
      by (destruct (m s); simpl in *; by subst).
    done.
Qed.

Lemma yield_others_spec (convpath : string -> string) (l : list string) (s : ystate) :
  yield_others convpath l s = mk_gres (map (fun f => (mk_rtuple (convpath f) "other" RNone, s)) l) s (inr tt).
Proof.
  revert s. induction l as [|f l IH]; intros s; [done|].
  unfold yield_others. cbn [gen_for]. erewrite gen_bind_inr by reflexivity.
  fold (yield_others convpath l). by rewrite IH.
Qed.

Lemma scan_result_nil {Y} (frc : bool) (r : gres exc Y ystate unit) (log : list msg) (e : pyval) (ys : list Y) :
  g_out r = inr tt -> g_state r = mk_ystate e log -> map fst (g_yields r) = ys ->
  scan_result frc r log (vscan e []) ys.
Proof.
  intros Ho Hs Hy. unfold scan_result, scan_ok. simpl. rewrite orb_true_r, app_nil_r. auto.
Qed.

(** The whole generator, when every file can be read. *)
Lemma yield_report_tuples_spec lasso convpath sp (io : pfiles) (ev : pyval) (s : ystate)
    (vins : list pyval) (routs : list (pyval * frame)) :
  Forall2 (fun f v => extract_vfid_from_input lasso sp (convpath f) = inr v) (pf_inp io) vins ->
  Forall2 (fun f r => extract_dice_report_from_output lasso sp (convpath f) = inr r) (pf_out io) routs ->
  scan_result (force sp) (yield_report_tuples_from_iofiles lasso convpath sp io ev s) (y_log s)
    (vscan PyNone (zip (map convpath (pf_inp io)) vins ++ zip (map convpath (pf_out io)) (map fst routs)))
    (zip_with (fun f v => mk_rtuple (convpath f) "inp" (input_report v)) (pf_inp io) vins ++
     zip_with (fun f r => mk_rtuple (convpath f) "out" (RFrame r.2)) (pf_out io) routs ++
     map (fun f => mk_rtuple (convpath f) "other" RNone) (pf_other io)).
Proof.
  intros Hi Ho. unfold yield_report_tuples_from_iofiles.
  erewrite gen_bind_inr by reflexivity. cbn [g_yields g_state g_out app].
  erewrite gen_bind_inr by reflexivity. cbn [g_yields g_state g_out app].
  replace (mk_gres _ _ _) with (gen_bind (yield_inputs lasso convpath sp (pf_inp io))
            (fun _ => yield_outputs lasso convpath sp (pf_out io) ;;; yield_others convpath (pf_other io))
            (mk_ystate PyNone (y_log s)))
    by (by destruct (gen_bind _ _ _)).
  apply scan_result_bind.
  { rewrite yield_inputs_scan. pose proof (scan_loop_spec sp convpath "inp" _ (fun v => v) input_report _ _ Hi PyNone (y_log s)) as H.
    by rewrite map_id in H. }
  intros log'. rewrite <-(app_nil_r (zip (map convpath (pf_out io)) (map fst routs))).
  apply scan_result_bind.
  { rewrite yield_outputs_scan. apply (scan_loop_spec sp convpath "out" _ fst (fun r => RFrame r.2) _ _ Ho). }
  intros log''. rewrite yield_others_spec. apply scan_result_nil; [done|done|].
  simpl. rewrite map_map. done.
Qed.

(** ** Properties of the report generator *)

Section ReportProps.
Context (lasso : string -> string -> option xl_value) (convpath : string -> string).
Context (io : pfiles) (vins : list pyval) (routs : list (pyval * frame)).

(** The vfids in the order they are checked, with their paths. *)
Definition checked_vfids : list (string * pyval) :=
  zip (map convpath (pf_inp io)) vins ++ zip (map convpath (pf_out io)) (map fst routs).

(** The tuples of a full run. *)
Definition all_tuples : list rtuple :=
  zip_with (fun f v => mk_rtuple (convpath f) "inp" (input_report v)) (pf_inp io) vins ++
  zip_with (fun f r => mk_rtuple (convpath f) "out" (RFrame r.2)) (pf_out io) routs ++
  map (fun f => mk_rtuple (convpath f) "other" RNone) (pf_other io).
End ReportProps.

(** C3: Without [--force], a run of [yield_report_tuples_from_iofiles]
    over readable files raises [CmdException] with the first vfid that
    differs from the first non-[None] vfid (inputs checked before outputs),
    and otherwise yields one tuple per file, inputs then outputs then other
    files, logging nothing. *)
Theorem report_mismatch_raises lasso convpath sp (io : pfiles) (ev : pyval) (s : ystate)
    (vins : list pyval) (routs : list (pyval * frame)) :
  force sp = false ->
  Forall2 (fun f v => extract_vfid_from_input lasso sp (convpath f) = inr v) (pf_inp io) vins ->
  Forall2 (fun f r => extract_dice_report_from_output lasso sp (convpath f) = inr r) (pf_out io) routs ->
  match (vscan PyNone (checked_vfids convpath io vins routs)).1 with
  | [] => g_out (yield_report_tuples_from_iofiles lasso convpath sp io ev s) = inr tt /\
          map fst (g_yields (yield_report_tuples_from_iofiles lasso convpath sp io ev s)) =
            all_tuples convpath io vins routs /\
          y_log (g_state (yield_report_tuples_from_iofiles lasso convpath sp io ev s)) = y_log s
  | m :: _ => g_out (yield_report_tuples_from_iofiles lasso convpath sp io ev s) = inl (CmdException m) /\
              y_log (g_state (yield_report_tuples_from_iofiles lasso convpath sp io ev s)) = y_log s
  end.
Proof.
  intros Hf Hi Ho. pose proof (yield_report_tuples_spec lasso convpath sp io ev s vins routs Hi Ho) as H.
  unfold scan_result in H. rewrite Hf in H. unfold checked_vfids, all_tuples.
  destruct (vscan PyNone _) as [[|m ms] e'] eqn:Hv; cbn [fst snd orb] in H |- *.
  - rewrite bool_decide_true in H by done. destruct H as (Hg & Hs & Hy).
    rewrite Hg, Hs, Hy, app_nil_r. auto.
  - rewrite bool_decide_false in H by done. destruct H as (m' & rest & [= <- _] & Hg & Hl). auto.
Qed.

(** C5: With [--force], a run over readable files never raises: it yields
    one tuple per file, inputs then outputs then other files, and logs one
    mismatch warning per vfid that differs from the first non-[None] one. *)
Theorem report_force_warns lasso convpath sp (io : pfiles) (ev : pyval) (s : ystate)
    (vins : list pyval) (routs : list (pyval * frame)) :
  force sp = true ->
  Forall2 (fun f v => extract_vfid_from_input lasso sp (convpath f) = inr v) (pf_inp io) vins ->
  Forall2 (fun f r => extract_dice_report_from_output lasso sp (convpath f) = inr r) (pf_out io) routs ->
  g_out (yield_report_tuples_from_iofiles lasso convpath sp io ev s) = inr tt /\
  map fst (g_yields (yield_report_tuples_from_iofiles lasso convpath sp io ev s)) =
    all_tuples convpath io vins routs /\
  y_log (g_state (yield_report_tuples_from_iofiles lasso convpath sp io ev s)) =
    y_log s ++ (vscan PyNone (checked_vfids convpath io vins routs)).1.
Proof.
  intros Hf Hi Ho. pose proof (yield_report_tuples_spec lasso convpath sp io ev s vins routs Hi Ho) as H.
  unfold scan_result in H. rewrite Hf in H. cbn [orb] in H. destruct H as (Hg & Hs & Hy).
  by rewrite Hg, Hs, Hy.
Qed.

(** ** The properties on a concrete workbook reader *)

Definition demo_frame_in (v : string) : frame := mk_frame ["flag.vehicle_family_id"] ["Value"] [[PyStr v]].
Definition demo_frame_out (v : string) : frame := mk_frame ["vehicle_family_id"] ["vehicle-H"] [[PyStr v]].

(** Input [b.xlsx] declares vehicle family [V2]; every other file [V1]. *)
Definition demo_lasso (xlref fpath : string) : option xl_value :=
  if bool_decide (xlref = input_head_xlref report_spec_defaults)
  then Some (XFrame (demo_frame_in (if bool_decide (fpath = "b.xlsx") then "V2" else "V1")))
  else Some (XFrame (demo_frame_out "V1")).

Definition demo_files : pfiles := mk_pfiles ["a.xlsx"; "b.xlsx"] ["o.xlsx"] ["notes.txt"].

Lemma report_mismatch_raises_witness :
  g_out (yield_report_tuples_from_iofiles demo_lasso (fun f => f) report_spec_defaults demo_files
           PyNone (mk_ystate PyNone [])) =
    inl (CmdException (MsgMismatch "b.xlsx" (PyStr "V2") (PyStr "V1"))) /\
  y_log (g_state (yield_report_tuples_from_iofiles demo_lasso (fun f => f) report_spec_defaults demo_files
           PyNone (mk_ystate PyNone []))) = [].
Proof.
  exact (report_mismatch_raises demo_lasso (fun f => f) report_spec_defaults demo_files PyNone
           (mk_ystate PyNone []) [PyStr "V1"; PyStr "V2"] [(PyStr "V1", frame_notnull (demo_frame_out "V1"))]
           eq_refl
           ltac:(repeat constructor)
           ltac:(repeat constructor)).
Defined.

Lemma report_force_warns_witness :
  let sp := set_force report_spec_defaults true in
  g_out (yield_report_tuples_from_iofiles demo_lasso (fun f => f) sp demo_files PyNone (mk_ystate PyNone [])) = inr tt /\
  map fst (g_yields (yield_report_tuples_from_iofiles demo_lasso (fun f => f) sp demo_files PyNone
                       (mk_ystate PyNone []))) =
    all_tuples (fun f => f) demo_files [PyStr "V1"; PyStr "V2"] [(PyStr "V1", frame_notnull (demo_frame_out "V1"))] /\
  y_log (g_state (yield_report_tuples_from_iofiles demo_lasso (fun f => f) sp demo_files PyNone
                    (mk_ystate PyNone []))) =
    [] ++ [MsgMismatch "b.xlsx" (PyStr "V2") (PyStr "V1")].
Proof.
  exact (report_force_warns demo_lasso (fun f => f) (set_force report_spec_defaults true) demo_files PyNone
           (mk_ystate PyNone []) [PyStr "V1"; PyStr "V2"] [(PyStr "V1", frame_notnull (demo_frame_out "V1"))]
           eq_refl
           ltac:(repeat constructor)
           ltac:(repeat constructor)).
Defined.

(** ** [--vfids] *)

Lemma all_tuples_length convpath (io : pfiles) vins routs :
  length (pf_inp io) = length vins -> length (pf_out io) = length routs ->
  length (all_tuples convpath io vins routs) = length (pf_inp io ++ pf_out io ++ pf_other io).
Proof.
  intros H1 H2. unfold all_tuples. rewrite !length_app, !length_zip_with, length_map, H1, H2. lia.
Qed.

(** The report the command uses: the cached one, or a fresh one from the
    configuration. *)
Definition cached_report (config_report : report_spec) (st : cmd_state) : report_spec :=
  match cs_report st with Some r => r | None => config_report end.

Lemma report_prop_spec {Y} (config_report : report_spec) (st : cmd_state) :
  @report_prop config_report Y st =
  mk_gres [] (mk_cmd_state (Some (cached_report config_report st)) (cs_log st)) (inr (cached_report config_report st)).
Proof. unfold report_prop, cached_report. destruct st as [[r|] log]; reflexivity. Qed.

(** C13: [report --vfids] never prints a line: the loop of line 270 unpacks
    each 3-tuple into four names, so as soon as one file yields its tuple
    the command fails with [ValueError]. *)
Theorem vfids_only_never_prints lasso convpath config_report project_pfiles parse_io_args yaml_dump py_str
    (cmd : report_cmd) (args : list string) (st : cmd_state) (vins : list pyval) (routs : list (pyval * frame)) :
  rc_vfids_only cmd = true ->
  g_yields (report_cmd_run lasso convpath config_report project_pfiles parse_io_args yaml_dump py_str cmd args st) = [] /\
  (rc_project cmd = false -> args <> [] ->
   Forall2 (fun f v => extract_vfid_from_input lasso (cached_report config_report st) (convpath f) = inr v)
     (pf_inp (parse_io_args (iset args))) vins ->
   Forall2 (fun f r => extract_dice_report_from_output lasso (cached_report config_report st) (convpath f) = inr r)
     (pf_out (parse_io_args (iset args))) routs ->
   pf_inp (parse_io_args (iset args)) ++ pf_out (parse_io_args (iset args)) ++
     pf_other (parse_io_args (iset args)) <> [] ->
   g_out (report_cmd_run lasso convpath config_report project_pfiles parse_io_args yaml_dump py_str cmd args st)
     = inl ValueError).
Proof.
  intros Hv. unfold report_cmd_run. rewrite Hv. split.
  { apply gen_bind_silent.
    { destruct (rc_project cmd); [destruct (bool_decide (0 < _))|destruct (bool_decide (_ < 1))]; try done.
      unfold gen_lift, build_io_files_from_project. by destruct project_pfiles. }
    intros io s1.
    apply gen_bind_silent; [by rewrite report_prop_spec|]. intros sp s2.
    apply gen_bind_silent; [done|]. intros s3 s4. apply gen_bind_silent; [done|]. intros [] s5.
    apply gen_for_gen_silent. intros y s6. done. }
  intros Hp Ha Hi Ho Hne. rewrite Hp.
  rewrite bool_decide_false by (destruct args; [done|simpl; lia]).
  erewrite gen_bind_inr by reflexivity. cbn [g_yields g_state g_out app].
  erewrite gen_bind_inr by (rewrite report_prop_spec; reflexivity). cbn [g_yields g_state g_out app].
  erewrite gen_bind_inr by reflexivity. cbn [g_yields g_state g_out app].
  erewrite gen_bind_inr by reflexivity. cbn [g_yields g_state g_out app].
  set (sp := set_force (cached_report config_report st) true).
  set (io := parse_io_args (iset args)) in *.
  pose proof (yield_report_tuples_spec lasso convpath sp io PyNone (mk_ystate PyNone (cs_log st)) vins routs Hi Ho)
    as H. unfold scan_result in H. cbn [force sp set_force orb] in H. destruct H as (Hg & Hs & Hy).
  pose proof (all_tuples_length convpath io vins routs (Forall2_length _ _ _ Hi) (Forall2_length _ _ _ Ho)) as Hl.
  destruct (g_yields (yield_report_tuples_from_iofiles lasso convpath sp io PyNone (mk_ystate PyNone (cs_log st))))
    as [|[y t] ys] eqn:Hys.
  { assert (Hat : all_tuples convpath io vins routs = []) by (unfold all_tuples; by rewrite <-Hy).
    rewrite Hat in Hl. simpl in Hl. by destruct (pf_inp io ++ pf_out io ++ pf_other io). }
  by apply (gen_for_gen_first_raise _ _ _ _ _ _ y t ys).
Qed.

Definition demo_cmd : report_cmd := mk_report_cmd "report" false true.

Lemma vfids_only_never_prints_witness :
  g_yields (report_cmd_run demo_lasso (fun f => f) report_spec_defaults None (fun _ => demo_files)
              (fun _ _ => "") (fun _ => "") demo_cmd ["a.xlsx"] (mk_cmd_state None [])) = [] /\
  g_out (report_cmd_run demo_lasso (fun f => f) report_spec_defaults None (fun _ => demo_files)
           (fun _ _ => "") (fun _ => "") demo_cmd ["a.xlsx"] (mk_cmd_state None [])) = inl ValueError.
Proof.
  destruct (vfids_only_never_prints demo_lasso (fun f => f) report_spec_defaults None (fun _ => demo_files)
              (fun _ _ => "") (fun _ => "") demo_cmd ["a.xlsx"] (mk_cmd_state None [])
              [PyStr "V1"; PyStr "V2"] [(PyStr "V1", frame_notnull (demo_frame_out "V1"))] eq_refl) as [H1 H2].
  split; [exact H1|].
  apply H2; [reflexivity|discriminate|repeat constructor|repeat constructor|discriminate].
Defined.

(** ** The cached [Report] outlives a run *)

Lemma extract_vfid_set_force lasso sp b : extract_vfid_from_input lasso (set_force sp b) = extract_vfid_from_input lasso sp.
Proof. reflexivity. Qed.
Lemma extract_dice_set_force lasso sp b :
  extract_dice_report_from_output lasso (set_force sp b) = extract_dice_report_from_output lasso sp.
Proof. reflexivity. Qed.

(** Past the argument checks, [run] reads the files [parse_io_args]
    gives for the deduplicated arguments with the command's report. *)
Lemma report_cmd_run_files lasso convpath config_report project_pfiles parse_io_args yaml_dump py_str
    (cmd : report_cmd) (args : list string) (st : cmd_state) :
  rc_project cmd = false -> args <> [] ->
  report_cmd_run lasso convpath config_report project_pfiles parse_io_args yaml_dump py_str cmd args st =
  (let io := parse_io_args (iset args) in
   let rep := cached_report config_report st in
   let st1 := mk_cmd_state (Some rep) (cs_log st) in
   if rc_vfids_only cmd then
     gen_for_gen ystate_of cmd_state_back
       (yield_report_tuples_from_iofiles lasso convpath (set_force rep true) io PyNone)
       (fun t => vp <- gen_lift (unpack_vfid_fpath t) ;; gen_yield ("- " +:+ vp.2 +:+ ": " +:+ py_str vp.1))
       (mk_cmd_state (Some (set_force rep true)) (cs_log st))
   else
     gen_for_gen ystate_of cmd_state_back
       (yield_report_tuples_from_iofiles lasso convpath rep io PyNone)
       (fun t => gen_yield (yaml_dump (rt_fpath t) (report_tuple_2_dict t))) st1).
Proof.
  intros Hp Ha. unfold report_cmd_run. rewrite Hp.
  rewrite bool_decide_false by (destruct args; [done|simpl; lia]).
  erewrite gen_bind_inr by reflexivity. cbn [g_yields g_state g_out app].
  erewrite gen_bind_inr by (rewrite report_prop_spec; reflexivity). cbn [g_yields g_state g_out app].
  destruct (rc_vfids_only cmd).
  - erewrite gen_bind_inr by reflexivity. cbn [g_yields g_state g_out app].
    erewrite gen_bind_inr by reflexivity. cbn [g_yields g_state g_out app].
    by destruct (gen_for_gen _ _ _ _ _).
  - by destruct (gen_for_gen _ _ _ _ _).
Qed.

Lemma gen_for_gen_state_report (inner : gen exc rtuple ystate unit) (body : rtuple -> gen exc string cmd_state unit)
    (s : cmd_state) :
  (forall y s', cs_report (g_state (body y s')) = cs_report s') ->
  cs_report (g_state (gen_for_gen ystate_of cmd_state_back inner body s)) = cs_report s.
Proof.
  intros Hb. unfold gen_for_gen. cbv zeta.
  generalize (g_yields (inner (ystate_of s))) (g_state (inner (ystate_of s))) (g_out (inner (ystate_of s))).
  intros ys fin out. revert s. induction ys as [|[y t] ys IH]; intros s; [done|]. simpl.
  pose proof (Hb y (cmd_state_back s t)) as Hb1.
  destruct (body y (cmd_state_back s t)) as [ys1 s1 [e|[]]]; simpl in *; [done|].
  by rewrite IH.
Qed.

Lemma vfids_run_caches_force lasso convpath config_report project_pfiles parse_io_args yaml_dump py_str
    (cmd : report_cmd) (args : list string) (st : cmd_state) :
  rc_vfids_only cmd = true -> rc_project cmd = false -> args <> [] ->
  cs_report (g_state (report_cmd_run lasso convpath config_report project_pfiles parse_io_args yaml_dump py_str
                        cmd args st)) = Some (set_force (cached_report config_report st) true).
Proof.
  intros Hv Hp Ha. rewrite report_cmd_run_files by done. cbv zeta. rewrite Hv.
  rewrite gen_for_gen_state_report; [done|]. intros y s'. reflexivity.
Qed.

(** C14: Running [report --vfids] leaks into later runs: it sets [force]
    on the cached [Report] (line 269), so a later
    plain [report] run of the same command object never raises on
    mismatching vfids, whatever the configuration says. *)
Theorem report_force_leaks lasso convpath config_report project_pfiles parse_io_args yaml_dump py_str
    (cmd1 cmd2 : report_cmd) (args1 args2 : list string) (st0 : cmd_state)
    (vins : list pyval) (routs : list (pyval * frame)) :
  rc_vfids_only cmd1 = true -> rc_project cmd1 = false -> args1 <> [] ->
  rc_vfids_only cmd2 = false -> rc_project cmd2 = false -> args2 <> [] ->
  Forall2 (fun f v => extract_vfid_from_input lasso (cached_report config_report st0) (convpath f) = inr v)
    (pf_inp (parse_io_args (iset args2))) vins ->
  Forall2 (fun f r => extract_dice_report_from_output lasso (cached_report config_report st0) (convpath f) = inr r)
    (pf_out (parse_io_args (iset args2))) routs ->
  g_out (report_cmd_run lasso convpath config_report project_pfiles parse_io_args yaml_dump py_str cmd2 args2
           (g_state (report_cmd_run lasso convpath config_report project_pfiles parse_io_args yaml_dump py_str
                       cmd1 args1 st0))) = inr tt.
Proof.
  intros Hv1 Hp1 Ha1 Hv2 Hp2 Ha2 Hi Ho.
  set (st1 := g_state (report_cmd_run _ _ _ _ _ _ _ cmd1 args1 st0)).
  assert (Hc : cached_report config_report st1 = set_force (cached_report config_report st0) true)
    by (unfold cached_report at 1; unfold st1; by rewrite vfids_run_caches_force).
  rewrite report_cmd_run_files by done. cbv zeta. rewrite Hv2, Hc.
  pose proof (yield_report_tuples_spec lasso convpath (set_force (cached_report config_report st0) true)
                (parse_io_args (iset args2)) PyNone (ystate_of (mk_cmd_state (Some (set_force (cached_report config_report st0) true)) (cs_log st1)))
                vins routs Hi Ho) as H.
  unfold scan_result in H. cbn [force set_force orb] in H. destruct H as (Hg & _ & _).
  unfold gen_for_gen. cbv zeta. rewrite gen_drive_ok; [done|]. intros y s'. reflexivity.
Qed.

Lemma report_force_leaks_witness :
  g_out (report_cmd_run demo_lasso (fun f => f) report_spec_defaults None (fun _ => demo_files)
           (fun _ _ => "") (fun _ => "") (mk_report_cmd "report" false false) ["a.xlsx"]
           (g_state (report_cmd_run demo_lasso (fun f => f) report_spec_defaults None (fun _ => demo_files)
                       (fun _ _ => "") (fun _ => "") demo_cmd ["a.xlsx"] (mk_cmd_state None [])))) = inr tt.
Proof.
  apply (report_force_leaks demo_lasso (fun f => f) report_spec_defaults None (fun _ => demo_files)
           (fun _ _ => "") (fun _ => "") demo_cmd (mk_report_cmd "report" false false) ["a.xlsx"] ["a.xlsx"]
           (mk_cmd_state None []) [PyStr "V1"; PyStr "V2"] [(PyStr "V1", frame_notnull (demo_frame_out "V1"))]).
  - reflexivity.
  - reflexivity.
  - discriminate.
  - reflexivity.
  - reflexivity.
  - discriminate.
  - repeat constructor.
  - repeat constructor.
Defined.

(** C24: [run] checks its arguments before touching any file: [--project]
    with arguments, no arguments without [--project], and a project with
    no files each raise [CmdException], yielding nothing and leaving the
    command's state as it was. *)
Theorem report_cmd_args_checked lasso convpath config_report project_pfiles parse_io_args yaml_dump py_str
    (cmd : report_cmd) (args : list string) (st : cmd_state) :
  (rc_project cmd = true -> args <> [] ->
   report_cmd_run lasso convpath config_report project_pfiles parse_io_args yaml_dump py_str cmd args st =
   mk_gres [] st (inl (CmdException (MsgProjectTakesNoArgs (rc_name cmd) (length args))))) /\
  (rc_project cmd = true -> args = [] -> project_pfiles = None ->
   report_cmd_run lasso convpath config_report project_pfiles parse_io_args yaml_dump py_str cmd args st =
   mk_gres [] st (inl (CmdException MsgNoFiles))) /\
  (rc_project cmd = false -> args = [] ->
   report_cmd_run lasso convpath config_report project_pfiles parse_io_args yaml_dump py_str cmd args st =
   mk_gres [] st (inl (CmdException (MsgNeedsFiles (rc_name cmd) 0)))).
Proof.
  unfold report_cmd_run. split; [|split].
  - intros -> Ha. rewrite bool_decide_true by (destruct args; [done|simpl; lia]). done.
  - intros -> -> ->. done.
  - intros -> ->. done.
Qed.

(** [report] under a root command: its command object accepts the root's
    [--debug] and its own [--project], and knows the [Report] class. *)
Definition report_chain_kwds (cls : string) : cmd_kwds :=
  if bool_decide (cls = "ReportCmd") then report_cmd_kwds (fun h => h) (mk_kwds None None None None None)
  else mk_kwds None None None None None.

Definition report_chain :=
  chain_cmds report_chain_kwds (fun _ => []) (fun _ => []) (fun _ => true) demo_os [] (fun _ => true) false
    (Some ["conf"]) None ["MainCmd"; "ReportCmd"] (mk_cstore ∅ 0 ∅ ∅, demo_state).

Example report_cmd_inherits_root_flags :
  exists c, st_cmds (g_state report_chain).1 !! 1 = Some c /\
    ["d"; "debug"] ∈ map fst (c_flags c) /\ ["project"] ∈ map fst (c_flags c) /\ "Report" ∈ c_classes c.
Proof.
  destruct (g_state report_chain) as [st' cs'] eqn:E.
  destruct (chain_cmds_inherits report_chain_kwds (fun _ => []) (fun _ => []) (fun _ => true) demo_os []
              (fun _ => true) false (Some ["conf"]) None (mk_cstore ∅ 0 ∅ ∅) st' demo_state cs'
              ["MainCmd"; "ReportCmd"] 0 (conj (ltac:(vm_compute; reflexivity) : g_out report_chain = inr 0) E)) as (c & Hc & Hf).
  apply Forall_inv in Hf as Hmain. apply Forall_inv_tail, Forall_inv in Hf as Hrep.
  destruct Hmain as (_ & _ & _ & Hm), Hrep as (_ & Hcc & _ & Hr).
  exists c. split; [exact Hc|]. split_and!; [apply Hm|apply Hr|apply Hcc];
    apply (bool_decide_unpack _); vm_compute; reflexivity.
Qed.
