(* ===== verification/Help.v ===== *)
(** * The sub-command help of a command ([Cmd.print_subcommands],
    [src/co2mpas/sampling/baseapp.py] lines 555-578)

    [Cmd] overrides [traitlets]' [print_subcommands] to mark the default
    sub-command with [[*]] and to add a note about it.  The text helpers
    ([wrap_paragraphs], [textwrap.indent] and [dedent], [str.strip], the
    [subcommand_description] of [Application] formatted with the
    command's name) and [os.linesep] are parameters; the command is a
    [cmd] of file [Commands].  The printed text is the value of
    [print_subcommands], [None] when it returns without printing.  The
    short help of each listed class is [cmd_class_short_help] (lines
    282-284). *)

From stdpp Require Import base list strings.
From Stdlib Require Import Ascii Lia.
From S2P Require Import Prelude Commands.

(** ['=' * n]. *)
Fixpoint str_repeat (n : nat) (s : string) : string :=
  match n with 0 => "" | S n' => s +:+ str_repeat n' s end.

(** The note, with the two double quotes of the source. *)
Definition default_note : string :=
  "Note: The asterisk '[*]' marks the " +:+
  String "034" ("default" +:+ String "034" " sub-command to run when none specified.").

(** [if self.default_subcmd == subc: subc = '%s[*]' % subc]. *)
Definition mark_subcmd (default : option string) (subc : string) : string :=
  if bool_decide (default = Some subc) then subc +:+ "[*]" else subc.

(** [cmd_class_short_help(app_class)]: the first line of the class's
    [description] when it is a non-empty string, else of its docstring. *)
Definition cmd_class_short_help (first_line : string -> string) (description : option string) (doc : string) : string :=
  first_line (match description with Some d => if bool_decide (d = "") then doc else d | None => doc end).

Section Help.
Context (wrap_paragraphs : string -> list string) (format_app : string -> string -> string)
        (subcommand_description : string) (indent dedent strip : string -> string) (linesep : string).

(** The lines of one sub-command: its name, then its help when not empty. *)
Definition subcommand_entry (default : option string) (e : string * (string * string)) : list string :=
  mark_subcmd default e.1 :: (if bool_decide (e.2.2 = "") then [] else [indent (dedent (strip e.2.2))]).

Definition print_subcommands (c : cmd) : option string :=
  if bool_decide (c_subcommands c = []) then None else
  let lines := ["Subcommands"; str_repeat (String.length "Subcommands") "="] ++
               wrap_paragraphs (format_app subcommand_description (c_name c)) ++ [""] ++
               List.concat (map (subcommand_entry (c_default_subcmd c)) (c_subcommands c)) ++
               (if bool_decide (is_Some (truthy_subcmd (c_default_subcmd c))) then [""; default_note] else []) ++ [""] in
  Some (String.concat linesep lines).
End Help.

Section HelpFacts.
Context (indent dedent strip : string -> string).

(** The names of the entries, in order, are lines of the listing. *)
Lemma entry_heads_sublist default (subs : list (string * (string * string))) :
  sublist (map (fun e => mark_subcmd default e.1) subs)
          (List.concat (map (subcommand_entry indent dedent strip default) subs)).
Proof.
  induction subs as [|e subs IH]; simpl; [constructor|].
  apply sublist_skip, sublist_inserts_l, IH.
Qed.
End HelpFacts.

Section HelpTheorems.
Context (wrap_paragraphs : string -> list string) (format_app : string -> string -> string)
        (subcommand_description : string) (indent dedent strip : string -> string) (linesep : string).

(** C33: a [default_subcmd] that is set but names none of the
    sub-commands gets the note that [[*]] marks the default sub-command,
    while the listing shows every sub-command, in order, unmarked. *)
Theorem print_subcommands_unmarked_default (c : cmd) (d : string) :
  c_subcommands c <> [] -> truthy_subcmd (c_default_subcmd c) = Some d -> d ∉ map fst (c_subcommands c) ->
  exists lines,
    print_subcommands wrap_paragraphs format_app subcommand_description indent dedent strip linesep c =
      Some (String.concat linesep lines) /\
    sublist (map fst (c_subcommands c)) lines /\ default_note ∈ lines.
Proof.
  intros Hne Hd Hnin. unfold print_subcommands. rewrite bool_decide_eq_false_2 by done.
  eexists. split; [reflexivity|]. rewrite Hd, bool_decide_eq_true_2 by done. split.
  - apply sublist_inserts_l, sublist_inserts_l, sublist_inserts_l, sublist_inserts_r.
    replace (map fst (c_subcommands c)) with (map (fun e => mark_subcmd (c_default_subcmd c) e.1) (c_subcommands c));
      [apply entry_heads_sublist|].
    apply map_ext_in. intros [n h] Hin. unfold mark_subcmd. simpl. rewrite bool_decide_eq_false_2; [done|].
    intros Heq. apply Hnin. rewrite Heq in Hd. simpl in Hd. case_bool_decide; [done|]. injection Hd as <-.
    apply list_elem_of_In, in_map_iff. exists (n, h). split; [done|exact Hin].
  - apply list_elem_of_In. rewrite !in_app_iff. do 4 right. left. right. left. reflexivity.
Qed.
End HelpTheorems.

(** [config] with [show] as its default: the note is printed and [show]
    is marked. *)
Definition demo_help_cmd (default : option string) : cmd :=
  mk_cmd "ConfigCmd" "config" (Some 0) None [] [] [] [("init", ("InitCmd", "")); ("show", ("ShowCmd", "Print."))]
    default [] [] [].

Example print_subcommands_default_marked :
  print_subcommands (fun _ => []) (fun d _ => d) "" id id id "/" (demo_help_cmd (Some "show")) =
    Some (String.concat "/" ["Subcommands"; "==========="; ""; "init"; "show[*]"; "Print."; ""; default_note; ""]).
Proof. reflexivity. Qed.

Lemma print_subcommands_unmarked_default_witness :
  exists lines,
    print_subcommands (fun _ => []) (fun d _ => d) "" id id id "/" (demo_help_cmd (Some "paths")) =
      Some (String.concat "/" lines) /\
    sublist ["init"; "show"] lines /\ default_note ∈ lines.
Proof.
  exact (print_subcommands_unmarked_default (fun _ => []) (fun d _ => d) "" id id id "/" (demo_help_cmd (Some "paths"))
           "paths" ltac:(discriminate) eq_refl ltac:(apply (bool_decide_unpack _); vm_compute; reflexivity)).
Defined.

(** A [default_subcmd] that names no sub-command marks none of them, yet
    the note about the asterisk is printed. *)
Example print_subcommands_unknown_default :
  print_subcommands (fun _ => []) (fun d _ => d) "" id id id "/" (demo_help_cmd (Some "paths")) =
    Some (String.concat "/" ["Subcommands"; "==========="; ""; "init"; "show"; "Print."; ""; default_note; ""]).
Proof. reflexivity. Qed.

(** [Cmd.description.default_value = None] (line 814): a command class
    without its own description is listed with its docstring. *)
Example short_help_from_doc :
  cmd_class_short_help (fun s => s) None "Commands to manage configuration-options." =
    "Commands to manage configuration-options.".
Proof. reflexivity. Qed.
