(* ===== verification/Traits.v ===== *)
(** * Persistent traits of an object and [Spec]
    ([src/co2mpas/sampling/baseapp.py], lines 182-205 and 212-274)

    A [HasTraits] object has declared traits, each with its metadata
    ([config], [persist]) and default, and the values set on it.  On
    construction [Spec.__init__] sets the keyword values (validated by
    [_valid_user]) and then calls [observe_ptraits], which refuses a
    persistent trait not tagged [config] ([check_unconfig_ptraits]) and
    installs [_ptrait_observed] (file [Persist]) on the persistent config
    traits.  From then on, setting such a trait to a new value mirrors it
    into the [_pconfig] object the class reaches.  [traitlets] notifies an
    observer only when the value changes, which the model keeps. *)

From stdpp Require Import base list gmap strings.
From Stdlib Require Import Lia.
From S2P Require Import Prelude Config Persist.

(** A trait as its class declares it. *)
Record trait_decl {V} := mk_trait { td_name : string; td_config : bool; td_persist : bool; td_default : V }.
Arguments trait_decl : clear implicits.
Arguments mk_trait {V}.

(** An object: its class, the class's MRO, its traits, the values set on
    it, and the trait names [_ptrait_observed] observes. *)
Record hobj {V} := mk_hobj {
  h_cls : string;
  h_mro : list string;
  h_traits : list (trait_decl V);
  h_values : gmap string V;
  h_observed : list string
}.
Arguments hobj : clear implicits.
Arguments mk_hobj {V}.

(** The errors: the [TraitError] of a persistent trait not tagged
    [config]; the [TraitError] of an empty [user_name] or [user_email]; the
    [AttributeError] raised instead of it when the owner has no [name]
    attribute for the message. *)
Inductive trait_exc :=
  | TUnconfigPtrait (name : string)
  | TEmptyUser (cls name : string)
  | TAttributeError (cls attr : string).

(** The traits [_valid_user] validates, on the classes deriving [Spec]. *)
Definition spec_validated : list string := ["user_name"; "user_email"].

Section Traits.
Context {V : Type} `{EqDecision V}.
(** [bool(value)], and whether objects of a class have a [name]
    attribute. *)
Context (truthy : V -> bool) (owner_has_name : string -> bool).

Definition is_ptrait (t : trait_decl V) : bool := td_config t && td_persist t.

(** [check_unconfig_ptraits()]: the first persistent trait whose [config]
    tag is not [True]. *)
Fixpoint check_unconfig_ptraits (ts : list (trait_decl V)) : option string :=
  match ts with
  | [] => None
  | t :: ts' => if td_persist t && negb (td_config t) then Some (td_name t) else check_unconfig_ptraits ts'
  end.

(** [trait_names(config=True, persist=True)]. *)
Definition ptrait_names (ts : list (trait_decl V)) : list string := map td_name (List.filter is_ptrait ts).

(** [observe_ptraits()]: [observe] adds the handler once per name. *)
Definition observe_ptraits (o : hobj V) : trait_exc + hobj V :=
  match check_unconfig_ptraits (h_traits o) with
  | Some n => inl (TUnconfigPtrait n)
  | None =>
      let pt := ptrait_names (h_traits o) in
      inr (if bool_decide (pt = []) then o
           else mk_hobj (h_cls o) (h_mro o) (h_traits o) (h_values o) (iset (h_observed o ++ pt)))
  end.

(** The value a trait has: set, or its default. *)
Definition trait_value (o : hobj V) (name : string) : option V :=
  match h_values o !! name with
  | Some v => Some v
  | None => td_default <$> List.find (fun t => bool_decide (td_name t = name)) (h_traits o)
  end.

(** The exception of [_valid_user]'s [raise]: its message reads
    [proposal['owner'].name] first. *)
Definition valid_user_exc (cls name : string) : trait_exc :=
  if owner_has_name cls then TEmptyUser cls name else TAttributeError cls "name".

(** [setattr(o, name, value)]: [_valid_user] first, then the new value,
    then, when it differs from the old one, the observers. *)
Definition set_trait (o : hobj V) (name : string) (v : V) (w : world V) : trait_exc + (hobj V * world V) :=
  if bool_decide ("Spec" ∈ h_mro o) && bool_decide (name ∈ spec_validated) && negb (truthy v)
  then inl (valid_user_exc (h_cls o) name) else
  let o' := mk_hobj (h_cls o) (h_mro o) (h_traits o) (<[name := v]> (h_values o)) (h_observed o) in
  if bool_decide (trait_value o name = Some v) then inr (o', w)
  else if bool_decide (name ∈ h_observed o) then inr (o', ptrait_observed (h_mro o) (h_cls o) name v w)
  else inr (o', w).

Fixpoint set_traits (o : hobj V) (sets : list (string * V)) (w : world V) : trait_exc + (hobj V * world V) :=
  match sets with
  | [] => inr (o, w)
  | (n, v) :: sets' =>
      match set_trait o n v w with
      | inl e => inl e
      | inr (o1, w1) => set_traits o1 sets' w1
      end
  end.

(** [Spec.__init__( **kwargs)]: the keyword values, set before any
    observer exists, then [observe_ptraits()]. *)
Definition spec_init (cls : string) (mro : list string) (ts : list (trait_decl V)) (kwargs : list (string * V))
    (w : world V) : trait_exc + hobj V :=
  match set_traits (mk_hobj cls mro ts ∅ []) kwargs w with
  | inl e => inl e
  | inr (o, _) => observe_ptraits o
  end.

(** The reference: the changes of persistent config traits to a new value,
    as [_ptrait_observed] receives them, computed from the values alone. *)
Fixpoint ptrait_changes (o : hobj V) (sets : list (string * V)) : list (pchange V) :=
  match sets with
  | [] => []
  | (n, v) :: sets' =>
      let o' := mk_hobj (h_cls o) (h_mro o) (h_traits o) (<[n := v]> (h_values o)) (h_observed o) in
      (if bool_decide (n ∈ ptrait_names (h_traits o)) && negb (bool_decide (trait_value o n = Some v))
       then [mk_pchange (h_mro o) (h_cls o) n v] else []) ++ ptrait_changes o' sets'
  end.
End Traits.

Section TraitsFacts.
Context {V : Type} `{EqDecision V} (truthy : V -> bool) (owner_has_name : string -> bool).
Notation set_trait := (set_trait truthy owner_has_name).
Notation set_traits := (set_traits truthy owner_has_name).
Notation spec_init := (spec_init truthy owner_has_name).

Lemma set_trait_spec (o o' : hobj V) n v w w' :
  set_trait o n v w = inr (o', w') ->
  o' = mk_hobj (h_cls o) (h_mro o) (h_traits o) (<[n := v]> (h_values o)) (h_observed o) /\
  w' = if bool_decide (trait_value o n = Some v) then w
       else if bool_decide (n ∈ h_observed o) then ptrait_observed (h_mro o) (h_cls o) n v w else w.
Proof.
  unfold set_trait. destruct (_ && _ && _); [done|].
  repeat case_bool_decide; by intros [= <- <-].
Qed.

Lemma set_traits_unobserved (o o' : hobj V) sets w w' :
  h_observed o = [] -> set_traits o sets w = inr (o', w') ->
  w' = w /\ h_cls o' = h_cls o /\ h_mro o' = h_mro o /\ h_traits o' = h_traits o /\ h_observed o' = [].
Proof.
  revert o w. induction sets as [|[n v] sets IH]; intros o w Hob; simpl; [by intros [= <- <-]|].
  destruct (set_trait o n v w) as [e|[o1 w1]] eqn:Hs; [done|]. intros H.
  apply set_trait_spec in Hs as [-> ->]. apply IH in H as (-> & -> & -> & -> & ->); [|done].
  rewrite Hob. simpl. by case_bool_decide.
Qed.

Lemma check_unconfig_ptraits_None (ts : list (trait_decl V)) :
  check_unconfig_ptraits ts = None <-> Forall (fun t => td_persist t = true -> td_config t = true) ts.
Proof.
  induction ts as [|t ts IH]; simpl; [split; [constructor|done]|].
  rewrite Forall_cons, <-IH. destruct (td_persist t), (td_config t); simpl; naive_solver.
Qed.

Lemma check_unconfig_ptraits_Some (ts : list (trait_decl V)) n :
  check_unconfig_ptraits ts = Some n ->
  exists t, t ∈ ts /\ td_name t = n /\ td_persist t = true /\ td_config t = false.
Proof.
  induction ts as [|t ts IH]; simpl; [done|].
  destruct (td_persist t) eqn:Hp, (td_config t) eqn:Hc; simpl; intros H;
    try (injection H as <-; exists t; by rewrite elem_of_cons; auto);
    destruct (IH H) as (t' & ? & ? & ? & ?); exists t'; rewrite elem_of_cons; auto.
Qed.

Lemma set_trait_inl (o : hobj V) n v w e :
  set_trait o n v w = inl e ->
  e = valid_user_exc owner_has_name (h_cls o) n /\ "Spec" ∈ h_mro o /\ n ∈ spec_validated /\ truthy v = false.
Proof.
  unfold set_trait. destruct (_ && _ && _) eqn:G.
  - intros [= <-]. apply andb_true_iff in G as [G H3]. apply andb_true_iff in G as [H1 H2].
    apply bool_decide_eq_true in H1, H2. by destruct (truthy v).
  - by repeat case_bool_decide.
Qed.

Lemma set_traits_error (o : hobj V) sets w e :
  set_traits o sets w = inl e ->
  exists n v, e = valid_user_exc owner_has_name (h_cls o) n /\ "Spec" ∈ h_mro o /\ n ∈ spec_validated /\ (n, v) ∈ sets /\ truthy v = false.
Proof.
  revert o w. induction sets as [|[n v] sets IH]; intros o w; simpl; [done|].
  destruct (set_trait o n v w) as [e'|[o1 w1]] eqn:Hs.
  - intros [= <-]. apply set_trait_inl in Hs as (-> & ? & ? & ?). exists n, v. repeat split; try done. set_solver.
  - intros H. apply set_trait_spec in Hs as [-> _]. destruct (IH _ _ H) as (n' & v' & -> & ? & ? & ? & ?).
    exists n', v'. rewrite elem_of_cons. auto 10.
Qed.

Definition observes_ptraits (o : hobj V) : Prop := forall n, n ∈ h_observed o <-> n ∈ ptrait_names (h_traits o).

Lemma spec_init_inr cls mro (ts : list (trait_decl V)) kwargs w o :
  spec_init cls mro ts kwargs w = inr o ->
  h_cls o = cls /\ h_mro o = mro /\ h_traits o = ts /\ observes_ptraits o.
Proof.
  unfold spec_init. destruct (set_traits _ kwargs w) as [e|[o1 w1]] eqn:Hs; [done|].
  apply set_traits_unobserved in Hs as (_ & Hc & Hm & Htr & Hob); [|done]. simpl in Hc, Hm, Htr.
  unfold observe_ptraits. destruct (check_unconfig_ptraits (h_traits o1)); [done|].
  intros [= <-]. case_bool_decide as Hpt.
  - do 3 (split; [done|]). intros n. by rewrite Hob, Hpt.
  - simpl. do 3 (split; [done|]). intros n. simpl. by rewrite (proj2 (iset_spec _)), Hob.
Qed.

Lemma set_traits_observed (o o' : hobj V) sets w w' :
  observes_ptraits o -> set_traits o sets w = inr (o', w') ->
  w' = observe_all (ptrait_changes o sets) w.
Proof.
  revert o w. induction sets as [|[n v] sets IH]; intros o w Hob; simpl; [by intros [= <- <-]|].
  destruct (set_trait o n v w) as [e|[o1 w1]] eqn:Hs; [done|]. intros H.
  apply set_trait_spec in Hs as [-> ->]. apply IH in H as ->; [|done].
  unfold observe_all. rewrite fold_left_app. f_equal.
  rewrite (bool_decide_ext _ _ (Hob n)). by repeat case_bool_decide.
Qed.
End TraitsFacts.

Section TraitsTheorems.
Context {V : Type} `{EqDecision V} (truthy : V -> bool) (owner_has_name : string -> bool).
Notation set_trait := (set_trait truthy owner_has_name).
Notation set_traits := (set_traits truthy owner_has_name).
Notation spec_init := (spec_init truthy owner_has_name).

(** C15: constructing a [Spec] ends in one of four ways: a [TraitError]
    naming a persistent trait that is not tagged [config]; for an empty
    [user_name] or [user_email] keyword, the [TraitError] of [_valid_user]
    when the class has a [name] attribute and an [AttributeError] on
    [name] when it has not; or an object whose traits are all correctly
    tagged and on which [_ptrait_observed] observes exactly the persistent
    config traits. *)
Theorem spec_init_outcome cls mro (ts : list (trait_decl V)) kwargs w :
  match spec_init cls mro ts kwargs w with
  | inl (TUnconfigPtrait n) => exists t, t ∈ ts /\ td_name t = n /\ td_persist t = true /\ td_config t = false
  | inl (TEmptyUser c n) => owner_has_name cls = true /\ c = cls /\ ("Spec" ∈ mro /\ n ∈ spec_validated /\ exists v, (n, v) ∈ kwargs /\ truthy v = false)
  | inl (TAttributeError c a) => owner_has_name cls = false /\ c = cls /\ a = "name" /\ (exists n, ("Spec" ∈ mro /\ n ∈ spec_validated /\ exists v, (n, v) ∈ kwargs /\ truthy v = false))
  | inr o => Forall (fun t => td_persist t = true -> td_config t = true) ts /\
             forall n, n ∈ h_observed o <-> n ∈ ptrait_names ts
  end.
Proof.
  destruct (spec_init cls mro ts kwargs w) as [e|o] eqn:Hi.
  - unfold spec_init in Hi. destruct (set_traits _ kwargs w) as [e'|[o w1]] eqn:Hs.
    + injection Hi as <-. apply set_traits_error in Hs as (n & v & -> & ? & ? & ? & ?).
      unfold valid_user_exc. simpl. destruct (owner_has_name cls); eauto 10.
    + apply set_traits_unobserved in Hs as (_ & _ & _ & Htr & _); [|done]. simpl in Htr.
      unfold observe_ptraits in Hi. rewrite Htr in Hi.
      destruct (check_unconfig_ptraits ts) eqn:Hc; [injection Hi as <-|done]. by apply check_unconfig_ptraits_Some.
  - pose proof Hi as Hi'. apply spec_init_inr in Hi as (_ & _ & Htr0 & Hob).
    split; [|unfold observes_ptraits in Hob; by rewrite Htr0 in Hob].
    apply check_unconfig_ptraits_None. unfold spec_init in Hi'.
    destruct (set_traits _ kwargs w) as [e'|[o1 w1]] eqn:Hs; [done|].
    apply set_traits_unobserved in Hs as (_ & _ & _ & Htr & _); [|done]. simpl in Htr.
    unfold observe_ptraits in Hi'. rewrite Htr in Hi'. by destruct (check_unconfig_ptraits ts).
Qed.

End TraitsTheorems.

(** ** A [Project] spec with one persistent trait [repo] *)

Definition demo_truthy (n : nat) : bool := bool_decide (n <> 0).
(** No class deriving [Spec] in the sources ([Spec], [Report]) has a
    [name] attribute. *)
Definition demo_has_name (cls : string) : bool := false.
Definition demo_mroP : list string := ["Project"; "Spec"; PeristentMixin].
Definition demo_traits : list (trait_decl nat) :=
  [mk_trait "repo" true true 0; mk_trait "user_name" true false 1; mk_trait "verbose" true false 0].
(** A persistent trait not tagged [config] makes the construction fail. *)
Example demo_unconfig_ptrait :
  spec_init demo_truthy demo_has_name "Project" demo_mroP [mk_trait "repo" false true 0] [] world0 = inl (TUnconfigPtrait "repo").
Proof. reflexivity. Qed.

(** An empty [user_name] given to [Report] raises [AttributeError], not the
    [TraitError] that [_valid_user] means to raise. *)
Example report_empty_user_attribute_error :
  spec_init demo_truthy demo_has_name "Report" ["Report"; "Spec"; PeristentMixin]
    [mk_trait "user_name" true false 1] [("user_name", 0)] world0 = inl (TAttributeError "Report" "name").
Proof. reflexivity. Qed.
